(* ===== verification/_CoqProject ===== *)
-Q . S2P
Prelude.v
GoStrings.v
GoTime.v
RateLimit.v
HostStatus.v
Sha.v
Aes.v
Security.v
Migrate.v
Storage.v
Schema.v
Files.v
Snapshots.v
AuthStore.v
AuthSteps.v
AlertStore.v
AlertSteps.v
JobStore.v
ProjectStore.v
BackupStore.v
StoreSteps.v
Retention.v
Cluster.v
World.v
Wp.v
Reconcile.v
Tools.v
Postgres.v
Netip.v
IP.v
Hba.v
Inspect.v
Worker.v
Provision.v
Webhook.v
Alerts.v
AlertEngine.v
Http.v
HttpWp.v
HttpAuth.v
SignIn.v
HttpProjects.v
HttpBackups.v
HttpAlerts.v
HttpRoutes.v
HttpSafety.v
Startup.v
Loops.v
Update.v
