(* ===== verification/Prelude.v ===== *)
(** * Pgfy: a verification development

    Pgfy manages PostgreSQL databases on one server: a Go program
    ([src/cmd/pgfy], [src/internal]) with a dashboard, a queue of backups,
    restores and deletions, and a bucket of backups.  This library models the
    program's own logic and proves what its operators rely on.

    ** The program and its parts

    - Management storage ([internal/store]) is an SQLite database: projects,
      jobs, the backup schedule and its policy, a cache of the bucket, the
      administrator with sessions and one-time tokens, alerts, audit rows.
      Every operation is one transaction or statement.
    - The HTTP API ([internal/httpapi]) checks each request (host, origin,
      session, CSRF, rate limits, maintenance) and calls the store, the
      provisioner, the worker or the alert engine.
    - The provisioner ([internal/provision]) turns project rows into roles and
      databases through the management connection ([internal/postgres]) and
      writes the access rules ([internal/hba]).
    - The worker ([internal/jobs]) takes jobs from the queue, dumps, uploads,
      restores and deletes, reconciles the cache with the bucket
      ([internal/storage]) and removes expired backups.
    - The alert engine ([internal/alerts]) watches all of this and tells a
      webhook; [internal/hoststatus] reads what the host reports.
    - [internal/security] seals secrets and checks passwords and codes;
      [internal/config] and [cmd/pgfy] put the program together; commands for
      the host take snapshots, restore them and set the maintenance flag that
      holds everything still during an update.

    They interact through the database (a request writes a row, a loop picks
    it up), through kicks that wake the loops, and through Go interfaces,
    which are type classes here: [ObjectStore], [Server], [HbaPostgres],
    [Provisioner], [PgQueries], with the laws a client's theorems use and the
    instances that discharge them.

    ** Files

    Foundations.  [Prelude]: results, record update, tables as lists of rows
    with the SQL statements on them, orders, tactics, hint databases.
    [GoStrings], [GoTime], [Netip], [IP]: the standard library on strings,
    paths, time and addresses.  [Sha], [Aes]: SHA-1, SHA-256, HMAC and AES-GCM
    on bytes, checked on published vectors.  [Files]: package os on a file
    system whose directories and bytes reach the disk on their own time.

    Storage.  [Schema] has the tables and transactions; [JobStore]
    ([store/jobs.go]), [ProjectStore] ([projects.go], [deletion.go],
    [access.go]), [BackupStore] ([backups.go]), [AuthStore] ([auth.go],
    [store.go]), [AlertStore] ([alerts.go]) one definition per operation;
    [Migrate] the migrations ([store.go]); [Snapshots] the snapshots, restores
    and daily copies ([maintenance.go]).  [StoreSteps], [AuthSteps],
    [AlertSteps] are arbitrary sequences of these operations.

    The bucket and PostgreSQL.  [Storage] is [internal/storage]: layout,
    manifests, settings.  [Cluster] is what PostgreSQL holds, with the
    documented effect of each statement; [World] the state the worker acts on
    (database, bucket, cluster, clock, schedule of failures) and the S3 client;
    [Wp] the rules to reason about it.  [Postgres] and [Inspect] are
    [internal/postgres/management.go]; [Hba] is [internal/hba].

    Loops.  [Retention] and [Reconcile] are [jobs/retention.go]; [Tools] and
    [Worker] are [jobs/jobs.go] and [jobs/delete.go]; [Provision] is
    [internal/provision]; [Webhook], [Alerts], [AlertEngine] are
    [internal/alerts]; [HostStatus] is [internal/hoststatus]; [Loops] the
    channel and [select] the three loops share; [Update] all of them together
    while the maintenance flag is set.

    The API.  [RateLimit], [Http], [HttpAuth], [HttpProjects], [HttpBackups],
    [HttpAlerts], [HttpRoutes] are [internal/httpapi], handler by handler, and
    [HttpWp] the rules to reason about handlers; [SignIn] and [HttpSafety] hold
    theorems about them.  [Security] is [internal/security].  [Startup] is
    [cmd/pgfy/main.go], [internal/config], [postgres/health.go] and
    [store.Open].

    ** How code is modelled

    Definitions are executable and keep the names of the source.  A fallible
    call is a [res]; a handler, a pass of a loop or a command is a computation
    in a small monad of its own ([M], [H], [E], [F], [R]), whose binds follow
    the statements and early returns of the Go function.  A Go map is a [gmap]
    or a list where order shows; integers are [Z], with the width written out
    where a value can leave it; floating point is IEEE double precision from
    the Standard Library's executable specification.

    Failures.  Every call to the database, the bucket, PostgreSQL or the file
    system consults a schedule: it works, fails without effect, or fails after
    its effect ([World.outcome]; in [Files], and for the access file in [Hba],
    with the bytes a torn write left).
    Theorems quantify over all schedules, so they also cover a process that
    stops at any point: its remaining calls are the ones that fail.  In [Files]
    they cover a loss of power too: bytes that were not synced may be anything,
    directory changes since the last sync may be missing, the latest first, as
    on a journalling file system.  A call through a nil pointer is a panic that
    ends the process ([Worker.panic]).

    Time.  [World.now_] shows the readings of a clock one after the other, the
    last one for ever; [readings] are those still to come.  What a theorem says
    about expiry it says of one of them: a session, a code, a backup or a
    retention cutoff is judged at a time the clock showed during that run.
    [World.later] relates a state to one after it (fewer readings, less of the
    schedule), [timely] computations go that way, and [Wp.Ambient] carries the
    readings and the remaining failures through the rules of [Wp] and [HttpWp].

    Code outside [src/] is a parameter with named laws, each shown to hold of a
    concrete instance used in the witnesses: S3, PostgreSQL statements and
    system views, SQLite's treatment of its files and scripts, JSON and request
    decoders, Argon2, [url.Parse], DNS, [mail.ParseAddress],
    [mime.ParseMediaType], Unicode tables beyond Latin-1, certificates, the
    HTTP transport, connection pools, the environment.

    Fuel.  [Tools.readBoundedLine] and [read_lines] are bounded by the bytes
    left; [Worker.drain] by the number of queued jobs, and [drain_terminates]
    shows it enough; [Inspect.confirm] by the polls its deadline allows;
    [Webhook.allowed_] by the depth of address embedding, shown enough by
    [allowed_reference]; [GoStrings.trim_left_any], [pad] and
    [Files.MkdirAll] by the length of the text.  No theorem is about a run that
    gives up for lack of fuel.

    ** What is proved

    - Requests: every endpoint but the public ones needs a live session, its
      CSRF token and the right origin, and nothing changes during an update
      ([HttpRoutes.api_is_guarded]); in HTTPS mode a session needs a one-time
      code ([SignIn.https_session_needs_a_code]) and the honest path reaches
      one ([password_and_code_sign_in]); deletions are confirmed and buckets
      protected ([HttpSafety]); attempts are bounded ([RateLimit]).
    - Sign-in state under any sequence of operations: [AuthSteps].  Secrets:
      [Security].
    - The queue and the projects under any sequence of operations: one heavy
      job at a time, tombstones are final, no orphan rows ([StoreSteps]).
    - Backups: what is published is complete, success and restores are earned
      ([Worker]); the cache of a folder says what a listing and the manifests
      say; retention removes only what it can justify, keeps the newest
      and strands no manifest ([Reconcile]), and selects what a declarative
      definition says ([Retention]); a published backup is discovered again
      ([Storage]).
    - Deletion and provisioning touch the project's own role and database only
      and never lose a password ([Postgres], [Provision]); access rules are
      applied or put back and contain exactly the allowed sources ([Hba]); the
      operations of the management connection keep the contract [Hba] assumes
      ([Inspect.management_hba_laws]).
    - Alerts: the engine refines an abstract protocol in which a receiver is
      neither flooded nor told of endings without beginnings
      ([AlertEngine.engine_keeps_protocol]); the engine start-up wires keeps
      that theorem's contract ([Loops.started_engine_laws]); the webhook never
      reaches an internal address ([Webhook.allowed_reference]).
    - The database file: migrations are all or nothing
      ([Migrate.migrate_outcomes]), so is restoring a snapshot, which itself
      is only read, and daily copies are sound and kept and no other file is
      removed, also when power is lost ([Snapshots]); losing the file does not
      reopen the setup ([Startup.setup_cannot_be_reopened]),
      and commands act on this installation's own storage
      ([Startup.acts_on_own_storage]).
    - Loops: a kick is never lost ([Loops.kick_is_served]); the queue drains
      ([Worker.drain_terminates]); during an update all of them together leave
      everything but the cached view of the bucket as it is
      ([Update.update_holds_everything_still]).

    ** Not modelled

    Logging, request timeouts (they appear as failing calls), memory and
    goroutine scheduling inside a pass (mutexes serialise it), TLS and HTTP
    parsing, percent-encoded paths, file permissions beyond the key file's,
    symbolic links, signals.  Two passes of different loops interleave only at
    the granularity of store operations ([StoreSteps]), kicks ([Loops]) and
    whole wake-ups ([Update], which starts after the loops have: what [Run] does
    once at the start of the program is not held back by the flag); a
    daily copy is verified run by run, from a state whose directory changes are
    synced or were made under names of their own.  The embedded web assets, the
    installer, [pgfyctl], the Caddy and Compose files and the dashboard's
    TypeScript are outside the Go program.  Helpers that only copy columns of a
    row into a struct ([scanProject], [scanJob], …) are subsumed by the rows of
    [Schema]. *)

From stdpp Require Export base list strings gmap sorting.
From Stdlib Require Export ZArith Lia Bool Permutation Ascii.

(** ** Scope and results

    A fallible Go call returns a value and an [error]; the model returns
    [Ok] or [Err]. *)

Declare Scope pgfy_scope.
Delimit Scope pgfy_scope with pgfy.
#[global] Open Scope Z_scope.

Inductive res (E A : Type) : Type :=
| Ok (a : A)
| Err (e : E).
Arguments Ok {E A} a.
Arguments Err {E A} e.

Definition rbind {E A B} (m : res E A) (k : A → res E B) : res E B :=
  match m with Ok a => k a | Err e => Err e end.

Definition is_ok {E A} (m : res E A) : bool :=
  match m with Ok _ => true | Err _ => false end.

Notation "'let!' x ':=' m 'in' k" := (rbind m (λ x, k))
  (at level 10, x binder, m at level 100, k at level 200) : pgfy_scope.
Notation "'guard!' c 'else' e 'in' k" := (if (c : bool) then k else Err e)
  (at level 10, c at level 100, e at level 100, k at level 200) : pgfy_scope.
#[global] Open Scope pgfy_scope.

Lemma guard_ok {E A} (c : bool) (e : E) (k : res E A) a : (guard! c else e in k) = Ok a ↔ c = true ∧ k = Ok a.
Proof. destruct c; split; [auto | tauto | discriminate | intros [? ?]; discriminate]. Qed.

(** ** Functional record update

    [Eta R] spells a record out field by field; [upd p] then replaces the
    field [p].  [r <| p := v |>] is the Go assignment [r.p = v]. *)

Class Eta (R : Type) := eta : R → R.
Class Upd {R T : Type} (p : R → T) := upd : (T → T) → R → R.
Arguments upd {R T} p {_} _ _.

Ltac solve_upd p :=
  lazymatch type of p with
  | ?R → ?T =>
      let g := fresh "g" in
      let r := fresh "r" in
      unfold Upd; intros g r;
      let i := constr:(_ : Eta R) in
      let i := eval hnf in i in
      let e := eval cbv beta in (i r) in
      let e := eval pattern (p r) in e in
      lazymatch e with ?f _ => let t := eval cbv beta in (f (g (p r))) in exact t end
  end.

#[global] Hint Extern 0 (Upd ?p) => solve_upd p : typeclass_instances.

Notation "r '<|' p ':=' v '|>'" := (upd p (λ _, v) r)
  (at level 1, left associativity, p at level 9) : pgfy_scope.

(** ** SQL tables

    A table is the list of its rows in rowid order: [INSERT] appends,
    [UPDATE … WHERE] maps, [DELETE … WHERE] filters. *)

Section table.
Context {Row : Type}.
Implicit Types (p : Row → bool) (f : Row → Row) (t : list Row).

Definition sql_select p t : list Row := List.filter p t.
Definition sql_count p t : Z := Z.of_nat (length (sql_select p t)).
Definition sql_exists p t : bool := existsb p t.
Definition sql_find p t : option Row := List.find p t.
Definition sql_update p f t : list Row := map (λ r, if p r then f r else r) t.
Definition sql_delete p t : list Row := List.filter (λ r, negb (p r)) t.

(** [INSERT … ON CONFLICT DO UPDATE]: [p] selects the conflicting row. *)
Definition sql_upsert p (row : Row) f t : list Row :=
  if sql_exists p t then sql_update p f t else t ++ [row].

(** [INSERT OR IGNORE]. *)
Definition sql_insert_or_ignore p (row : Row) t : list Row :=
  if sql_exists p t then t else t ++ [row].

(** [ORDER BY], for a total preorder [leb]. *)
Definition sql_order (leb : Row → Row → bool) t : list Row :=
  merge_sort (λ a b, Is_true (leb a b)) t.
End table.

(** ** Orders given by boolean comparisons

    [ORDER BY] clauses and [sort.Slice] comparators are lexicographic
    combinations of [Z.leb], [String.leb] and their reversals. *)

Class TotalLeb {A} (leb : A → A → bool) : Prop := {
  leb_total a b : leb a b = true ∨ leb b a = true;
  leb_trans a b c : leb a b = true → leb b c = true → leb a c = true;
  leb_antisym a b : leb a b = true → leb b a = true → a = b;
}.

Definition lex_leb {A B} (la : A → A → bool) (lb : B → B → bool) (x y : A * B) : bool :=
  la x.1 y.1 && (negb (la y.1 x.1) || lb x.2 y.2).
Definition rev_leb {A} (la : A → A → bool) (x y : A) : bool := la y x.
#[global] Typeclasses Opaque lex_leb rev_leb.

#[global] Instance Z_leb_total : TotalLeb Z.leb.
Proof. split; intros *; lia. Qed.

#[global] Instance String_leb_total : TotalLeb String.leb.
Proof.
  split.
  - apply String.leb_total.
  - intros a b c Hab Hbc. apply Is_true_true. change (String.le a c).
    etrans; [apply Is_true_true, Hab | apply Is_true_true, Hbc].
  - apply String.leb_antisym.
Qed.

#[global] Instance rev_leb_total {A} (la : A → A → bool) `{!TotalLeb la} : TotalLeb (rev_leb la).
Proof.
  unfold rev_leb. split; intros.
  - destruct (leb_total a b); auto.
  - eauto using leb_trans.
  - symmetry; eauto using leb_antisym.
Qed.

#[global] Instance lex_leb_total {A B} (la : A → A → bool) (lb : B → B → bool)
  `{!TotalLeb la, !TotalLeb lb} : TotalLeb (lex_leb la lb).
Proof.
  unfold lex_leb. split.
  - intros [a b] [c d]; simpl.
    destruct (la a c) eqn:E1, (la c a) eqn:E2; simpl; auto.
    + apply leb_total.
    + destruct (leb_total a c); congruence.
  - intros [a b] [c d] [e f]; simpl. rewrite !andb_true_iff, !orb_true_iff, !negb_true_iff.
    intros [H1 H2] [H3 H4]. split; [eauto using leb_trans|].
    destruct (la e a) eqn:Hea; [right | left; auto].
    assert (la c a = true) by eauto using leb_trans.
    assert (la e c = true) by eauto using leb_trans.
    destruct H2 as [|H2]; [congruence|]. destruct H4 as [|H4]; [congruence|].
    eauto using leb_trans.
  - intros [a b] [c d]; simpl. rewrite !andb_true_iff, !orb_true_iff, !negb_true_iff.
    intros [H1 H2] [H3 H4]. assert (a = c) as -> by eauto using leb_antisym.
    destruct H2 as [|H2]; [congruence|]. destruct H4 as [|H4]; [congruence|].
    f_equal. eauto using leb_antisym.
Qed.

(** Rows compared through a key. *)
Definition key_leb {A K} (key : A → K) (leb : K → K → bool) (x y : A) : bool := leb (key x) (key y).

Definition key_R {A K} (key : A → K) (leb : K → K → bool) : A → A → Prop :=
  λ a b, Is_true (key_leb key leb a b).

Section sql_order.
Context {A K : Type} (key : A → K) (leb : K → K → bool) `{!TotalLeb leb}.

#[local] Instance key_R_total : Total (key_R key leb).
Proof. intros a b. unfold key_R, key_leb. destruct (leb_total (leb:=leb) (key a) (key b)) as [->| ->]; auto. Qed.
#[local] Instance key_R_trans : Transitive (key_R key leb).
Proof.
  intros a b c. unfold key_R, key_leb. rewrite !Is_true_true. apply leb_trans.
Qed.

Lemma sql_order_perm (t : list A) : Permutation (sql_order (key_leb key leb) t) t.
Proof. apply merge_sort_Permutation. Qed.

Lemma in_sql_order (t : list A) x : In x (sql_order (key_leb key leb) t) ↔ In x t.
Proof.
  split; apply Permutation_in; [|symmetry]; apply sql_order_perm.
Qed.

Lemma sql_order_sorted (t : list A) : StronglySorted (key_R key leb) (sql_order (key_leb key leb) t).
Proof. apply (StronglySorted_merge_sort (key_R key leb)). Qed.

(** The head of an ordered table is a least row: what [LIMIT 1] returns. *)
Lemma sql_order_head (t : list A) x l :
  sql_order (key_leb key leb) t = x :: l →
  In x t ∧ ∀ y, In y t → leb (key x) (key y) = true.
Proof.
  intros E. pose proof (sql_order_perm t) as HP. pose proof (sql_order_sorted t) as HS.
  rewrite E in HP, HS. split.
  - eapply Permutation_in; [exact HP | left; auto].
  - intros y Hy. apply Permutation_sym in HP. eapply Permutation_in in Hy; [|exact HP].
    destruct Hy as [->|Hy].
    + destruct (leb_total (leb:=leb) (key y) (key y)); auto.
    + apply StronglySorted_inv in HS as [_ HF]. rewrite List.Forall_forall in HF.
      apply Is_true_true. exact (HF y Hy).
Qed.

Lemma sql_order_nil (t : list A) : sql_order (key_leb key leb) t = [] ↔ t = [].
Proof.
  split; intros E.
  - pose proof (sql_order_perm t) as HP. rewrite E in HP. by apply Permutation_nil in HP.
  - subst. reflexivity.
Qed.

(** Ordering by a key that separates the rows forgets the input order. *)
Lemma sql_order_unique (t t' : list A) :
  NoDup (map key t) → Permutation t t' →
  sql_order (key_leb key leb) t = sql_order (key_leb key leb) t'.
Proof.
  intros HN HP.
  eapply (StronglySorted_unique_strong (key_R key leb)); [|apply sql_order_sorted|apply sql_order_sorted|].
  - intros a b Ha Hb. unfold key_R, key_leb. rewrite !Is_true_true. intros H1 H2.
    assert (key a = key b) as Hk by eauto using leb_antisym.
    assert (In a t) as Ia by (eapply Permutation_in; [apply sql_order_perm | by apply list_elem_of_In]).
    assert (In b t) as Ib.
    { eapply Permutation_in; [apply Permutation_sym, HP|].
      eapply Permutation_in; [apply sql_order_perm | by apply list_elem_of_In]. }
    clear -HN Hk Ia Ib. induction t as [|r t IH]; [done|]. inversion HN; subst.
    destruct Ia as [->|Ia], Ib as [->|Ib]; auto.
    + exfalso. apply H1. rewrite Hk. apply list_elem_of_In, in_map, Ib.
    + exfalso. apply H1. rewrite <- Hk. apply list_elem_of_In, in_map, Ia.
  - etrans; [apply sql_order_perm|]. etrans; [exact HP|]. symmetry. apply sql_order_perm.
Qed.
End sql_order.

(** ** Lemmas on tables *)

Section table_lemmas.
Context {Row : Type}.
Implicit Types (p q : Row → bool) (f : Row → Row) (t : list Row) (r : Row).

Lemma in_sql_select p t r : In r (sql_select p t) ↔ In r t ∧ p r = true.
Proof. apply filter_In. Qed.

Lemma in_sql_delete p t r : In r (sql_delete p t) ↔ In r t ∧ p r = false.
Proof. unfold sql_delete. rewrite filter_In, negb_true_iff. reflexivity. Qed.

Lemma in_sql_update p f t r :
  In r (sql_update p f t) ↔ ∃ r0, In r0 t ∧ r = (if p r0 then f r0 else r0).
Proof. unfold sql_update. rewrite in_map_iff. naive_solver. Qed.

Lemma sql_exists_true p t : sql_exists p t = true ↔ ∃ r, In r t ∧ p r = true.
Proof. apply existsb_exists. Qed.

Lemma sql_exists_false p t : sql_exists p t = false ↔ ∀ r, In r t → p r = false.
Proof.
  split.
  - intros E r Hr. destruct (p r) eqn:Ep; [|done].
    assert (sql_exists p t = true) by (apply sql_exists_true; eauto). congruence.
  - intros H. destruct (sql_exists p t) eqn:E; [|done].
    apply sql_exists_true in E as (r & Hr & Ep). rewrite (H r Hr) in Ep. congruence.
Qed.

Lemma sql_find_some p t r : sql_find p t = Some r → In r t ∧ p r = true.
Proof. apply find_some. Qed.

Lemma sql_find_none p t : sql_find p t = None ↔ ∀ r, In r t → p r = false.
Proof.
  split.
  - intros E r. apply (find_none _ _ E).
  - intros H. destruct (sql_find p t) eqn:E; [|done].
    apply sql_find_some in E as [Hr Ep]. rewrite (H _ Hr) in Ep. congruence.
Qed.

Lemma sql_count_nonneg p t : 0 ≤ sql_count p t.
Proof. unfold sql_count. lia. Qed.

Lemma sql_count_zero p t : sql_count p t = 0 ↔ ∀ r, In r t → p r = false.
Proof.
  unfold sql_count. split.
  - intros E r Hr. destruct (p r) eqn:Ep; [|done].
    assert (In r (sql_select p t)) as Hin by (apply in_sql_select; auto).
    destruct (sql_select p t); [done | simpl in E; lia].
  - intros H. destruct (sql_select p t) as [|r l] eqn:E; [done|].
    assert (In r (sql_select p t)) as Hin by (rewrite E; left; auto).
    apply in_sql_select in Hin as [Hin Ep]. rewrite (H r Hin) in Ep. congruence.
Qed.

Lemma sql_count_app p t t' : sql_count p (t ++ t') = sql_count p t + sql_count p t'.
Proof. unfold sql_count, sql_select. rewrite List.filter_app, length_app. lia. Qed.

Lemma sql_count_one p r : sql_count p [r] = if p r then 1 else 0.
Proof. unfold sql_count. simpl. by destruct (p r). Qed.

Lemma sql_count_cons p r t : sql_count p (r :: t) = (if p r then 1 else 0) + sql_count p t.
Proof. unfold sql_count. simpl. destruct (p r); simpl; lia. Qed.

(** Updating rows can only lower a count it does not create matches for. *)
Lemma sql_count_update_le q p f t :
  (∀ r, In r t → p r = true → q (f r) = true → q r = true) →
  sql_count q (sql_update p f t) ≤ sql_count q t.
Proof.
  intros H. induction t as [|r t IH]; [done|]. simpl.
  rewrite !sql_count_cons.
  assert (sql_count q (sql_update p f t) ≤ sql_count q t) as IH' by (apply IH; intros; apply H; simpl; auto).
  destruct (p r) eqn:Ep; [|lia].
  destruct (q (f r)) eqn:Eq; [|destruct (q r); lia].
  rewrite (H r) by (simpl; auto). lia.
Qed.

Lemma sql_count_update_eq q p f t :
  (∀ r, In r t → p r = true → q (f r) = q r) →
  sql_count q (sql_update p f t) = sql_count q t.
Proof.
  intros H. induction t as [|r t IH]; [done|]. simpl.
  rewrite !sql_count_cons, IH by (intros; apply H; simpl; auto).
  destruct (p r) eqn:Ep; [rewrite (H r) by (simpl; auto)|]; lia.
Qed.

Lemma sql_count_mono p q t : (∀ r, In r t → p r = true → q r = true) → sql_count p t ≤ sql_count q t.
Proof.
  intros H. induction t as [|r t IH]; [done|]. rewrite !sql_count_cons.
  assert (sql_count p t ≤ sql_count q t) by (apply IH; intros; apply H; simpl; auto).
  destruct (p r) eqn:Ep; [rewrite (H r) by (simpl; auto)|destruct (q r)]; lia.
Qed.

Lemma sql_count_delete_le q p t : sql_count q (sql_delete p t) ≤ sql_count q t.
Proof.
  induction t as [|r t IH]; [done|]. unfold sql_delete; simpl; fold (sql_delete p t).
  destruct (negb (p r)); rewrite ?sql_count_cons; destruct (q r); lia.
Qed.

Lemma map_sql_update {K} (key : Row → K) p f t :
  (∀ r, In r t → p r = true → key (f r) = key r) → map key (sql_update p f t) = map key t.
Proof.
  intros H. unfold sql_update. rewrite map_map. apply map_ext_in. intros r Hr.
  destruct (p r) eqn:E; auto.
Qed.

Lemma sql_update_id p f t : (∀ r, In r t → p r = false) → sql_update p f t = t.
Proof.
  intros H. unfold sql_update. rewrite <- (map_id t) at 2. apply map_ext_in.
  intros r Hr. by rewrite H.
Qed.

Lemma length_sql_update p f t : length (sql_update p f t) = length t.
Proof. apply length_map. Qed.

Lemma NoDup_map_sql_delete {K} (key : Row → K) p t :
  NoDup (map key t) → NoDup (map key (sql_delete p t)).
Proof.
  induction t as [|r t IH]; [done|]. simpl. intros HN. inversion HN; subst.
  unfold sql_delete; simpl; fold (sql_delete p t).
  destruct (negb (p r)); simpl; [|auto].
  apply NoDup_cons. split; [|auto]. intros Hin. apply H1.
  apply list_elem_of_In, in_map_iff in Hin as (x & Hx & Hin).
  apply in_sql_delete in Hin as [Hin _]. apply list_elem_of_In, in_map_iff. eauto.
Qed.

Lemma NoDup_map_snoc {K} (key : Row → K) t r :
  NoDup (map key t) → (∀ x, In x t → key x ≠ key r) → NoDup (map key (t ++ [r])).
Proof.
  intros HN H. rewrite map_app. apply NoDup_app. split; [done|]. split; [|apply NoDup_singleton].
  intros k Hk. simpl. rewrite list_elem_of_singleton. intros ->.
  apply list_elem_of_In, in_map_iff in Hk as (x & Hx & Hin). by apply (H x).
Qed.

(** With a unique key, the rows holding a given key are at most one. *)
Lemma NoDup_map_inj {K} (key : Row → K) t r r' :
  NoDup (map key t) → In r t → In r' t → key r = key r' → r = r'.
Proof.
  induction t as [|x t IH]; [done|]. simpl. intros HN Hr Hr' E. inversion HN; subst.
  destruct Hr as [->|Hr], Hr' as [->|Hr']; auto.
  - exfalso. apply H1. rewrite E. apply list_elem_of_In, in_map, Hr'.
  - exfalso. apply H1. rewrite <- E. apply list_elem_of_In, in_map, Hr.
Qed.
End table_lemmas.

Lemma sql_find_snoc {Row} (p : Row → bool) t r :
  (∀ x, In x t → p x = false) → p r = true → sql_find p (t ++ [r]) = Some r.
Proof.
  intros Ht Hr. unfold sql_find. induction t as [|x t IH]; simpl; [by rewrite Hr|].
  rewrite Ht by (left; auto). apply IH. intros; apply Ht; right; auto.
Qed.

Lemma in_sql_upsert {Row} (p : Row → bool) row f t r :
  In r (sql_upsert p row f t) →
  r = row ∨ (∃ r0, In r0 t ∧ p r0 = true ∧ r = f r0) ∨ (In r t ∧ p r = false).
Proof.
  unfold sql_upsert. destruct (sql_exists p t) eqn:E.
  - intros (r0 & Hr & ->)%in_sql_update. destruct (p r0) eqn:Ep; [right; left | right; right]; eauto.
  - intros [Hr|[<-|[]]]%in_app_iff; [right; right | by left].
    split; [done|]. by apply (proj1 (sql_exists_false _ _) E).
Qed.

(** The row an upsert leaves under its key. *)
Lemma sql_find_upsert {Row} (p : Row → bool) row f t :
  p row = true → (∀ r, p r = true → p (f r) = true) →
  sql_find p (sql_upsert p row f t) = Some (match sql_find p t with Some r => f r | None => row end).
Proof.
  intros Hrow Hf. unfold sql_upsert. destruct (sql_find p t) as [r|] eqn:E.
  - replace (sql_exists p t) with true.
    + clear Hrow row. induction t as [|x t IH]; simpl in *; [discriminate|].
      destruct (p x) eqn:Ex; [injection E as ->; by rewrite Hf|]. rewrite Ex. auto.
    + symmetry. apply sql_exists_true. apply sql_find_some in E as [? ?]. eauto.
  - replace (sql_exists p t) with false.
    + apply sql_find_snoc; [|done]. by apply sql_find_none.
    + symmetry. apply sql_exists_false. by apply sql_find_none.
Qed.

(** … and what it leaves under any other key. *)
Lemma sql_find_upsert_other {Row} (p q : Row → bool) row f t :
  q row = false → (∀ r, p r = true → q r = false) → (∀ r, p r = true → q (f r) = false) →
  sql_find q (sql_upsert p row f t) = sql_find q t.
Proof.
  intros Hrow Hp Hf. unfold sql_upsert. destruct (sql_exists p t).
  - unfold sql_find, sql_update. induction t as [|x t IH]; simpl; [done|].
    destruct (p x) eqn:Ex; [by rewrite (Hf x Ex), (Hp x Ex)|]. by rewrite IH.
  - unfold sql_find. induction t as [|x t IH]; simpl; [by rewrite Hrow|]. by rewrite IH.
Qed.

Lemma NoDup_map_upsert {Row K} (key : Row → K) (p : Row → bool) row f t :
  (∀ r, p r = true ↔ key r = key row) → (∀ r, p r = true → key (f r) = key r) →
  NoDup (map key t) → NoDup (map key (sql_upsert p row f t)).
Proof.
  intros Hp Hf HN. unfold sql_upsert. destruct (sql_exists p t) eqn:E.
  - rewrite map_sql_update; auto.
  - apply NoDup_map_snoc; [done|]. intros x Hx Hk. apply Hp in Hk.
    rewrite (proj1 (sql_exists_false p t) E x Hx) in Hk. discriminate.
Qed.

(** Under a unique key, finding a row by its key and having it are the same. *)
Lemma sql_find_unique {Row K} (key : Row → K) (p : Row → bool) t r :
  NoDup (map key t) → (∀ x, p x = true ↔ key x = key r) → sql_find p t = Some r ↔ In r t.
Proof.
  intros HN Hp. split.
  - by intros [? _]%sql_find_some.
  - intros Hr. destruct (sql_find p t) as [x|] eqn:E.
    + apply sql_find_some in E as [Hx Ex]. apply Hp in Ex. f_equal. eauto using NoDup_map_inj.
    + assert (p r = false) by (by apply (proj1 (sql_find_none p t) E)).
      assert (p r = true) by (by apply Hp). congruence.
Qed.

Lemma sql_find_update {Row} (p q : Row → bool) f t :
  (∀ r, In r t → p r = true → q (f r) = q r) →
  sql_find q (sql_update p f t) = (λ r, if p r then f r else r) <$> sql_find q t.
Proof.
  intros H. unfold sql_find, sql_update. induction t as [|x t IH]; simpl; [done|].
  rewrite IH by (intros; apply H; simpl; auto).
  destruct (p x) eqn:Ex; [rewrite (H x) by (simpl; auto)|]; destruct (q x); simpl; by rewrite ?Ex.
Qed.

Lemma sql_find_delete {Row} (p q : Row → bool) t :
  (∀ x, q x = true → p x = false) → sql_find q (sql_delete p t) = sql_find q t.
Proof.
  intros H. unfold sql_find, sql_delete. induction t as [|x t IH]; [done|]. simpl.
  destruct (p x) eqn:Ep; simpl.
  - destruct (q x) eqn:Eq; [|done]. rewrite (H x Eq) in Ep. discriminate.
  - destruct (q x); auto.
Qed.

Lemma filter_filter_and {A} (p q : A → bool) l : List.filter p (List.filter q l) = List.filter (λ x, q x && p x) l.
Proof. induction l as [|x l IH]; [done|]. simpl. destruct (q x); simpl; [destruct (p x)|]; by rewrite IH. Qed.

Lemma Forall2_in_l {A B} (P : A → B → Prop) l l' a : Forall2 P l l' → In a l → ∃ b, In b l' ∧ P a b.
Proof. intros H. induction H as [|x y l l' Hxy _ IH]; [done|]. intros [->|Ha]; [exists y; simpl; auto|].
  destruct (IH Ha) as (b & ? & ?). exists b. simpl. auto. Qed.
Lemma Forall2_in_r {A B} (P : A → B → Prop) l l' b : Forall2 P l l' → In b l' → ∃ a, In a l ∧ P a b.
Proof. intros H. induction H as [|x y l l' Hxy _ IH]; [done|]. intros [->|Hb]; [exists x; simpl; auto|].
  destruct (IH Hb) as (a & ? & ?). exists a. simpl. auto. Qed.

(** An upsert that replaces the whole row. *)
Lemma in_sql_replace {Row} (p : Row → bool) row t x : p row = true →
  In x (sql_upsert p row (λ _, row) t) ↔ x = row ∨ (In x t ∧ p x = false).
Proof.
  intros Hp. unfold sql_upsert. destruct (sql_exists p t) eqn:E.
  - rewrite in_sql_update. apply sql_exists_true in E as (r & Hr & Hpr). split.
    + intros (r0 & Hr0 & ->). destruct (p r0) eqn:E0; auto.
    + intros [->|[Hx Hpx]]; [exists r; by rewrite Hpr|exists x; by rewrite Hpx].
  - rewrite in_app_iff. pose proof (proj1 (sql_exists_false _ _) E) as Hn. split.
    + intros [Hx|[<-|[]]]; [right; split; [done|by apply Hn]|by left].
    + intros [->|[Hx _]]; [right; by left|by left].
Qed.

(** ** Tactics *)

(** Split conjunctions of booleans and turn decided equations into equations. *)
Ltac bool_simpl :=
  repeat match goal with
  | H : _ && _ = true |- _ => apply andb_true_iff in H as [? ?]
  | H : _ || _ = false |- _ => apply orb_false_iff in H as [? ?]
  | H : negb _ = true |- _ => apply negb_true_iff in H
  | H : negb _ = false |- _ => apply negb_false_iff in H
  | H : bool_decide _ = true |- _ => apply bool_decide_eq_true in H
  | H : bool_decide _ = false |- _ => apply bool_decide_eq_false in H
  | H : (_ <? _) = true |- _ => apply Z.ltb_lt in H
  | H : (_ <? _) = false |- _ => apply Z.ltb_ge in H
  | H : (_ <=? _) = true |- _ => apply Z.leb_le in H
  | H : (_ <=? _) = false |- _ => apply Z.leb_gt in H
  | H : (_ =? _) = true |- _ => apply Z.eqb_eq in H
  | H : (_ =? _) = false |- _ => apply Z.eqb_neq in H
  end.

(** Case analysis on the outermost scrutinee of a hypothesis. *)
Ltac cases_in H :=
  match type of H with
  | context [match ?x with _ => _ end] => destruct x eqn:?; try discriminate H
  | context [if ?x then _ else _] => destruct x eqn:?; try discriminate H
  end.

Create HintDb pgfy discriminated.
#[export] Hint Resolve sql_count_nonneg NoDup_map_sql_delete NoDup_map_snoc : pgfy.
Create Rewrite HintDb pgfy_rw.
#[export] Hint Rewrite @sql_count_app @sql_count_one : pgfy_rw.
