(* ===== verification/GoStrings.v ===== *)
(** * Go's [strings] and [path] packages, as far as the sources use them

    A Go string is a byte sequence; it is modelled by [string], whose
    characters are the bytes. *)

From S2P Require Import Prelude.

(** ** Slicing *)

Fixpoint sdrop (n : nat) (s : string) : string :=
  match n, s with
  | S n, String _ s => sdrop n s
  | _, _ => s
  end.

Fixpoint stake (n : nat) (s : string) : string :=
  match n, s with
  | S n, String a s => String a (stake n s)
  | _, _ => ""
  end.

(** [len(s)]. *)
Abbreviation slen := String.length.

Definition has_prefix (s p : string) : bool := String.prefix p s.
Definition trim_prefix (s p : string) : string := if has_prefix s p then sdrop (slen p) s else s.
Definition has_suffix (s suf : string) : bool :=
  (slen suf <=? slen s)%nat && bool_decide (sdrop (slen s - slen suf) s = suf).
Definition trim_suffix (s suf : string) : string :=
  if has_suffix s suf then stake (slen s - slen suf) s else s.

(** Does a byte satisfying [P] occur? *)
Fixpoint sexists (P : ascii → bool) (s : string) : bool :=
  match s with "" => false | String a s => P a || sexists P s end.
Fixpoint sforall (P : ascii → bool) (s : string) : bool :=
  match s with "" => true | String a s => P a && sforall P s end.
Definition contains_byte (c : ascii) (s : string) : bool := sexists (λ a, bool_decide (a = c)) s.

(** [strings.Split(s, c)] for a one-byte separator. *)
Fixpoint split_on (c : ascii) (s : string) : list string :=
  match s with
  | "" => [""]
  | String a s =>
      if bool_decide (a = c) then "" :: split_on c s
      else match split_on c s with h :: t => String a h :: t | [] => [String a ""] end
  end.

(** [strings.Join(l, sep)]. *)
Fixpoint join (sep : string) (l : list string) : string :=
  match l with
  | [] => ""
  | [x] => x
  | x :: l => x +:+ sep +:+ join sep l
  end.

(** The parts before and after the last [c], if it occurs ([strings.LastIndex]). *)
Fixpoint split_last (c : ascii) (s : string) : option (string * string) :=
  match s with
  | "" => None
  | String a s =>
      match split_last c s with
      | Some (b, e) => Some (String a b, e)
      | None => if bool_decide (a = c) then Some ("", s) else None
      end
  end.

(** [strings.Contains(s, sub)]. *)
Fixpoint contains (s sub : string) : bool :=
  String.prefix sub s || match s with "" => false | String _ s => contains s sub end.

Fixpoint trim_left_byte (c : ascii) (s : string) : string :=
  match s with
  | "" => ""
  | String a r => if bool_decide (a = c) then trim_left_byte c r else s
  end.
Fixpoint trim_right_byte (c : ascii) (s : string) : string :=
  match s with
  | "" => ""
  | String a r =>
      match trim_right_byte c r with
      | "" => if bool_decide (a = c) then "" else String a ""
      | r' => String a r'
      end
  end.
(** [strings.Trim(s, c)] for a one-byte cutset. *)
Definition trim_byte (c : ascii) (s : string) : string := trim_right_byte c (trim_left_byte c s).

(** ** [path.Join]

    [path.Clean] drops empty and ["."] elements and resolves [".."] against
    the element before it; [path.Join] cleans the non-empty parts. *)
Definition slash : ascii := "/"%char.

Fixpoint clean_segments (rooted : bool) (stack segs : list string) : list string :=
  match segs with
  | [] => rev stack
  | s :: segs =>
      if bool_decide (s = "") || bool_decide (s = ".") then clean_segments rooted stack segs
      else if bool_decide (s = "..") then
        match stack with
        | top :: stack' =>
            if bool_decide (top = "..") then clean_segments rooted (s :: stack) segs
            else clean_segments rooted stack' segs
        | [] => clean_segments rooted (if rooted then [] else [s]) segs
        end
      else clean_segments rooted (s :: stack) segs
  end.

Definition path_clean (s : string) : string :=
  let rooted := has_prefix s "/" in
  let body := join "/" (clean_segments rooted [] (split_on slash s)) in
  if rooted then "/" +:+ body else if bool_decide (body = "") then "." else body.

Definition path_join (parts : list string) : string :=
  let parts := List.filter (λ s, negb (bool_decide (s = ""))) parts in
  match parts with [] => "" | _ => path_clean (join "/" parts) end.

(** ** Decimal text *)

Definition digit (n : Z) : ascii := ascii_of_nat (48 + Z.to_nat (n mod 10)).
Definition is_digit (a : ascii) : bool := (48 <=? nat_of_ascii a)%nat && (nat_of_ascii a <=? 57)%nat.
Definition digit_value (a : ascii) : Z := Z.of_nat (nat_of_ascii a) - 48.
Definition is_lower (a : ascii) : bool := (97 <=? nat_of_ascii a)%nat && (nat_of_ascii a <=? 122)%nat.

(** The last [width] decimal digits of [n], most significant first. *)
Fixpoint digits (width : nat) (n : Z) : string :=
  match width with
  | O => ""
  | S w => digits w (n / 10) +:+ String (digit n) ""
  end.

(** How many decimal digits [n ≥ 0] needs, at least one. *)
Fixpoint decimal_width (fuel : nat) (n : Z) : nat :=
  match fuel with
  | O => 1
  | S f => if n <? 10 then 1 else S (decimal_width f (n / 10))
  end.

(** [fmt.Sprintf("%0*d", width, n)]; the fuel [Z.log2 n] bounds the digits. *)
Definition pad (width : nat) (n : Z) : string :=
  let m := Z.abs n in
  let w := decimal_width (Z.to_nat (Z.log2 m) + 1) m in
  let sign := if n <? 0 then "-" else "" in
  sign +:+ digits (Nat.max (width - slen sign) w) m.
Definition decimal (n : Z) : string := pad 1 n.

(** ** [strings.TrimSpace]

    The runes [unicode.IsSpace] names, as their UTF-8 bytes: the last bytes
    of a string decode to such a rune exactly when they are its encoding. *)
Definition text (l : list nat) : string := String.string_of_list_ascii (map ascii_of_nat l).
Definition unicode_spaces : list string :=
  map text ([[9]; [10]; [11]; [12]; [13]; [32]; [194; 133]; [194; 160]; [225; 154; 128]]
    ++ map (λ n, [226; 128; n]) (seq 128 11)
    ++ [[226; 128; 168]; [226; 128; 169]; [226; 128; 175]; [226; 129; 159]; [227; 128; 128]])%nat.

Definition srev (s : string) : string := String.string_of_list_ascii (rev (String.list_ascii_of_string s)).

(** Each turn drops at least one byte, so a fuel of [slen s] is enough. *)
Fixpoint trim_left_any (fuel : nat) (cut : list string) (s : string) : string :=
  match fuel with
  | O => s
  | S fuel =>
      match List.find (has_prefix s) cut with
      | Some p => trim_left_any fuel cut (sdrop (slen p) s)
      | None => s
      end
  end.
Definition TrimSpace (s : string) : string :=
  let l := trim_left_any (slen s) unicode_spaces s in
  srev (trim_left_any (slen l) (map srev unicode_spaces) (srev l)).
#[global] Arguments TrimSpace : simpl never.

(** [strings.ReplaceAll(s, c, "")] for one byte. *)
Fixpoint remove_byte (c : ascii) (s : string) : string :=
  match s with
  | "" => ""
  | String a s => if bool_decide (a = c) then remove_byte c s else String a (remove_byte c s)
  end.

(** ** Lemmas *)

Lemma app_cons a s t : String a s +:+ t = String a (s +:+ t).
Proof. reflexivity. Qed.
Lemma app_nil_l' s : "" +:+ s = s.
Proof. reflexivity. Qed.
Lemma app_nil_r' s : s +:+ "" = s.
Proof. induction s as [|a s IH]; [done|]. by rewrite app_cons, IH. Qed.
Lemma app_assoc' s t u : (s +:+ t) +:+ u = s +:+ t +:+ u.
Proof. induction s as [|a s IH]; [done|]. by rewrite !app_cons, IH. Qed.
Lemma slen_app s t : slen (s +:+ t) = (slen s + slen t)%nat.
Proof. induction s as [|a s IH]; [done|]. rewrite app_cons. simpl. by rewrite IH. Qed.

Lemma sdrop_app s t : sdrop (slen s) (s +:+ t) = t.
Proof. induction s as [|a s IH]; [by destruct t|]. rewrite app_cons. simpl. done. Qed.
Lemma stake_app s t : stake (slen s) (s +:+ t) = s.
Proof. induction s as [|a s IH]; [by destruct t|]. rewrite app_cons. simpl. by rewrite IH. Qed.
Lemma stake_sdrop n s : stake n s +:+ sdrop n s = s.
Proof.
  revert n. induction s as [|a s IH]; intros [|n]; [done..|]. simpl. by rewrite app_cons, IH.
Qed.

Lemma has_prefix_app p s : has_prefix (p +:+ s) p = true.
Proof.
  unfold has_prefix. induction p as [|a p IH]; [by destruct s|].
  rewrite app_cons. simpl. destruct (ascii_dec a a); [done|congruence].
Qed.
Lemma has_prefix_inv p s : has_prefix s p = true → ∃ r, s = p +:+ r.
Proof.
  unfold has_prefix. revert s. induction p as [|a p IH]; intros s H; [by exists s|].
  destruct s as [|b s]; simpl in H; [done|].
  destruct (ascii_dec a b) as [->|]; [|done].
  destruct (IH _ H) as [r ->]. exists r. by rewrite app_cons.
Qed.
Lemma trim_prefix_app p s : trim_prefix (p +:+ s) p = s.
Proof. unfold trim_prefix. by rewrite has_prefix_app, sdrop_app. Qed.

Lemma has_suffix_app s suf : has_suffix (s +:+ suf) suf = true.
Proof.
  unfold has_suffix. rewrite slen_app, Nat.add_sub, sdrop_app.
  apply andb_true_iff; split; [apply Nat.leb_le; lia | by apply bool_decide_eq_true].
Qed.
Lemma trim_suffix_app s suf : trim_suffix (s +:+ suf) suf = s.
Proof. unfold trim_suffix. by rewrite has_suffix_app, slen_app, Nat.add_sub, stake_app. Qed.

Lemma sexists_app P s t : sexists P (s +:+ t) = sexists P s || sexists P t.
Proof. induction s as [|a s IH]; [done|]. rewrite app_cons. simpl. by rewrite IH, orb_assoc. Qed.
Lemma sforall_app P s t : sforall P (s +:+ t) = sforall P s && sforall P t.
Proof. induction s as [|a s IH]; [done|]. rewrite app_cons. simpl. by rewrite IH, andb_assoc. Qed.
Lemma contains_byte_app c s t : contains_byte c (s +:+ t) = contains_byte c s || contains_byte c t.
Proof. apply sexists_app. Qed.
Lemma sforall_not_contains c P s :
  P c = false → sforall P s = true → contains_byte c s = false.
Proof.
  intros HP. unfold contains_byte. induction s as [|a s IH]; [done|]. simpl.
  intros [Ha Hs]%andb_true_iff. rewrite IH by done. rewrite bool_decide_eq_false_2; [done|].
  intros ->. congruence.
Qed.

Lemma split_on_not_nil c s : split_on c s ≠ [].
Proof. destruct s; simpl; [done|]. case_bool_decide; [done|]. by destruct (split_on c s). Qed.
Lemma split_on_single c s : contains_byte c s = false → split_on c s = [s].
Proof.
  unfold contains_byte. induction s as [|a s IH]; simpl; [done|].
  intros [Ha Hs]%orb_false_iff. rewrite Ha, IH; done.
Qed.
Lemma split_on_app c s t :
  contains_byte c s = false → split_on c (s +:+ String c t) = s :: split_on c t.
Proof.
  unfold contains_byte. induction s as [|a s IH].
  - intros _. change ("" +:+ String c t) with (String c t). simpl. by rewrite bool_decide_eq_true_2.
  - simpl. intros [Ha Hs]%orb_false_iff. rewrite Ha, IH; done.
Qed.

Lemma split_on_app_gen c s t : split_on c (s +:+ String c t) = split_on c s ++ split_on c t.
Proof.
  induction s as [|a s IH].
  - change ("" +:+ String c t) with (String c t). simpl. by rewrite bool_decide_eq_true_2.
  - rewrite app_cons. simpl. rewrite IH. case_bool_decide; [done|].
    destruct (split_on c s) eqn:E; [by apply split_on_not_nil in E|done].
Qed.

Lemma split_on_no_sep c s x : In x (split_on c s) → contains_byte c x = false.
Proof.
  revert x. induction s as [|a s IH]; simpl; intros x.
  - intros [<-|[]]. done.
  - case_bool_decide as Ha.
    + intros [<-|Hx]; [done|auto].
    + destruct (split_on c s) as [|h t] eqn:E; [by apply split_on_not_nil in E|].
      intros [<-|Hx]; [|apply IH; right; auto].
      unfold contains_byte. simpl. rewrite bool_decide_eq_false_2 by done.
      apply IH. left; auto.
Qed.

(** [strings.Split] and [strings.Join] are inverse. *)
Lemma join_cons sep x l : l ≠ [] → join sep (x :: l) = x +:+ sep +:+ join sep l.
Proof. by destruct l. Qed.
Lemma join_split_on c s : join (String c "") (split_on c s) = s.
Proof.
  induction s as [|a s IH]; simpl; [done|]. case_bool_decide as Ha.
  - subst. rewrite join_cons by apply split_on_not_nil. by rewrite IH.
  - destruct (split_on c s) as [|h t] eqn:E; [by apply split_on_not_nil in E|].
    destruct t; simpl in *; [by subst|]. rewrite app_cons. by rewrite IH.
Qed.
Lemma split_on_join c l :
  l ≠ [] → (∀ x, In x l → contains_byte c x = false) → split_on c (join (String c "") l) = l.
Proof.
  induction l as [|x l IH]; [done|]. intros _ H. destruct l as [|y l].
  - apply split_on_single, H. by left.
  - rewrite join_cons by done. rewrite app_cons, app_nil_l'.
    rewrite split_on_app by (apply H; by left). f_equal. apply IH; [done|].
    intros z Hz. apply H. by right.
Qed.

Lemma split_last_none c s : contains_byte c s = false → split_last c s = None.
Proof.
  unfold contains_byte. induction s as [|a s IH]; [done|]. simpl.
  intros [Ha Hs]%orb_false_iff. by rewrite IH, Ha.
Qed.
Lemma split_last_app c s t :
  contains_byte c t = false → split_last c (s +:+ String c t) = Some (s, t).
Proof.
  intros Ht. induction s as [|a s IH].
  - rewrite app_nil_l'. simpl. rewrite split_last_none by done. by rewrite bool_decide_eq_true_2.
  - rewrite app_cons. simpl. by rewrite IH.
Qed.

Lemma slen_digits w n : slen (digits w n) = w.
Proof. revert n. induction w as [|w IH]; intros n; [done|]. simpl. rewrite slen_app, IH. simpl. lia. Qed.

Lemma nat_of_digit n : 0 ≤ n ≤ 9 → nat_of_ascii (digit n) = (48 + Z.to_nat n)%nat.
Proof.
  intros H. unfold digit. rewrite Z.mod_small by lia. apply nat_ascii_embedding. lia.
Qed.
Lemma digit_mod n : digit (n mod 10) = digit n.
Proof. unfold digit. by rewrite Z.mod_mod by lia. Qed.
Lemma is_digit_digit n : is_digit (digit n) = true.
Proof.
  rewrite <- digit_mod. pose proof (Z.mod_pos_bound n 10 ltac:(lia)).
  unfold is_digit. rewrite nat_of_digit by lia.
  apply andb_true_iff; split; apply Nat.leb_le; lia.
Qed.
Lemma digit_value_digit n : 0 ≤ n ≤ 9 → digit_value (digit n) = n.
Proof. intros. unfold digit_value. rewrite nat_of_digit by lia. lia. Qed.

Lemma sforall_digits w n : sforall is_digit (digits w n) = true.
Proof.
  revert n. induction w as [|w IH]; intros n; [done|]. cbn [digits].
  rewrite sforall_app, IH. cbn [sforall]. by rewrite is_digit_digit.
Qed.

Lemma digits_no_slash w n : contains_byte slash (digits w n) = false.
Proof. by apply (sforall_not_contains _ is_digit), sforall_digits. Qed.

Lemma slen_sdrop n s : slen (sdrop n s) = (slen s - n)%nat.
Proof. revert s. induction n as [|n IH]; intros [|a s]; simpl; try lia. apply IH. Qed.
Lemma slen_of_list l : slen (String.string_of_list_ascii l) = length l.
Proof. induction l; simpl; auto. Qed.
Lemma slen_to_list s : length (String.list_ascii_of_string s) = slen s.
Proof. induction s; simpl; auto. Qed.
Lemma slen_srev s : slen (srev s) = slen s.
Proof. unfold srev. by rewrite slen_of_list, length_rev, slen_to_list. Qed.
Lemma slen_trim_left_any f cut s : (slen (trim_left_any f cut s) ≤ slen s)%nat.
Proof.
  revert s. induction f as [|f IH]; intros s; simpl; [done|].
  destruct (List.find _ _); [|done]. rewrite IH, slen_sdrop. lia.
Qed.
Lemma slen_TrimSpace s : (slen (TrimSpace s) ≤ slen s)%nat.
Proof. unfold TrimSpace. rewrite slen_srev, slen_trim_left_any, slen_srev. apply slen_trim_left_any. Qed.

Example TrimSpace_unicode : TrimSpace (text [32; 194; 160; 65; 32; 66; 226; 128; 169; 10]%nat) = "A B".
Proof. reflexivity. Qed.
