(* ===== verification/GoTime.v ===== *)
(** * Go's [time] package, as far as the sources use it

    An instant is its number of nanoseconds since 1970-01-01T00:00:00Z and a
    [time.Duration] a number of nanoseconds; the civil date is the proleptic
    Gregorian one, always in UTC because every caller converts with [.UTC()]
    or only uses [.Unix()]. *)

From S2P Require Import Prelude GoStrings.

(** ** Instants and durations *)

Abbreviation time := Z (only parsing).
Abbreviation duration := Z (only parsing).

Definition Second : duration := 1000000000.
Definition Minute : duration := 60 * Second.
Definition Hour : duration := 60 * Minute.

(** [t.Unix()] and [time.Unix(s, 0)]. *)
Definition unix (t : time) : Z := t / Second.
Definition of_unix (s : Z) : time := s * Second.

(** [time.Time{}]: 0001-01-01T00:00:00Z. *)
Definition zero_time : time := of_unix (-62135596800).

(** ** The calendar

    Days are counted from 1970-01-01.  Years are counted from March, so that
    the leap day is the last of its year; 719468 days lie between 0000-03-01
    and the epoch, and 400 years are 146097 days. *)

Definition is_leap (y : Z) : bool :=
  (y mod 4 =? 0) && (negb (y mod 100 =? 0) || (y mod 400 =? 0)).

Definition days_in (y m : Z) : Z :=
  if m =? 2 then (if is_leap y then 29 else 28)
  else if (m =? 4) || (m =? 6) || (m =? 9) || (m =? 11) then 30 else 31.

Definition days_of_civil (y m d : Z) : Z :=
  let y' := if m <=? 2 then y - 1 else y in
  let mp := if m <=? 2 then m + 9 else m - 3 in
  let yoe := y' mod 400 in
  let doy := (153 * mp + 2) / 5 + d - 1 in
  y' / 400 * 146097 + (365 * yoe + yoe / 4 - yoe / 100 + doy) - 719468.

(** Split a day of a 400-year era into the year of the era and the day of it. *)
Definition year_of_era (doe : Z) : Z * Z :=
  let c := Z.min 3 (doe / 36524) in
  let r := doe - 36524 * c in
  let q := r / 1461 in
  let s := r - 1461 * q in
  let y1 := Z.min 3 (s / 365) in
  (100 * c + 4 * q + y1, s - 365 * y1).

Definition civil_of_days (n : Z) : Z * Z * Z :=
  let z := n + 719468 in
  let '(yoe, doy) := year_of_era (z mod 146097) in
  let mp := (5 * doy + 2) / 153 in
  let d := doy - (153 * mp + 2) / 5 + 1 in
  let m := if mp <? 10 then mp + 3 else mp - 9 in
  let y' := z / 146097 * 400 + yoe in
  ((if m <=? 2 then y' + 1 else y'), m, d).

Definition day_number (t : time) : Z := unix t / 86400.
Definition year (t : time) : Z := (civil_of_days (day_number t)).1.1.
Definition month (t : time) : Z := (civil_of_days (day_number t)).1.2.
Definition day (t : time) : Z := (civil_of_days (day_number t)).2.

(** [time.Date(y, m, d, h, mi, s, 0, time.UTC)] for a month in range; days
    outside the month carry over, as in Go. *)
Definition date (y m d h mi s : Z) : time :=
  of_unix (days_of_civil y m d * 86400 + h * 3600 + mi * 60 + s).

(** [t.AddDate(0, 0, k)]. *)
Definition add_days (t : time) (k : Z) : time :=
  let s := unix t mod 86400 in
  date (year t) (month t) (day t + k) 0 0 s + t mod Second.

(** [t.ISOWeek()]: the year and week of the week's Thursday. *)
Definition thursday (n : Z) : Z := n - (n + 3) mod 7 + 3.
Definition iso_week (t : time) : Z * Z :=
  let th := thursday (day_number t) in
  let y := (civil_of_days th).1.1 in
  (y, (th - days_of_civil y 1 1) / 7 + 1).

(** ** Layouts *)

(** [t.UTC().Format("2006-01-02")]. *)
Definition format_day (t : time) : string :=
  pad 4 (year t) +:+ "-" +:+ pad 2 (month t) +:+ "-" +:+ pad 2 (day t).

(** [t.UTC().Format("20060102T150405Z")]. *)
Definition format_compact (t : time) : string :=
  let s := unix t mod 86400 in
  pad 4 (year t) +:+ pad 2 (month t) +:+ pad 2 (day t) +:+ "T" +:+
  pad 2 (s / 3600) +:+ pad 2 (s / 60 mod 60) +:+ pad 2 (s mod 60) +:+ "Z".

(** [t.UTC().Format(time.RFC3339)]. *)
Definition format_rfc3339 (t : time) : string :=
  let s := unix t mod 86400 in
  format_day t +:+ "T" +:+ pad 2 (s / 3600) +:+ ":" +:+ pad 2 (s / 60 mod 60) +:+ ":" +:+ pad 2 (s mod 60) +:+ "Z".

(** [time.Parse("20060102T150405Z", s)]: two- and four-digit fields, each in
    range; the day must exist in its month. *)
Definition num2 (a b : ascii) : Z := 10 * digit_value a + digit_value b.
Definition parse_compact (s : string) : option time :=
  match String.list_ascii_of_string s with
  | [y1; y2; y3; y4; m1; m2; d1; d2; t; h1; h2; i1; i2; s1; s2; z] =>
      if List.forallb is_digit [y1; y2; y3; y4; m1; m2; d1; d2; h1; h2; i1; i2; s1; s2]
         && bool_decide (t = "T"%char) && bool_decide (z = "Z"%char)
      then
        let y := 100 * num2 y1 y2 + num2 y3 y4 in
        let m := num2 m1 m2 in
        let d := num2 d1 d2 in
        let h := num2 h1 h2 in
        let i := num2 i1 i2 in
        let sec := num2 s1 s2 in
        if (1 <=? m) && (m <=? 12) && (1 <=? d) && (d <=? days_in y m)
           && (h <? 24) && (i <? 60) && (sec <? 60)
        then Some (date y m d h i sec) else None
      else None
  | _ => None
  end.

Example format_rfc3339_epoch : format_rfc3339 (of_unix 1785542400) = "2026-08-01T00:00:00Z".
Proof. reflexivity. Qed.

(** ** Calendar lemmas *)

Ltac div_lia := Z.div_mod_to_equations; lia.

Lemma days_in_bound y m : 28 ≤ days_in y m ≤ 31.
Proof.
  unfold days_in. destruct (m =? 2); [destruct (is_leap y); lia|].
  destruct ((m =? 4) || (m =? 6) || (m =? 9) || (m =? 11)); lia.
Qed.

Lemma year_of_era_spec doe yoe doy :
  0 ≤ doe < 146097 → year_of_era doe = (yoe, doy) →
  0 ≤ yoe < 400 ∧ 0 ≤ doy ≤ 364 + (if is_leap (yoe + 1) then 1 else 0) ∧
  doe = 365 * yoe + yoe / 4 - yoe / 100 + doy.
Proof.
  intros H. unfold year_of_era. intros [= <- <-].
  set (c := Z.min 3 (doe / 36524)). set (r := doe - 36524 * c).
  set (q := r / 1461). set (s := r - 1461 * q). set (y1 := Z.min 3 (s / 365)).
  assert (0 ≤ c ≤ 3 ∧ 0 ≤ r ≤ 36524 ∧ (c < 3 → r < 36524)) as (Hc & Hr & Hr') by (unfold r, c; div_lia).
  assert (0 ≤ q ≤ 24 ∧ 0 ≤ s ≤ 1460 ∧ r = 1461 * q + s) as (Hq & Hs & Er) by (unfold s, q; div_lia).
  assert (0 ≤ y1 ≤ 3 ∧ 0 ≤ s - 365 * y1 ≤ 365 ∧ (s - 365 * y1 = 365 → y1 = 3 ∧ s = 1460))
    as (Hy & Hd & Hd') by (unfold y1; div_lia).
  assert ((100 * c + 4 * q + y1) / 4 = 25 * c + q) as E4 by div_lia.
  assert ((100 * c + 4 * q + y1) / 100 = c) as E100 by div_lia.
  rewrite E4, E100. split; [lia|]. split; [|unfold r in *; lia].
  split; [lia|]. destruct (decide (s - 365 * y1 = 365)) as [E|]; [|destruct (is_leap _); lia].
  destruct (Hd' E) as [E1 E2].
  assert (is_leap (100 * c + 4 * q + y1 + 1) = true) as ->; [|lia].
  unfold is_leap. rewrite andb_true_iff, orb_true_iff, negb_true_iff, !Z.eqb_eq, Z.eqb_neq.
  split; [div_lia|]. destruct (decide (q = 24)); [right | left]; div_lia.
Qed.

Lemma civil_of_days_spec n y m d :
  civil_of_days n = (y, m, d) →
  1 ≤ m ≤ 12 ∧ 1 ≤ d ≤ days_in y m ∧ days_of_civil y m d = n.
Proof.
  unfold civil_of_days. pose proof (Z.mod_pos_bound (n + 719468) 146097 ltac:(lia)) as Hm.
  destruct (year_of_era ((n + 719468) mod 146097)) as [yoe doy] eqn:E.
  destruct (year_of_era_spec _ _ _ Hm E) as (Hy & Hd & Ed).
  intros [= <- <- <-].
  set (mp := (5 * doy + 2) / 153).
  assert (doy ≤ 365) by (destruct (is_leap (yoe + 1)); lia).
  assert (0 ≤ mp ≤ 11) as Hmp by (unfold mp; div_lia).
  set (dd := doy - (153 * mp + 2) / 5 + 1).
  assert (1 ≤ dd ≤ 31) as Hdd by (unfold dd, mp; div_lia).
  assert ((n + 719468) / 146097 * 146097 + (n + 719468) mod 146097 = n + 719468) as Hz by div_lia.
  assert (∀ k, (k * 400 + yoe) / 400 = k) as K1 by (intros; div_lia).
  assert (∀ k, (k * 400 + yoe) mod 400 = yoe) as K2 by (intros; div_lia).
  destruct (mp <? 10) eqn:Emp; bool_simpl.
  - replace (mp + 3 <=? 2) with false by lia.
    split; [lia|]. split.
    + split; [lia|]. unfold days_in. replace (mp + 3 =? 2) with false by lia.
      destruct (_ || _) eqn:Eo; [|lia].
      assert (mp = 1 ∨ mp = 3 ∨ mp = 6 ∨ mp = 8) as Hcase by lia.
      unfold dd. clear -Hcase. unfold mp in *. div_lia.
    + unfold days_of_civil. replace (mp + 3 <=? 2) with false by lia.
      rewrite K1, K2. replace (mp + 3 - 3) with mp by lia. unfold dd. lia.
  - replace (mp - 9 <=? 2) with true by lia.
    split; [lia|]. split.
    + split; [lia|]. unfold days_in. destruct (mp - 9 =? 2) eqn:E2; bool_simpl.
      * set (k := (n + 719468) / 146097).
        assert (is_leap (k * 400 + yoe + 1) = is_leap (yoe + 1)) as ->.
        { unfold is_leap. f_equal; [|f_equal; [f_equal|]]; f_equal; div_lia. }
        assert (mp = 11) as E11 by lia. unfold dd. rewrite E11.
        destruct (is_leap (yoe + 1)); clear -Hd E11; unfold mp in *; div_lia.
      * replace (_ || _) with false by lia. lia.
    + unfold days_of_civil. replace (mp - 9 <=? 2) with true by lia.
      replace ((n + 719468) / 146097 * 400 + yoe + 1 - 1)
        with ((n + 719468) / 146097 * 400 + yoe) by lia.
      rewrite K1, K2. replace (mp - 9 + 9) with mp by lia. unfold dd. lia.
Qed.

(** The days before March 1st of year [y]. *)
Definition march_days (y : Z) : Z := 365 * y + y / 4 - y / 100 + y / 400.

Lemma march_days_era y :
  y / 400 * 146097 + (365 * (y mod 400) + y mod 400 / 4 - y mod 400 / 100) = march_days y.
Proof. unfold march_days. div_lia. Qed.

Lemma march_days_succ y :
  march_days (y + 1) = march_days y + 365 + (if is_leap (y + 1) then 1 else 0).
Proof.
  unfold march_days, is_leap.
  destruct ((y + 1) mod 4 =? 0) eqn:E4, ((y + 1) mod 100 =? 0) eqn:E100, ((y + 1) mod 400 =? 0) eqn:E400;
    bool_simpl; simpl; div_lia.
Qed.

Lemma march_days_mono x y : x ≤ y → march_days x ≤ march_days y.
Proof. unfold march_days. intros. div_lia. Qed.

(** A valid civil date in March-based form. *)
Definition march_year (y m : Z) : Z := if m <=? 2 then y - 1 else y.
Definition march_month (m : Z) : Z := if m <=? 2 then m + 9 else m - 3.

Lemma days_of_civil_march y m d :
  days_of_civil y m d = march_days (march_year y m) + (153 * march_month m + 2) / 5 + d - 1 - 719468.
Proof.
  unfold days_of_civil. fold (march_year y m). fold (march_month m).
  rewrite <- march_days_era. lia.
Qed.

Definition valid_date (y m d : Z) : Prop := 1 ≤ m ≤ 12 ∧ 1 ≤ d ≤ days_in y m.

Lemma day_of_year_bound y m d :
  valid_date y m d →
  0 ≤ (153 * march_month m + 2) / 5 + d - 1 < 365 + (if is_leap (march_year y m + 1) then 1 else 0) ∧
  (5 * ((153 * march_month m + 2) / 5 + d - 1) + 2) / 153 = march_month m.
Proof.
  intros [Hm Hd].
  assert (m = 1 ∨ m = 2 ∨ m = 3 ∨ m = 4 ∨ m = 5 ∨ m = 6 ∨ m = 7 ∨ m = 8 ∨ m = 9 ∨ m = 10 ∨ m = 11 ∨ m = 12)
    as Hcase by lia.
  unfold days_in in Hd.
  destruct_or! Hcase; subst m; unfold march_year, march_month; simpl in *;
    try (replace (y - 1 + 1) with y by lia);
    destruct (is_leap _); split; div_lia.
Qed.

Lemma days_of_civil_inj y m d y' m' d' :
  valid_date y m d → valid_date y' m' d' →
  days_of_civil y m d = days_of_civil y' m' d' → (y, m, d) = (y', m', d').
Proof.
  intros V V'. rewrite !days_of_civil_march. intros E.
  destruct (day_of_year_bound _ _ _ V) as [B M]. destruct (day_of_year_bound _ _ _ V') as [B' M'].
  pose proof (march_days_succ (march_year y m)). pose proof (march_days_succ (march_year y' m')).
  assert (march_year y m = march_year y' m') as Ey.
  { destruct (Z.lt_trichotomy (march_year y m) (march_year y' m')) as [L|[L|L]]; [exfalso|done|exfalso].
    - pose proof (march_days_mono (march_year y m + 1) (march_year y' m')). lia.
    - pose proof (march_days_mono (march_year y' m' + 1) (march_year y m)). lia. }
  rewrite Ey in E.
  assert (march_month m = march_month m') as Em.
  { rewrite <- M, <- M'. f_equal. f_equal. f_equal. lia. }
  rewrite Em in E.
  assert (m = m') as ->.
  { destruct V as [? _], V' as [? _]. unfold march_month in Em.
    destruct (m <=? 2) eqn:?, (m' <=? 2) eqn:?; bool_simpl; lia. }
  assert (d = d') as -> by lia.
  assert (y = y') as -> by (unfold march_year in Ey; destruct (m' <=? 2); lia). done.
Qed.

Lemma civil_of_days_of_civil y m d :
  valid_date y m d → civil_of_days (days_of_civil y m d) = (y, m, d).
Proof.
  intros V. destruct (civil_of_days (days_of_civil y m d)) as [[y' m'] d'] eqn:E.
  apply civil_of_days_spec in E as (Hm & Hd & E).
  eapply days_of_civil_inj; [split; done | done | done].
Qed.

Lemma civil_of_days_inj n n' : civil_of_days n = civil_of_days n' → n = n'.
Proof.
  intros E. destruct (civil_of_days n) as [[y m] d] eqn:E1. symmetry in E.
  apply civil_of_days_spec in E1 as (_ & _ & <-). apply civil_of_days_spec in E as (_ & _ & <-). done.
Qed.

Lemma civil_fields t :
  1 ≤ month t ≤ 12 ∧ 1 ≤ day t ≤ days_in (year t) (month t) ∧
  days_of_civil (year t) (month t) (day t) = day_number t.
Proof.
  unfold year, month, day. destruct (civil_of_days (day_number t)) as [[y m] d] eqn:E.
  by apply civil_of_days_spec in E.
Qed.

(** The year grows with the day. *)
Lemma year_mono n n' y m d y' m' d' :
  civil_of_days n = (y, m, d) → civil_of_days n' = (y', m', d') → n ≤ n' → y ≤ y'.
Proof.
  intros E E' Hn. apply civil_of_days_spec in E as (Hm & Hd & E). apply civil_of_days_spec in E' as (Hm' & Hd' & E').
  destruct (decide (y ≤ y')); [done|exfalso].
  rewrite days_of_civil_march in E, E'.
  destruct (day_of_year_bound y m d) as [B _]; [split; done|].
  destruct (day_of_year_bound y' m' d') as [B' _]; [split; done|].
  pose proof (march_days_succ (march_year y' m')).
  assert (march_year y' m' ≤ march_year y m ∧ (march_year y' m' = march_year y m → m ≤ 2 ∧ 2 < m')) as [Hy Hyy].
  { unfold march_year. destruct (m <=? 2) eqn:?, (m' <=? 2) eqn:?; bool_simpl; lia. }
  destruct (decide (march_year y' m' = march_year y m)) as [Ey|].
  - destruct (Hyy Ey). rewrite Ey in E'. unfold march_month in *.
    replace (m <=? 2) with true in * by lia. replace (m' <=? 2) with false in * by lia.
    assert ((153 * (m' - 3) + 2) / 5 + d' - 1 < 306 ∧ 306 ≤ (153 * (m + 9) + 2) / 5) as [? ?]; [|lia].
    split; [|div_lia].
    pose proof (days_in_bound y' m'). div_lia.
  - pose proof (march_days_mono (march_year y' m' + 1) (march_year y m)). lia.
Qed.

(** ** Dates of a time of day *)

Lemma date_of_fields t h mi s :
  date (year t) (month t) (day t) h mi s = of_unix (day_number t * 86400 + h * 3600 + mi * 60 + s).
Proof. unfold date. by destruct (civil_fields t) as (_ & _ & ->). Qed.

Lemma days_of_civil_add y m d k : days_of_civil y m (d + k) = days_of_civil y m d + k.
Proof. unfold days_of_civil. lia. Qed.

Lemma add_days_spec t k : add_days t k = t + k * 24 * Hour.
Proof.
  unfold add_days, date. rewrite days_of_civil_add. destruct (civil_fields t) as (_ & _ & ->).
  unfold day_number, unix, of_unix, Hour, Minute, Second. div_lia.
Qed.

Lemma unix_of_unix s : unix (of_unix s) = s.
Proof. unfold unix, of_unix. apply Z.div_mul. unfold Second. lia. Qed.

(** ** Round trip of the compact layout *)

Lemma decimal_width_le f n k :
  (1 ≤ k)%nat → 0 ≤ n < 10 ^ Z.of_nat k → (decimal_width f n ≤ k)%nat.
Proof.
  revert n k. induction f as [|f IH]; intros n k Hk Hn; simpl; [lia|].
  destruct (n <? 10) eqn:E; [lia|]. bool_simpl.
  destruct k as [|[|k]]; [lia|simpl in Hn; lia|].
  assert (decimal_width f (n / 10) ≤ S k)%nat; [|lia].
  apply IH; [lia|]. split; [div_lia|]. apply Z.div_lt_upper_bound; [lia|].
  rewrite (Nat2Z.inj_succ (S k)), Z.pow_succ_r in Hn by lia. lia.
Qed.

Lemma pad_digits w n : (1 ≤ w)%nat → 0 ≤ n < 10 ^ Z.of_nat w → pad w n = digits w n.
Proof.
  intros Hw Hn. unfold pad. replace (n <? 0) with false by lia. rewrite app_nil_l'. simpl (slen "").
  rewrite Z.abs_eq by lia. f_equal.
  pose proof (decimal_width_le (Z.to_nat (Z.log2 n) + 1) n w Hw Hn). lia.
Qed.

Lemma digits2 n : 0 ≤ n < 100 → digits 2 n = String (digit (n / 10)) (String (digit n) "").
Proof. done. Qed.

Lemma num2_digits n : 0 ≤ n < 100 → num2 (digit (n / 10)) (digit n) = n.
Proof.
  intros H. unfold num2. rewrite <- (digit_mod n).
  rewrite !digit_value_digit by div_lia. div_lia.
Qed.

(** The instants a four-digit year can express, at a whole second. *)
Definition printable (t : time) : Prop := 0 ≤ year t ≤ 9999 ∧ t mod Second = 0.

Lemma format_compact_digits t :
  printable t →
  let s := unix t mod 86400 in
  format_compact t =
  digits 4 (year t) +:+ digits 2 (month t) +:+ digits 2 (day t) +:+ "T" +:+
  digits 2 (s / 3600) +:+ digits 2 (s / 60 mod 60) +:+ digits 2 (s mod 60) +:+ "Z".
Proof.
  intros [Hy _] s. destruct (civil_fields t) as (Hm & Hd & _).
  pose proof (days_in_bound (year t) (month t)).
  assert (0 ≤ s < 86400) by (unfold s; div_lia).
  unfold format_compact. fold s.
  rewrite !pad_digits; try lia; try (split; [lia|simpl; lia]); split; simpl; div_lia.
Qed.

Lemma sec_of_day_fields s : 0 ≤ s < 86400 → s / 3600 * 3600 + s / 60 mod 60 * 60 + s mod 60 = s.
Proof. intros. div_lia. Qed.

Abbreviation bytes_of := String.list_ascii_of_string.
Lemma bytes_of_app s t : bytes_of (s +:+ t) = bytes_of s ++ bytes_of t.
Proof. induction s as [|a s IH]; [done|]. rewrite app_cons. simpl. by rewrite IH. Qed.
Lemma bytes_of_digits2 n : bytes_of (digits 2 n) = [digit (n / 10); digit n].
Proof. done. Qed.
Lemma bytes_of_digits4 n :
  bytes_of (digits 4 n) = [digit (n / 10 / 10 / 10); digit (n / 10 / 10); digit (n / 10); digit n].
Proof. done. Qed.

(** Reading back what the layout printed. *)
Lemma parse_format_compact t : printable t → parse_compact (format_compact t) = Some t.
Proof.
  intros Hp. rewrite format_compact_digits by done. destruct Hp as [Hy Hns].
  destruct (civil_fields t) as (Hm & Hd & Hn).
  pose proof (days_in_bound (year t) (month t)).
  set (s := unix t mod 86400). assert (0 ≤ s < 86400) as Hs by (unfold s; div_lia).
  unfold parse_compact. rewrite !bytes_of_app, !bytes_of_digits2, bytes_of_digits4.
  cbn [app bytes_of forallb]. rewrite !is_digit_digit, !bool_decide_eq_true_2 by done. cbn [andb].
  assert (100 * num2 (digit (year t / 10 / 10 / 10)) (digit (year t / 10 / 10))
          + num2 (digit (year t / 10)) (digit (year t)) = year t) as ->.
  { rewrite <- (digit_mod (year t)), <- (digit_mod (year t / 10)), <- (digit_mod (year t / 10 / 10)).
    unfold num2. rewrite !digit_value_digit by div_lia. div_lia. }
  rewrite !num2_digits by (try lia; div_lia).
  replace (_ && _) with true.
  - f_equal. rewrite date_of_fields. unfold of_unix, day_number.
    pose proof (sec_of_day_fields s Hs). unfold s, unix, Second in *. div_lia.
  - symmetry. rewrite !andb_true_iff, !Z.leb_le, !Z.ltb_lt. repeat split; try lia; div_lia.
Qed.

Lemma parse_compact_inv s t :
  parse_compact s = Some t →
  ∃ y m d h i sec,
    valid_date y m d ∧ 0 ≤ y ≤ 9999 ∧ 0 ≤ h < 24 ∧ 0 ≤ i < 60 ∧ 0 ≤ sec < 60 ∧
    t = date y m d h i sec ∧
    s = digits 4 y +:+ digits 2 m +:+ digits 2 d +:+ "T" +:+ digits 2 h +:+ digits 2 i +:+ digits 2 sec +:+ "Z".
Proof.
  unfold parse_compact. destruct (String.list_ascii_of_string s) as
    [|y1 [|y2 [|y3 [|y4 [|m1 [|m2 [|d1 [|d2 [|t0 [|h1 [|h2 [|i1 [|i2 [|s1 [|s2 [|z [|]]]]]]]]]]]]]]]]] eqn:El;
    try discriminate.
  assert (s = String.string_of_list_ascii [y1; y2; y3; y4; m1; m2; d1; d2; t0; h1; h2; i1; i2; s1; s2; z]) as ->.
  { rewrite <- El. symmetry. apply String.string_of_list_ascii_of_string. }
  clear El. destruct (List.forallb _ _ && _ && _) eqn:Ec; [|discriminate].
  bool_simpl. simpl in H. bool_simpl.
  destruct (_ && _ && _) eqn:Er; [|discriminate]. bool_simpl. intros [= <-].
  assert (∀ a, is_digit a = true → 0 ≤ digit_value a ≤ 9 ∧ a = digit (digit_value a)) as Hdig.
  { clear. intros a Ha. unfold is_digit in Ha. apply andb_true_iff in Ha as [L1 L2].
    apply Nat.leb_le in L1, L2. unfold digit_value, digit. split; [lia|].
    rewrite Z.mod_small by lia. rewrite <- (ascii_nat_embedding a) at 1. f_equal. lia. }
  assert (∀ a b, is_digit a = true → is_digit b = true →
    0 ≤ num2 a b ≤ 99 ∧ digits 2 (num2 a b) = String a (String b "")) as Hnum.
  { clear -Hdig. intros a b Ha Hb. destruct (Hdig a Ha) as [Ra Ea], (Hdig b Hb) as [Rb Eb].
    unfold num2. split; [lia|]. cbn [digits]. rewrite app_nil_l', app_cons, app_nil_l'.
    assert ((10 * digit_value a + digit_value b) / 10 = digit_value a) as -> by div_lia.
    rewrite <- Ea. f_equal. f_equal. rewrite <- digit_mod.
    assert ((10 * digit_value a + digit_value b) mod 10 = digit_value b) as -> by div_lia. done. }
  destruct (Hnum y1 y2) as [R1 E1], (Hnum y3 y4) as [R2 E2], (Hnum m1 m2) as [R3 E3], (Hnum d1 d2) as [R4 E4],
    (Hnum h1 h2) as [R5 E5], (Hnum i1 i2) as [R6 E6], (Hnum s1 s2) as [R7 E7]; try assumption.
  exists (100 * num2 y1 y2 + num2 y3 y4), (num2 m1 m2), (num2 d1 d2), (num2 h1 h2), (num2 i1 i2), (num2 s1 s2).
  split; [split; lia|]. split; [lia|]. do 3 (split; [lia|]). split; [reflexivity|].
  rewrite E3, E4, E5, E6, E7.
  assert (∀ a b, 0 ≤ a ≤ 99 → 0 ≤ b ≤ 99 → digits 4 (100 * a + b) = digits 2 a +:+ digits 2 b) as Hdig4.
  { clear. intros a b Ha Hb. cbn [digits].
    assert ((100 * a + b) / 10 / 10 = a) as -> by div_lia.
    assert ((100 * a + b) / 10 = 10 * a + b / 10) as -> by div_lia.
    rewrite <- (digit_mod (100 * a + b)), <- (digit_mod (10 * a + b / 10)).
    assert ((100 * a + b) mod 10 = b mod 10) as -> by div_lia.
    assert ((10 * a + b / 10) mod 10 = (b / 10) mod 10) as -> by div_lia.
    by rewrite !digit_mod, !app_assoc'. }
  rewrite Hdig4, E1, E2 by lia. subst. reflexivity.
Qed.

(** The fields of an instant built from a valid date and time of day. *)
Lemma date_fields y m d h i sec :
  valid_date y m d → 0 ≤ h < 24 → 0 ≤ i < 60 → 0 ≤ sec < 60 →
  let t := date y m d h i sec in
  (year t, month t, day t) = (y, m, d) ∧ unix t mod 86400 = h * 3600 + i * 60 + sec ∧ t mod Second = 0.
Proof.
  intros V Hh Hi Hs t. unfold year, month, day, day_number, t, date. rewrite unix_of_unix.
  assert ((days_of_civil y m d * 86400 + h * 3600 + i * 60 + sec) / 86400 = days_of_civil y m d) as -> by div_lia.
  rewrite civil_of_days_of_civil by done. split; [done|]. split; [div_lia|].
  unfold of_unix. apply Z.mod_mul. unfold Second. lia.
Qed.

(** Only the printed form of an instant is read: the layout has one spelling. *)
Lemma format_parse_compact s t : parse_compact s = Some t → format_compact t = s ∧ printable t.
Proof.
  intros (y & m & d & h & i & sec & V & Hy & Hh & Hi & Hs & -> & ->)%parse_compact_inv.
  destruct (date_fields y m d h i sec) as (E & Es & En); try done.
  injection E as Ey Em Ed.
  assert (printable (date y m d h i sec)) as Hp by (split; [by rewrite Ey | done]).
  split; [|done]. rewrite format_compact_digits by done. rewrite Ey, Em, Ed, Es.
  assert ((h * 3600 + i * 60 + sec) / 3600 = h) as -> by div_lia.
  assert ((h * 3600 + i * 60 + sec) / 60 mod 60 = i) as -> by div_lia.
  assert ((h * 3600 + i * 60 + sec) mod 60 = sec) as -> by div_lia. done.
Qed.

(** ** Day and week keys *)

Lemma app_inj_len (a b c d : string) : slen a = slen c → a +:+ b = c +:+ d → a = c ∧ b = d.
Proof.
  revert c. induction a as [|x a IH]; intros [|y c]; try discriminate; [by intros _ ?|].
  intros [= Hl]. rewrite !app_cons. intros [= -> E]. destruct (IH _ Hl E) as [-> ->]. done.
Qed.

Lemma digits_inj w n n' :
  0 ≤ n < 10 ^ Z.of_nat w → 0 ≤ n' < 10 ^ Z.of_nat w → digits w n = digits w n' → n = n'.
Proof.
  revert n n'. induction w as [|w IH]; intros n n' Hn Hn' E; [simpl in *; lia|].
  cbn [digits] in E. apply app_inj_len in E as [E1 E2]; [|by rewrite !slen_digits].
  rewrite Nat2Z.inj_succ, Z.pow_succ_r in Hn, Hn' by lia.
  apply IH in E1; [|div_lia..].
  injection E2 as E2. rewrite <- (digit_mod n), <- (digit_mod n') in E2.
  assert (digit_value (digit (n mod 10)) = digit_value (digit (n' mod 10))) as E3 by congruence.
  rewrite !digit_value_digit in E3 by div_lia. div_lia.
Qed.

(** The ["2006-01-02"] key separates exactly the UTC days. *)
Lemma format_day_inj t t' :
  0 ≤ year t ≤ 9999 → 0 ≤ year t' ≤ 9999 →
  format_day t = format_day t' ↔ day_number t = day_number t'.
Proof.
  intros Hy Hy'. split; intros E.
  - unfold format_day in E.
    destruct (civil_fields t) as (Hm & Hd & <-), (civil_fields t') as (Hm' & Hd' & <-).
    pose proof (days_in_bound (year t) (month t)). pose proof (days_in_bound (year t') (month t')).
    rewrite !pad_digits in E by (try lia; split; simpl; lia).
    apply app_inj_len in E as [E1 E]; [|by rewrite !slen_digits].
    apply app_inj_len in E as [_ E]; [|done].
    apply app_inj_len in E as [E2 E]; [|by rewrite !slen_digits].
    apply app_inj_len in E as [_ E3]; [|done].
    apply digits_inj in E1, E2, E3; try (split; simpl; lia). congruence.
  - unfold format_day, year, month, day. by rewrite E.
Qed.

(** The ISO year and week separate exactly the weeks starting on Monday. *)
Lemma iso_week_inj t t' :
  iso_week t = iso_week t' ↔ (day_number t + 3) / 7 = (day_number t' + 3) / 7.
Proof.
  unfold iso_week, thursday. split.
  - intros [= Ey Ew]. rewrite Ey in Ew. div_lia.
  - intros E.
    assert (day_number t - (day_number t + 3) mod 7 = day_number t' - (day_number t' + 3) mod 7) as -> by div_lia.
    done.
Qed.
