(* ===== verification/RateLimit.v ===== *)
(** * The sign-in rate limiter ([rateLimit] of [internal/httpapi/server.go])

    Fixed windows: ten attempts per client in fifteen minutes and thirty
    attempts in all per minute, for at most ten thousand clients at a time.
    The mutex makes calls a sequence, so the model is a function on the
    limiter's state. *)

From S2P Require Import Prelude GoTime.

Record bucket := mkBucket { bk_count : Z; bk_until : time }.
#[export] Instance eta_bucket : Eta bucket := λ r, mkBucket (bk_count r) (bk_until r).
Record rateLimit := mkRateLimit { rl_clients : gmap string bucket; rl_global : bucket }.

Definition zero_bucket : bucket := mkBucket 0 zero_time.
Definition new_limiter : rateLimit := mkRateLimit ∅ zero_bucket.

(** The bucket of the window that holds [now]. *)
Definition current (now : time) (d : duration) (b : bucket) : bucket :=
  if now <? bk_until b then b else mkBucket 0 (now + d).
Definition add_one (b : bucket) : bucket := b <| bk_count := bk_count b + 1 |>.

Definition allow (key : string) (now : time) (l : rateLimit) : bool * rateLimit :=
  let global := current now Minute (rl_global l) in
  let b := current now (15 * Minute) (default zero_bucket (rl_clients l !! key)) in
  let clients := filter (λ kv, now < bk_until kv.2) (rl_clients l) in
  if (30 <=? bk_count global) || (10 <=? bk_count b) || (10000 <=? Z.of_nat (size clients))
  then (false, mkRateLimit clients global)
  else (true, mkRateLimit (<[key := add_one b]> clients) (add_one global)).

(** Calls in order, with the times at which a call of [key] was allowed, newest first. *)
Record trace := mkTrace { tr_limiter : rateLimit; tr_allowed : list (string * time) }.
Definition call_allow (tr : trace) (c : string * time) : trace :=
  let (ok, l) := allow c.1 c.2 (tr_limiter tr) in mkTrace l (if ok then c :: tr_allowed tr else tr_allowed tr).
Definition run_calls (cs : list (string * time)) : trace := fold_left call_allow cs (mkTrace new_limiter []).

Fixpoint ordered (last : time) (cs : list (string * time)) : Prop :=
  match cs with [] => True | c :: cs => last ≤ c.2 ∧ ordered c.2 cs end.

Definition times_of (key : string) (l : list (string * time)) : list time :=
  map snd (List.filter (λ c, bool_decide (c.1 = key)) l).
Definition within (t : time) (d : duration) (l : list time) : nat :=
  length (List.filter (λ a, (t <=? a) && (a <? t + d)) l).

(** ** Windows

    The accepted times of one bucket fall into windows that do not overlap;
    any span as long as a window meets two of them at most. *)

Section windows.
Context (d : duration) (lim : Z) (Hd : 0 < d).

Record window := mkWindow { wn_start : time; wn_items : list time }.
Definition good_window (w : window) : Prop :=
  Z.of_nat (length (wn_items w)) ≤ lim ∧ ∀ a, In a (wn_items w) → wn_start w ≤ a < wn_start w + d.
Fixpoint good_windows (ws : list window) : Prop :=
  match ws with
  | [] => True
  | w :: tl => good_window w ∧ match tl with [] => True | w' :: _ => wn_start w' + d ≤ wn_start w end ∧ good_windows tl
  end.
Definition all_items (ws : list window) : list time := flat_map wn_items ws.

Lemma within_app t l1 l2 : within t d (l1 ++ l2) = (within t d l1 + within t d l2)%nat.
Proof. unfold within. by rewrite List.filter_app, length_app. Qed.
Lemma within_le t l : (within t d l ≤ length l)%nat.
Proof. unfold within. induction l as [|a l IH]; [done|]. cbn. destruct (_ && _); cbn; lia. Qed.
Lemma within_zero t l : (∀ a, In a l → a < t) → within t d l = 0%nat.
Proof.
  intros H. unfold within. induction l as [|a l IH]; [done|]. cbn. specialize (H a) as Ha.
  replace (t <=? a) with false by (specialize (Ha (or_introl eq_refl)); lia). apply IH. intros b Hb. apply H. by right.
Qed.
Lemma within_pos t l : (0 < within t d l)%nat → ∃ a, In a l ∧ t ≤ a < t + d.
Proof.
  unfold within. induction l as [|a l IH]; [cbn; lia|]. cbn. destruct ((t <=? a) && (a <? t + d)) eqn:E.
  - intros _. exists a. split; [by left|]. lia.
  - intros (b & Hb & ?)%IH. exists b. auto.
Qed.

Lemma older_items w tl a : good_windows (w :: tl) → In a (all_items tl) → a < wn_start w.
Proof.
  revert w. induction tl as [|w' tl IH]; intros w (_ & Hs & Htl); [done|]. cbn. intros [Ha|Ha]%in_app_iff.
  - destruct Htl as [[_ Hw'] _]. specialize (Hw' a Ha). lia.
  - specialize (IH w' Htl Ha). lia.
Qed.

Lemma windows_bound t ws : good_windows ws → Z.of_nat (within t d (all_items ws)) ≤ 2 * Z.max 0 lim.
Proof.
  induction ws as [|w ws IH]; intros Hg; [cbn; lia|]. cbn [all_items flat_map]. rewrite within_app.
  pose proof Hg as ((Hlim & Hin) & Hs & Hws). fold (all_items ws).
  destruct (within t d (wn_items w)) as [|n] eqn:E; [cbn; by apply IH|]. rewrite <- E in *.
  pose proof (within_le t (wn_items w)). destruct (within_pos t (wn_items w)) as (x & Hx & Hxt); [lia|]. specialize (Hin x Hx).
  destruct ws as [|w' tl]; [cbn; lia|]. cbn [all_items flat_map]. fold (all_items tl). rewrite within_app.
  rewrite (within_zero t (all_items tl)).
  - destruct Hws as [[Hlim' _] _]. pose proof (within_le t (wn_items w')). lia.
  - intros a Ha. pose proof (older_items w' tl a Hws Ha). lia.
Qed.

(** A bucket, and the windows it has seen up to the time [last]. *)
Definition tracks (last : time) (b : bucket) (ws : list window) : Prop :=
  good_windows ws ∧
  if last <? bk_until b
  then ∃ w tl, ws = w :: tl ∧ wn_start w + d = bk_until b ∧ wn_start w ≤ last ∧ Z.of_nat (length (wn_items w)) = bk_count b
  else match ws with [] => True | w :: _ => wn_start w + d ≤ last end.

Lemma tracks_later last now b ws : last ≤ now → tracks last b ws → tracks now b ws.
Proof.
  unfold tracks. intros Hle [Hg Ht]. split; [done|].
  destruct (last <? bk_until b) eqn:E1, (now <? bk_until b) eqn:E2; try lia.
  - destruct Ht as (w & tl & -> & ? & ? & ?). exists w, tl. split_and!; try done. lia.
  - destruct Ht as (w & tl & -> & ? & ? & ?). lia.
  - destruct ws; [done|lia].
Qed.

(** An expired bucket may be forgotten. *)
Lemma tracks_forget now b b' ws : bk_until b ≤ now → bk_until b' ≤ now → tracks now b ws → tracks now b' ws.
Proof.
  unfold tracks. intros H1 H2. replace (now <? bk_until b) with false by lia. by replace (now <? bk_until b') with false by lia.
Qed.

(** Opening a window, and counting an accepted call in it. *)
Lemma tracks_current now b ws : 0 ≤ lim → tracks now b ws →
  ∃ ws', all_items ws' = all_items ws ∧ tracks now (current now d b) ws'.
Proof.
  unfold tracks, current. intros Hlim [Hg Ht]. destruct (now <? bk_until b) eqn:E.
  - exists ws. rewrite E. done.
  - exists (mkWindow now [] :: ws). cbn [bk_until bk_count]. replace (now <? now + d) with true by lia. split_and!; [done| |].
    + split; [split; [cbn; lia|done]|]. split; [|done]. destruct ws; [done|cbn; lia].
    + by eexists _, _.
Qed.

Lemma tracks_add_one now b ws : now < bk_until b → bk_count b < lim → tracks now b ws →
  ∃ ws', all_items ws' = now :: all_items ws ∧ tracks now (add_one b) ws'.
Proof.
  unfold tracks. intros E Hc [Hg Ht]. cbn [bk_until add_one upd]. replace (now <? bk_until b) with true in * by lia.
  destruct Ht as (w & tl & -> & Hst & Hle & Hn). exists (mkWindow (wn_start w) (now :: wn_items w) :: tl). split; [done|].
  destruct Hg as ((Hl & Hin) & Hs & Htl). split.
  - split; [|done]. split; cbn [wn_items wn_start length]; [lia|]. intros a [<-|Ha]; [lia|auto].
  - eexists _, _. split; [done|]. cbn. split_and!; [done|done|lia].
Qed.

Lemma current_live now b : now < bk_until (current now d b).
Proof. unfold current. destruct (now <? bk_until b) eqn:E; cbn; lia. Qed.

Lemma tracks_accepted now b ws : tracks now b ws → bk_count (current now d b) < lim → 0 ≤ lim →
  ∃ ws', all_items ws' = now :: all_items ws ∧ tracks now (add_one (current now d b)) ws'.
Proof.
  intros Ht Hc Hlim. destruct (tracks_current now b ws Hlim Ht) as (ws1 & <- & H1).
  apply tracks_add_one; [apply current_live|done|done].
Qed.
End windows.

(** ** The limiter *)

(** What a client's bucket is read as. *)
Definition bucket_of (key : string) (l : rateLimit) : bucket := default zero_bucket (rl_clients l !! key).

Definition tracked (last : time) (tr : trace) : Prop :=
  zero_time ≤ last ∧
  (∃ ws, all_items ws = map snd (tr_allowed tr) ∧ tracks Minute 30 last (rl_global (tr_limiter tr)) ws) ∧
  (∀ key, ∃ ws, all_items ws = times_of key (tr_allowed tr) ∧
    tracks (15 * Minute) 10 last (bucket_of key (tr_limiter tr)) ws) ∧
  Z.of_nat (size (rl_clients (tr_limiter tr))) ≤ 10000.

Lemma minute_pos : 0 < Minute.
Proof. done. Qed.

(** Forgetting the expired buckets loses no window. *)
Lemma pruned_bucket key now l ws : zero_time ≤ now → tracks (15 * Minute) 10 now (bucket_of key l) ws →
  tracks (15 * Minute) 10 now (default zero_bucket (filter (λ kv, now < bk_until kv.2) (rl_clients l) !! key)) ws.
Proof.
  intros Hz. unfold bucket_of. destruct (rl_clients l !! key) as [b|] eqn:E; cbn.
  - destruct (decide (now < bk_until b)) as [Hl|Hl].
    + by rewrite (map_lookup_filter_Some_2 _ _ _ _ E Hl).
    + rewrite map_lookup_filter_None_2 by (right; intros x; rewrite E; by intros [= <-]). apply tracks_forget; cbn; lia.
  - by rewrite map_lookup_filter_None_2 by by left.
Qed.

Lemma call_tracked last tr c : last ≤ c.2 → tracked last tr → tracked c.2 (call_allow tr c).
Proof.
  destruct c as [key now]. cbn [fst snd]. intros Hle (Hz & (gs & Hgs & Hg) & Hk & Hn).
  apply (tracks_later _ _ last now) in Hg; [|done]. unfold call_allow, allow. cbn [fst snd].
  set (l := tr_limiter tr) in *. set (live := filter _ _). set (g := current now Minute (rl_global l)).
  assert (size live ≤ size (rl_clients l))%nat as Hsz by (apply map_subseteq_size, map_filter_subseteq).
  assert (∀ k, ∃ ws, all_items ws = times_of k (tr_allowed tr) ∧
    tracks (15 * Minute) 10 now (default zero_bucket (live !! k)) ws ∧ tracks (15 * Minute) 10 now (bucket_of k l) ws) as Hkeys.
  { intros k. destruct (Hk k) as (ws & Hws & Ht). apply (tracks_later _ _ last now) in Ht; [|done].
    exists ws. split; [done|]. split; [|done]. apply pruned_bucket; [lia|done]. }
  clear Hk. destruct ((30 <=? bk_count g) || _ || _) eqn:E; unfold tracked; cbn [tr_limiter tr_allowed rl_clients rl_global].
  - split; [lia|]. split_and!; [|intros k; destruct (Hkeys k) as (ws & ? & ? & _); by exists ws|lia].
    destruct (tracks_current Minute 30 minute_pos now _ gs ltac:(lia) Hg) as (ws & H1 & H2). exists ws. by rewrite H1.
  - rewrite !orb_false_iff in E. destruct E as [[Eg Eb] Es]. split; [lia|]. split_and!.
    + destruct (tracks_accepted Minute 30 minute_pos now _ gs Hg) as (ws & H1 & H2); [fold g; lia|lia|]. exists ws. cbn. by rewrite H1, Hgs.
    + intros k. destruct (Hkeys k) as (ws & Hws & Ht & Hb). unfold bucket_of, times_of. cbn [rl_clients List.filter fst].
      destruct (decide (key = k)) as [->|Hne].
      * rewrite lookup_insert_eq, bool_decide_true by done. cbn [default from_option map snd].
        destruct (tracks_accepted (15 * Minute) 10 ltac:(done) now _ ws Hb) as (ws' & H1 & H2); [|lia|].
        { unfold bucket_of. lia. }
        exists ws'. split; [|exact H2]. rewrite H1, Hws. done.
      * rewrite lookup_insert_ne, bool_decide_false by done. exists ws. done.
    + rewrite map_size_insert. destruct (live !! key); cbn; lia.
Qed.

Lemma run_tracked last tr cs : ordered last cs → tracked last tr → ∃ last', tracked last' (fold_left call_allow cs tr).
Proof.
  revert last tr. induction cs as [|c cs IH]; intros last tr Ho Ht; [by exists last|]. destruct Ho as [Hle Ho]. cbn.
  eapply IH; [exact Ho|]. by eapply call_tracked.
Qed.

Lemma new_tracked last : zero_time ≤ last → tracked last (mkTrace new_limiter []).
Proof.
  intros Hz. assert (∀ d lim, tracks d lim last zero_bucket []) as Ht.
  { intros d lim. split; [done|]. replace (last <? bk_until zero_bucket) with false by (cbn; lia). done. }
  split; [done|]. split_and!; [by exists []|by exists []|]. cbn. rewrite map_size_empty. lia.
Qed.

(** C33. However calls arrive, at times that do not go back, in any fifteen
    minutes at most twenty attempts of one client are let through (two windows
    of ten), in any minute at most sixty attempts in all (two windows of
    thirty), and the limiter never holds more than ten thousand clients. *)
Theorem attempts_are_bounded start cs : zero_time ≤ start → ordered start cs →
  (∀ key t, Z.of_nat (within t (15 * Minute) (times_of key (tr_allowed (run_calls cs)))) ≤ 20) ∧
  (∀ t, Z.of_nat (within t Minute (map snd (tr_allowed (run_calls cs)))) ≤ 60) ∧
  Z.of_nat (size (rl_clients (tr_limiter (run_calls cs)))) ≤ 10000.
Proof.
  intros Hz Ho. destruct (run_tracked start _ cs Ho (new_tracked start Hz)) as (last & _ & (gs & Hgs & Hg & _) & Hk & Hn).
  fold (run_calls cs) in *. split_and!; [| |done].
  - intros key t. destruct (Hk key) as (ws & <- & Hw & _). apply (windows_bound (15 * Minute) 10 eq_refl t ws Hw).
  - intros t. rewrite <- Hgs. apply (windows_bound Minute 30 eq_refl t gs Hg).
Qed.

(** Eleven calls of one client: the eleventh is refused. *)
Definition eleven : list (string * time) := map (λ n, ("client", of_unix (Z.of_nat n))) (seq 0 11).
Lemma attempts_are_bounded_witness :
  Z.of_nat (within 0 (15 * Minute) (times_of "client" (tr_allowed (run_calls eleven)))) ≤ 20 ∧
  length (tr_allowed (run_calls eleven)) = 10%nat.
Proof.
  split; [|by vm_compute].
  apply (attempts_are_bounded 0 eleven); [done|]. vm_compute. repeat split; intros H; discriminate H.
Defined.
