(* ===== verification/HostStatus.v ===== *)
(** * What the host reports about itself ([internal/hoststatus/hoststatus.go])

    The files are arguments as they were read and decoded: [None] for one that
    is missing or unreadable.  Percentages are IEEE 754 double-precision
    numbers, computed with the executable specification of the Standard
    Library. *)

From Stdlib Require Import SpecFloat.
From S2P Require Import Prelude GoStrings GoTime.

(** ** Doubles *)

Definition float64 (z : Z) : spec_float := binary_normalize 53 1024 z 0 false.
Definition fmul : spec_float → spec_float → spec_float := SFmul 53 1024.
Definition fdiv : spec_float → spec_float → spec_float := SFdiv 53 1024.
Definition fltb (x y : spec_float) : bool := match SFcompare x y with Some Lt => true | _ => false end.

(** The integer nearest to [m * 2^e], halves to even. *)
Definition round_even (m e : Z) : Z :=
  if 0 <=? e then m * 2 ^ e
  else
    let d := 2 ^ (- e) in
    let q := m / d in
    let r := m mod d in
    if 2 * r <? d then q else if d <? 2 * r then q + 1 else if Z.even q then q else q + 1.
(** [%.0f] *)
Definition format_float0 (x : spec_float) : string :=
  match x with
  | S754_zero s => if s then "-0" else "0"
  | S754_infinity s => if s then "-Inf" else "+Inf"
  | S754_nan => "NaN"
  | S754_finite s m e => (if s then "-" else "") +:+ decimal (round_even (Zpos m) e)
  end.

(** ** Reports *)

Definition StaleAfter : duration := 15 * Minute.
Definition LowDiskPercent : spec_float := float64 15.
Definition ExpiringWithin : duration := 14 * 24 * Hour.

Record Disk := mkDisk {
  dk_Name : string; dk_Device : Z; dk_TotalBytes : Z; dk_FreeBytes : Z; dk_FreePercent : spec_float; dk_Low : bool; dk_Error : string }.
#[export] Instance eta_Disk : Eta Disk := λ d,
  mkDisk (dk_Name d) (dk_Device d) (dk_TotalBytes d) (dk_FreeBytes d) (dk_FreePercent d) (dk_Low d) (dk_Error d).
Record CertSync := mkCertSync { sy_At : string; sy_OK : bool; sy_Message : string }.
Record Certificate := mkCertificate {
  ct_State : string; ct_Issuer : string; ct_ExpiresAt : option Z; ct_Expiring : bool; ct_Expired : bool; ct_LastSync : option CertSync }.
#[export] Instance eta_Certificate : Eta Certificate := λ c,
  mkCertificate (ct_State c) (ct_Issuer c) (ct_ExpiresAt c) (ct_Expiring c) (ct_Expired c) (ct_LastSync c).
Record Status := mkStatus {
  hs_State : string; hs_WrittenAt : Z; hs_Disks : list Disk; hs_NTPSynchronized : option bool; hs_Certificate : Certificate }.

Record StatusFile := mkStatusFile { sf_WrittenAt : string; sf_Disks : list Disk; sf_Synchronized : option bool }.
(** The status report, the state of the certificate, the expiry of the served
    certificate, and the last delivery. *)
Record HostFiles := mkHostFiles {
  hf_Status : option StatusFile; hf_TLSState : option (string * string); hf_NotAfter : option time; hf_CertSync : option CertSync }.

(** A measured disk; one that could not be measured keeps what the file says. *)
Definition measure (d : Disk) : Disk :=
  if bool_decide (dk_Error d = "") && (0 <? dk_TotalBytes d) then
    let percent := fdiv (fmul (float64 (dk_FreeBytes d)) (float64 100)) (float64 (dk_TotalBytes d)) in
    d <| dk_FreePercent := percent |> <| dk_Low := fltb percent LowDiskPercent |>
  else d.

Definition certificate (files : HostFiles) (mode : string) (now : time) : Certificate :=
  if negb (bool_decide (mode = "https")) then mkCertificate "not_used" "" None false false None
  else
    let c := mkCertificate "unknown" "" None false false None in
    let c := match hf_TLSState files with
             | Some (state, issuer) =>
                 if negb (bool_decide (state = "")) then c <| ct_State := state |> <| ct_Issuer := issuer |> else c
             | None => c
             end in
    let c := match hf_NotAfter files with
             | Some notAfter =>
                 if bool_decide (ct_State c = "trusted") then
                   c <| ct_ExpiresAt := Some (unix notAfter) |> <| ct_Expiring := notAfter - now <? ExpiringWithin |>
                     <| ct_Expired := negb (now <? notAfter) |>
                 else c
             | None => c
             end in
    match hf_CertSync files with
    | Some sync => if negb (bool_decide (sy_At sync = "")) then c <| ct_LastSync := Some sync |> else c
    | None => c
    end.

(** [ParseRFC3339] is [time.Parse] with that layout. *)
Definition Read (ParseRFC3339 : string → option time) (files : HostFiles) (mode : string) (now : time) : Status :=
  let c := certificate files mode now in
  match hf_Status files with
  | Some file =>
      match ParseRFC3339 (sf_WrittenAt file) with
      | Some at' =>
          mkStatus (if StaleAfter <? now - at' then "stale" else "ok") (unix at') (map measure (sf_Disks file)) (sf_Synchronized file) c
      | None => mkStatus "unknown" 0 [] None c
      end
  | None => mkStatus "unknown" 0 [] None c
  end.

(** A disk is low under fifteen percent, also when the numbers are large and odd. *)
Example measure_examples :
  map (λ p : Z * Z, let d := measure (mkDisk "data" 1 p.2 p.1 (S754_zero false) false "") in (dk_Low d, format_float0 (dk_FreePercent d)))
    [(15, 100); (14, 100); (0, 100); (149999999999, 1000000000000); (150000000001, 1000000000000); (1, 3)] =
  [(false, "15"); (true, "14"); (true, "0"); (true, "15"); (false, "15"); (false, "33")].
Proof. vm_compute. reflexivity. Qed.
