(* ===== verification/Sha.v ===== *)
(** * SHA-1, SHA-256 and HMAC

    Go's [crypto/sha1], [crypto/sha256] and [crypto/hmac] as FIPS 180-4 and
    RFC 2104 define them, on lists of bytes held as [Z].  The examples at the
    end are published test vectors. *)

From S2P Require Import Prelude GoStrings.

(** ** 32-bit words *)

Definition u32 (x : Z) : Z := x mod 2 ^ 32.
Definition add32 (x y : Z) : Z := u32 (x + y).
Definition rotl (n x : Z) : Z := Z.lor (u32 (Z.shiftl x n)) (Z.shiftr x (32 - n)).
Definition rotr (n x : Z) : Z := rotl (32 - n) x.
Definition not32 (x : Z) : Z := Z.lxor x (2 ^ 32 - 1).

(** Big-endian words. *)
Definition be32 (b : list Z) : Z := fold_left (λ acc x, acc * 256 + x) b 0.
Fixpoint be_bytes (n : nat) (x : Z) : list Z :=
  match n with O => [] | S n => be_bytes n (x / 256) ++ [x mod 256] end.

Fixpoint chunks {A} (fuel n : nat) (l : list A) : list (list A) :=
  match fuel, l with
  | O, _ | _, [] => []
  | S f, _ => take n l :: chunks f n (drop n l)
  end.
Definition chunks_of {A} (n : nat) (l : list A) : list (list A) := chunks (length l) n l.

(** The padded message, in 64-byte blocks of sixteen words. *)
Definition pad_message (m : list Z) : list Z :=
  let n := Z.of_nat (length m) in
  m ++ [128] ++ replicate (Z.to_nat ((55 - n) mod 64)) 0 ++ be_bytes 8 (8 * n).
Definition blocks (m : list Z) : list (list Z) :=
  map (λ b, map be32 (chunks_of 4 b)) (chunks_of 64 (pad_message m)).

(** ** SHA-1 *)

(** The schedule is kept newest first. *)
Fixpoint sched1 (n : nat) (w : list Z) : list Z :=
  match n with
  | O => w
  | S n => sched1 n (rotl 1 (Z.lxor (Z.lxor (nth 2 w 0) (nth 7 w 0)) (Z.lxor (nth 13 w 0) (nth 15 w 0))) :: w)
  end.

Definition round1 (st : Z * Z * Z * Z * Z) (tw : nat * Z) : Z * Z * Z * Z * Z :=
  let '(a, b, c, d, e) := st in
  let '(t, w) := tw in
  let '(f, k) :=
    if (t <? 20)%nat then (Z.lor (Z.land b c) (Z.land (not32 b) d), 0x5a827999)
    else if (t <? 40)%nat then (Z.lxor (Z.lxor b c) d, 0x6ed9eba1)
    else if (t <? 60)%nat then (Z.lor (Z.lor (Z.land b c) (Z.land b d)) (Z.land c d), 0x8f1bbcdc)
    else (Z.lxor (Z.lxor b c) d, 0xca62c1d6) in
  (u32 (rotl 5 a + f + e + k + w), a, rotl 30 b, c, d).

Definition block1 (h : Z * Z * Z * Z * Z) (ws : list Z) : Z * Z * Z * Z * Z :=
  let w := rev (sched1 64 (rev ws)) in
  let '(a, b, c, d, e) := fold_left round1 (zip (seq 0 80) w) h in
  let '(h0, h1, h2, h3, h4) := h in
  (add32 h0 a, add32 h1 b, add32 h2 c, add32 h3 d, add32 h4 e).

Definition sha1 (m : list Z) : list Z :=
  let '(a, b, c, d, e) :=
    fold_left block1 (blocks m) (0x67452301, 0xefcdab89, 0x98badcfe, 0x10325476, 0xc3d2e1f0) in
  concat (map (be_bytes 4) [a; b; c; d; e]).

(** ** SHA-256 *)

(** The constants are the first 32 bits of the fractional parts of the cube
    and square roots of the first primes. *)
Definition is_prime (n : Z) : bool :=
  forallb (λ d, negb (n mod Z.of_nat d =? 0)) (seq 2 (Z.to_nat n - 2)).
Definition primes : list Z := List.filter is_prime (map Z.of_nat (seq 2 310)).

Fixpoint icbrt (bits : nat) (n acc : Z) : Z :=
  match bits with
  | O => acc
  | S b => let c := acc + 2 ^ Z.of_nat b in icbrt b n (if c * c * c <=? n then c else acc)
  end.
Definition k256 : list Z := map (λ p, u32 (icbrt 36 (p * 2 ^ 96) 0)) primes.
Definition h256 : list Z := map (λ p, u32 (Z.sqrt (p * 2 ^ 64))) (take 8 primes).

Fixpoint sched256 (n : nat) (w : list Z) : list Z :=
  match n with
  | O => w
  | S n =>
      let w15 := nth 14 w 0 in
      let w2 := nth 1 w 0 in
      let s0 := Z.lxor (Z.lxor (rotr 7 w15) (rotr 18 w15)) (Z.shiftr w15 3) in
      let s1 := Z.lxor (Z.lxor (rotr 17 w2) (rotr 19 w2)) (Z.shiftr w2 10) in
      sched256 n (u32 (nth 15 w 0 + s0 + nth 6 w 0 + s1) :: w)
  end.

Definition round256 (st : list Z) (kw : Z * Z) : list Z :=
  match st with
  | [a; b; c; d; e; f; g; h] =>
      let s1 := Z.lxor (Z.lxor (rotr 6 e) (rotr 11 e)) (rotr 25 e) in
      let ch := Z.lxor (Z.land e f) (Z.land (not32 e) g) in
      let t1 := u32 (h + s1 + ch + kw.1 + kw.2) in
      let s0 := Z.lxor (Z.lxor (rotr 2 a) (rotr 13 a)) (rotr 22 a) in
      let maj := Z.lxor (Z.lxor (Z.land a b) (Z.land a c)) (Z.land b c) in
      [add32 t1 (u32 (s0 + maj)); a; b; c; add32 d t1; e; f; g]
  | _ => st
  end.

Definition block256 (h ws : list Z) : list Z :=
  let w := rev (sched256 48 (rev ws)) in
  map (λ p, add32 p.1 p.2) (zip h (fold_left round256 (zip k256 w) h)).

Definition sha256 (m : list Z) : list Z :=
  concat (map (be_bytes 4) (fold_left block256 (blocks m) h256)).

(** ** HMAC, for hashes with a 64-byte block *)

Definition hmac (hash : list Z → list Z) (key m : list Z) : list Z :=
  let key := if (64 <? length key)%nat then hash key else key in
  let key := key ++ replicate (64 - length key) 0 in
  hash (map (Z.lxor 0x5c) key ++ hash (map (Z.lxor 0x36) key ++ m)).

(** ** Text *)

Definition bytes (s : string) : list Z := map (λ a, Z.of_nat (nat_of_ascii a)) (String.list_ascii_of_string s).
Definition hex_digit (n : Z) : ascii := ascii_of_nat (Z.to_nat (if n <? 10 then 48 + n else 87 + n)).
Definition hex (b : list Z) : string :=
  String.string_of_list_ascii (concat (map (λ x, [hex_digit (x / 16); hex_digit (x mod 16)]) b)).

(** ** Sizes *)

Lemma length_be_bytes n x : length (be_bytes n x) = n.
Proof. revert x. induction n as [|n IH]; intros x; [done|]. simpl. rewrite length_app, IH. simpl. lia. Qed.

Lemma be_bytes_range n x b : In b (be_bytes n x) → 0 ≤ b < 256.
Proof.
  revert x. induction n as [|n IH]; intros x; simpl; [done|]. rewrite in_app_iff. intros [H|[<-|[]]]; eauto.
  apply Z.mod_pos_bound. lia.
Qed.

Lemma length_sha1 m : length (sha1 m) = 20%nat.
Proof.
  unfold sha1. destruct (fold_left block1 _ _) as [[[[a b] c] d] e].
  cbn [map concat]. by rewrite !length_app, !length_be_bytes.
Qed.

Lemma sha1_range m b : In b (sha1 m) → 0 ≤ b < 256.
Proof.
  unfold sha1. destruct (fold_left block1 _ _) as [[[[a b'] c] d] e].
  intros (l & Hl & Hb)%in_concat. apply in_map_iff in Hl as (x & <- & _). eauto using be_bytes_range.
Qed.

(** ** Test vectors: FIPS 180 ["abc"] and RFC 2202 / RFC 4231 case 2 *)

Example sha1_abc : hex (sha1 (bytes "abc")) = "a9993e364706816aba3e25717850c26c9cd0d89d".
Proof. vm_compute. reflexivity. Qed.
Example sha256_abc :
  hex (sha256 (bytes "abc")) = "ba7816bf8f01cfea414140de5dae2223b00361a396177a9cb410ff61f20015ad".
Proof. vm_compute. reflexivity. Qed.
Example hmac_sha1_jefe :
  hex (hmac sha1 (bytes "Jefe") (bytes "what do ya want for nothing?")) = "effcdf6ae5eb2fa2d27416d5f184df9c259a7c79".
Proof. vm_compute. reflexivity. Qed.
