(* ===== verification/Aes.v ===== *)
(** * AES-256 and its Galois counter mode

    Go's [crypto/aes] and [cipher.NewGCM] as FIPS 197 and NIST SP 800-38D
    define them, for 32-byte keys and 12-byte nonces, on lists of bytes held
    as [Z].  The examples at the end are published test vectors. *)

From S2P Require Import Prelude GoStrings GoTime Sha.

(** ** The cipher *)

Definition xtime (x : Z) : Z := let y := Z.shiftl x 1 in if y <? 256 then y else Z.lxor y 0x11b.
Fixpoint gmul_ (n : nat) (x y : Z) : Z :=
  match n with
  | O => 0
  | S n => Z.lxor (if Z.odd y then x else 0) (gmul_ n (xtime x) (Z.shiftr y 1))
  end.
(** The product in GF(2{^8}). *)
Definition gmul : Z → Z → Z := gmul_ 8.
(** [x^254], the inverse of [x ≠ 0]. *)
Definition ginv (x : Z) : Z :=
  let x2 := gmul x x in let x4 := gmul x2 x2 in let x8 := gmul x4 x4 in let x16 := gmul x8 x8 in
  let x32 := gmul x16 x16 in let x64 := gmul x32 x32 in let x128 := gmul x64 x64 in
  gmul (gmul (gmul x2 x4) (gmul x8 x16)) (gmul (gmul x32 x64) x128).

Definition rotl8 (n x : Z) : Z := Z.lor (Z.shiftl x n mod 256) (Z.shiftr x (8 - n)).
Definition sbox_of (x : Z) : Z :=
  let b := ginv x in
  Z.lxor (Z.lxor (Z.lxor b (rotl8 1 b)) (Z.lxor (rotl8 2 b) (rotl8 3 b))) (Z.lxor (rotl8 4 b) 0x63).
Definition sbox : list Z := Eval vm_compute in map (λ n, sbox_of (Z.of_nat n)) (seq 0 256).
Definition sub (x : Z) : Z := nth (Z.to_nat x) sbox 0.

Definition xors (a b : list Z) : list Z := map (λ p, Z.lxor p.1 p.2) (zip a b).

(** The 60 words of the key schedule, newest first. *)
Fixpoint expand (n : nat) (i : nat) (rcon : Z) (w : list (list Z)) : list (list Z) :=
  match n with
  | O => w
  | S n =>
      let t := nth 0 w [] in
      let t' :=
        if (i mod 8 =? 0)%nat then
          match map sub (drop 1 t ++ take 1 t) with b :: r => Z.lxor b rcon :: r | [] => [] end
        else if (i mod 8 =? 4)%nat then map sub t else t in
      expand n (S i) (if (i mod 8 =? 0)%nat then xtime rcon else rcon) (xors (nth 7 w []) t' :: w)
  end.
Definition round_keys (key : list Z) : list (list Z) :=
  map (@concat Z) (chunks_of 4 (rev (expand 52 8 1 (rev (chunks_of 4 key))))).

(** A state is 16 bytes, column after column. *)
Definition shift_rows (s : list Z) : list Z := map (λ i, nth ((5 * i) mod 16)%nat s 0) (seq 0 16).
Definition mix_column (c : list Z) : list Z :=
  match c with
  | [a; b; c; d] =>
      [Z.lxor (Z.lxor (gmul 2 a) (gmul 3 b)) (Z.lxor c d); Z.lxor (Z.lxor a (gmul 2 b)) (Z.lxor (gmul 3 c) d);
       Z.lxor (Z.lxor a b) (Z.lxor (gmul 2 c) (gmul 3 d)); Z.lxor (Z.lxor (gmul 3 a) b) (Z.lxor c (gmul 2 d))]
  | _ => c
  end.
Fixpoint rounds (s : list Z) (keys : list (list Z)) : list Z :=
  match keys with
  | [] => s
  | [k] => xors (shift_rows (map sub s)) k
  | k :: keys => rounds (xors (concat (map mix_column (chunks_of 4 (shift_rows (map sub s))))) k) keys
  end.
Definition encrypt_block (key block : list Z) : list Z :=
  match round_keys key with k :: keys => rounds (xors block k) keys | [] => block end.

(** ** Galois counter mode *)

Fixpoint ghash_mul (n : nat) (z v x : Z) : Z :=
  match n with
  | O => z
  | S n =>
      ghash_mul n (if Z.testbit x (Z.of_nat n) then Z.lxor z v else z)
        (if Z.odd v then Z.lxor (Z.shiftr v 1) (Z.shiftl 0xe1 120) else Z.shiftr v 1) x
  end.
Definition pad16 (l : list Z) : list Z := l ++ replicate ((16 - length l mod 16) mod 16)%nat 0.
Definition ghash (h : Z) (l : list Z) : Z :=
  fold_left (λ y block, ghash_mul 128 0 h (Z.lxor y (be32 block))) (chunks_of 16 l) 0.

(** The key stream from counter [i] on, one block per 16 bytes of data. *)
Fixpoint ctr (key nonce : list Z) (i : Z) (n : nat) : list Z :=
  match n with
  | O => []
  | S n => encrypt_block key (nonce ++ be_bytes 4 i) ++ ctr key nonce (i + 1) n
  end.
Definition keystream (key nonce : list Z) (len : nat) : list Z :=
  let k := take len (ctr key nonce 2 (len / 16 + 1)) in k ++ replicate (len - length k) 0.

Definition gcm_tag (key nonce ciphertext additional : list Z) : list Z :=
  let h := be32 (encrypt_block key (replicate 16 0)) in
  let lens := be_bytes 8 (8 * Z.of_nat (length additional)) ++ be_bytes 8 (8 * Z.of_nat (length ciphertext)) in
  be_bytes 16 (Z.lxor (ghash h (pad16 additional ++ pad16 ciphertext ++ lens))
                 (be32 (encrypt_block key (nonce ++ be_bytes 4 1)))).

Definition gcm_Seal (key nonce plain additional : list Z) : list Z :=
  let c := xors plain (keystream key nonce (length plain)) in
  c ++ gcm_tag key nonce c additional.

Definition gcm_Open (key nonce sealed additional : list Z) : option (list Z) :=
  if (length sealed <? 16)%nat then None
  else
    let n := (length sealed - 16)%nat in
    let c := take n sealed in
    if bool_decide (drop n sealed = gcm_tag key nonce c additional)
    then Some (xors c (keystream key nonce n)) else None.

(** ** What is sealed opens *)

Lemma length_keystream key nonce n : length (keystream key nonce n) = n.
Proof.
  unfold keystream. rewrite length_app, length_replicate, length_take. lia.
Qed.
Lemma length_xors a b : length a = length b → length (xors a b) = length a.
Proof. intros H. unfold xors. rewrite length_map, length_zip_with. lia. Qed.
Lemma xors_cancel a b : length a = length b → xors (xors a b) b = a.
Proof.
  revert b. induction a as [|x a IH]; intros [|y b] H; try done. simpl in *.
  unfold xors in *. simpl. f_equal; [|apply IH; lia].
  by rewrite Z.lxor_assoc, Z.lxor_nilpotent, Z.lxor_0_r.
Qed.
Lemma length_gcm_tag key nonce c ad : length (gcm_tag key nonce c ad) = 16%nat.
Proof. apply length_be_bytes. Qed.
Lemma length_gcm_Seal key nonce plain ad : length (gcm_Seal key nonce plain ad) = (length plain + 16)%nat.
Proof.
  unfold gcm_Seal. rewrite length_app, length_gcm_tag, length_xors; [done|]. by rewrite length_keystream.
Qed.

Lemma gcm_roundtrip key nonce plain ad : gcm_Open key nonce (gcm_Seal key nonce plain ad) ad = Some plain.
Proof.
  unfold gcm_Open. rewrite length_gcm_Seal. destruct (Nat.ltb_spec (length plain + 16) 16); [lia|].
  replace (length plain + 16 - 16)%nat with (length plain) by lia.
  assert (length (xors plain (keystream key nonce (length plain))) = length plain) as Hl.
  { apply length_xors. by rewrite length_keystream. }
  unfold gcm_Seal. cbv zeta. rewrite take_app_length' by done. rewrite drop_app_length' by done.
  rewrite bool_decide_true by done. by rewrite xors_cancel by by rewrite length_keystream.
Qed.

(** What opens was sealed with the same key, nonce and context. *)
Lemma gcm_Open_inv key nonce sealed ad plain :
  gcm_Open key nonce sealed ad = Some plain → sealed = gcm_Seal key nonce plain ad.
Proof.
  unfold gcm_Open. destruct (Nat.ltb_spec (length sealed) 16); [done|].
  case_bool_decide as E; [|done]. intros [= <-].
  set (n := (length sealed - 16)%nat) in *.
  assert (length (take n sealed) = n) as Hn by (rewrite length_take; lia).
  unfold gcm_Seal. cbv zeta. rewrite length_xors by by rewrite length_keystream. rewrite Hn.
  rewrite xors_cancel by by rewrite length_keystream. rewrite <- E. by rewrite take_drop.
Qed.

(** ** Test vectors: FIPS 197 C.3 and the GCM submission's cases 13, 14 and 16 *)

Example aes256 :
  hex (encrypt_block (map Z.of_nat (seq 0 32)) (map (λ n, 17 * Z.of_nat n) (seq 0 16))) = "8ea2b7ca516745bfeafc49904b496089".
Proof. vm_compute. reflexivity. Qed.
Example gcm_empty : hex (gcm_Seal (replicate 32 0) (replicate 12 0) [] []) = "530f8afbc74536b9a963b4f1c4cb738b".
Proof. vm_compute. reflexivity. Qed.
Example gcm_zeros :
  hex (gcm_Seal (replicate 32 0) (replicate 12 0) (replicate 16 0) []) =
    "cea7403d4d606b6e074ec5d3baf39d18d0d1c8a799996bf0265b98b5d48ab919".
Proof. vm_compute. reflexivity. Qed.
Definition case16_key : list Z := let half := be_bytes 16 0xfeffe9928665731c6d6a8f9467308308 in half ++ half.
Example gcm_case16 :
  hex (gcm_Seal case16_key (be_bytes 12 0xcafebabefacedbaddecaf888)
    (be_bytes 60 0xd9313225f88406e5a55909c5aff5269a86a7a9531534f7da2e4c303d8a318a721c3c0c95956809532fcf0e2449a6b525b16aedf5aa0de657ba637b39)
    (be_bytes 20 0xfeedfacedeadbeeffeedfacedeadbeefabaddad2)) =
  "522dc1f099567d07f47f37a32a84427d643a8cdcbfe5c0c97598a2bd2555d1aa8cb08e48590dbb3da7b08b1056828838c5f61e6393ba7a0abcc9f66276fc6ece0f4e1768cddf8853bb2d551b".
Proof. vm_compute. reflexivity. Qed.
