(* ===== verification/Security.v ===== *)
(** * Tokens, passwords, sealing and one-time codes
    ([internal/security/security.go], [internal/security/totp.go])

    Random bytes are arguments.  Argon2 is not part of the sources or of the
    standard library: [IDKey] is a parameter. *)

From S2P Require Import Prelude GoStrings GoTime Sha Aes.

(** ** [encoding/base64] and [encoding/base32], without padding *)

(** A byte string of a list of bytes. *)
Definition text_of (b : list Z) : string := String.string_of_list_ascii (map (λ x, ascii_of_nat (Z.to_nat x)) b).

Definition std_alphabet : string := "ABCDEFGHIJKLMNOPQRSTUVWXYZabcdefghijklmnopqrstuvwxyz0123456789+/".
Definition url_alphabet : string := "ABCDEFGHIJKLMNOPQRSTUVWXYZabcdefghijklmnopqrstuvwxyz0123456789-_".
Definition b32_alphabet : string := "ABCDEFGHIJKLMNOPQRSTUVWXYZ234567".

Definition char_at (alphabet : string) (n : Z) : ascii := default "A"%char (String.get (Z.to_nat n) alphabet).
Fixpoint index_of (c : ascii) (alphabet : string) : option Z :=
  match alphabet with
  | "" => None
  | String a s => if bool_decide (a = c) then Some 0 else Z.succ <$> index_of c s
  end.

(** Three bytes are four groups of six bits, most significant first. *)
Fixpoint sextets (b : list Z) : list Z :=
  match b with
  | [] => []
  | [x] => [x / 4; x mod 4 * 16]
  | [x; y] => [x / 4; x mod 4 * 16 + y / 16; y mod 16 * 4]
  | x :: y :: z :: b => x / 4 :: x mod 4 * 16 + y / 16 :: y mod 16 * 4 + z / 64 :: z mod 64 :: sextets b
  end.
Fixpoint of_sextets (s : list Z) : option (list Z) :=
  match s with
  | [] => Some []
  | [_] => None
  | [a; b] => Some [a * 4 + b / 16]
  | [a; b; c] => Some [a * 4 + b / 16; b mod 16 * 16 + c / 4]
  | a :: b :: c :: d :: s => cons (a * 4 + b / 16) ∘ cons (b mod 16 * 16 + c / 4) ∘ cons (c mod 4 * 64 + d) <$> of_sextets s
  end.

Definition base64_encode (alphabet : string) (b : list Z) : string :=
  String.string_of_list_ascii (map (char_at alphabet) (sextets b)).
(** Line breaks are skipped; the unused low bits of the last group are not looked at. *)
Definition base64_decode (alphabet : string) (s : string) : option (list Z) :=
  let chars := String.list_ascii_of_string (remove_byte "010"%char (remove_byte "013"%char s)) in
  mapM (λ c, index_of c alphabet) chars ≫= of_sextets.

(** Five bytes are eight groups of five bits; what is left is padded with zeros. *)
Fixpoint quintets (b : list Z) : list Z :=
  match b with
  | [] => []
  | [v] => [v / 8; v mod 8 * 4]
  | [v; w] => [v / 8; v mod 8 * 4 + w / 64; w / 2 mod 32; w mod 2 * 16]
  | [v; w; x] => [v / 8; v mod 8 * 4 + w / 64; w / 2 mod 32; w mod 2 * 16 + x / 16; x mod 16 * 2]
  | [v; w; x; y] =>
      [v / 8; v mod 8 * 4 + w / 64; w / 2 mod 32; w mod 2 * 16 + x / 16; x mod 16 * 2 + y / 128; y / 4 mod 32; y mod 4 * 8]
  | v :: w :: x :: y :: z :: b =>
      v / 8 :: v mod 8 * 4 + w / 64 :: w / 2 mod 32 :: w mod 2 * 16 + x / 16 :: x mod 16 * 2 + y / 128 ::
      y / 4 mod 32 :: y mod 4 * 8 + z / 32 :: z mod 32 :: quintets b
  end.
Definition base32_encode (b : list Z) : string :=
  String.string_of_list_ascii (map (char_at b32_alphabet) (quintets b)).

(** ** Tokens and hashes *)

(** [random] is what [rand.Read] filled 32 bytes with. *)
Definition Token (random : list Z) : string := base64_encode url_alphabet random.
Definition Hash (s : string) : string := hex (sha256 (bytes s)).
#[global] Arguments Hash : simpl never.

(** ** Passwords *)

(** [utf8.RuneCountInString]: a byte that starts no well-formed sequence
    counts as one rune. *)
Definition continuation (b : Z) : bool := (0x80 <=? b) && (b <=? 0xbf).
Definition between (lo b hi : Z) : bool := (lo <=? b) && (b <=? hi).
Definition rune_size (l : list Z) : nat :=
  match l with
  | c :: d :: r =>
      if between 0xc2 c 0xdf && continuation d then 2%nat
      else
        let three :=
          if c =? 0xe0 then between 0xa0 d 0xbf else if c =? 0xed then between 0x80 d 0x9f
          else between 0xe1 c 0xef && continuation d in
        let four :=
          if c =? 0xf0 then between 0x90 d 0xbf else if c =? 0xf4 then between 0x80 d 0x8f
          else between 0xf1 c 0xf3 && continuation d in
        match r with
        | e :: r =>
            if three && continuation e then 3%nat
            else match r with f :: _ => if four && continuation e && continuation f then 4%nat else 1%nat | [] => 1%nat end
        | [] => 1%nat
        end
  | _ => 1%nat
  end.
Fixpoint rune_count (skip : nat) (l : list Z) : nat :=
  match l, skip with
  | [], _ => 0
  | _ :: r, S k => rune_count k r
  | _ :: r, O => S (rune_count (rune_size l - 1) r)
  end%nat.
Definition RuneCount (s : string) : nat := rune_count 0 (bytes s).

Section argon2.
Context (IDKey : list Z → list Z → list Z).

Definition argon2_header : string := "$argon2id$v=19$m=65536,t=3,p=1$".
Definition password_rule : string := "password must contain at least 15 characters and at most 256 UTF-8 bytes".

Definition Password (password : string) (salt : list Z) : res string string :=
  if (RuneCount password <? 15)%nat || (256 <? slen password)%nat then Err password_rule
  else
    let sum := IDKey (bytes password) salt in
    Ok (argon2_header +:+ base64_encode std_alphabet salt +:+ "$" +:+ base64_encode std_alphabet sum).

Definition VerifyPassword (encoded password : string) : bool :=
  match split_on "$"%char encoded with
  | [_; p1; p2; p3; p4; p5] =>
      if negb (bool_decide (p1 = "argon2id")) || negb (bool_decide (p2 = "v=19"))
         || negb (bool_decide (p3 = "m=65536,t=3,p=1")) || (256 <? slen password)%nat then false
      else
        match base64_decode std_alphabet p4 with
        | Some salt =>
            if (length salt =? 16)%nat then
              match base64_decode std_alphabet p5 with
              | Some want => if (length want =? 32)%nat then bool_decide (want = IDKey (bytes password) salt) else false
              | None => false
              end
            else false
        | None => false
        end
  | _ => false
  end.
End argon2.

(** ** The vault *)

Definition NonceSize : nat := 12.

Definition NewVault (key : list Z) : res string (list Z) :=
  if (length key =? 32)%nat then Ok key else Err "installation key must contain 32 bytes".

(** What [os.Stat] and [os.ReadFile] answer about the key file. *)
Record KeyFile := mkKeyFile { kf_Regular : bool; kf_Perm : Z; kf_Content : option (list Z) }.
Definition LoadVault (file : option KeyFile) : res string (list Z) :=
  match file with
  | None => Err "no such file"
  | Some f =>
      if negb (kf_Regular f) || negb (Z.land (kf_Perm f) 63 =? 0)
      then Err "installation key permissions must be 0600 or stricter"
      else match kf_Content f with Some b => NewVault b | None => Err "the file cannot be read" end
  end.

Definition vault_context (context : string) : list Z := bytes ("pgfy:v1:" +:+ context).
Definition Seal (key nonce : list Z) (context : string) (plain : list Z) : string :=
  "v1:" +:+ base64_encode url_alphabet (nonce ++ gcm_Seal key nonce plain (vault_context context)).
Definition Open (key : list Z) (context encoded : string) : res string (list Z) :=
  if negb (has_prefix encoded "v1:") then Err "unsupported secret version"
  else
    match base64_decode url_alphabet (trim_prefix encoded "v1:") with
    | Some b =>
        if (length b <? NonceSize)%nat then Err "invalid encrypted secret"
        else
          match gcm_Open key (take NonceSize b) (drop NonceSize b) (vault_context context) with
          | Some plain => Ok plain
          | None => Err "cipher: message authentication failed"
          end
    | None => Err "invalid encrypted secret"
    end.

Definition CSRF (key : list Z) (session scope : string) : string :=
  base64_encode url_alphabet (hmac sha256 key (bytes ("csrf:" +:+ scope +:+ ":" +:+ session))).

(** ** One-time codes *)

Definition TOTPPeriod : Z := 30.
Definition TOTPDigits : nat := 6.

(** In groups of four characters. *)
Fixpoint groups_of_four (fuel : nat) (s : string) : list string :=
  match fuel with
  | O => []
  | S fuel => match s with "" => [] | _ => stake 4 s :: groups_of_four fuel (sdrop 4 s) end
  end.
Definition TOTPKey (secret : list Z) : string :=
  let encoded := base32_encode secret in join " " (groups_of_four (slen encoded) encoded).

(** A [uint64] counter and [uint32] arithmetic. *)
Fixpoint modulus (digits : nat) : Z := match digits with O => 1 | S d => u32 (modulus d * 10) end.
Definition HOTP (secret : list Z) (counter : Z) (digits : nat) : string :=
  let sum := hmac sha1 secret (be_bytes 8 counter) in
  let offset := Z.to_nat (Z.land (nth (length sum - 1) sum 0) 15) in
  let value := Z.land (be32 (take 4 (drop offset sum))) 0x7fffffff in
  pad digits (value mod modulus digits).

(** Integer division truncates towards zero. *)
Definition TOTPStep (now : time) : Z := Z.quot (unix now) TOTPPeriod.
Definition TOTPCode (secret : list Z) (step : Z) : string := HOTP secret (step mod 2 ^ 64) TOTPDigits.
#[global] Arguments TOTPCode : simpl never.
#[global] Arguments HOTP : simpl never.

Fixpoint try_steps (secret : list Z) (code : string) (lastStep : Z) (candidates : list Z) : Z * bool * bool :=
  match candidates with
  | [] => (0, false, false)
  | c :: cs =>
      if bool_decide (TOTPCode secret c = code)
      then if c <=? lastStep then (c, false, true) else (c, true, false)
      else try_steps secret code lastStep cs
  end.
Definition clean_code (code : string) : string := remove_byte " "%char (TrimSpace code).
(** The accepted step, whether it is accepted, and whether it was used before. *)
Definition VerifyTOTP (secret : list Z) (code : string) (now : time) (lastStep : Z) : Z * bool * bool :=
  let code := clean_code code in
  if negb (slen code =? TOTPDigits)%nat then (0, false, false)
  else
    let current := TOTPStep now in
    try_steps secret code lastStep [current - 1; current; current + 1].

(** ** Encodings are inverse *)

Definition is_byte (x : Z) : Prop := 0 ≤ x < 256.
Definition is_sextet (x : Z) : Prop := 0 ≤ x < 64.

(** Lists are treated three bytes at a time. *)
Lemma triple_ind (P : list Z → Prop) :
  P [] → (∀ x, P [x]) → (∀ x y, P [x; y]) → (∀ x y z l, P l → P (x :: y :: z :: l)) → ∀ l, P l.
Proof.
  intros H0 H1 H2 H3. fix IH 1. intros [|x [|y [|z l]]]; [done|apply H1|apply H2|]. apply H3, IH.
Qed.

Lemma sextets_range b : Forall is_byte b → Forall is_sextet (sextets b).
Proof.
  induction b using triple_ind; intros Hb; rewrite ?Forall_cons in Hb; unfold is_byte, is_sextet in *;
    destruct_and?; simpl; repeat apply Forall_cons_2; auto; div_lia.
Qed.

Lemma of_sextets_sextets b : Forall is_byte b → of_sextets (sextets b) = Some b.
Proof.
  induction b using triple_ind; intros Hb; rewrite ?Forall_cons in Hb; unfold is_byte in *; simpl; [done| | |].
  - repeat f_equal. div_lia.
  - repeat f_equal; div_lia.
  - rewrite IHb by apply Hb. simpl. repeat f_equal; div_lia.
Qed.

Definition good_alphabet (s : string) : bool :=
  List.forallb (λ n, let c := char_at s (Z.of_nat n) in
    bool_decide (index_of c s = Some (Z.of_nat n)) && negb (bool_decide (c = "010"%char)) &&
    negb (bool_decide (c = "013"%char)) && negb (bool_decide (c = "$"%char))) (seq 0 64).
Lemma good_alphabets : good_alphabet std_alphabet = true ∧ good_alphabet url_alphabet = true.
Proof. split; vm_compute; reflexivity. Qed.

Section alphabet.
Context (alphabet : string) (good : good_alphabet alphabet = true).

Lemma char_at_good n : is_sextet n → let c := char_at alphabet n in
  index_of c alphabet = Some n ∧ c ≠ "010"%char ∧ c ≠ "013"%char ∧ c ≠ "$"%char.
Proof.
  intros Hn. pose proof good as G. unfold good_alphabet in G. rewrite List.forallb_forall in G.
  specialize (G (Z.to_nat n)). rewrite Z2Nat.id in G by (unfold is_sextet in Hn; lia).
  cbv zeta in *. rewrite !andb_true_iff, !negb_true_iff, !bool_decide_eq_true, !bool_decide_eq_false in G.
  destruct G as [[[? ?] ?] ?]; [|done]. apply in_seq. unfold is_sextet in Hn. lia.
Qed.

Lemma remove_byte_id c s : contains_byte c s = false → remove_byte c s = s.
Proof.
  induction s as [|a s IH]; [done|]. unfold contains_byte. simpl. intros [H1 H2]%orb_false_iff.
  rewrite H1. f_equal. by apply IH.
Qed.
Lemma contains_byte_map c (f : Z → ascii) l :
  (∀ n, In n l → f n ≠ c) → contains_byte c (String.string_of_list_ascii (map f l)) = false.
Proof.
  unfold contains_byte. induction l as [|n l IH]; intros H; [done|]. simpl.
  rewrite bool_decide_false by (apply H; by left). apply IH. intros m Hm. apply H. by right.
Qed.

Lemma encode_no_byte c b : Forall is_byte b → (c = "010"%char ∨ c = "013"%char ∨ c = "$"%char) →
  contains_byte c (base64_encode alphabet b) = false.
Proof.
  intros Hb Hc. apply contains_byte_map. intros n Hn.
  apply sextets_range in Hb. rewrite Forall_forall in Hb. specialize (Hb n (proj2 (list_elem_of_In _ _) Hn)).
  destruct (char_at_good n Hb) as (_ & H1 & H2 & H3). naive_solver.
Qed.

Lemma decode_encode b : Forall is_byte b → base64_decode alphabet (base64_encode alphabet b) = Some b.
Proof.
  intros Hb. unfold base64_decode.
  rewrite (remove_byte_id "013"%char), (remove_byte_id "010"%char) by (apply encode_no_byte; auto).
  unfold base64_encode. rewrite String.list_ascii_of_string_of_list_ascii.
  assert (mapM (λ c, index_of c alphabet) (map (char_at alphabet) (sextets b)) = Some (sextets b)) as ->.
  { apply sextets_range in Hb. induction Hb as [|n l Hn _ IH]; [done|].
    cbn [map mapM]. rewrite (proj1 (char_at_good n Hn)). cbn. by rewrite IH. }
  simpl. by apply of_sextets_sextets.
Qed.
End alphabet.

Lemma length_sextets b : length (sextets b) = ((4 * length b + 2) / 3)%nat.
Proof.
  induction b using triple_ind; try done. cbn [sextets length]. rewrite IHb.
  replace (4 * S (S (S (length b))) + 2)%nat with (4 * length b + 2 + 4 * 3)%nat by lia.
  rewrite Nat.div_add by lia. lia.
Qed.

(** A fresh token has the 43 characters every step of signing in asks for. *)
Lemma slen_Token random : length random = 32%nat → slen (Token random) = 43%nat.
Proof.
  intros H. unfold Token, base64_encode. by rewrite slen_of_list, length_map, length_sextets, H.
Qed.

Lemma is_byte_bytes s : Forall is_byte (bytes s).
Proof.
  unfold bytes. induction s as [|a s IH]; simpl; constructor; [|done].
  unfold is_byte. pose proof (nat_ascii_bounded a). lia.
Qed.
Lemma text_of_bytes s : text_of (bytes s) = s.
Proof.
  unfold text_of, bytes. induction s as [|a s IH]; [done|]. simpl. rewrite Nat2Z.id, ascii_nat_embedding. by f_equal.
Qed.
Lemma bytes_text_of b : Forall is_byte b → bytes (text_of b) = b.
Proof.
  unfold text_of, bytes. rewrite String.list_ascii_of_string_of_list_ascii, List.map_map.
  induction 1 as [|x b Hx _ IH]; [done|]. simpl. rewrite IH. unfold is_byte in Hx.
  rewrite nat_ascii_embedding by lia. f_equal. lia.
Qed.

(** ** What the cipher produces are bytes *)

Lemma lxor_byte x y : is_byte x → is_byte y → is_byte (Z.lxor x y).
Proof.
  unfold is_byte. intros Hx Hy. split; [apply Z.lxor_nonneg; lia|].
  destruct (Z.eq_dec (Z.lxor x y) 0) as [->|]; [lia|]. apply Z.log2_lt_cancel.
  change (Z.log2 256) with 8. eapply Z.le_lt_trans; [apply Z.log2_lxor; lia|].
  assert (∀ z, 0 ≤ z < 256 → Z.log2 z < 8) as H.
  { intros z Hz. destruct (Z.eq_dec z 0) as [->|]; [done|]. apply Z.log2_lt_pow2; lia. }
  apply Z.max_lub_lt; auto.
Qed.

Lemma xors_bytes a b : Forall is_byte a → Forall is_byte b → Forall is_byte (xors a b).
Proof.
  intros Ha. revert b. induction Ha as [|x a Hx _ IH]; intros [|y b] Hb; try apply Forall_nil_2.
  apply Forall_cons in Hb as [Hy Hb]. unfold xors. simpl. apply Forall_cons_2; [by apply lxor_byte|]. by apply IH.
Qed.

Lemma nth_bytes n l : Forall is_byte l → is_byte (nth n l 0).
Proof.
  intros H. revert n. induction H; intros [|n]; simpl; auto; unfold is_byte in *; lia.
Qed.
Lemma sub_byte x : is_byte (sub x).
Proof.
  apply nth_bytes, Forall_forall. intros y Hy. unfold is_byte.
  assert (List.forallb (λ z, (0 <=? z) && (z <? 256)) sbox = true) as E by (vm_compute; reflexivity).
  rewrite List.forallb_forall in E. specialize (E y (proj1 (list_elem_of_In _ _) Hy)). lia.
Qed.
Lemma xtime_byte x : is_byte x → is_byte (xtime x).
Proof.
  intros Hx. assert (List.forallb (λ n, let z := xtime (Z.of_nat n) in (0 <=? z) && (z <? 256)) (seq 0 256) = true) as E
    by (vm_compute; reflexivity).
  rewrite List.forallb_forall in E. specialize (E (Z.to_nat x)). unfold is_byte in *.
  rewrite Z2Nat.id in E by lia. cbv zeta in E.
  assert (In (Z.to_nat x) (seq 0 256)) as I by (apply in_seq; lia). specialize (E I). lia.
Qed.
Lemma map_sub_bytes l : Forall is_byte (map sub l).
Proof. induction l; simpl; constructor; auto using sub_byte. Qed.

Definition words (w : list (list Z)) : Prop := Forall (Forall is_byte) w.
Lemma nth_words n w : words w → Forall is_byte (nth n w []).
Proof. intros H. revert n. induction H; intros [|n]; simpl; auto; apply Forall_nil_2. Qed.

Lemma expand_words n i rcon w : is_byte rcon → words w → words (expand n i rcon w).
Proof.
  revert i rcon w. induction n as [|n IH]; intros i rcon w Hr Hw; simpl; [done|].
  apply IH; [destruct (_ =? _)%nat; auto using xtime_byte|]. apply Forall_cons_2; [|done].
  apply xors_bytes; [by apply nth_words|].
  destruct (_ =? 0)%nat; [|destruct (_ =? 4)%nat; [apply map_sub_bytes|by apply nth_words]].
  pose proof (map_sub_bytes (drop 1 (nth 0 w []) ++ take 1 (nth 0 w []))) as H.
  destruct (map sub _) as [|b r]; [done|]. apply Forall_cons in H as [H1 H2].
  apply Forall_cons_2; auto using lxor_byte.
Qed.

Lemma chunks_forall {A} (P : A → Prop) fuel n l : Forall P l → Forall (Forall P) (chunks fuel n l).
Proof.
  revert l. induction fuel as [|f IH]; intros l H; simpl; [apply Forall_nil_2|].
  destruct l as [|a l]; [apply Forall_nil_2|]. apply Forall_cons_2; [by apply Forall_take|]. by apply IH, Forall_drop.
Qed.

Lemma round_keys_words key : Forall is_byte key → words (round_keys key).
Proof.
  intros Hk. unfold round_keys, words. apply Forall_map.
  eapply Forall_impl; [apply chunks_forall, Forall_rev|].
  - apply expand_words; [unfold is_byte; lia|]. apply Forall_rev, chunks_forall, Hk.
  - intros l Hl. by apply Forall_concat.
Qed.

Lemma shift_rows_bytes s : Forall is_byte s → Forall is_byte (shift_rows s).
Proof. intros H. unfold shift_rows. apply Forall_map, Forall_forall. intros i _. by apply nth_bytes. Qed.

Lemma rounds_bytes s keys : keys ≠ [] → words keys → Forall is_byte (rounds s keys).
Proof.
  revert s. induction keys as [|k keys IH]; intros s Hn Hk; [done|]. apply Forall_cons in Hk as [Hk Hks].
  destruct keys as [|k' keys]; [|by apply IH].
  simpl. apply xors_bytes; [apply shift_rows_bytes, map_sub_bytes|done].
Qed.

Lemma encrypt_block_bytes key block : Forall is_byte key → Forall is_byte block → Forall is_byte (encrypt_block key block).
Proof.
  intros Hk Hb. apply round_keys_words in Hk. unfold encrypt_block. destruct (round_keys key) as [|k keys]; [done|].
  apply Forall_cons in Hk as [Hk Hks]. destruct keys; [by apply xors_bytes|]. by apply rounds_bytes.
Qed.
Lemma be_bytes_bytes n x : Forall is_byte (be_bytes n x).
Proof. apply Forall_forall. intros b Hb. by eapply be_bytes_range, list_elem_of_In. Qed.

Lemma ctr_bytes key nonce i n : Forall is_byte key → Forall is_byte nonce → Forall is_byte (ctr key nonce i n).
Proof.
  intros Hk Hn. revert i. induction n as [|n IH]; intros i; cbn [ctr]; [apply Forall_nil_2|].
  apply Forall_app_2; [|done]. apply encrypt_block_bytes; [done|]. apply Forall_app_2; [done|apply be_bytes_bytes].
Qed.
Lemma keystream_bytes key nonce n : Forall is_byte key → Forall is_byte nonce → Forall is_byte (keystream key nonce n).
Proof.
  intros Hk Hn. apply Forall_app_2; [by apply Forall_take, ctr_bytes|]. apply Forall_replicate. unfold is_byte. lia.
Qed.
Lemma gcm_Seal_bytes key nonce plain ad :
  Forall is_byte key → Forall is_byte nonce → Forall is_byte plain → Forall is_byte (gcm_Seal key nonce plain ad).
Proof.
  intros. apply Forall_app_2; [|apply be_bytes_bytes]. apply xors_bytes; [done|]. by apply keystream_bytes.
Qed.

(** ** The vault *)

Lemma Open_Seal key nonce context plain :
  Forall is_byte key → Forall is_byte nonce → length nonce = NonceSize → Forall is_byte plain →
  Open key context (Seal key nonce context plain) = Ok plain.
Proof.
  intros Hk Hn Hl Hp. unfold Open, Seal. rewrite has_prefix_app, trim_prefix_app. cbn [negb].
  rewrite (decode_encode _ (proj2 good_alphabets)) by (apply Forall_app_2; [done|by apply gcm_Seal_bytes]).
  destruct (Nat.ltb_spec (length (nonce ++ gcm_Seal key nonce plain (vault_context context))) NonceSize) as [H|_].
  { rewrite length_app in H. lia. }
  rewrite <- Hl, take_app_length, drop_app_length, gcm_roundtrip. done.
Qed.

(** C39. A value sealed by the vault opens again under the same key and
    context, and nothing else opens: an accepted text is, after its version
    and encoding, a nonce followed by exactly what sealing that value under
    this key, this nonce and this context gives. *)
Theorem vault_exact key nonce context plain :
  Forall is_byte key → Forall is_byte nonce → length nonce = NonceSize → Forall is_byte plain →
  Open key context (Seal key nonce context plain) = Ok plain ∧
  ∀ context' encoded plain', Open key context' encoded = Ok plain' →
    ∃ body n, encoded = "v1:" +:+ body ∧ length n = NonceSize ∧
      base64_decode url_alphabet body = Some (n ++ gcm_Seal key n plain' (vault_context context')).
Proof.
  intros Hk Hn Hl Hp. split; [by apply Open_Seal|]. intros context' encoded plain'. unfold Open.
  destruct (has_prefix encoded "v1:") eqn:Ep; [|done]. apply has_prefix_inv in Ep as [body ->].
  rewrite trim_prefix_app. cbn [negb]. destruct (base64_decode url_alphabet body) as [b|] eqn:Eb; [|done].
  destruct (Nat.ltb_spec (length b) NonceSize); [done|].
  destruct (gcm_Open _ _ _ _) as [p|] eqn:Eo; [|done]. intros [= <-]. apply gcm_Open_inv in Eo.
  exists body, (take NonceSize b). rewrite <- Eo, take_drop. rewrite length_take_le by done. done.
Qed.
Lemma vault_exact_witness :
  Open (replicate 32 7) "project:1" (Seal (replicate 32 7) (replicate 12 9) "project:1" (bytes "secret")) = Ok (bytes "secret").
Proof.
  apply (vault_exact (replicate 32 7) (replicate 12 9) "project:1" (bytes "secret"));
    try (apply Forall_replicate; unfold is_byte; lia); [reflexivity|apply is_byte_bytes].
Defined.

(** The key is only accepted from a file nobody else can touch. *)
Lemma LoadVault_strict file key :
  LoadVault file = Ok key → ∃ f, file = Some f ∧ kf_Regular f = true ∧ Z.land (kf_Perm f) 63 = 0 ∧ length key = 32%nat.
Proof.
  unfold LoadVault, NewVault. destruct file as [f|]; [|done].
  destruct (kf_Regular f) eqn:Er, (Z.land (kf_Perm f) 63 =? 0) eqn:Ep; try done. cbn [negb orb].
  destruct (kf_Content f) as [b|]; [|done]. destruct (length b =? 32)%nat eqn:El; [|done]. intros [= <-].
  exists f. apply Nat.eqb_eq in El. apply Z.eqb_eq in Ep. auto.
Qed.

(** ** Passwords *)

Lemma no_dollar c b : Forall is_byte b → good_alphabet c = true → contains_byte "$"%char (base64_encode c b) = false.
Proof. intros Hb Hg. apply encode_no_byte; auto. Qed.

(** A password is accepted for an account exactly when it has at least 15
    characters and at most 256 bytes; the stored text then verifies that
    password, and another one only if Argon2 maps it to the same key. *)
Theorem password_roundtrip IDKey password salt :
  (∀ p s, length (IDKey p s) = 32%nat ∧ Forall is_byte (IDKey p s)) →
  length salt = 16%nat → Forall is_byte salt →
  (is_ok (Password IDKey password salt) = true ↔ (15 ≤ RuneCount password)%nat ∧ (slen password ≤ 256)%nat) ∧
  ∀ h, Password IDKey password salt = Ok h →
    VerifyPassword IDKey h password = true ∧
    ∀ other, VerifyPassword IDKey h other = true ↔
      (slen other ≤ 256)%nat ∧ IDKey (bytes other) salt = IDKey (bytes password) salt.
Proof.
  intros Hkey Hsalt Hs. unfold Password.
  destruct (Nat.ltb_spec (RuneCount password) 15), (Nat.ltb_spec 256 (slen password)); cbn [orb is_ok];
    (split; [split; [done || lia|intros; done || lia]|]); try done.
  intros h [= <-].
  enough (∀ other, VerifyPassword IDKey (argon2_header +:+ base64_encode std_alphabet salt +:+ "$" +:+
      base64_encode std_alphabet (IDKey (bytes password) salt)) other = true ↔
    (slen other ≤ 256)%nat ∧ IDKey (bytes other) salt = IDKey (bytes password) salt) as H' by (split; [by apply H'|done]).
  intros other. destruct (Hkey (bytes password) salt) as [Hlen Hby]. unfold VerifyPassword.
  pose proof (proj1 good_alphabets) as Hg.
  assert (split_on "$"%char (argon2_header +:+ base64_encode std_alphabet salt +:+ "$" +:+
      base64_encode std_alphabet (IDKey (bytes password) salt)) =
    [""; "argon2id"; "v=19"; "m=65536,t=3,p=1"; base64_encode std_alphabet salt;
     base64_encode std_alphabet (IDKey (bytes password) salt)]) as ->.
  { set (x := base64_encode _ salt). set (y := base64_encode _ _).
    change (argon2_header +:+ x +:+ "$" +:+ y) with ("" +:+ String "$" ("argon2id" +:+ String "$" ("v=19" +:+ String "$"
      ("m=65536,t=3,p=1" +:+ String "$" (x +:+ String "$" y))))).
    rewrite !split_on_app by (done || by apply no_dollar). by rewrite split_on_single by by apply no_dollar. }
  rewrite !bool_decide_true by done. cbn [negb orb]. rewrite !(decode_encode _ Hg), Hsalt, Hlen by done.
  cbn [Nat.eqb]. destruct (Nat.ltb_spec 256 (slen other)); [split; [done|lia]|].
  rewrite bool_decide_eq_true. split; [intros ->; auto|intros [_ ->]; done].
Qed.
(** A stand-in for Argon2: 32 bytes that depend on both arguments. *)
Definition sample_IDKey (p s : list Z) : list Z := be_bytes 32 (be32 (p ++ s)).
Lemma password_roundtrip_witness :
  VerifyPassword sample_IDKey
    (match Password sample_IDKey "a sufficiently long passphrase" (replicate 16 1) with Ok h => h | Err _ => "" end)
    "a sufficiently long passphrase" = true.
Proof.
  destruct (password_roundtrip sample_IDKey "a sufficiently long passphrase" (replicate 16 1)) as [_ H].
  - intros p s. split; [apply length_be_bytes|apply be_bytes_bytes].
  - reflexivity.
  - apply Forall_replicate. unfold is_byte. lia.
  - refine (proj1 (H _ _)). vm_compute. reflexivity.
Defined.

(** ** One-time codes *)

Lemma HOTP_digits secret counter :
  slen (HOTP secret counter TOTPDigits) = TOTPDigits ∧ sforall is_digit (HOTP secret counter TOTPDigits) = true.
Proof.
  unfold HOTP. set (v := _ mod _). assert (pad TOTPDigits v = digits TOTPDigits v) as ->.
  { apply pad_digits; [unfold TOTPDigits; lia|]. unfold v. change (modulus TOTPDigits) with 1000000.
    change (10 ^ Z.of_nat TOTPDigits) with 1000000. apply Z.mod_pos_bound. lia. }
  split; [apply slen_digits|apply sforall_digits].
Qed.

Lemma slen_TOTPCode secret s : slen (TOTPCode secret s) = TOTPDigits.
Proof. exact (proj1 (HOTP_digits secret (s mod 2 ^ 64))). Qed.

(** C40. A code is accepted only for a step at most one period away from the
    clock, and only for a step later than the last accepted one; a code whose
    first match is an old step is reported as reused, and one that is reported
    as wrong matches no step of the window.  Conversely the code of a new step
    in the window is accepted, as that step, unless an earlier step of the
    window has the same code. *)
Theorem VerifyTOTP_window secret code now lastStep step ok reused :
  VerifyTOTP secret code now lastStep = (step, ok, reused) →
  (ok = true → Z.abs (step - TOTPStep now) ≤ 1 ∧ lastStep < step ∧ TOTPCode secret step = clean_code code) ∧
  (reused = true → ok = false ∧ Z.abs (step - TOTPStep now) ≤ 1 ∧ step ≤ lastStep ∧ TOTPCode secret step = clean_code code) ∧
  (ok = false → reused = false → ∀ s, Z.abs (s - TOTPStep now) ≤ 1 → TOTPCode secret s ≠ clean_code code) ∧
  (∀ s, Z.abs (s - TOTPStep now) ≤ 1 → lastStep < s → TOTPCode secret s = clean_code code →
    (∀ s', TOTPStep now - 1 ≤ s' < s → TOTPCode secret s' ≠ clean_code code) → (step, ok, reused) = (s, true, false)).
Proof.
  set (n := TOTPStep now). unfold VerifyTOTP. pose proof (slen_TOTPCode secret) as Hlen.
  destruct (Nat.eqb_spec (slen (clean_code code)) TOTPDigits) as [El|El]; cbn [negb].
  2: { intros [= <- <- <-]. repeat split; try done.
    - intros _ _ s _ E. apply El. by rewrite <- E.
    - intros s _ _ E. exfalso. apply El. by rewrite <- E. }
  intros E. fold n in E. revert E. clear El Hlen. clearbody n. cbn [try_steps]. generalize (clean_code code). intros c.
  generalize (TOTPCode secret). intros f E.
  assert ((ok = true ∧ reused = false ∧ Z.abs (step - n) ≤ 1 ∧ lastStep < step ∧ f step = c ∧
             ∀ s, n - 1 ≤ s < step → f s ≠ c) ∨
          (ok = false ∧ reused = true ∧ Z.abs (step - n) ≤ 1 ∧ step ≤ lastStep ∧ f step = c) ∨
          (ok = false ∧ reused = false ∧ ∀ s, Z.abs (s - n) ≤ 1 → f s ≠ c)) as Hc.
  { repeat case_bool_decide; try destruct (_ <=? _) eqn:El; revert E; intros [= <- <- <-]; bool_simpl.
    all: try (left; split_and!; [done|done|lia|lia|done|]; intros s Hs;
      first [lia | assert (s = n - 1) as -> by lia; done | assert (s = n - 1 ∨ s = n) as [->| ->] by lia; done]).
    all: try (right; left; split_and!; [done|done|lia|lia|done]).
    right; right. split_and!; [done|done|]. intros s Hs.
    by assert (s = n - 1 ∨ s = n ∨ s = n + 1) as [->|[->| ->]] by lia. }
  destruct Hc as [(-> & -> & H1 & H2 & H3 & H4)|[(-> & -> & H1 & H2 & H3)|(-> & -> & H1)]]; split_and!; try done.
  - intros s Hs Hl Hcode Hfirst. destruct (Z.lt_trichotomy step s) as [H|[->|H]]; [|done|].
    + by destruct (Hfirst step); [lia|].
    + by destruct (H4 s); [lia|].
  - intros s Hs Hl Hcode Hfirst. by destruct (Hfirst step); [lia|].
  - intros s Hs Hl Hcode Hfirst. by destruct (H1 s).
Qed.
Definition rfc_secret : list Z := bytes "12345678901234567890".
Lemma VerifyTOTP_window_witness :
  let now := of_unix 1111111109 in
  VerifyTOTP rfc_secret " 081 804 " now 0 = (37037036, true, false) ∧ 0 < 37037036 ∧
  TOTPCode rfc_secret 37037036 = clean_code " 081 804 ".
Proof.
  cbv zeta. assert (VerifyTOTP rfc_secret " 081 804 " (of_unix 1111111109) 0 = (37037036, true, false)) as E
    by (vm_compute; reflexivity).
  split; [exact E|].
  destruct (VerifyTOTP_window rfc_secret " 081 804 " (of_unix 1111111109) 0 37037036 true false E) as (H & _).
  exact (proj2 (H eq_refl)).
Defined.

(** RFC 6238, appendix B: SHA-1, eight digits. *)
Example HOTP_vectors :
  map (λ unix, HOTP rfc_secret (Z.quot unix TOTPPeriod) 8) [59; 1111111109; 1111111111; 1234567890; 2000000000; 20000000000] =
  ["94287082"; "07081804"; "14050471"; "89005924"; "69279037"; "65353130"].
Proof. vm_compute. reflexivity. Qed.
Example TOTPKey_vector : TOTPKey rfc_secret = "GEZD GNBV GY3T QOJQ GEZD GNBV GY3T QOJQ".
Proof. vm_compute. reflexivity. Qed.
(** A code used at its step is refused a second time. *)
Example replay_is_reported : VerifyTOTP rfc_secret "081804" (of_unix 1111111109) 37037036 = (37037036, false, true).
Proof. vm_compute. reflexivity. Qed.
