(* ===== verification/Migrate.v ===== *)
(** * Schema migrations ([migrationFiles] and [migrate] of [internal/store/store.go])

    The embedded SQL files are applied in name order inside one transaction
    that also records each name with the hash of its text.  What SQLite does
    with a script is the parameter [exec_sql] on an abstract schema; the
    transaction is all or nothing, so an error gives back the database as it
    was.  A second run, an edited file and a database from a newer release are
    the cases that matter. *)

From S2P Require Import Prelude GoStrings Sha Security.

Record migrationFile := mkMigrationFile { mf_name : string; mf_body : string }.
#[export] Instance migrationFile_eq_dec : EqDecision migrationFile.
Proof. solve_decision. Defined.

Inductive migration_error :=
| UnreadableSource | UnsupportedMigration | NewerSchema | ChecksumMismatch | MigrationFailed (name : string).

(** The directories that are embedded, each read with its files or not; all
    files by name. *)
Definition name_order (files : list migrationFile) : list migrationFile := sql_order (key_leb mf_name String.leb) files.
Fixpoint read_sources (sources : list (option (list migrationFile))) : option (list migrationFile) :=
  match sources with
  | [] => Some []
  | None :: _ => None
  | Some files :: rest => (app files) <$> read_sources rest
  end.
Definition migrationFiles (sources : list (option (list migrationFile))) : option (list migrationFile) :=
  name_order <$> read_sources sources.

(** [schema_migrations], name and checksum, next to everything else. *)
Record Versioned (S : Type) := mkVersioned { v_applied : list (string * string); v_schema : S }.
Arguments mkVersioned {S} _ _.
Arguments v_applied {S} _.
Arguments v_schema {S} _.

Definition checksum (f : migrationFile) : string := Hash (mf_body f).
Definition recorded (name : string) (applied : list (string * string)) : option string :=
  snd <$> sql_find (λ r : string * string, bool_decide (r.1 = name)) applied.
Definition known (files : list migrationFile) (name : string) : bool := List.existsb (λ f, bool_decide (mf_name f = name)) files.

Section migrate.
Context {S : Type} (exec_sql : string → S → option S).

Definition apply_one (f : migrationFile) (v : Versioned S) : res migration_error (Versioned S) :=
  match recorded (mf_name f) (v_applied v) with
  | Some existing => if bool_decide (existing = checksum f) then Ok v else Err ChecksumMismatch
  | None =>
      match exec_sql (mf_body f) (v_schema v) with
      | None => Err (MigrationFailed (mf_name f))
      | Some schema => Ok (mkVersioned (v_applied v ++ [(mf_name f, checksum f)]) schema)
      end
  end.
Fixpoint apply_all (files : list migrationFile) (v : Versioned S) : res migration_error (Versioned S) :=
  match files with
  | [] => Ok v
  | f :: files => let! v := apply_one f v in apply_all files v
  end.

(** The body of the transaction. *)
Definition migration (sources : list (option (list migrationFile))) (v : Versioned S) : res migration_error (Versioned S) :=
  match migrationFiles sources with
  | None => Err UnreadableSource
  | Some files =>
      guard! forallb (λ r : string * string, known files r.1) (v_applied v) else UnsupportedMigration in
      guard! negb (length files <? length (v_applied v))%nat else NewerSchema in
      apply_all files v
  end.
Definition migrate (sources : list (option (list migrationFile))) (v : Versioned S) : res migration_error unit * Versioned S :=
  match migration sources v with Ok v' => (Ok tt, v') | Err e => (Err e, v) end.

(** ** What a run does *)

(** The scripts that are missing, in order, on the schema. *)
Fixpoint run_scripts (files : list migrationFile) (schema : S) : option S :=
  match files with
  | [] => Some schema
  | f :: files => exec_sql (mf_body f) schema ≫= run_scripts files
  end.
Definition missing (applied : list (string * string)) (files : list migrationFile) : list migrationFile :=
  List.filter (λ f, bool_decide (recorded (mf_name f) applied = None)) files.
Definition agrees (applied : list (string * string)) (f : migrationFile) : bool :=
  match recorded (mf_name f) applied with Some c => bool_decide (c = checksum f) | None => true end.
Definition row_of (f : migrationFile) : string * string := (mf_name f, checksum f).

Lemma recorded_app name l l' : recorded name (l ++ l') = match recorded name l with Some c => Some c | None => recorded name l' end.
Proof. unfold recorded, sql_find. induction l as [|x l IH]; [done|]. cbn. by case_bool_decide. Qed.
Lemma recorded_other name f : mf_name f ≠ name → recorded name [row_of f] = None.
Proof. intros H. unfold recorded, sql_find. cbn. by rewrite bool_decide_false. Qed.
Lemma recorded_in name applied c : recorded name applied = Some c → In (name, c) applied.
Proof.
  unfold recorded. destruct (sql_find _ _) as [[n c']|] eqn:E; [|done]. intros [= <-]. apply sql_find_some in E as [Hin E].
  apply bool_decide_eq_true in E. cbn in E. by subst.
Qed.
Lemma recorded_none name applied : recorded name applied = None ↔ ∀ c, ¬ In (name, c) applied.
Proof.
  unfold recorded, sql_find. induction applied as [|[n c] l IH]; [naive_solver|]. cbn. case_bool_decide as E; cbn in E.
  - subst. split; [done|]. intros H. destruct (H c). by left.
  - rewrite IH. split; [|naive_solver]. intros H c' [Heq|Hin]; [naive_solver|]. by eapply H.
Qed.

(** A later script does not look at what an earlier one recorded. *)
Lemma after_one f files (v : Versioned S) : NoDup (map mf_name (f :: files)) →
  missing (v_applied v ++ [row_of f]) files = missing (v_applied v) files ∧
  forallb (agrees (v_applied v ++ [row_of f])) files = forallb (agrees (v_applied v)) files.
Proof.
  intros [Hn _]%NoDup_cons.
  assert (∀ g, In g files → recorded (mf_name g) (v_applied v ++ [row_of f]) = recorded (mf_name g) (v_applied v)) as H.
  { intros g Hg. rewrite recorded_app. destruct (recorded _ (v_applied v)); [done|]. apply recorded_other.
    intros Heq. destruct Hn. rewrite Heq. apply list_elem_of_In, in_map, Hg. }
  split.
  - apply List.filter_ext_in. intros g Hg. by rewrite H.
  - clear Hn. induction files as [|g files IH]; [done|]. cbn. f_equal; [unfold agrees; by rewrite H by by left|].
    apply IH. intros; apply H. by right.
Qed.

Lemma apply_all_spec files (v : Versioned S) : NoDup (map mf_name files) →
  match apply_all files v with
  | Ok v' => forallb (agrees (v_applied v)) files = true ∧ run_scripts (missing (v_applied v) files) (v_schema v) = Some (v_schema v') ∧
      v_applied v' = v_applied v ++ map row_of (missing (v_applied v) files)
  | Err ChecksumMismatch => forallb (agrees (v_applied v)) files = false
  | Err (MigrationFailed name) => run_scripts (missing (v_applied v) files) (v_schema v) = None ∧ name ∈ map mf_name (missing (v_applied v) files)
  | Err _ => False
  end.
Proof.
  revert v. induction files as [|f files IH]; intros v Hn; cbn [apply_all].
  { cbn. by rewrite app_nil_r. }
  destruct (after_one f files v Hn) as [Hm Ha]. assert (NoDup (map mf_name files)) as Hn' by by apply NoDup_cons in Hn as [_ ?].
  assert (missing (v_applied v) (f :: files) =
    if bool_decide (recorded (mf_name f) (v_applied v) = None) then f :: missing (v_applied v) files else missing (v_applied v) files) as -> by done.
  assert (forallb (agrees (v_applied v)) (f :: files) =
    (match recorded (mf_name f) (v_applied v) with Some c => bool_decide (c = checksum f) | None => true end) &&
    forallb (agrees (v_applied v)) files) as -> by done.
  unfold apply_one.
  destruct (recorded (mf_name f) (v_applied v)) as [c|] eqn:Er; cbn [rbind].
  - case_bool_decide as Ec; cbn [rbind andb]; [|done]. rewrite (bool_decide_false (Some c = None)) by done. exact (IH v Hn').
  - rewrite bool_decide_true by done. cbn [run_scripts map andb]. destruct (exec_sql (mf_body f) (v_schema v)) as [schema|] eqn:Ex; cbn [rbind].
    + specialize (IH (mkVersioned (v_applied v ++ [row_of f]) schema) Hn'). cbn [v_applied v_schema] in IH. rewrite Hm, Ha in IH.
      change (mf_name f, checksum f) with (row_of f).
      destruct (apply_all files _) as [v'|[]]; cbn; try done.
      * destruct IH as (? & ? & ->). split; [done|]. split; [done|]. by rewrite <- app_assoc.
      * destruct IH as [? Hin]. split; [done|]. by right.
    + split; [done|]. by left.
Qed.

Lemma recorded_unique name c applied : NoDup (map fst applied) → In (name, c) applied → recorded name applied = Some c.
Proof.
  unfold recorded, sql_find. induction applied as [|[n c'] l IH]; [done|]. cbn. intros [Hn Hu]%NoDup_cons [[= -> ->]|Hin].
  - by rewrite bool_decide_true.
  - rewrite bool_decide_false; [by apply IH|]. cbn. intros ->. destruct Hn. apply list_elem_of_In. by apply (in_map fst) in Hin.
Qed.
Lemma known_in files name : known files name = true ↔ ∃ f, In f files ∧ mf_name f = name.
Proof.
  unfold known. rewrite List.existsb_exists. split; intros (f & Hf & H); exists f; (split; [done|]);
    [by apply bool_decide_eq_true in H|by apply bool_decide_eq_true].
Qed.
Lemma file_by_name files f g : NoDup (map mf_name files) → In f files → In g files → mf_name f = mf_name g → f = g.
Proof. intros. by eapply (NoDup_map_inj mf_name). Qed.

(** The rows after a run are exactly those of the files. *)
Lemma all_recorded files applied :
  NoDup (map mf_name files) → NoDup (map fst applied) → forallb (λ r : string * string, known files r.1) applied = true →
  forallb (agrees applied) files = true → Permutation (applied ++ map row_of (missing applied files)) (map row_of files).
Proof.
  intros Hn Hu Hk Ha. rewrite forallb_forall in Hk, Ha.
  assert (∀ r, In r applied → ∃ f, In f files ∧ r = row_of f) as Hrow.
  { intros [n c] Hr. destruct (proj1 (known_in files n) (Hk _ Hr)) as (f & Hf & <-). exists f. split; [done|].
    specialize (Ha f Hf). unfold agrees in Ha. rewrite (recorded_unique _ _ _ Hu Hr) in Ha. by apply bool_decide_eq_true in Ha as ->. }
  apply NoDup_Permutation.
  - apply NoDup_ListNoDup, NoDup_app. split_and!; [by apply (NoDup_fmap_1 fst)| |].
    + intros r Hr Hm. apply list_elem_of_In, in_map_iff in Hm as (f & <- & Hf). unfold missing in Hf. apply filter_In in Hf as [_ Hf].
      apply bool_decide_eq_true in Hf. apply list_elem_of_In in Hr. by eapply recorded_none in Hf.
    + apply (NoDup_fmap_1 fst). change (NoDup (map fst (map row_of (missing applied files)))). rewrite List.map_map.
      unfold missing. clear -Hn. induction files as [|f files IH]; [done|]. apply NoDup_cons in Hn as [Hf Hn]. cbn.
      destruct (bool_decide _); [|by apply IH]. cbn. apply NoDup_cons. split; [|by apply IH]. intros Hin. destruct Hf.
      apply list_elem_of_In in Hin. apply in_map_iff in Hin as (g & Hg & Hin). apply filter_In in Hin as [Hin _].
      apply list_elem_of_In, in_map_iff. exists g. done.
  - apply NoDup_ListNoDup, (NoDup_fmap_1 fst). change (NoDup (map fst (map row_of files))). by rewrite List.map_map.
  - intros r. rewrite in_app_iff. split.
    + intros [Hr|Hr]; [destruct (Hrow r Hr) as (f & Hf & ->); by apply in_map|].
      apply in_map_iff in Hr as (f & <- & Hf). apply filter_In in Hf as [Hf _]. by apply in_map.
    + intros (f & <- & Hf)%in_map_iff. destruct (recorded (mf_name f) applied) as [c|] eqn:Er.
      * left. specialize (Ha f Hf). unfold agrees in Ha. rewrite Er in Ha. apply bool_decide_eq_true in Ha as ->. by apply recorded_in.
      * right. apply in_map, filter_In. split; [done|]. by apply bool_decide_eq_true.
Qed.

Lemma recorded_count files applied : NoDup (map fst applied) → forallb (λ r : string * string, known files r.1) applied = true →
  (length applied ≤ length files)%nat.
Proof.
  intros Hu Hk. rewrite forallb_forall in Hk. rewrite <- (length_map fst applied), <- (length_map mf_name files).
  apply NoDup_incl_length; [by apply NoDup_ListNoDup|]. intros n (r & <- & Hr)%in_map_iff.
  destruct (proj1 (known_in files r.1) (Hk r Hr)) as (f & Hf & <-). by apply in_map.
Qed.

Lemma forallb_false {A} (p : A → bool) l : forallb p l = false → ∃ x, In x l ∧ p x = false.
Proof.
  induction l as [|x l IH]; [done|]. cbn. destruct (p x) eqn:E; [|by exists x; auto]. intros (y & ? & ?)%IH. exists y. auto.
Qed.

(** With one row per file there is nothing left to do. *)
Lemma settled files (v : Versioned S) : NoDup (map mf_name files) → Permutation (v_applied v) (map row_of files) →
  (guard! forallb (λ r : string * string, known files r.1) (v_applied v) else UnsupportedMigration in
   guard! negb (length files <? length (v_applied v))%nat else NewerSchema in apply_all files v) = Ok v.
Proof.
  intros Hn HP. assert (NoDup (map fst (v_applied v))) as Hu.
  { assert (Permutation (map fst (v_applied v)) (map mf_name files)) as ->; [|done].
    rewrite (Permutation_map fst HP), List.map_map. done. }
  assert (∀ f, In f files → recorded (mf_name f) (v_applied v) = Some (checksum f)) as Hrec.
  { intros f Hf. apply recorded_unique; [done|]. apply (Permutation_in _ (Permutation_sym HP)). by apply (in_map row_of). }
  assert (forallb (λ r : string * string, known files r.1) (v_applied v) = true) as ->.
  { apply forallb_forall. intros r Hr. apply (Permutation_in _ HP), in_map_iff in Hr as (f & <- & Hf). apply known_in. by exists f. }
  rewrite (Permutation_length HP), length_map, Nat.ltb_irrefl. cbn [negb]. clear HP Hu. revert v Hrec.
  induction files as [|f files IH]; intros v Hrec; [done|]. cbn [apply_all]. unfold apply_one. rewrite Hrec, bool_decide_true by (done || by left).
  cbn [rbind]. apply IH; [by apply NoDup_cons in Hn as [_ ?]|]. intros g Hg. apply Hrec. by right.
Qed.

(** C31. Migrating is exact, repeatable and refuses what it does not know.  With
    the embedded files readable and differently named: a run that reports
    success has executed exactly the scripts that were not recorded, in name
    order, and leaves one row per file, with the hash of its text; running
    again changes nothing.  A run that reports an error leaves the database as
    it was, and the error is the reason: a migration of a newer release is
    recorded, the text of an applied one was changed, or a script failed.  It
    succeeds whenever none of these holds. *)
Theorem migrate_outcomes sources files (v : Versioned S) :
  migrationFiles sources = Some files → NoDup (map mf_name files) → NoDup (map fst (v_applied v)) →
  let '(r, v') := migrate sources v in
  match r with
  | Ok _ =>
      Permutation (v_applied v') (map row_of files) ∧
      run_scripts (missing (v_applied v) files) (v_schema v) = Some (v_schema v') ∧
      migrate sources v' = (Ok tt, v')
  | Err e => v' = v ∧
      match e with
      | UnsupportedMigration => ∃ name c, In (name, c) (v_applied v) ∧ known files name = false
      | ChecksumMismatch => ∃ f c, In f files ∧ In (mf_name f, c) (v_applied v) ∧ c ≠ checksum f
      | MigrationFailed name => run_scripts (missing (v_applied v) files) (v_schema v) = None
      | NewerSchema | UnreadableSource => False
      end
  end.
Proof.
  intros Hs Hn Hu. unfold migrate, migration at 1. rewrite Hs.
  destruct (forallb (λ r : string * string, known files r.1) (v_applied v)) eqn:Ek; cbn [rbind].
  2: { split; [done|]. apply forallb_false in Ek as ([n c] & Hin & Hf). by exists n, c. }
  pose proof (recorded_count _ _ Hu Ek) as Hc. rewrite (proj2 (Nat.ltb_ge _ _) Hc). cbn [negb].
  pose proof (apply_all_spec files v Hn) as Hspec. destruct (apply_all files v) as [v'|e] eqn:Ea.
  - destruct Hspec as (Hag & Hrun & Happ). pose proof (all_recorded files (v_applied v) Hn Hu Ek Hag) as HP. rewrite <- Happ in HP.
    split; [done|]. split; [done|]. unfold migration. rewrite Hs. by rewrite (settled files v' Hn HP).
  - split; [done|]. destruct e; try done; [|by destruct Hspec].
    apply forallb_false in Hspec as (f & Hf & Hg). unfold agrees in Hg. destruct (recorded _ _) as [c|] eqn:Er; [|done].
    exists f, c. split; [done|]. split; [by apply recorded_in|]. by apply bool_decide_eq_false in Hg.
Qed.
End migrate.

Module Upgrade.
Definition exec (script : string) (s : list string) : option (list string) := Some (s ++ [script]).
Definition files : list migrationFile := [mkMigrationFile "001_foundation.sql" "create a"; mkMigrationFile "002_projects.sql" "create b"].
Definition sources : list (option (list migrationFile)) := [Some (rev files)].
Definition old : Versioned (list string) := mkVersioned [("001_foundation.sql", Hash "create a")] ["create a"].
Definition newer : Versioned (list string) := mkVersioned [("003_later.sql", "")] [].
End Upgrade.

Lemma migrate_outcomes_witness :
  (migrate Upgrade.exec Upgrade.sources Upgrade.newer).1 = Err UnsupportedMigration ∧
  v_schema (migrate Upgrade.exec Upgrade.sources Upgrade.old).2 = ["create a"; "create b"] ∧
  Permutation (v_applied (migrate Upgrade.exec Upgrade.sources Upgrade.old).2) (map row_of Upgrade.files).
Proof.
  split; [vm_compute; reflexivity|]. split; [vm_compute; reflexivity|].
  assert (migrationFiles Upgrade.sources = Some Upgrade.files) as Hs by (vm_compute; reflexivity).
  assert (NoDup (map mf_name Upgrade.files)) as Hn by (apply (bool_decide_eq_true_1 _); vm_compute; reflexivity).
  assert (NoDup (map fst (v_applied Upgrade.old))) as Hu by (apply (bool_decide_eq_true_1 _); vm_compute; reflexivity).
  pose proof (migrate_outcomes Upgrade.exec Upgrade.sources Upgrade.files Upgrade.old Hs Hn Hu) as H.
  destruct (migrate Upgrade.exec Upgrade.sources Upgrade.old) as [[[]|e] v'] eqn:E; [by destruct H|].
  assert ((migrate Upgrade.exec Upgrade.sources Upgrade.old).1 = Ok tt) as H1 by (vm_compute; reflexivity). rewrite E in H1. done.
Defined.
