(* ===== verification/Storage.v ===== *)
(** * The object store: layout rules, keys and manifests

    [internal/storage/layout.go] and the pure parts of
    [internal/storage/storage.go].  Instants are [GoTime.time]; a Go map whose
    iteration order is random is a [gmap], and what is iterated from it is
    sorted before it is used, exactly as in the source. *)

From S2P Require Import Prelude GoStrings GoTime Sha.

(** ** Constants *)

Definition ArchiveFile : string := "archive.dump".
Definition ManifestFile : string := "manifest.json".

Definition StateComplete : string := "complete".
Definition StateManifestOnly : string := "manifest_only".
Definition StateArchiveOnly : string := "archive_only".
Definition StateDamaged : string := "damaged".

Definition ProtectionVersioning : string := "versioning".
Definition ProtectionAcknowledged : string := "acknowledged".
Definition VersioningEnabled : string := "enabled".
Definition VersioningDisabled : string := "disabled".
Definition VersioningUnsupported : string := "unsupported".

(** ** Path segments *)

(** [^[a-z][a-z0-9_]{0,62}$] *)
Definition is_name_byte (a : ascii) : bool := is_lower a || is_digit a || bool_decide (a = "_"%char).
Definition ValidDatabaseSegment (name : string) : bool :=
  match name with
  | "" => false
  | String a rest => is_lower a && sforall is_name_byte rest && (slen rest <=? 62)%nat
  end.

(** [^\d{8}T\d{6}Z$] *)
Definition directoryName_matches (name : string) : bool :=
  match String.list_ascii_of_string name with
  | [a1; a2; a3; a4; a5; a6; a7; a8; t; b1; b2; b3; b4; b5; b6; z] =>
      List.forallb is_digit [a1; a2; a3; a4; a5; a6; a7; a8; b1; b2; b3; b4; b5; b6]
      && bool_decide (t = "T"%char) && bool_decide (z = "Z"%char)
  | _ => false
  end.

Definition ParseDirectorySegment (name : string) : time * bool :=
  if negb (directoryName_matches name) then (zero_time, false)
  else match parse_compact name with
       | Some at' => (at', true)
       | None => (zero_time, false)
       end.

(** ** Listing *)

Record Entry := mkEntry {
  e_Directory : string;
  e_ManifestKey : string;
  e_ArchiveKey : string;
  e_TakenAt : time;
  e_State : string;
  e_SizeBytes : Z;
}.
#[export] Instance eta_Entry : Eta Entry := λ r,
  mkEntry (e_Directory r) (e_ManifestKey r) (e_ArchiveKey r) (e_TakenAt r) (e_State r) (e_SizeBytes r).

Record Object := mkObject { o_Key : string; o_Size : Z }.

Record found := mkFound { f_archive : bool; f_manifest : bool; f_unexpected : bool; f_size : Z }.
Definition no_found : found := mkFound false false false 0.

(** One listed object, applied to its directory's record. *)
Definition note_file (file : string) (size : Z) (f : found) : found :=
  if bool_decide (file = ArchiveFile) then mkFound true (f_manifest f) (f_unexpected f) size
  else if bool_decide (file = ManifestFile) then mkFound (f_archive f) true (f_unexpected f) (f_size f)
  else mkFound (f_archive f) (f_manifest f) true (f_size f).

Definition object_parts (root : string) (o : Object) : list string :=
  split_on slash (trim_prefix (o_Key o) root).

Definition collect (root : string) (directories : gmap string found) (o : Object) : gmap string found :=
  match object_parts root o with
  | [dir; file] =>
      let entry := default no_found (directories !! dir) in
      <[dir := note_file file (o_Size o) entry]> directories
  | _ => directories
  end.

(** The entry of one directory. *)
Definition entry_of (root name : string) (f : found) : Entry :=
  let '(at', ok) := ParseDirectorySegment name in
  let directory := root +:+ name in
  mkEntry directory (directory +:+ "/" +:+ ManifestFile) (directory +:+ "/" +:+ ArchiveFile) at'
    (if negb ok || f_unexpected f then StateDamaged
     else if f_archive f && f_manifest f then StateComplete
     else if f_archive f then StateArchiveOnly
     else StateManifestOnly)
    (f_size f).

(** Newest first; the directory decides between equal times. *)
Definition entry_key (e : Entry) : Z * string := (e_TakenAt e, e_Directory e).
Definition newest_first : Z * string → Z * string → bool := lex_leb (rev_leb Z.leb) (rev_leb String.leb).
#[export] Instance newest_first_total : TotalLeb newest_first.
Proof. unfold newest_first. apply _. Qed.
Definition sortEntries (entries : list Entry) : list Entry := sql_order (key_leb entry_key newest_first) entries.

Definition EntriesFrom (root : string) (objects : list Object) : list Entry :=
  let directories := fold_left (collect root) objects ∅ in
  sortEntries (map (λ nf, entry_of root nf.1 nf.2) (map_to_list directories)).

(** ** Manifests *)

Record TableCount := mkTableCount { tc_Schema : string; tc_Name : string; tc_Rows : Z }.
Record ObjectCounts := mkObjectCounts {
  oc_Sequences : Z; oc_Views : Z; oc_Functions : Z; oc_Indexes : Z; oc_Constraints : Z }.

Record Manifest := mkManifest {
  m_Version : Z;
  m_InstallationID : string;
  m_ProjectID : string;
  m_ProjectName : string;
  m_DBName : string;
  m_PostgresVersion : string;
  m_CreatedAt : time;
  m_ArchiveKey : string;
  m_SHA256 : string;
  m_SizeBytes : Z;
  m_Tables : list TableCount;
  m_TablesTruncated : bool;
  m_Objects : option ObjectCounts;
  m_ManifestKey : string;
}.
#[export] Instance eta_Manifest : Eta Manifest := λ r,
  mkManifest (m_Version r) (m_InstallationID r) (m_ProjectID r) (m_ProjectName r) (m_DBName r)
    (m_PostgresVersion r) (m_CreatedAt r) (m_ArchiveKey r) (m_SHA256 r) (m_SizeBytes r) (m_Tables r)
    (m_TablesTruncated r) (m_Objects r) (m_ManifestKey r).

Definition parent (e : Entry) : string :=
  match split_last slash (e_Directory e) with
  | Some (before, _) => if bool_decide (before = "") then e_Directory e else before
  | None => e_Directory e
  end.

Definition directoryName (e : Entry) : string :=
  match split_last slash (e_Directory e) with
  | Some (_, after) => after
  | None => e_Directory e
  end.

Inductive layout_error :=
| UnsupportedManifestVersion
| ManifestKeyMismatch
| ArchiveKeyMismatch
| DatabaseMismatch
| TimestampMismatch
| NotABackupManifest
| NotADatabaseFolder.

Definition CheckManifest (m : Manifest) (entry : Entry) : res layout_error unit :=
  guard! m_Version m =? 1 else UnsupportedManifestVersion in
  guard! bool_decide (m_ManifestKey m = e_ManifestKey entry) else ManifestKeyMismatch in
  guard! bool_decide (m_ArchiveKey m = e_ArchiveKey entry) else ArchiveKeyMismatch in
  guard! ValidDatabaseSegment (m_DBName m) && has_suffix (parent entry) ("/" +:+ m_DBName m)
    else DatabaseMismatch in
  guard! bool_decide (format_compact (m_CreatedAt m) = directoryName entry) else TimestampMismatch in
  Ok tt.

(** ** Settings and keys *)

Record Settings := mkSettings {
  s_Endpoint : string;
  s_Region : string;
  s_Bucket : string;
  s_Prefix : string;
  s_AccessKey : string;
  s_SecretKey : string;
  s_SessionToken : string;
  s_PathStyle : bool;
  s_PrivateEndpoint : bool;
  s_BucketProtection : string;
  s_ProtectionState : string;
  s_ProtectionCheckedAt : Z;
}.
#[export] Instance eta_Settings : Eta Settings := λ r,
  mkSettings (s_Endpoint r) (s_Region r) (s_Bucket r) (s_Prefix r) (s_AccessKey r) (s_SecretKey r)
    (s_SessionToken r) (s_PathStyle r) (s_PrivateEndpoint r) (s_BucketProtection r) (s_ProtectionState r)
    (s_ProtectionCheckedAt r).

Definition Hash (value : string) : string := hex (sha256 (bytes value)).

(** [strings.ToLower] on ASCII letters (an endpoint is a URL). *)
Definition lower_byte (a : ascii) : ascii :=
  if (65 <=? nat_of_ascii a)%nat && (nat_of_ascii a <=? 90)%nat then ascii_of_nat (nat_of_ascii a + 32) else a.
Fixpoint to_lower (s : string) : string :=
  match s with "" => "" | String a s => String (lower_byte a) (to_lower s) end.

(** What [Target] hashes. *)
Definition target_text (s : Settings) : string :=
  to_lower (s_Endpoint s) +:+ "|" +:+ s_Bucket s +:+ "|" +:+ trim_byte slash (s_Prefix s).
Definition Target (s : Settings) : string := Hash (target_text s).

(** The mask is four bullets, in UTF-8. *)
Definition bullet : string := String (ascii_of_nat 226) (String (ascii_of_nat 128) (String (ascii_of_nat 162) "")).
Definition bullets : string := bullet +:+ bullet +:+ bullet +:+ bullet.
Definition mask (v : string) : string :=
  if bool_decide (v = "") then ""
  else if (4 <? slen v)%nat then bullets +:+ sdrop (slen v - 4) v
  else bullets.
Definition Masked (s : Settings) : Settings :=
  s <| s_AccessKey := mask (s_AccessKey s) |>
    <| s_SecretKey := mask (s_SecretKey s) |>
    <| s_SessionToken := mask (s_SessionToken s) |>.

Definition key (s : Settings) (parts : list string) : string :=
  path_join (trim_byte slash (s_Prefix s) :: parts).

Definition BackupKey (s : Settings) (dbName : string) (at' : time) : string :=
  key s ["backups"; dbName; format_compact at'].

Definition EntryFor (s : Settings) (manifestKey : string) : res layout_error Entry :=
  let root := key s ["backups"] +:+ "/" in
  let rest := trim_prefix manifestKey root in
  match split_on slash rest with
  | [db; dir; file] =>
      guard! has_prefix manifestKey root && bool_decide (file = ManifestFile) && ValidDatabaseSegment db
        else NotABackupManifest in
      let '(at', ok) := ParseDirectorySegment dir in
      guard! ok else NotABackupManifest in
      let directory := root +:+ db +:+ "/" +:+ dir in
      Ok (mkEntry directory manifestKey (directory +:+ "/" +:+ ArchiveFile) at' "" 0)
  | _ => Err NotABackupManifest
  end.

(** [ListDatabases], on the keys a non-recursive listing of the folder gives. *)
Definition database_names (root : string) (keys : list string) : list string :=
  sql_order (key_leb id String.leb)
    (List.filter (λ name, negb (bool_decide (name = "")) && ValidDatabaseSegment name)
       (map (λ k, trim_suffix (trim_prefix k root) "/") keys)).

(** A failed call of the client: a response of the endpoint with a code, or
    another error with its text. *)
Inductive client_error := ErrorResponse (code message : string) | OtherError (text : string).
Definition describe (e : client_error) : string :=
  match e with
  | ErrorResponse code message =>
      if bool_decide (code = "") then message
      else if bool_decide (code = "AccessDenied") then "Access denied: the credentials cannot perform this operation on the bucket."
      else if bool_decide (code = "NoSuchBucket") then "The bucket does not exist at this endpoint/region."
      else if bool_decide (code = "InvalidAccessKeyId") || bool_decide (code = "SignatureDoesNotMatch") then
        "The access key or secret key is not accepted by the endpoint."
      else code +:+ ": " +:+ message
  | OtherError text => text
  end.

(** What the provider answers about versioning ([Client.Protection]). *)
Inductive versioning_answer :=
| VersioningConfig (enabled : bool)
| VersioningErrorCode (code : string)
| VersioningOtherError.
Definition Protection (answer : versioning_answer) : res unit string :=
  match answer with
  | VersioningConfig enabled => Ok (if enabled then VersioningEnabled else VersioningDisabled)
  | VersioningErrorCode code =>
      if bool_decide (code = "NotImplemented") || bool_decide (code = "MethodNotAllowed")
         || bool_decide (code = "NotSupported") || bool_decide (code = "UnsupportedOperation")
      then Ok VersioningUnsupported
      else Err tt
  | VersioningOtherError => Err tt
  end.

(** ** Segments *)

Lemma directoryName_matches_parse name t :
  parse_compact name = Some t → directoryName_matches name = true.
Proof.
  unfold parse_compact, directoryName_matches.
  destruct (String.list_ascii_of_string name) as
    [|y1 [|y2 [|y3 [|y4 [|m1 [|m2 [|d1 [|d2 [|t0 [|h1 [|h2 [|i1 [|i2 [|s1 [|s2 [|z [|]]]]]]]]]]]]]]]]];
    try discriminate.
  destruct (List.forallb _ _ && _ && _); done.
Qed.

Lemma ParseDirectorySegment_true name t :
  ParseDirectorySegment name = (t, true) ↔ parse_compact name = Some t.
Proof.
  unfold ParseDirectorySegment. split.
  - destruct (negb _); [done|]. by destruct (parse_compact name); intros [= ->].
  - intros E. by rewrite (directoryName_matches_parse _ _ E), E.
Qed.

(** What [EntriesFrom] relies on: a database or time segment has no slash. *)
Lemma ValidDatabaseSegment_no_slash name :
  ValidDatabaseSegment name = true → contains_byte slash name = false.
Proof.
  destruct name as [|a s]; [done|]. simpl. intros [[Ha Hs]%andb_true_iff _]%andb_true_iff.
  unfold contains_byte. simpl. rewrite bool_decide_eq_false_2 by (by intros ->).
  by apply (sforall_not_contains _ is_name_byte).
Qed.

Lemma format_compact_no_slash t : printable t → contains_byte slash (format_compact t) = false.
Proof.
  intros H. rewrite format_compact_digits by done.
  by rewrite !contains_byte_app, !digits_no_slash.
Qed.

(** A segment [path.Clean] leaves alone. *)
Definition plain_segment (s : string) : Prop :=
  contains_byte slash s = false ∧ s ≠ "" ∧ s ≠ "." ∧ s ≠ "..".

Lemma plain_backups : plain_segment "backups".
Proof. by repeat split. Qed.
Lemma plain_manifest : plain_segment ManifestFile.
Proof. by repeat split. Qed.
Lemma plain_database name : ValidDatabaseSegment name = true → plain_segment name.
Proof.
  intros H. split; [by apply ValidDatabaseSegment_no_slash|].
  repeat split; intros ->; vm_compute in H; discriminate.
Qed.
Lemma slen_format_compact t : printable t → slen (format_compact t) = 16%nat.
Proof. intros H. rewrite format_compact_digits by done. by rewrite !slen_app, !slen_digits. Qed.
Lemma plain_time t : printable t → plain_segment (format_compact t).
Proof.
  intros H. split; [by apply format_compact_no_slash|].
  pose proof (slen_format_compact t H) as L.
  repeat split; intros E; rewrite E in L; discriminate.
Qed.
#[export] Hint Constructors Forall : pgfy.
#[export] Hint Resolve plain_backups plain_manifest plain_database plain_time : pgfy.

(** ** [path.Join] on plain parts *)

Lemma clean_segments_plain rooted stack segs parts :
  Forall plain_segment parts →
  clean_segments rooted stack (segs ++ parts) = clean_segments rooted stack segs ++ parts.
Proof.
  intros Hp. revert stack. induction segs as [|s segs IH]; intros stack; simpl.
  - revert stack. induction Hp as [|p ps (Hs & H1 & H2 & H3) _ IH]; intros stack; simpl; [by rewrite app_nil_r|].
    rewrite !bool_decide_eq_false_2 by done. simpl. rewrite IH. simpl. by rewrite <- app_assoc.
  - rewrite !IH. destruct (_ || _); [done|]. case_bool_decide; [|done].
    destruct stack as [|top st]; rewrite ?IH; [done|]. by case_bool_decide; rewrite ?IH.
Qed.

Lemma trim_left_byte_not c s r : trim_left_byte c s ≠ String c r.
Proof. induction s as [|a s IH]; simpl; [done|]. by case_bool_decide as H; [|intros [= -> ->]]. Qed.
Lemma trim_right_byte_head c s a r :
  trim_right_byte c s = String a r → ∃ r', s = String a r'.
Proof.
  destruct s as [|b s]; [done|]. simpl. destruct (trim_right_byte c s); [case_bool_decide; [done|]|]; intros [= -> _]; eauto.
Qed.
Lemma trim_byte_not_rooted s r : has_prefix (trim_byte slash s +:+ r) "/" = true → trim_byte slash s = "".
Proof.
  intros H. destruct (trim_byte slash s) as [|a t] eqn:E; [done|].
  destruct (has_prefix_inv _ _ H) as [u Hu]. rewrite !app_cons in Hu. injection Hu as -> _.
  destruct (trim_right_byte_head _ _ _ _ E) as [r' Hr]. by apply trim_left_byte_not in Hr.
Qed.

(** The cleaned segments of the configured prefix. *)
Definition prefix_segments (s : Settings) : list string :=
  clean_segments false [] (split_on slash (trim_byte slash (s_Prefix s))).

Lemma join_not_rooted parts :
  Forall plain_segment parts → has_prefix (join "/" parts) "/" = false.
Proof.
  intros [|p ps (Hs & Hne & _) _]; [done|].
  destruct (has_prefix _ "/") eqn:E; [|done]. apply has_prefix_inv in E as [u Hu].
  destruct p as [|a p]; [done|]. destruct ps; simpl in Hu; rewrite ?app_cons in Hu; injection Hu as -> _; discriminate.
Qed.

Lemma filter_plain parts :
  Forall plain_segment parts → List.filter (λ s, negb (bool_decide (s = ""))) parts = parts.
Proof.
  induction 1 as [|p ps (_ & Hne & _) _ IH]; [done|]. simpl. by rewrite bool_decide_eq_false_2, IH.
Qed.

Lemma split_on_join_plain parts :
  parts ≠ [] → Forall plain_segment parts → split_on slash (join "/" parts) = parts.
Proof.
  intros Hne Hp. apply split_on_join; [done|]. intros x Hx.
  rewrite List.Forall_forall in Hp. by apply Hp in Hx as [? _].
Qed.

Lemma join_plain_ne segs parts :
  parts ≠ [] → Forall plain_segment parts → join "/" (segs ++ parts) ≠ "".
Proof.
  intros Hne Hp E. destruct segs as [|x segs]; simpl in E.
  - destruct Hp as [|p ps (_ & Hp & _) _]; [done|]. destruct p; [done|]. destruct ps; discriminate.
  - destruct (segs ++ parts) eqn:Es; [by apply app_nil in Es as [_ ?]|]. by destruct x.
Qed.

Lemma key_join s parts :
  parts ≠ [] → Forall plain_segment parts → key s parts = join "/" (prefix_segments s ++ parts).
Proof.
  intros Hne Hp. unfold key, path_join, prefix_segments. cbn [List.filter].
  rewrite (filter_plain parts Hp). pose proof (trim_byte_not_rooted (s_Prefix s)) as Hroot.
  destruct (trim_byte slash (s_Prefix s)) as [|a p'] eqn:Ep.
  - rewrite bool_decide_eq_true_2 by done. simpl.
    destruct parts as [|q qs]; [done|]. unfold path_clean.
    rewrite join_not_rooted, split_on_join_plain by done.
    rewrite (clean_segments_plain false [] [] (q :: qs) Hp : clean_segments false [] (q :: qs) = q :: qs).
    rewrite bool_decide_eq_false_2; [done|]. by apply (join_plain_ne []).
  - set (p := String a p') in *. rewrite bool_decide_eq_false_2 by done.
    change (negb false) with true. cbv iota. rewrite join_cons by done. unfold path_clean.
    destruct (has_prefix _ "/") eqn:E; [by apply Hroot in E|].
    change ("/" +:+ join "/" parts) with (String slash (join "/" parts)).
    rewrite split_on_app_gen, split_on_join_plain, clean_segments_plain by done.
    rewrite bool_decide_eq_false_2; [done|]. by apply join_plain_ne.
Qed.

Lemma join_app l parts : l ≠ [] → parts ≠ [] → join "/" (l ++ parts) = join "/" l +:+ "/" +:+ join "/" parts.
Proof.
  intros Hl Hp. induction l as [|x l IH]; [done|]. destruct l as [|y l].
  - simpl app. by rewrite join_cons.
  - change ((x :: y :: l) ++ parts) with (x :: ((y :: l) ++ parts)).
    rewrite !join_cons by done. rewrite IH by done. by rewrite !app_assoc'.
Qed.

(** Where one database's backups live. *)
Definition backups_root (s : Settings) (dbName : string) : string := key s ["backups"; dbName] +:+ "/".

Lemma key_backups_app s db :
  ValidDatabaseSegment db = true → backups_root s db = key s ["backups"] +:+ "/" +:+ db +:+ "/".
Proof.
  intros Hdb. unfold backups_root. rewrite !key_join by (done || eauto 8 with pgfy).
  change ["backups"; db] with (["backups"] ++ [db]). rewrite app_assoc, (join_app _ [db]); [|by destruct (prefix_segments s)|done].
  by rewrite !app_assoc'.
Qed.

Lemma BackupKey_app s db t :
  ValidDatabaseSegment db = true → printable t → BackupKey s db t = backups_root s db +:+ format_compact t.
Proof.
  intros Hdb Ht. unfold BackupKey, backups_root. rewrite !key_join by (done || eauto 8 with pgfy).
  change ["backups"; db; format_compact t] with (["backups"; db] ++ [format_compact t]).
  rewrite app_assoc, join_app; [|by destruct (prefix_segments s)|done]. by rewrite !app_assoc'.
Qed.

(** ** The listing *)

Lemma printable_of_parse name t : ParseDirectorySegment name = (t, true) ↔ printable t ∧ format_compact t = name.
Proof.
  rewrite ParseDirectorySegment_true. split.
  - intros H. by destruct (format_parse_compact _ _ H).
  - intros [Hp <-]. by apply parse_format_compact.
Qed.

(** Objects of a listing that lie directly in directory [name]. *)
Definition in_directory (root name : string) (objects : list Object) : list (string * Z) :=
  omap (λ o, match object_parts root o with
             | [dir; file] => if bool_decide (dir = name) then Some (file, o_Size o) else None
             | _ => None
             end) objects.

Definition note_all (files : list (string * Z)) (f : found) : found :=
  fold_left (λ f fs, note_file fs.1 fs.2 f) files f.

Lemma collect_lookup root objects directories name :
  fold_left (collect root) objects directories !! name =
  match in_directory root name objects with
  | [] => directories !! name
  | files => Some (note_all files (default no_found (directories !! name)))
  end.
Proof.
  revert directories. induction objects as [|o os IH]; intros ds; simpl; [done|].
  rewrite IH. unfold collect.
  destruct (object_parts root o) as [|dir [|file [|]]]; try done.
  case_bool_decide as Hd.
  - subst. rewrite lookup_insert_eq. simpl. by destruct (in_directory root name os).
  - by rewrite lookup_insert_ne.
Qed.

Definition has_file (root name file : string) (objects : list Object) : bool :=
  existsb (λ fs, bool_decide (fs.1 = file)) (in_directory root name objects).
Definition has_other (root name : string) (objects : list Object) : bool :=
  existsb (λ fs, negb (bool_decide (fs.1 = ArchiveFile)) && negb (bool_decide (fs.1 = ManifestFile)))
    (in_directory root name objects).

Lemma note_all_flags files f :
  f_archive (note_all files f) = f_archive f || existsb (λ fs, bool_decide (fs.1 = ArchiveFile)) files ∧
  f_manifest (note_all files f) = f_manifest f || existsb (λ fs, bool_decide (fs.1 = ManifestFile)) files ∧
  f_unexpected (note_all files f) = f_unexpected f ||
    existsb (λ fs, negb (bool_decide (fs.1 = ArchiveFile)) && negb (bool_decide (fs.1 = ManifestFile))) files.
Proof.
  revert f. induction files as [|[file n] files IH]; intros f; simpl; [by rewrite !orb_false_r|].
  destruct (IH (note_file file n f)) as (-> & -> & ->). unfold note_file.
  destruct (bool_decide (file = ArchiveFile)) eqn:Ea; [|destruct (bool_decide (file = ManifestFile)) eqn:Em]; simpl;
    bool_simpl; subst; rewrite ?orb_true_r, ?orb_false_l; simpl; try done.
Qed.

Lemma sortEntries_perm l : Permutation (sortEntries l) l.
Proof. apply sql_order_perm. Qed.

(** Membership in a listing, by directory. *)
Lemma EntriesFrom_elem root objects e :
  In e (EntriesFrom root objects) ↔
  ∃ name, in_directory root name objects ≠ [] ∧
    e = entry_of root name (note_all (in_directory root name objects) no_found).
Proof.
  unfold EntriesFrom. set (ds := fold_left _ _ _).
  assert (In e (sortEntries (map (λ nf, entry_of root nf.1 nf.2) (map_to_list ds))) ↔
    ∃ name f, ds !! name = Some f ∧ e = entry_of root name f) as ->.
  { split.
    - intros Hin. eapply Permutation_in in Hin; [|apply sortEntries_perm].
      apply in_map_iff in Hin as ([name f] & <- & Hin). exists name, f. split; [|done].
      by apply elem_of_map_to_list, list_elem_of_In.
    - intros (name & f & Hl & ->). eapply Permutation_in; [symmetry; apply sortEntries_perm|].
      apply in_map_iff. exists (name, f). split; [done|]. by apply list_elem_of_In, elem_of_map_to_list. }
  split.
  - intros (name & f & Hl & ->). exists name. unfold ds in Hl. rewrite collect_lookup, lookup_empty in Hl.
    destruct (in_directory root name objects); [done|]. injection Hl as <-. done.
  - intros (name & Hne & ->). exists name. eexists. split; [|reflexivity].
    unfold ds. rewrite collect_lookup, lookup_empty. by destruct (in_directory root name objects).
Qed.

Lemma states_distinct :
  StateDamaged ≠ StateComplete ∧ StateArchiveOnly ≠ StateComplete ∧ StateManifestOnly ≠ StateComplete ∧
  StateArchiveOnly ≠ StateDamaged ∧ StateManifestOnly ≠ StateDamaged.
Proof. by repeat split. Qed.

Lemma entry_of_directory root name f : e_Directory (entry_of root name f) = root +:+ name.
Proof. unfold entry_of. by destruct (ParseDirectorySegment name). Qed.

Lemma EntriesFrom_NoDup root objects : NoDup (map e_Directory (EntriesFrom root objects)).
Proof.
  unfold EntriesFrom. set (ds := fold_left _ _ _).
  rewrite (Permutation_map e_Directory (sortEntries_perm _)), map_map.
  rewrite (map_ext _ (λ nf, root +:+ nf.1)) by (intros; apply entry_of_directory).
  rewrite <- (map_map fst (λ n, root +:+ n)).
  apply (NoDup_fmap_2 (λ n, root +:+ n) (fst <$> map_to_list ds)). apply NoDup_fst_map_to_list.
Qed.

Lemma EntriesFrom_sorted root objects :
  StronglySorted (key_R entry_key newest_first) (EntriesFrom root objects).
Proof. unfold EntriesFrom, sortEntries. apply sql_order_sorted, _. Qed.

(** ** Properties of the layout *)

(** A directory name is accepted exactly when it is the timestamp the
    application would print for the instant it denotes: the layout
    [20060102T150405Z] has one spelling per second, and reading it back
    gives the instant (round trip of [BackupKey]'s last segment). *)
Theorem directory_segment_roundtrip (name : string) (t : time) :
  ParseDirectorySegment name = (t, true) ↔ printable t ∧ format_compact t = name.
Proof. apply printable_of_parse. Qed.

(** [EntriesFrom] classifies every directory of the listing, each once and
    newest first: an entry is complete exactly when its name is a timestamp,
    the folder holds the archive and the manifest and nothing else; a folder
    with an unexpected name or file is damaged. *)
Theorem EntriesFrom_classifies (root : string) (objects : list Object) :
  (∀ e, In e (EntriesFrom root objects) ↔
     ∃ name, in_directory root name objects ≠ [] ∧ e_Directory e = root +:+ name ∧
       e = entry_of root name (note_all (in_directory root name objects) no_found) ∧
       (e_State e = StateComplete ↔
          (ParseDirectorySegment name).2 = true ∧ has_other root name objects = false ∧
          has_file root name ArchiveFile objects = true ∧ has_file root name ManifestFile objects = true) ∧
       (e_State e = StateDamaged ↔ (ParseDirectorySegment name).2 = false ∨ has_other root name objects = true)) ∧
  NoDup (map e_Directory (EntriesFrom root objects)) ∧
  StronglySorted (key_R entry_key newest_first) (EntriesFrom root objects).
Proof.
  split; [|split; [apply EntriesFrom_NoDup | apply EntriesFrom_sorted]].
  intros e. rewrite EntriesFrom_elem. split; [|intros (name & Hne & _ & He & _); eauto].
  intros (name & Hne & ->). exists name. split; [done|]. split; [apply entry_of_directory|]. split; [done|].
  destruct (note_all_flags (in_directory root name objects) no_found) as (Ea & Em & Eu). simpl in Ea, Em, Eu.
  unfold entry_of, has_file, has_other. destruct (ParseDirectorySegment name) as [t ok]. simpl.
  rewrite Ea, Em, Eu. clear. destruct states_distinct as (N1 & N2 & N3 & N4 & N5).
  destruct ok, (existsb _ _), (existsb _ _), (existsb _ _); simpl; intuition congruence.
Qed.

Lemma object_parts_file s db t file n :
  ValidDatabaseSegment db = true → printable t → contains_byte slash file = false →
  object_parts (backups_root s db) (mkObject (BackupKey s db t +:+ "/" +:+ file) n) = [format_compact t; file].
Proof.
  intros Hdb Ht Hf. unfold object_parts. simpl o_Key. rewrite BackupKey_app, app_assoc', trim_prefix_app by done.
  change ("/" +:+ file) with (String slash file).
  rewrite split_on_app by (by apply format_compact_no_slash). by rewrite split_on_single.
Qed.

Lemma parent_of_directory root db dir :
  contains_byte slash dir = false → root ≠ "" → ∀ e, e_Directory e = root +:+ db +:+ "/" +:+ dir →
  parent e = root +:+ db ∧ directoryName e = dir.
Proof.
  intros Hd Hr e He. unfold parent, directoryName. rewrite He.
  change ("/" +:+ dir) with (String slash dir). rewrite <- app_assoc', split_last_app by done.
  rewrite bool_decide_eq_false_2; [done|]. by destruct root.
Qed.

Lemma key_backups_ne s : key s ["backups"] +:+ "/" ≠ "".
Proof. by destruct (key s ["backups"]). Qed.

Lemma CheckManifest_ok m e :
  CheckManifest m e = Ok tt ↔
  m_Version m = 1 ∧ m_ManifestKey m = e_ManifestKey e ∧ m_ArchiveKey m = e_ArchiveKey e ∧
  ValidDatabaseSegment (m_DBName m) = true ∧ has_suffix (parent e) ("/" +:+ m_DBName m) = true ∧
  format_compact (m_CreatedAt m) = directoryName e.
Proof.
  unfold CheckManifest. rewrite !guard_ok, andb_true_iff, Z.eqb_eq, !bool_decide_eq_true. tauto.
Qed.

(** A suffix of a slash-separated path that starts at a slash is its last segments. *)
Lemma has_suffix_segment a db name :
  contains_byte slash db = false → contains_byte slash name = false →
  has_suffix (a +:+ "/" +:+ db) ("/" +:+ name) = true → name = db.
Proof.
  intros Hdb Hn. unfold has_suffix. intros [Hl E]%andb_true_iff. bool_simpl.
  pose proof (stake_sdrop (slen (a +:+ "/" +:+ db) - slen ("/" +:+ name)) (a +:+ "/" +:+ db)) as Hs.
  rewrite E in Hs. revert Hs.
  change ("/" +:+ name) with (String slash name). change ("/" +:+ db) with (String slash db).
  intros Hs. apply (f_equal (split_last slash)) in Hs. rewrite !split_last_app in Hs by done. by injection Hs.
Qed.

(** A published backup's manifest key leads back to its directory, and its
    manifest passes the check there. *)
Lemma published_base s db t : ValidDatabaseSegment db = true → printable t →
  BackupKey s db t = key s ["backups"] +:+ "/" +:+ db +:+ "/" +:+ format_compact t.
Proof. intros. rewrite BackupKey_app, key_backups_app by done. by rewrite !app_assoc'. Qed.

Lemma published_EntryFor s db t : ValidDatabaseSegment db = true → printable t →
  let base := BackupKey s db t in
  EntryFor s (base +:+ "/" +:+ ManifestFile) = Ok (mkEntry base (base +:+ "/" +:+ ManifestFile) (base +:+ "/" +:+ ArchiveFile) t "" 0).
Proof.
  intros Hdb Ht base. assert (ParseDirectorySegment (format_compact t) = (t, true)) as Hparse by (by apply printable_of_parse).
  pose proof (published_base s db t Hdb Ht) as Hbase. fold base in Hbase. unfold EntryFor. rewrite Hbase.
  replace ((key s ["backups"] +:+ "/" +:+ db +:+ "/" +:+ format_compact t) +:+ "/" +:+ ManifestFile)
    with ((key s ["backups"] +:+ "/") +:+ (db +:+ String slash (format_compact t +:+ String slash ManifestFile)))
    by (by rewrite !app_assoc').
  rewrite trim_prefix_app, has_prefix_app, split_on_app by (by apply ValidDatabaseSegment_no_slash).
  rewrite split_on_app by (by apply format_compact_no_slash). rewrite split_on_single by done.
  rewrite Hdb, Hparse. cbn. f_equal. cbn. f_equal; by rewrite !app_assoc'.
Qed.

Lemma published_CheckManifest s db t m entry : ValidDatabaseSegment db = true → printable t →
  m_Version m = 1 → m_DBName m = db → m_CreatedAt m = t → e_Directory entry = BackupKey s db t →
  m_ArchiveKey m = e_ArchiveKey entry → m_ManifestKey m = e_ManifestKey entry → CheckManifest m entry = Ok tt.
Proof.
  intros Hdb Ht ? Ed Et He ? ?. apply CheckManifest_ok. rewrite Ed, Et.
  destruct (parent_of_directory (key s ["backups"] +:+ "/") db (format_compact t)
              (format_compact_no_slash t Ht) (key_backups_ne s) entry) as [-> ->].
  { rewrite He, published_base by done. by rewrite !app_assoc'. }
  repeat split; try done. rewrite app_assoc'. apply has_suffix_app.
Qed.

(** C34. Publication and discovery agree: the two objects a backup of database
    [db] at time [t] uploads are listed as one complete entry at [t]; the
    manifest key leads back to that directory; and the manifest the backup
    wrote passes [CheckManifest] there. *)
Theorem published_backup_is_discovered (s : Settings) (db : string) (t : time) (n k : Z) (m : Manifest)
  (Hdb : ValidDatabaseSegment db = true) (Ht : printable t)
  (Hm : m_Version m = 1 ∧ m_DBName m = db ∧ m_CreatedAt m = t ∧
        m_ArchiveKey m = BackupKey s db t +:+ "/" +:+ ArchiveFile ∧
        m_ManifestKey m = BackupKey s db t +:+ "/" +:+ ManifestFile) :
  let base := BackupKey s db t in
  let entry := mkEntry base (base +:+ "/" +:+ ManifestFile) (base +:+ "/" +:+ ArchiveFile) t StateComplete n in
  EntriesFrom (backups_root s db)
    [mkObject (base +:+ "/" +:+ ArchiveFile) n; mkObject (base +:+ "/" +:+ ManifestFile) k] = [entry] ∧
  EntryFor s (base +:+ "/" +:+ ManifestFile) = Ok (entry <| e_State := "" |> <| e_SizeBytes := 0 |>) ∧
  CheckManifest m entry = Ok tt.
Proof.
  intros base entry.
  assert (ParseDirectorySegment (format_compact t) = (t, true)) as Hparse by (by apply printable_of_parse).
  split; [|split].
  - unfold entry, base, EntriesFrom. cbn [fold_left]. unfold collect.
    rewrite !object_parts_file by done. cbn [o_Size].
    rewrite lookup_empty, lookup_insert_eq, insert_insert_eq. cbn [default].
    rewrite insert_empty, map_to_list_singleton. cbn [map sortEntries]. unfold entry_of. cbn [fst snd]. rewrite Hparse.
    by rewrite <- BackupKey_app.
  - by apply published_EntryFor.
  - destruct Hm as (? & ? & ? & ? & ?). by apply (published_CheckManifest s db t).
Qed.

(** A manifest accepted by [CheckManifest] in a folder of database [db]
    really describes that folder: it names [db], the folder's own time and
    the keys of the objects beside it, so no manifest can stand for another
    database's or another moment's backup. *)
Theorem CheckManifest_binds_location (s : Settings) (db name : string) (f : found) (m : Manifest)
  (Hdb : ValidDatabaseSegment db = true)
  (Hname : (ParseDirectorySegment name).2 = true)
  (Hok : CheckManifest m (entry_of (backups_root s db) name f) = Ok tt) :
  m_DBName m = db ∧ format_compact (m_CreatedAt m) = name ∧
  m_ManifestKey m = backups_root s db +:+ name +:+ "/" +:+ ManifestFile ∧
  m_ArchiveKey m = backups_root s db +:+ name +:+ "/" +:+ ArchiveFile.
Proof.
  destruct (ParseDirectorySegment name) as [t ok] eqn:Ep. simpl in Hname. subst ok.
  destruct (proj1 (printable_of_parse _ _) Ep) as [Ht <-].
  apply CheckManifest_ok in Hok as (_ & Hmk & Hak & Hv & Hsuf & Htime).
  destruct (parent_of_directory (key s ["backups"] +:+ "/") db (format_compact t)
              (format_compact_no_slash t Ht) (key_backups_ne s) (entry_of (backups_root s db) (format_compact t) f))
    as [Hpar Hdir].
  { rewrite entry_of_directory, key_backups_app by done. by rewrite !app_assoc'. }
  rewrite Hpar, app_assoc' in Hsuf. rewrite Hdir in Htime.
  apply has_suffix_segment in Hsuf; [|by apply ValidDatabaseSegment_no_slash..].
  unfold entry_of in Hmk, Hak. rewrite Ep in Hmk, Hak. cbn in Hmk, Hak. rewrite app_assoc' in Hmk, Hak. done.
Qed.

(** ** Witnesses *)

Definition example_settings : Settings :=
  mkSettings "https://s3.example.com" "us-east-1" "backups" "pgfy/./prod" "AKIA" "secret" "" false false
    ProtectionVersioning VersioningEnabled 0.
Definition example_time : time := of_unix 1767225600.
Definition example_manifest : Manifest :=
  let base := BackupKey example_settings "app_0123456789ab" example_time in
  mkManifest 1 "inst" "prj_0123456789ab" "Shop" "app_0123456789ab" "18.6" example_time
    (base +:+ "/" +:+ ArchiveFile) "00" 10 [] false None (base +:+ "/" +:+ ManifestFile).

Example example_key :
  BackupKey example_settings "app_0123456789ab" example_time = "pgfy/prod/backups/app_0123456789ab/20260101T000000Z".
Proof. vm_compute. reflexivity. Qed.

Lemma published_backup_is_discovered_witness :
  let base := BackupKey example_settings "app_0123456789ab" example_time in
  EntriesFrom (backups_root example_settings "app_0123456789ab")
    [mkObject (base +:+ "/" +:+ ArchiveFile) 10; mkObject (base +:+ "/" +:+ ManifestFile) 2] =
  [mkEntry base (base +:+ "/" +:+ ManifestFile) (base +:+ "/" +:+ ArchiveFile) example_time StateComplete 10].
Proof.
  refine (proj1 (published_backup_is_discovered example_settings "app_0123456789ab" example_time 10 2
    example_manifest _ _ _)).
  - vm_compute. reflexivity.
  - vm_compute. repeat split; discriminate.
  - vm_compute. repeat split.
Defined.

Lemma CheckManifest_binds_location_witness : m_DBName example_manifest = "app_0123456789ab".
Proof.
  refine (proj1 (CheckManifest_binds_location example_settings "app_0123456789ab" "20260101T000000Z" no_found
    example_manifest _ _ _)); vm_compute; reflexivity.
Defined.
