(* ===== verification/Schema.v ===== *)
(** * Management storage: the SQLite schema and transactions

    The tables of [internal/store/migrations], as the Go structs of
    [internal/store] read them.  A table is the list of its rows in rowid
    order ([Prelude]); a nullable column that is only read through
    [COALESCE(c,0)] or compared with [c>0] is a plain integer, any other
    nullable column is an [option].  [AUTOINCREMENT] keys come from counters
    that never decrease. *)

From S2P Require Import Prelude GoStrings GoTime.

(** ** Projects *)

Record Project := mkProject {
  p_ID : string;
  p_Name : string;
  p_DBName : string;
  p_RoleName : string;
  p_IdempotencyKey : string;
  p_Stage : string;
  p_Failed : bool;
  p_StageError : string;
  p_CreatedAt : Z;
  p_ReadyAt : Z;
  p_FrozenAt : Z;
  p_DeletingAt : Z;
}.
#[export] Instance eta_Project : Eta Project := λ r,
  mkProject (p_ID r) (p_Name r) (p_DBName r) (p_RoleName r) (p_IdempotencyKey r) (p_Stage r) (p_Failed r)
    (p_StageError r) (p_CreatedAt r) (p_ReadyAt r) (p_FrozenAt r) (p_DeletingAt r).

Record Secret := mkSecret {
  sec_ProjectID : string;
  sec_Sealed : string;
  sec_Pending : option string;
  sec_PendingRequestID : string;
}.
#[export] Instance eta_Secret : Eta Secret := λ r,
  mkSecret (sec_ProjectID r) (sec_Sealed r) (sec_Pending r) (sec_PendingRequestID r).

Record PolicyRevision := mkPolicyRevision {
  pr_ProjectID : string; pr_Revision : Z; pr_Addresses : string; pr_CreatedAt : Z }.

Record PolicyStateRow := mkPolicyState {
  ps_ProjectID : string;
  ps_CurrentRevision : Z;
  ps_AppliedRevision : Z;
  ps_State : string;
  ps_LastError : string;
}.
#[export] Instance eta_PolicyState : Eta PolicyStateRow := λ r,
  mkPolicyState (ps_ProjectID r) (ps_CurrentRevision r) (ps_AppliedRevision r) (ps_State r) (ps_LastError r).

Record ConnectionCheck := mkConnectionCheck {
  cc_ID : string;
  cc_ProjectID : string;
  cc_ChallengeHash : string;
  cc_ExpiresAt : Z;
  cc_State : string;
  cc_Evidence : string;
  cc_Fingerprint : string;
  cc_CreatedAt : Z;
}.
#[export] Instance eta_ConnectionCheck : Eta ConnectionCheck := λ r,
  mkConnectionCheck (cc_ID r) (cc_ProjectID r) (cc_ChallengeHash r) (cc_ExpiresAt r) (cc_State r)
    (cc_Evidence r) (cc_Fingerprint r) (cc_CreatedAt r).

Record Limits := mkLimits {
  l_StatementTimeoutMS : Z;
  l_IdleInTransactionMS : Z;
  l_TempFileLimitKB : Z;
  l_LockTimeoutMS : Z;
  l_ConnectionLimit : Z;
}.

Record ProjectLimits := mkProjectLimits {
  pl_ProjectID : string;
  pl_Limits : Limits;
  pl_Revision : Z;
  pl_AppliedRevision : Z;
  pl_LastError : string;
  pl_UpdatedAt : Z;
}.
#[export] Instance eta_ProjectLimits : Eta ProjectLimits := λ r,
  mkProjectLimits (pl_ProjectID r) (pl_Limits r) (pl_Revision r) (pl_AppliedRevision r) (pl_LastError r)
    (pl_UpdatedAt r).

(** ** Jobs and backups *)

Record Job := mkJob {
  j_ID : string;
  j_Kind : string;
  j_ProjectID : option string;
  j_State : string;
  j_Stage : string;
  j_Error : string;
  j_Input : string;
  j_Result : string;
  j_CreatedAt : Z;
  j_StartedAt : Z;
  j_FinishedAt : Z;
  j_StageAt : Z;
  j_Scheduled : bool;
  j_TargetStorage : string;
  j_TargetKey : string;
}.
#[export] Instance eta_Job : Eta Job := λ r,
  mkJob (j_ID r) (j_Kind r) (j_ProjectID r) (j_State r) (j_Stage r) (j_Error r) (j_Input r) (j_Result r)
    (j_CreatedAt r) (j_StartedAt r) (j_FinishedAt r) (j_StageAt r) (j_Scheduled r) (j_TargetStorage r)
    (j_TargetKey r).

(** The columns' [DEFAULT]s. *)
Definition new_job (id kind : string) (project : option string) (input : string) (created : Z) (scheduled : bool) : Job :=
  mkJob id kind project "queued" "queued" "" input "{}" created 0 0 0 scheduled "" "".

Record Backup := mkBackup {
  b_ID : string;
  b_ProjectID : option string;
  b_JobID : string;
  b_ObjectKey : string;
  b_Manifest : string;
  b_SizeBytes : Z;
  b_CreatedAt : Z;
  b_StorageTarget : string;
}.
#[export] Instance eta_Backup : Eta Backup := λ r,
  mkBackup (b_ID r) (b_ProjectID r) (b_JobID r) (b_ObjectKey r) (b_Manifest r) (b_SizeBytes r) (b_CreatedAt r)
    (b_StorageTarget r).

Record BackupPolicy := mkBackupPolicy {
  bp_TargetIntervalHours : Z;
  bp_RetentionDaily : Z;
  bp_RetentionWeekly : Z;
  bp_PreferredHour : Z;
  bp_UpdatedAt : Z;
}.

Record BackupSchedule := mkBackupSchedule {
  bs_ProjectID : string;
  bs_LastAttemptAt : Z;
  bs_Failures : Z;
  bs_NextAttemptAt : Z;
}.
#[export] Instance eta_BackupSchedule : Eta BackupSchedule := λ r,
  mkBackupSchedule (bs_ProjectID r) (bs_LastAttemptAt r) (bs_Failures r) (bs_NextAttemptAt r).

Record StorageTarget := mkStorageTarget {
  st_Target : string;
  st_Endpoint : string;
  st_Bucket : string;
  st_Prefix : string;
  st_Active : bool;
  st_ReconciledAt : Z;
  st_LastError : string;
}.
#[export] Instance eta_StorageTarget : Eta StorageTarget := λ r,
  mkStorageTarget (st_Target r) (st_Endpoint r) (st_Bucket r) (st_Prefix r) (st_Active r) (st_ReconciledAt r)
    (st_LastError r).

Record PrefixState := mkPrefixState {
  px_Target : string;
  px_DBName : string;
  px_ReconciledAt : Z;
  px_Complete : Z;
  px_ManifestOnly : Z;
  px_ArchiveOnly : Z;
  px_Damaged : Z;
  px_Mixed : bool;
}.
#[export] Instance eta_PrefixState : Eta PrefixState := λ r,
  mkPrefixState (px_Target r) (px_DBName r) (px_ReconciledAt r) (px_Complete r) (px_ManifestOnly r)
    (px_ArchiveOnly r) (px_Damaged r) (px_Mixed r).

(** A [bucket_backups] row; [bb_Target] and [bb_SeenAt] are columns the Go
    struct does not read back. *)
Record BucketBackup := mkBucketBackup {
  bb_Target : string;
  bb_ManifestKey : string;
  bb_ArchiveKey : string;
  bb_DBName : string;
  bb_TakenAt : Z;
  bb_State : string;
  bb_InstallationID : string;
  bb_ProjectID : string;
  bb_ProjectName : string;
  bb_PostgresVersion : string;
  bb_TableCount : Z;
  bb_SizeBytes : Z;
  bb_SeenAt : Z;
  bb_DeleteStartedAt : Z;
}.
#[export] Instance eta_BucketBackup : Eta BucketBackup := λ r,
  mkBucketBackup (bb_Target r) (bb_ManifestKey r) (bb_ArchiveKey r) (bb_DBName r) (bb_TakenAt r) (bb_State r)
    (bb_InstallationID r) (bb_ProjectID r) (bb_ProjectName r) (bb_PostgresVersion r) (bb_TableCount r)
    (bb_SizeBytes r) (bb_SeenAt r) (bb_DeleteStartedAt r).

(** ** Administrator, tokens, sessions *)

Record Admin := mkAdmin {
  a_Email : string;
  a_PasswordHash : string;
  a_CreatedAt : Z;
  a_TotpSecretSealed : option string;
  a_TotpLastStep : Z;
  a_CodeFailures : Z;
  a_CodeLockedUntil : Z;
}.
#[export] Instance eta_Admin : Eta Admin := λ r,
  mkAdmin (a_Email r) (a_PasswordHash r) (a_CreatedAt r) (a_TotpSecretSealed r) (a_TotpLastStep r)
    (a_CodeFailures r) (a_CodeLockedUntil r).

Record AuthToken := mkAuthToken {
  t_ID : Z;
  t_Purpose : string;
  t_Hash : string;
  t_ExpiresAt : Z;
  t_Attempts : Z;
  t_MaxAttempts : Z;
  t_ConsumedAt : option Z;
  t_Parent : option Z;
  t_Payload : string;
  t_CreatedAt : Z;
}.
#[export] Instance eta_AuthToken : Eta AuthToken := λ r,
  mkAuthToken (t_ID r) (t_Purpose r) (t_Hash r) (t_ExpiresAt r) (t_Attempts r) (t_MaxAttempts r)
    (t_ConsumedAt r) (t_Parent r) (t_Payload r) (t_CreatedAt r).

Record SessionRow := mkSession { se_Hash : string; se_Scope : string; se_ExpiresAt : Z }.

(** ** Audit and alerts *)

Record AuditEntry := mkAuditEntry {
  au_ID : Z;
  au_At : Z;
  au_AdminID : Z;
  au_Action : string;
  au_Target : string;
  au_RequestID : string;
  au_Detail : string;
}.
#[export] Instance eta_AuditEntry : Eta AuditEntry := λ r,
  mkAuditEntry (au_ID r) (au_At r) (au_AdminID r) (au_Action r) (au_Target r) (au_RequestID r) (au_Detail r).

Record AlertCondition := mkAlertCondition {
  ac_Key : string;
  ac_Kind : string;
  ac_Source : string;
  ac_Summary : string;
  ac_Detail : string;
  ac_Active : bool;
  ac_FirstSeenAt : Z;
  ac_LastSeenAt : Z;
  ac_ClearSince : option Z;
  ac_LastFiredAt : option Z;
  ac_SentState : string;
}.
#[export] Instance eta_AlertCondition : Eta AlertCondition := λ r,
  mkAlertCondition (ac_Key r) (ac_Kind r) (ac_Source r) (ac_Summary r) (ac_Detail r) (ac_Active r)
    (ac_FirstSeenAt r) (ac_LastSeenAt r) (ac_ClearSince r) (ac_LastFiredAt r) (ac_SentState r).

Record AlertEvent := mkAlertEvent {
  ae_ID : Z;
  ae_Kind : string;
  ae_Key : string;
  ae_Summary : string;
  ae_Detail : string;
  ae_CreatedAt : Z;
  ae_SentAt : option Z;
  ae_Attempts : Z;
}.
#[export] Instance eta_AlertEvent : Eta AlertEvent := λ r,
  mkAlertEvent (ae_ID r) (ae_Kind r) (ae_Key r) (ae_Summary r) (ae_Detail r) (ae_CreatedAt r) (ae_SentAt r)
    (ae_Attempts r).

(** ** The database *)

Record DB := mkDB {
  db_projects : list Project;
  db_secrets : list Secret;
  db_policy_revisions : list PolicyRevision;
  db_policy_state : list PolicyStateRow;
  db_connection_checks : list ConnectionCheck;
  db_limits : list ProjectLimits;
  db_jobs : list Job;
  db_backups : list Backup;
  db_policy : BackupPolicy;
  db_schedule : list BackupSchedule;
  db_targets : list StorageTarget;
  db_prefixes : list PrefixState;
  db_bucket : list BucketBackup;
  db_admin : option Admin;
  db_tokens : list AuthToken;
  db_token_seq : Z;
  db_sessions : list SessionRow;
  db_audit : list AuditEntry;
  db_audit_seq : Z;
  db_conditions : list AlertCondition;
  db_events : list AlertEvent;
  db_event_seq : Z;
  db_settings : gmap string (string * Z);
  db_metadata : gmap string string;
}.
#[export] Instance eta_DB : Eta DB := λ r,
  mkDB (db_projects r) (db_secrets r) (db_policy_revisions r) (db_policy_state r) (db_connection_checks r)
    (db_limits r) (db_jobs r) (db_backups r) (db_policy r) (db_schedule r) (db_targets r) (db_prefixes r)
    (db_bucket r) (db_admin r) (db_tokens r) (db_token_seq r) (db_sessions r) (db_audit r) (db_audit_seq r)
    (db_conditions r) (db_events r) (db_event_seq r) (db_settings r) (db_metadata r).

(** A freshly migrated database: one policy row with the column defaults. *)
Definition empty_db : DB :=
  mkDB [] [] [] [] [] [] [] [] (mkBackupPolicy 24 14 8 (-1) 0) [] [] [] [] None [] 0 [] [] 0 [] [] 0 ∅ ∅.

(** ** Errors and transactions *)

Inductive store_error :=
| ErrMaintenance
| ErrJobBusy
| ErrProjectNotFound
| ErrRevisionConflict
| ErrNotDeletable
| ErrProjectBusy
| ErrSetup
| ErrTokenActive
| ErrToken
| ErrCode
| ErrCodeReused
| ErrCodeLocked (seconds : Z)
| ErrCredentialsChanged
| ErrNoRows
| ErrConstraint
| ErrInvalid (message : string)
| ErrStorage.
#[export] Instance store_error_eq_dec : EqDecision store_error.
Proof. solve_decision. Defined.

(** The body of a transaction either commits a new database, with a result
    that may itself be a failure ([commitThen]), or returns an error: then
    the deferred [tx.Rollback()] leaves the database as it was. *)
Definition Tx (A : Type) : Type := DB → res store_error (A * DB).

Definition atomically {A} (body : Tx (res store_error A)) (db : DB) : res store_error A * DB :=
  match body db with
  | Ok (r, db') => (r, db')
  | Err e => (Err e, db)
  end.

(** [INSERT] under [UNIQUE] or [PRIMARY KEY] and [REFERENCES] constraints. *)
Definition sql_insert {Row} (conflict : Row → bool) (references : bool) (row : Row) (t : list Row) :
  res store_error (list Row) :=
  if sql_exists conflict t || negb references then Err ErrConstraint else Ok (t ++ [row]).

Lemma sql_insert_ok {Row} (c : Row → bool) refs row t t' :
  sql_insert c refs row t = Ok t' → t' = t ++ [row] ∧ refs = true ∧ ∀ x, In x t → c x = false.
Proof.
  unfold sql_insert. destruct (sql_exists c t) eqn:E; simpl; [discriminate|].
  destruct refs; simpl; [|discriminate]. intros [= <-]. by rewrite sql_exists_false in E.
Qed.

Lemma sql_insert_err {Row} (c : Row → bool) refs row t e :
  sql_insert c refs row t = Err e → e = ErrConstraint ∧ ((∃ x, In x t ∧ c x = true) ∨ refs = false).
Proof.
  unfold sql_insert. destruct (sql_exists c t) eqn:E; simpl.
  - intros [= <-]. split; [done|]. left. by apply sql_exists_true.
  - destruct refs; simpl; [discriminate|]. intros [= <-]. auto.
Qed.

Definition project_exists (db : DB) (id : string) : bool :=
  sql_exists (λ p, bool_decide (p_ID p = id)) (db_projects db).

(** ** Maintenance

    A host-side update sets a flag in [metadata]; [maintenanceGuard] is the
    condition every guarded statement carries. *)

Definition maintenance (db : DB) : bool := bool_decide (db_metadata db !! "maintenance" = Some "1").

Definition SetMaintenance (on : bool) (db : DB) : DB :=
  if on then db <| db_metadata := <["maintenance" := "1"]> (db_metadata db) |>
  else db <| db_metadata := delete "maintenance" (db_metadata db) |>.

Definition RunningJobs (db : DB) : Z := sql_count (λ j, bool_decide (j_State j = "running")) (db_jobs db).

(** ** Alert events and audit rows, written inside the caller's transaction *)

Definition RecordAlertEvent (kind key summary detail : string) (now : time) (db : DB) : DB :=
  let id := db_event_seq db + 1 in
  db <| db_event_seq := id |>
     <| db_events := db_events db ++ [mkAlertEvent id kind key summary detail (unix now) None 0] |>.

(** The row's own id replaces whatever the entry carried. *)
Definition audit (entry : AuditEntry) (db : DB) : DB :=
  let id := db_audit_seq db + 1 in
  db <| db_audit_seq := id |>
     <| db_audit := db_audit db ++ [entry <| au_ID := id |>] |>.

(** ** Settings *)

Definition Setting (key : string) (db : DB) : string :=
  match db_settings db !! key with Some (sealed, _) => sealed | None => "" end.
Definition SetSetting (key sealed : string) (now : time) (db : DB) : DB :=
  db <| db_settings := <[key := (sealed, unix now)]> (db_settings db) |>.
