(* ===== verification/Files.v ===== *)
(** * Files: package os on a file system that can lose power

    Names lead to nodes and nodes hold bytes.  Two things reach the disk on
    their own time: the bytes of a node, whole once the node is flushed, and
    the changes of directories, which a journalling file system writes in the
    order they were made.  So a power loss brings back the current directory
    or one it had since the last directory sync, and in it a node that was not
    flushed may hold anything.

    Every call consults a schedule, as in [World]: it works, fails without an
    effect, or fails leaving work behind ([Torn], with the bytes a partial
    write left).  A stopped process is one whose remaining calls fail.  Paths
    are compared as spelled: links are not modelled. *)

From S2P Require Import Prelude GoStrings.

Record node := mkNode { n_data : string; n_flushed : bool }.

Inductive fault := Works | Fails | Torn (rest : string).

Record Fs := mkFs {
  fs_dir : gmap string nat;
  fs_nodes : gmap nat node;
  fs_past : list (gmap string nat); (* since the last directory sync *)
  fs_dirs : gset string;
  fs_faults : list fault;
}.
#[export] Instance eta_Fs : Eta Fs := λ r, mkFs (fs_dir r) (fs_nodes r) (fs_past r) (fs_dirs r) (fs_faults r).

Inductive fs_error :=
| ErrNotExist
| ErrExist
| Io
| Text (text : string)
| While (what : string) (e : fs_error). (* [fmt.Errorf("what: %w", e)] *)

(** ** Computations *)

Definition F (A : Type) : Type := Fs → res fs_error A * Fs.
#[export] Instance F_ret : MRet F := λ A a fs, (Ok a, fs).
#[export] Instance F_bind : MBind F := λ A B k m fs,
  match m fs with
  | (Ok a, fs) => k a fs
  | (Err e, fs) => (Err e, fs)
  end.
Definition fail {A} (e : fs_error) : F A := λ fs, (Err e, fs).
Definition try {A} (m : F A) : F (res fs_error A) := λ fs, let (r, fs) := m fs in (Ok r, fs).
Definition while {A} (what : string) (m : F A) : F A := λ fs,
  match m fs with (Err e, fs) => (Err (While what e), fs) | x => x end.
(** [_ = m] *)
Definition ignore {A} (m : F A) : F unit := λ fs, (Ok tt, (m fs).2).
(** [defer fin()] *)
Definition deferred {A} (fin : Fs → Fs) (m : F A) : F A := λ fs, let (r, fs) := m fs in (r, fin fs).

Fixpoint for_files (f : string → F unit) (l : list string) : F unit :=
  match l with
  | [] => mret tt
  | x :: l => f x ≫= λ _, for_files f l
  end.

(** One call: [op] when it works, [torn] what a failure may leave. *)
Definition os_call {A} (op : Fs → res fs_error A * Fs) (torn : string → Fs → Fs) : F A := λ fs,
  match fs_faults fs with
  | [] => op fs
  | o :: os =>
      let fs := fs <| fs_faults := os |> in
      match o with
      | Works => op fs
      | Fails => (Err Io, fs)
      | Torn rest => (Err Io, torn rest fs)
      end
  end.
(** A call that may do its work and still report an error. *)
Definition os_effect {A} (op : Fs → res fs_error A * Fs) : F A := os_call op (λ _ fs, (op fs).2).
Definition os_ask {A} (q : Fs → res fs_error A) : F A := os_call (λ fs, (q fs, fs)) (λ _ fs, fs).

(** ** The state of a file system *)

Definition node_of (d : gmap string nat) (fs : Fs) (p : string) : option node := d !! p ≫= λ i, fs_nodes fs !! i.
Definition now_at (fs : Fs) (p : string) : option node := node_of (fs_dir fs) fs p.
Definition data_at (fs : Fs) (p : string) : option string := n_data <$> now_at fs p.
Definition is_file (fs : Fs) (p : string) : bool := bool_decide (is_Some (fs_dir fs !! p)).
Definition is_dir (fs : Fs) (p : string) : bool := bool_decide (p ∈ fs_dirs fs).

(** [filepath.Dir] *)
Definition path_dir (p : string) : string :=
  match split_last slash p with Some (d, _) => path_clean (d +:+ "/") | None => "." end.

(** A change of directories is journalled, one after the other. *)
Definition set_dir (d : gmap string nat) (fs : Fs) : Fs :=
  fs <| fs_past := fs_dir fs :: fs_past fs |> <| fs_dir := d |>.
(** Bytes written in place, or into a new node. *)
Definition put (p data : string) (fs : Fs) : Fs :=
  match fs_dir fs !! p with
  | Some i => fs <| fs_nodes := <[i := mkNode data false]> (fs_nodes fs) |>
  | None =>
      let i := fresh (dom (fs_nodes fs)) in
      set_dir (<[p := i]> (fs_dir fs)) (fs <| fs_nodes := <[i := mkNode data false]> (fs_nodes fs) |>)
  end.
Definition flush (p : string) (fs : Fs) : Fs :=
  match fs_dir fs !! p with
  | Some i => fs <| fs_nodes := alter (λ n, mkNode (n_data n) true) i (fs_nodes fs) |>
  | None => fs
  end.

(** ** Package os *)

Definition Stat (p : string) : F unit :=
  os_ask (λ fs, if is_file fs p || is_dir fs p then Ok tt else Err ErrNotExist).
(** The size of a file; what a directory reports is not a size of data. *)
Definition StatSize (p : string) : F Z :=
  os_ask (λ fs, match data_at fs p with
                | Some d => Ok (Z.of_nat (slen d))
                | None => if is_dir fs p then Ok 4096 else Err ErrNotExist
                end).

Definition ReadFile (p : string) : F string :=
  os_ask (λ fs, match data_at fs p with Some d => Ok d | None => if is_dir fs p then Err Io else Err ErrNotExist end).

Definition WriteFile (p data : string) : F unit :=
  os_call (λ fs,
    if is_dir fs p then (Err Io, fs)
    else if is_file fs p || is_dir fs (path_dir p) then (Ok tt, put p data fs) else (Err ErrNotExist, fs))
    (λ rest fs, if negb (is_dir fs p) && (is_file fs p || is_dir fs (path_dir p)) then put p rest fs else fs).

(** [os.OpenFile(p, os.O_CREATE|os.O_EXCL|os.O_WRONLY, …)] *)
Definition CreateNew (p : string) : F unit :=
  os_effect (λ fs,
    if is_file fs p || is_dir fs p then (Err ErrExist, fs)
    else if is_dir fs (path_dir p) then (Ok tt, put p "" fs) else (Err ErrNotExist, fs)).

(** A directory is removed when it is empty. *)
Definition Remove (p : string) : F unit :=
  os_effect (λ fs,
    if is_file fs p then (Ok tt, set_dir (delete p (fs_dir fs)) fs)
    else if is_dir fs p then
      if existsb (λ q, bool_decide (path_dir q = p)) (map fst (map_to_list (fs_dir fs)) ++ elements (fs_dirs fs ∖ {[p]}))
      then (Err Io, fs)
      else (Ok tt, fs <| fs_dirs := fs_dirs fs ∖ {[p]} |>)
    else (Err ErrNotExist, fs)).

(** Renaming files. *)
Definition Rename (a b : string) : F unit :=
  os_effect (λ fs,
    match fs_dir fs !! a with
    | None => (Err ErrNotExist, fs)
    | Some i =>
        if is_dir fs b then (Err Io, fs)
        else if is_dir fs (path_dir b) then (Ok tt, set_dir (<[b := i]> (delete a (fs_dir fs))) fs)
        else (Err ErrNotExist, fs)
    end).

Fixpoint parents (fuel : nat) (p : string) : list string :=
  match fuel with
  | O => []
  | S fuel => let d := path_dir p in p :: if bool_decide (d = p) then [] else parents fuel d
  end.
(** A path has no more parents than bytes. *)
Definition MkdirAll (p : string) : F unit :=
  os_effect (λ fs,
    let all := parents (S (slen p)) p in
    if existsb (is_file fs) all then (Err Io, fs)
    else (Ok tt, fs <| fs_dirs := list_to_set all ∪ fs_dirs fs |>)).

(** Permissions are not part of the model. *)
Definition Chmod (p : string) : F unit :=
  os_ask (λ fs, if is_file fs p || is_dir fs p then Ok tt else Err ErrNotExist).

Definition Open (p : string) : F unit := Stat p.
(** [f.Sync] on an open file or directory. *)
Definition Sync (p : string) : F unit :=
  os_effect (λ fs, (Ok tt, if is_file fs p then flush p fs else fs <| fs_past := [] |>)).

(** [filepath.Glob] of [dir/pre*suf], for a directory spelled without pattern
    characters; the matches of a directory that is itself a pattern are
    [glob_dirs].  Errors while reading are ignored. *)
Definition has_meta (s : string) : bool :=
  existsb (λ c, contains_byte c s) ["*"%char; "?"%char; "["%char; ascii_of_nat 92].
Definition in_dir (dir p : string) : bool :=
  has_prefix p (dir +:+ "/") && negb (contains_byte slash (trim_prefix p (dir +:+ "/"))).
Definition star (pre suf name : string) : bool :=
  has_prefix name pre && has_suffix name suf && (slen pre + slen suf <=? slen name)%nat.
Definition matches (dir pre suf p : string) : bool := in_dir dir p && star pre suf (trim_prefix p (dir +:+ "/")).
Definition names (fs : Fs) : list string := remove_dups (map fst (map_to_list (fs_dir fs)) ++ elements (fs_dirs fs)).
Definition glob_one (dir pre suf : string) (fs : Fs) : list string :=
  sql_order (key_leb id String.leb) (List.filter (matches dir pre suf) (names fs)).
Definition Glob (glob_dirs : string → Fs → list string) (dir pre suf : string) : F (list string) :=
  os_ask (λ fs, Ok (if has_meta dir then List.flat_map (λ d, glob_one d pre suf fs) (glob_dirs dir fs) else glob_one dir pre suf fs)).

(** ** What survives a loss of power *)

Definition dirs_of (fs : Fs) : list (gmap string nat) := fs_dir fs :: fs_past fs.

(** A file system found after the loss: one of the directories, with the bytes
    of flushed nodes. *)
Definition after_loss (fs : Fs) (files : gmap string string) : Prop :=
  ∃ d, In d (dirs_of fs) ∧ ∀ p,
    match node_of d fs p with
    | None => files !! p = None
    | Some n => if n_flushed n then files !! p = Some (n_data n) else is_Some (files !! p)
    end.

(** Names lead to nodes that exist, and no node has two names over time. *)
Record tidy (fs : Fs) : Prop := {
  tidy_nodes d p i : In d (dirs_of fs) → d !! p = Some i → is_Some (fs_nodes fs !! i);
  tidy_names d d' p q i : In d (dirs_of fs) → In d' (dirs_of fs) → d !! p = Some i → d' !! q = Some i → p = q;
}.

(** [only X fs fs']: outside [X] nothing changed, in what is visible and in
    what a loss of power can bring back. *)
Record only (X : string → Prop) (fs fs' : Fs) : Prop := {
  only_now q : ¬ X q → now_at fs' q = now_at fs q;
  only_views d' : In d' (dirs_of fs') → ∃ d, In d (dirs_of fs) ∧ ∀ q, ¬ X q → node_of d' fs' q = node_of d fs q;
}.

Create HintDb files discriminated.

Lemma only_refl X fs : only X fs fs.
Proof. split; [done|]. intros d Hd. exists d. done. Qed.
Lemma only_trans (X Y Z : string → Prop) fs fs1 fs2 :
  (∀ q, X q ∨ Y q → Z q) → only X fs fs1 → only Y fs1 fs2 → only Z fs fs2.
Proof.
  intros HZ [H1 V1] [H2 V2]. split.
  - intros q Hq. rewrite H2, H1; [done| |]; intros Hx; apply Hq, HZ; auto.
  - intros d2 Hd2. destruct (V2 d2 Hd2) as (d1 & Hd1 & E1). destruct (V1 d1 Hd1) as (d & Hd & E).
    exists d. split; [done|]. intros q Hq. rewrite E1, E; [done| |]; intros Hx; apply Hq, HZ; auto.
Qed.
Lemma only_weaken (X Y : string → Prop) fs fs' : (∀ q, X q → Y q) → only X fs fs' → only Y fs fs'.
Proof. intros HXY H. eapply (only_trans X X); [|exact H|apply only_refl]. naive_solver. Qed.
(** The schedule and the set of directories are not part of what is compared. *)
Lemma only_same X fs fs' : fs_dir fs' = fs_dir fs → fs_nodes fs' = fs_nodes fs → fs_past fs' = fs_past fs → only X fs fs'.
Proof.
  intros Hd Hn Hp. split; unfold now_at, node_of, dirs_of; rewrite ?Hd, ?Hn, ?Hp; [done|]. intros d' Hd'. exists d'. done.
Qed.
Lemma tidy_same fs fs' : fs_dir fs' = fs_dir fs → fs_nodes fs' = fs_nodes fs → fs_past fs' = fs_past fs → tidy fs → tidy fs'.
Proof. intros Hd Hn Hp [H1 H2]. split; unfold dirs_of in *; rewrite ?Hd, ?Hn, ?Hp; eauto. Qed.
#[export] Hint Resolve only_refl : files.

(** A view, for names in [X] too, that the loss leaves as one before. *)
Lemma only_after X fs fs' files : only X fs fs' → after_loss fs' files →
  ∃ d, In d (dirs_of fs) ∧ ∀ q, ¬ X q →
    match node_of d fs q with
    | None => files !! q = None
    | Some n => if n_flushed n then files !! q = Some (n_data n) else is_Some (files !! q)
    end.
Proof.
  intros [_ HV] (d' & Hd' & Hf). destruct (HV d' Hd') as (d & Hd & E). exists d. split; [done|]. intros q Hq.
  rewrite <- E by done. apply Hf.
Qed.

Lemma set_dir_only X d fs : tidy fs → (∀ q, ¬ X q → node_of d fs q = now_at fs q) → only X fs (set_dir d fs).
Proof.
  intros _ HX. split; [exact HX|]. intros d' [<-|Hd'].
  - exists (fs_dir fs). split; [by left|]. exact HX.
  - exists d'. split; [exact Hd'|done].
Qed.

(** Bytes in place: nobody else sees them. *)
Lemma put_in_place p i data fs (fs' := fs <| fs_nodes := <[i := mkNode data false]> (fs_nodes fs) |>) :
  tidy fs → fs_dir fs !! p = Some i → only (eq p) fs fs' ∧ tidy fs' ∧ now_at fs' p = Some (mkNode data false).
Proof.
  intros [Hn Ha] Ei.
  assert (∀ d q, In d (dirs_of fs) → p ≠ q → node_of d fs' q = node_of d fs q) as H.
  { intros d q Hd Hq. unfold node_of. cbn. destruct (d !! q) as [j|] eqn:Ej; [|done]. cbn.
    rewrite lookup_insert_ne; [done|]. intros ->. apply Hq. apply (Ha (fs_dir fs) d p q j); [by left|done..]. }
  split; [|split].
  - split; [intros q Hq; apply H; [by left|done]|]. intros d Hd. exists d. split; [done|]. intros q Hq. by apply H.
  - split; cbn; [|exact Ha]. intros d q j Hd Hj. destruct (decide (i = j)) as [->|Hne]; [rewrite lookup_insert_eq; eauto|].
    rewrite lookup_insert_ne by done. eapply Hn; [exact Hd|exact Hj].
  - unfold now_at, node_of. cbn. rewrite Ei. cbn. by rewrite lookup_insert_eq.
Qed.

(** A new node under a new name. *)
Section put_new.
Context (p data : string) (fs : Fs) (Ht : tidy fs) (i := fresh (dom (fs_nodes fs))).
Let fs1 := fs <| fs_nodes := <[i := mkNode data false]> (fs_nodes fs) |>.
Let fs' := set_dir (<[p := i]> (fs_dir fs)) fs1.

Lemma fresh_node d q j : In d (dirs_of fs) → d !! q = Some j → i ≠ j.
Proof.
  intros Hd Hj <-. destruct (tidy_nodes fs Ht d q i Hd Hj) as [n Hi].
  assert (fs_nodes fs !! i = None) as Hnone by (apply not_elem_of_dom, is_fresh). congruence.
Qed.
Lemma fresh_views d q : In d (dirs_of fs) → node_of d fs1 q = node_of d fs q.
Proof.
  intros Hd. unfold node_of, fs1. cbn. destruct (d !! q) as [j|] eqn:Ej; [|done]. cbn.
  rewrite lookup_insert_ne; [done|]. by eapply fresh_node.
Qed.
Lemma put_new_only : only (eq p) fs fs'.
Proof.
  assert (∀ q, p ≠ q → node_of (<[p := i]> (fs_dir fs)) fs1 q = now_at fs q) as H.
  { intros q Hq. unfold now_at. rewrite <- fresh_views by by left. unfold node_of. by rewrite lookup_insert_ne. }
  split; [exact H|]. intros d' [<-|Hd'].
  - exists (fs_dir fs). split; [by left|exact H].
  - exists d'. split; [exact Hd'|]. intros q _. by apply fresh_views.
Qed.
Lemma put_new_tidy : tidy fs'.
Proof.
  assert (∀ d q j, In d (dirs_of fs') → d !! q = Some j → (q = p ∧ j = i) ∨ ∃ d0, In d0 (dirs_of fs) ∧ d0 !! q = Some j) as Hcase.
  { intros d q j [<-|Hd] Hj; [|right; eauto]. destruct (decide (q = p)) as [->|Hne].
    - cbn in Hj. rewrite lookup_insert_eq in Hj. injection Hj as <-. by left.
    - cbn in Hj. rewrite lookup_insert_ne in Hj by done. right. exists (fs_dir fs). split; [by left|done]. }
  split.
  - intros d q j Hd Hj. cbn. destruct (Hcase d q j Hd Hj) as [[-> ->]|(d0 & Hd0 & E0)]; [rewrite lookup_insert_eq; eauto|].
    rewrite lookup_insert_ne; [by eapply (tidy_nodes fs Ht)|by eapply fresh_node].
  - intros d d' q q' j Hd Hd' Hj Hj'.
    destruct (Hcase d q j Hd Hj) as [[-> ->]|(d0 & Hd0 & E0)], (Hcase d' q' _ Hd' Hj') as [[-> Hi']|(d1 & Hd1 & E1)]; [done|..].
    + by destruct (fresh_node d1 q' i Hd1 E1).
    + subst j. by destruct (fresh_node d0 q i Hd0 E0).
    + exact (tidy_names fs Ht d0 d1 q q' j Hd0 Hd1 E0 E1).
Qed.
End put_new.

Lemma put_only p data fs : tidy fs → only (eq p) fs (put p data fs) ∧ tidy (put p data fs) ∧ now_at (put p data fs) p = Some (mkNode data false).
Proof.
  intros Ht. unfold put. destruct (fs_dir fs !! p) as [i|] eqn:Ei; [by apply put_in_place|].
  split; [by apply put_new_only|]. split; [by apply put_new_tidy|].
  unfold now_at, node_of. cbn. rewrite lookup_insert_eq. cbn. by rewrite lookup_insert_eq.
Qed.

(** ** Reasoning about runs

    [fwp m Q fs]: the run of [m] from [fs] ends in a result and a file system
    that satisfy [Q]. *)

Definition fwp {A} (m : F A) (Q : res fs_error A → Fs → Prop) (fs : Fs) : Prop := let (r, fs') := m fs in Q r fs'.

Section fwp.
Context {A B : Type}.
Implicit Types (m : F A) (Q : res fs_error A → Fs → Prop).
Lemma fwp_run m Q fs r fs' : fwp m Q fs → m fs = (r, fs') → Q r fs'.
Proof. unfold fwp. intros H E. by rewrite E in H. Qed.
Lemma fwp_mono m Q Q' fs : fwp m Q fs → (∀ r fs', Q r fs' → Q' r fs') → fwp m Q' fs.
Proof. unfold fwp. intros H HQ. destruct (m fs). auto. Qed.
Lemma fwp_and m Q Q' fs : fwp m Q fs → fwp m Q' fs → fwp m (λ r f, Q r f ∧ Q' r f) fs.
Proof. unfold fwp. destruct (m fs). auto. Qed.
Lemma fwp_ret (a : A) Q fs : Q (Ok a) fs → fwp (mret a) Q fs.
Proof. done. Qed.
Lemma fwp_fail e Q fs : Q (Err e) fs → fwp (fail e) Q fs.
Proof. done. Qed.
Lemma fwp_bind m (k : A → F B) (Q : res fs_error B → Fs → Prop) fs :
  fwp m (λ r fs', match r with Ok a => fwp (k a) Q fs' | Err e => Q (Err e) fs' end) fs → fwp (m ≫= k) Q fs.
Proof. unfold fwp, mbind, F_bind. by destruct (m fs) as [[] ]. Qed.
Lemma fwp_try m (Q : res fs_error (res fs_error A) → Fs → Prop) fs : fwp m (λ r fs', Q (Ok r) fs') fs → fwp (try m) Q fs.
Proof. unfold fwp, try. by destruct (m fs). Qed.
Lemma fwp_ignore m (Q : res fs_error unit → Fs → Prop) fs : fwp m (λ _ fs', Q (Ok tt) fs') fs → fwp (ignore m) Q fs.
Proof. unfold fwp, ignore. by destruct (m fs). Qed.
Lemma fwp_deferred fin m Q fs : fwp m (λ r fs', Q r (fin fs')) fs → fwp (deferred fin m) Q fs.
Proof. unfold fwp, deferred. by destruct (m fs). Qed.
Lemma fwp_while what m Q fs :
  fwp m (λ r fs', match r with Ok a => Q (Ok a) fs' | Err e => Q (Err (While what e)) fs' end) fs → fwp (while what m) Q fs.
Proof. unfold fwp, while. by destruct (m fs) as [[] ]. Qed.
End fwp.

(** Files as they were; only the schedule moved on. *)
Definition quiet (fs fs' : Fs) : Prop := fs' = fs <| fs_faults := fs_faults fs' |>.
Lemma quiet_refl fs : quiet fs fs.
Proof. by destruct fs. Qed.
Lemma quiet_only X fs fs' : quiet fs fs' → only X fs fs'.
Proof. intros ->. by apply only_same. Qed.
Lemma quiet_tidy fs fs' : quiet fs fs' → tidy fs → tidy fs'.
Proof. intros ->. by apply tidy_same. Qed.
Lemma quiet_now_at fs fs' p : quiet fs fs' → now_at fs' p = now_at fs p.
Proof. by intros ->. Qed.
Lemma quiet_data fs fs' p : quiet fs fs' → data_at fs' p = data_at fs p.
Proof. by intros ->. Qed.
Lemma quiet_is_dir fs fs' p : quiet fs fs' → is_dir fs' p = is_dir fs p.
Proof. by intros ->. Qed.
#[export] Hint Resolve quiet_refl quiet_only quiet_tidy : files.

Lemma os_call_wp {A} (op : Fs → res fs_error A * Fs) torn Q fs :
  (∀ fs0, quiet fs fs0 → Q (op fs0).1 (op fs0).2 ∧ Q (Err Io) fs0 ∧ ∀ rest, Q (Err Io) (torn rest fs0)) →
  fwp (os_call op torn) Q fs.
Proof.
  intros H. unfold fwp, os_call. destruct (fs_faults fs) as [|o os].
  - destruct (H fs (quiet_refl fs)) as (H1 & _). by destruct (op fs).
  - destruct (H (fs <| fs_faults := os |>)) as (H1 & H2 & H3); [by destruct fs|].
    destruct o; [by destruct (op _)|done..].
Qed.
Lemma os_effect_wp {A} (op : Fs → res fs_error A * Fs) Q fs :
  (∀ fs0, quiet fs fs0 → Q (op fs0).1 (op fs0).2 ∧ Q (Err Io) fs0 ∧ Q (Err Io) (op fs0).2) → fwp (os_effect op) Q fs.
Proof. intros H. apply os_call_wp. naive_solver. Qed.
Lemma os_ask_wp {A} (q : Fs → res fs_error A) (Q : res fs_error A → Fs → Prop) fs :
  (∀ fs0, quiet fs fs0 → Q (q fs0) fs0 ∧ Q (Err Io) fs0) → fwp (os_ask q) Q fs.
Proof. intros H. apply os_call_wp. intros fs0 H0. destruct (H fs0 H0). done. Qed.

Lemma is_file_now fs p : tidy fs → is_file fs p = true ↔ is_Some (now_at fs p).
Proof.
  intros Ht. unfold is_file, now_at, node_of. rewrite bool_decide_eq_true. split.
  - intros [i Ei]. rewrite Ei. eapply (tidy_nodes fs Ht); [by left|exact Ei].
  - destruct (fs_dir fs !! p); [eauto|intros [? ?]; done].
Qed.
Lemma not_file_now fs p : is_file fs p = false → now_at fs p = None.
Proof. unfold is_file, now_at, node_of. rewrite bool_decide_eq_false. destruct (fs_dir fs !! p); [naive_solver|done]. Qed.

(** ** What each call does *)

Lemma unlink_spec p fs (fs' := set_dir (delete p (fs_dir fs)) fs) :
  tidy fs → tidy fs' ∧ only (eq p) fs fs' ∧ now_at fs' p = None.
Proof.
  intros Ht. split; [|split].
  - assert (∀ d q i, In d (dirs_of fs') → d !! q = Some i → ∃ d0, In d0 (dirs_of fs) ∧ d0 !! q = Some i) as H.
    { intros d q i [<-|Hd] Hi; [|eauto]. cbn in Hi. apply lookup_delete_Some in Hi as [_ Hi]. exists (fs_dir fs). split; [by left|done]. }
    split.
    + intros d q i Hd Hi. destruct (H d q i Hd Hi) as (d0 & Hd0 & E0). eapply (tidy_nodes fs Ht); eauto.
    + intros d d' q q' i Hd Hd' Hi Hi'. destruct (H d q i Hd Hi) as (d0 & Hd0 & E0), (H d' q' i Hd' Hi') as (d1 & Hd1 & E1).
      eapply (tidy_names fs Ht d0 d1); eauto.
  - apply set_dir_only; [done|]. intros q Hq. unfold now_at, node_of. by rewrite lookup_delete_ne.
  - unfold now_at, node_of. cbn. by rewrite lookup_delete_eq.
Qed.

Lemma Remove_wp p fs : tidy fs →
  fwp (Remove p) (λ r fs', tidy fs' ∧ only (eq p) fs fs' ∧ (r = Ok tt ∨ r = Err ErrNotExist → now_at fs' p = None)) fs.
Proof.
  intros Ht. apply os_effect_wp. intros fs0 Hq. pose proof (quiet_tidy fs fs0 Hq Ht) as Ht0.
  assert (∀ fs', tidy fs' ∧ only (eq p) fs0 fs' → tidy fs' ∧ only (eq p) fs fs') as Hgo.
  { intros fs' [? Ho]. split; [done|]. eapply only_trans; [|by apply quiet_only|exact Ho]. naive_solver. }
  destruct (is_file fs0 p) eqn:Ef.
  { destruct (unlink_spec p fs0 Ht0) as (H1 & H2 & H3). destruct (Hgo _ (conj H1 H2)). destruct (Hgo fs0) as []; [by split; [|apply only_refl]|].
    cbn [fst snd]. naive_solver. }
  assert (tidy fs0 ∧ only (eq p) fs fs0) as [Ha Hb] by (apply Hgo; split; [done|apply only_refl]).
  assert (now_at fs0 p = None) as Hnone by by apply not_file_now.
  destruct (is_dir fs0 p); [|cbn [fst snd]; naive_solver].
  destruct (existsb _ _); [cbn [fst snd]; naive_solver|].
  assert (tidy (fs0 <| fs_dirs := fs_dirs fs0 ∖ {[p]} |>) ∧ only (eq p) fs (fs0 <| fs_dirs := fs_dirs fs0 ∖ {[p]} |>)) as [Hc Hd].
  { apply Hgo. split; [by eapply tidy_same; [..|exact Ha]|by apply only_same]. }
  cbn [fst snd]. repeat split; try done; try apply Ha; try apply Hc; try apply Hb; try apply Hd.
Qed.

Lemma WriteFile_wp p data fs : tidy fs →
  fwp (WriteFile p data) (λ r fs', tidy fs' ∧ only (eq p) fs fs' ∧ (r = Ok tt → now_at fs' p = Some (mkNode data false))) fs.
Proof.
  intros Ht. apply os_call_wp. intros fs0 Hq. pose proof (quiet_tidy fs fs0 Hq Ht) as Ht0.
  assert (∀ d, tidy (put p d fs0) ∧ only (eq p) fs (put p d fs0)) as Hput.
  { intros d. destruct (put_only p d fs0 Ht0) as (Ho & H & _). split; [done|]. eapply only_trans; [|by apply quiet_only|exact Ho]. naive_solver. }
  pose proof (quiet_only (eq p) fs fs0 Hq) as Ho. destruct (Hput data) as [H1 H2]. destruct (put_only p data fs0 Ht0) as (_ & _ & H3).
  split; [|split; [naive_solver|]].
  - destruct (is_dir fs0 p); [naive_solver|]. destruct (_ || _); naive_solver.
  - intros rest. destruct (Hput rest). destruct (_ && _); naive_solver.
Qed.

Lemma flush_spec p fs (fs' := flush p fs) : tidy fs →
  tidy fs' ∧ only (eq p) fs fs' ∧ now_at fs' p = (λ n, mkNode (n_data n) true) <$> now_at fs p.
Proof.
  intros [Hn Ha]. unfold fs', flush. destruct (fs_dir fs !! p) as [i|] eqn:Ei.
  2: { split; [done|]. split; [apply only_refl|]. unfold now_at, node_of. by rewrite Ei. }
  set (f2 := fs <| fs_nodes := _ |>).
  assert (∀ d q, In d (dirs_of fs) → p ≠ q → node_of d f2 q = node_of d fs q) as H.
  { intros d q Hd Hq. unfold node_of, f2. cbn. destruct (d !! q) as [j|] eqn:Ej; [|done]. cbn.
    rewrite lookup_alter_ne; [done|]. intros ->. apply Hq. apply (Ha (fs_dir fs) d p q j); [by left|done..]. }
  split; [|split].
  - split; [|exact Ha]. intros d q j Hd Hj. unfold f2. cbn. rewrite lookup_alter. destruct (Hn d q j Hd Hj) as [n Hj'].
    case_decide; subst; rewrite Hj'; eauto.
  - split; [intros q Hq; apply H; [by left|done]|]. intros d Hd. exists d. split; [done|]. intros q Hq. by apply H.
  - unfold now_at, node_of, f2. cbn. rewrite Ei. cbn. by rewrite lookup_alter_eq.
Qed.

Lemma settle_spec X fs (fs' := fs <| fs_past := [] |>) : tidy fs → tidy fs' ∧ only X fs fs'.
Proof.
  intros [Hn Ha]. split.
  - split; cbn; intros *; [intros [<-|[]]; apply (Hn (fs_dir fs)); by left|].
    intros [<-|[]] [<-|[]]. apply (Ha (fs_dir fs)); by left.
  - split; [done|]. intros d [<-|[]]. exists (fs_dir fs). split; [by left|done].
Qed.

(** A directory that was synced has no past. *)
Lemma Sync_wp p fs : tidy fs →
  fwp (Sync p) (λ r fs', tidy fs' ∧ only (eq p) fs fs' ∧ data_at fs' p = data_at fs p ∧
    (r = Ok tt → if is_file fs p then now_at fs' p = (λ n, mkNode (n_data n) true) <$> now_at fs p else fs_past fs' = [])) fs.
Proof.
  intros Ht. apply os_effect_wp. intros fs0 Hq. pose proof (quiet_tidy fs fs0 Hq Ht) as Ht0. pose proof (quiet_only (eq p) fs fs0 Hq) as Ho.
  assert (is_file fs0 p = is_file fs p) as Hf by by rewrite Hq. assert (now_at fs0 p = now_at fs p) as Hn by by apply quiet_now_at.
  assert (data_at fs0 p = data_at fs p) as Hd by (unfold data_at; by rewrite Hn). rewrite <- Hf, <- Hd, <- Hn.
  assert (∀ f, tidy f ∧ only (eq p) fs0 f → tidy f ∧ only (eq p) fs f) as Hgo.
  { intros f [? ?]. split; [done|]. eapply only_trans; [|exact Ho|done]. naive_solver. }
  cbn [fst snd]. destruct (is_file fs0 p) eqn:E.
  - destruct (flush_spec p fs0 Ht0) as (H1 & H2 & H3). destruct (Hgo _ (conj H1 H2)).
    assert (data_at (flush p fs0) p = data_at fs0 p) by (unfold data_at; rewrite H3; by destruct (now_at fs0 p)). naive_solver.
  - destruct (settle_spec (eq p) fs0 Ht0) as [H1 H2]. destruct (Hgo _ (conj H1 H2)).
    assert (data_at (fs0 <| fs_past := [] |>) p = data_at fs0 p) by done. naive_solver.
Qed.

(** A file under its new name; every directory before is still possible. *)
Record moved (a b : string) (fs fs' : Fs) : Prop := {
  moved_source : is_Some (fs_dir fs !! a);
  moved_nodes : fs_nodes fs' = fs_nodes fs;
  moved_past : fs_past fs' = dirs_of fs;
  moved_dir : ∀ q, fs_dir fs' !! q = if bool_decide (q = b) then fs_dir fs !! a else if bool_decide (q = a) then None else fs_dir fs !! q;
}.
Lemma moved_only (X : string → Prop) a b fs fs1 fs2 : X a → X b → moved a b fs fs1 →
  fs_dir fs2 = fs_dir fs1 → fs_nodes fs2 = fs_nodes fs1 → fs_past fs2 = fs_past fs1 ∨ fs_past fs2 = [] → only X fs fs2.
Proof.
  intros Ha Hb [_ Mn Mp Md] Ed En Ep.
  assert (∀ d q, node_of d fs2 q = node_of d fs q) as Hv by (intros; unfold node_of; by rewrite En, Mn).
  assert (∀ q, ¬ X q → now_at fs2 q = now_at fs q) as Hn.
  { intros q Hq. unfold now_at. rewrite Hv. unfold node_of. rewrite Ed, Md, !bool_decide_false; [done| |]; by intros ->. }
  split; [done|]. intros d [<-|Hd].
  - exists (fs_dir fs). split; [by left|exact Hn].
  - exists d. split; [|done]. destruct Ep as [Ep|Ep]; rewrite Ep in Hd; [by rewrite Mp in Hd|done].
Qed.
Lemma Rename_wp a b fs : fwp (Rename a b) (λ r fs', (quiet fs fs' ∧ r ≠ Ok tt) ∨ ∃ fs0, quiet fs fs0 ∧ moved a b fs0 fs') fs.
Proof.
  apply os_effect_wp. intros fs0 Hq. destruct (fs_dir fs0 !! a) as [i|] eqn:Ei; [|cbn; auto].
  destruct (is_dir fs0 b); [cbn; auto|]. destruct (is_dir fs0 (path_dir b)); [|cbn; auto].
  assert (moved a b fs0 (set_dir (<[b := i]> (delete a (fs_dir fs0))) fs0)) as Hm.
  { split; [by rewrite Ei|done..|]. intros q. cbn. rewrite Ei. repeat case_bool_decide; subst.
    - by rewrite lookup_insert_eq.
    - rewrite lookup_insert_ne by done. by rewrite lookup_delete_eq.
    - rewrite lookup_insert_ne by done. by rewrite lookup_delete_ne. }
  cbn [fst snd]. split; [right; eauto|]. split; [by left|right; eauto].
Qed.

(** ** Confinement

    [confined X m]: a run of [m] changes files named in [X] only, whatever its
    result. *)

Definition confined {A} (X : string → Prop) (m : F A) : Prop :=
  ∀ fs, tidy fs → fwp m (λ _ fs', tidy fs' ∧ only X fs fs') fs.

Section confined.
Context {A B : Type} (X : string → Prop).

Lemma confined_ret (a : A) : confined X (mret a).
Proof. intros fs Ht. apply fwp_ret. split; [done|apply only_refl]. Qed.
Lemma confined_fail e : confined X (fail (A:=A) e).
Proof. intros fs Ht. apply fwp_fail. split; [done|apply only_refl]. Qed.
Lemma confined_step (fs fs1 : Fs) (m : F A) : confined X m → tidy fs1 → only X fs fs1 →
  fwp m (λ _ fs', tidy fs' ∧ only X fs fs') fs1.
Proof.
  intros Hm Ht Ho. eapply fwp_mono; [apply Hm, Ht|]. intros r fs' [Ht' Ho']. split; [done|].
  eapply only_trans; [|exact Ho|exact Ho']. naive_solver.
Qed.
Lemma confined_bind (m : F A) (k : A → F B) : confined X m → (∀ a, confined X (k a)) → confined X (m ≫= k).
Proof.
  intros Hm Hk fs Ht. apply fwp_bind. eapply fwp_mono; [apply Hm, Ht|]. intros r fs1 [Ht1 Ho1].
  destruct r; [|done]. eapply fwp_mono; [apply Hk, Ht1|]. intros r fs' [Ht' Ho']. split; [done|].
  eapply only_trans; [|exact Ho1|exact Ho']. naive_solver.
Qed.
Lemma confined_try (m : F A) : confined X m → confined X (try m).
Proof. intros Hm fs Ht. apply fwp_try, Hm, Ht. Qed.
Lemma confined_ignore (m : F A) : confined X m → confined X (ignore m).
Proof. intros Hm fs Ht. apply fwp_ignore, Hm, Ht. Qed.
Lemma confined_while what (m : F A) : confined X m → confined X (while what m).
Proof. intros Hm fs Ht. apply fwp_while. eapply fwp_mono; [apply Hm, Ht|]. by intros []. Qed.
Lemma confined_deferred fin (m : F A) :
  confined X m → (∀ fs, tidy fs → tidy (fin fs) ∧ only X fs (fin fs)) → confined X (deferred fin m).
Proof.
  intros Hm Hf fs Ht. apply fwp_deferred. eapply fwp_mono; [apply Hm, Ht|]. intros r fs1 [Ht1 Ho1].
  destruct (Hf fs1 Ht1) as [Ht2 Ho2]. split; [done|]. eapply only_trans; [|exact Ho1|exact Ho2]. naive_solver.
Qed.
Lemma confined_weaken (Y : string → Prop) (m : F A) : (∀ q, Y q → X q) → confined Y m → confined X m.
Proof. intros HYX Hm fs Ht. eapply fwp_mono; [apply Hm, Ht|]. intros r fs' [? ?]. split; [done|by eapply only_weaken]. Qed.
Lemma confined_ask (q : Fs → res fs_error A) : confined X (os_ask q).
Proof. intros fs Ht. apply os_ask_wp. intros fs0 Hq. split; (split; [by eapply quiet_tidy|by apply quiet_only]). Qed.
End confined.

Lemma confined_for X (f : string → F unit) l : (∀ x, In x l → confined X (f x)) → confined X (for_files f l).
Proof.
  induction l as [|x l IH]; intros H; cbn [for_files]; [apply confined_ret|].
  apply confined_bind; [apply H; by left|]. intros _. apply IH. intros; apply H; by right.
Qed.
Lemma confined_Remove (X : string → Prop) p : X p → confined X (Remove p).
Proof.
  intros Hp fs Ht. eapply fwp_mono; [apply Remove_wp, Ht|]. intros r fs' (? & ? & _). split; [done|].
  eapply only_weaken; [|done]. by intros ? <-.
Qed.
Lemma confined_WriteFile (X : string → Prop) p data : X p → confined X (WriteFile p data).
Proof.
  intros Hp fs Ht. eapply fwp_mono; [apply WriteFile_wp, Ht|]. intros r fs' (? & ? & _). split; [done|].
  eapply only_weaken; [|done]. by intros ? <-.
Qed.
Lemma confined_Sync (X : string → Prop) p : X p → confined X (Sync p).
Proof.
  intros Hp fs Ht. eapply fwp_mono; [apply Sync_wp, Ht|]. intros r fs' (? & ? & _). split; [done|].
  eapply only_weaken; [|done]. by intros ? <-.
Qed.
Lemma confined_MkdirAll X p : confined X (MkdirAll p).
Proof.
  intros fs Ht. apply os_effect_wp. intros fs0 Hq. pose proof (quiet_tidy _ _ Hq Ht). pose proof (quiet_only X _ _ Hq).
  cbv zeta. destruct (existsb _ _); [naive_solver|]. cbn [fst snd].
  assert (∀ D, tidy (fs0 <| fs_dirs := D |>) ∧ only X fs (fs0 <| fs_dirs := D |>)) as HD; [|split; [apply HD|split; [by split|apply HD]]].
  intros D. split; [by eapply tidy_same; [..|eassumption]|]. eapply only_trans; [|eassumption|by apply only_same]. naive_solver.
Qed.
#[export] Hint Resolve confined_ret confined_fail confined_bind confined_try confined_ignore confined_while confined_ask
  confined_for confined_Remove confined_WriteFile confined_Sync confined_MkdirAll : files.

(** ** Names in a directory *)

Definition present (fs : Fs) (q : string) : bool := is_file fs q || is_dir fs q.

Lemma in_names fs q : In q (names fs) ↔ present fs q = true.
Proof.
  unfold names, present, is_file, is_dir. rewrite <- list_elem_of_In, elem_of_remove_dups, elem_of_app, elem_of_elements, orb_true_iff, !bool_decide_eq_true.
  rewrite list_elem_of_fmap. split; (intros [H|H]; [left|by right]).
  - destruct H as ([k i] & -> & H%elem_of_map_to_list). eauto.
  - destruct H as [i Hi]. exists (q, i). split; [done|]. by apply elem_of_map_to_list.
Qed.
Lemma NoDup_names fs : NoDup (names fs).
Proof. apply NoDup_remove_dups. Qed.

(** What a removal does to names. *)
Lemma Remove_present p q fs : p ≠ q → fwp (Remove p) (λ _ fs', present fs' q = present fs q) fs.
Proof.
  intros Hpq. apply os_effect_wp. intros fs0 Hq. rewrite Hq. generalize (fs_faults fs0). intros os.
  assert (∀ d P, present (set_dir (delete p d) P) q = bool_decide (is_Some (d !! q)) || is_dir P q) as Hd.
  { intros d P. unfold present, is_file. cbn. by rewrite lookup_delete_ne. }
  destruct (is_file _ p); [cbn [fst snd]; rewrite Hd; done|]. destruct (is_dir _ p); [|done]. destruct (existsb _ _); [done|].
  assert (∀ f : Fs, present (f <| fs_dirs := fs_dirs f ∖ {[p]} |>) q = present f q) as He; [|cbn [fst snd]; rewrite He; done].
  intros f. unfold present, is_file, is_dir. cbn. f_equal. apply bool_decide_ext. set_solver.
Qed.
Lemma for_Remove_present l q fs : ¬ In q l → fwp (for_files (λ p, ignore (Remove p)) l) (λ _ fs', present fs' q = present fs q) fs.
Proof.
  revert fs. induction l as [|p l IH]; intros fs Hq; [done|]. cbn [for_files]. apply fwp_bind, fwp_ignore.
  eapply fwp_mono; [apply (Remove_present p q); intros ->; apply Hq; by left|]. intros r fs1 H1.
  eapply fwp_mono; [apply IH; intros H; apply Hq; by right|]. intros r' fs2 H2. by rewrite H2.
Qed.

(** A name joined to a clean directory. *)
Definition plain_name (f : string) : bool :=
  negb (contains_byte slash f) && negb (bool_decide (f = "")) && negb (bool_decide (f = ".")) && negb (bool_decide (f = "..")).

Lemma clean_segments_snoc rooted stack segs f : plain_name f = true →
  clean_segments rooted stack (segs ++ [f]) = clean_segments rooted stack segs ++ [f].
Proof.
  intros Hf. unfold plain_name in Hf. bool_simpl. revert stack. induction segs as [|s segs IH]; intros stack; cbn [app clean_segments].
  - rewrite !bool_decide_false by done. cbn. done.
  - destruct (_ || _); [apply IH|]. destruct (bool_decide (s = "..")); [|apply IH]. destruct stack as [|top stack]; [apply IH|].
    destruct (bool_decide _); apply IH.
Qed.

Definition clean_dir (dir : string) : bool :=
  bool_decide (path_clean dir = dir) && negb (bool_decide (dir = ".")) && negb (bool_decide (dir = "/")) && negb (has_meta dir).

Lemma path_join_name dir f : clean_dir dir = true → plain_name f = true → path_join [dir; f] = dir +:+ "/" +:+ f.
Proof.
  intros Hd Hf. assert (Hf' := Hf). unfold clean_dir in Hd. unfold plain_name in Hf. bool_simpl.
  assert (dir ≠ "") as Hne by (intros ->; done).
  unfold path_join. cbn [List.filter]. rewrite !bool_decide_false by done. cbn [negb join].
  rename select (path_clean dir = dir) into Hc. rename select (contains_byte slash f = false) into Hs.
  assert (has_prefix (dir +:+ "/" +:+ f) "/" = has_prefix dir "/") as Hp.
  { destruct dir as [|a dir]; [done|]. unfold has_prefix. rewrite app_cons. cbn [String.prefix]. assert (∀ x, String.prefix "" x = true) as He by (by intros []).
    destruct (ascii_dec "/" a); [by rewrite !He|done]. }
  revert Hc. unfold path_clean. rewrite Hp. change ("/" +:+ f) with (String slash f). rewrite split_on_app_gen, (split_on_single _ f Hs).
  rewrite clean_segments_snoc by done. set (segs := clean_segments _ _ _).
  assert (segs ≠ [] → join "/" (segs ++ [f]) = join "/" segs +:+ "/" +:+ f) as Hj.
  { clear. induction segs as [|x [|y l] IH]; [done|done|]. intros _. cbn [app] in *. rewrite !(join_cons "/" x) by done.
    rewrite IH by done. by rewrite !app_assoc'. }
  destruct segs as [|x segs0] eqn:Es.
  - cbn [join]. destruct (has_prefix dir "/"); cbn; intros E; by rewrite <- E in *.
  - intros E. rewrite Hj by done. destruct (has_prefix dir "/").
    + rewrite <- E. by rewrite !app_assoc'.
    + destruct (bool_decide (join "/" (x :: segs0) = "")) eqn:E'; [by rewrite <- E in *|]. rewrite E.
      rewrite bool_decide_false; [done|]. destruct dir; done.
Qed.

(** Removals leave each file as it is or gone, in every view. *)
Definition shrinks (fs fs' : Fs) : Prop :=
  ∀ d', In d' (dirs_of fs') → ∃ d, In d (dirs_of fs) ∧ ∀ q, node_of d' fs' q = None ∨ node_of d' fs' q = node_of d fs q.
Lemma shrinks_refl fs : shrinks fs fs.
Proof. intros d Hd. exists d. auto. Qed.
Lemma shrinks_same fs fs' : fs_dir fs' = fs_dir fs → fs_nodes fs' = fs_nodes fs → fs_past fs' = fs_past fs → shrinks fs fs'.
Proof. intros Hd Hn Hp d. unfold dirs_of, node_of. rewrite Hd, Hn, Hp. intros H. exists d. auto. Qed.
Lemma shrinks_trans fs fs1 fs2 : shrinks fs fs1 → shrinks fs1 fs2 → shrinks fs fs2.
Proof.
  intros H1 H2 d2 Hd2. destruct (H2 d2 Hd2) as (d1 & Hd1 & E1). destruct (H1 d1 Hd1) as (d & Hd & E). exists d. split; [done|].
  intros q. destruct (E1 q) as [->|E1q]; [by left|]. rewrite E1q. apply E.
Qed.
Lemma Remove_shrinks p fs : fwp (Remove p) (λ _ fs', shrinks fs fs') fs.
Proof.
  apply os_effect_wp. intros fs0 Hq.
  assert (∀ D, shrinks fs (fs0 <| fs_dirs := D |>)) as Hdirs by (intros D; rewrite Hq; by apply shrinks_same).
  assert (shrinks fs fs0) as H0 by (rewrite Hq; by apply shrinks_same).
  assert (shrinks fs (set_dir (delete p (fs_dir fs0)) fs0)) as Hdel.
  { eapply shrinks_trans; [exact H0|]. intros d [<-|Hd]; [|exists d; auto]. exists (fs_dir fs0). split; [by left|]. intros q. unfold node_of. cbn.
    destruct (decide (p = q)) as [->|Hne]; [left; by rewrite lookup_delete_eq|right; by rewrite lookup_delete_ne]. }
  destruct (is_file fs0 p); [done|]. destruct (is_dir fs0 p); [|done]. destruct (existsb _ _); done.
Qed.
Lemma for_Remove_shrinks l fs : fwp (for_files (λ p, ignore (Remove p)) l) (λ _ fs', shrinks fs fs') fs.
Proof.
  revert fs. induction l as [|p l IH]; intros fs; [apply shrinks_refl|]. cbn [for_files]. apply fwp_bind, fwp_ignore.
  eapply fwp_mono; [apply Remove_shrinks|]. intros r fs1 H1. eapply fwp_mono; [apply IH|]. intros r' fs2 H2. exact (shrinks_trans _ _ _ H1 H2).
Qed.

Lemma for_ignore_ok {A} (f : string → F A) l fs : (for_files (λ p, ignore (f p)) l fs).1 = Ok tt.
Proof. revert fs. induction l as [|p l IH]; intros fs; [done|]. cbn [for_files]. unfold mbind, F_bind, ignore. apply IH. Qed.

(** Removing files and ignoring the errors. *)
Lemma for_Remove_wp l fs : tidy fs →
  fwp (for_files (λ p, ignore (Remove p)) l) (λ r fs', r = Ok tt ∧ tidy fs' ∧ only (λ q, In q l) fs fs' ∧ shrinks fs fs' ∧
    ∀ q, ¬ In q l → present fs' q = present fs q) fs.
Proof.
  intros Ht. assert (confined (λ q, In q l) (for_files (λ p, ignore (Remove p)) l)) as Hc by (apply confined_for; auto with files).
  pose proof (Hc fs Ht) as H1. pose proof (for_Remove_shrinks l fs) as H2. pose proof (λ q, for_Remove_present l q fs) as H3.
  pose proof (for_ignore_ok Remove l fs) as H4. unfold fwp in *. destruct (for_files _ l fs). naive_solver.
Qed.
Lemma quiet_present fs fs' q : quiet fs fs' → present fs' q = present fs q.
Proof. by intros ->. Qed.
Lemma quiet_shrinks fs fs' : quiet fs fs' → shrinks fs fs'.
Proof. intros ->. by apply shrinks_same. Qed.
