(* ===== verification/Snapshots.v ===== *)
(** * Snapshots of management storage ([internal/store/maintenance.go])

    [Snapshot], [CheckSnapshot] and [Restore] serve the updater on the host,
    [DailyCopy] the running server.  They work on files that SQLite also
    writes: what a connection does is the class [Sqlite], with the documented
    behaviour of SQLite on its files as [SqliteLaws].  The theorems hold for
    every schedule of failures and for a loss of power at any point. *)

From S2P Require Import Prelude GoStrings GoTime Schema Files.

(** ** SQLite on files *)

(** A database and the files SQLite keeps beside it. *)
Definition db_files (p q : string) : Prop := q = p ∨ q = p +:+ "-wal" ∨ q = p +:+ "-shm" ∨ q = p +:+ "-journal".
#[export] Instance db_files_dec p q : Decision (db_files p q).
Proof. unfold db_files. apply _. Defined.

Class Sqlite := {
  sq_connect : string → F unit; (* the first statement on a path opens it *)
  sq_integrity_check : string → F string;
  sq_vacuum_into : string → string → F unit;
  sq_close : string → Fs → Fs;
  sq_sound : string → Prop; (* bytes that are a sound database on their own *)
}.

(** Nothing to recover from beside the database. *)
Definition at_rest (p : string) (fs : Fs) : Prop := now_at fs (p +:+ "-wal") = None ∧ now_at fs (p +:+ "-journal") = None.

(** What a statement does is confined to the files of the databases it names,
    whether it succeeds or not, and the database file itself stays.  A file
    that passes the check with no write-ahead log beside it is sound, and
    stays flushed.  With neither log nor journal to recover from, opening,
    checking and closing a database only read it. *)
Class SqliteLaws (sq : Sqlite) : Prop := {
  connect_files p fs : tidy fs → fwp (sq_connect p) (λ _ fs', tidy fs' ∧ only (db_files p) fs fs') fs;
  check_files p fs : tidy fs → fwp (sq_integrity_check p) (λ _ fs', tidy fs' ∧ only (db_files p) fs fs') fs;
  vacuum_files p t fs : tidy fs → fwp (sq_vacuum_into p t) (λ _ fs', tidy fs' ∧ only (λ q, db_files p q ∨ db_files t q) fs fs') fs;
  close_files p fs : tidy fs → tidy (sq_close p fs) ∧ only (db_files p) fs (sq_close p fs);
  connect_keeps p fs n : tidy fs → now_at fs p = Some n → fwp (sq_connect p) (λ _ fs', now_at fs' p = Some n ∧ now_at fs' (p +:+ "-wal") = now_at fs (p +:+ "-wal")) fs;
  vacuum_no_log p t fs : tidy fs → p ≠ t → now_at fs (t +:+ "-wal") = None → ¬ db_files p (t +:+ "-wal") →
    fwp (sq_vacuum_into p t) (λ _ fs', now_at fs' (t +:+ "-wal") = None) fs;
  vacuum_writes p t fs : tidy fs → fwp (sq_vacuum_into p t) (λ r fs', r = Ok tt → is_Some (now_at fs' t)) fs;
  check_vouches p fs n : tidy fs → now_at fs p = Some n → now_at fs (p +:+ "-wal") = None →
    fwp (sq_integrity_check p) (λ r fs', r = Ok "ok" →
      ∃ data, now_at (sq_close p fs') p = Some (mkNode data (n_flushed n)) ∧ sq_sound data) fs;
  connect_reads p fs : tidy fs → is_Some (now_at fs p) → at_rest p fs →
    fwp (sq_connect p) (λ _ fs', only (λ q, q ≠ p) fs fs' ∧ at_rest p fs' ∧ only (λ q, q ≠ p) fs (sq_close p fs')) fs;
  check_reads p fs : tidy fs → is_Some (now_at fs p) → at_rest p fs →
    fwp (sq_integrity_check p) (λ _ fs', only (λ q, q ≠ p) fs (sq_close p fs')) fs;
  connect_stays p fs : tidy fs → is_Some (now_at fs p) → fwp (sq_connect p) (λ _ fs', is_Some (now_at fs' p)) fs;
  vacuum_stays p t fs : tidy fs → p ≠ t → is_Some (now_at fs p) → fwp (sq_vacuum_into p t) (λ _ fs', is_Some (now_at fs' p)) fs;
  close_stays p fs : tidy fs → is_Some (now_at fs p) → is_Some (now_at (sq_close p fs) p);
}.

Section snapshots.
Context `{sq : !Sqlite}.

Definition rawOpen (path : string) : F unit := λ fs,
  match sq_connect path fs with
  | (Ok _, fs) => (Ok tt, fs)
  | (Err e, fs) => (Err e, sq_close path fs)
  end.

Definition syncFile (path : string) : F unit := Open path ≫= λ _, Sync path.

Definition CheckSnapshot (path : string) : F unit :=
  try (Stat path) ≫= λ e,
  match e with
  | Err _ => fail (Text "snapshot is missing")
  | Ok _ =>
      rawOpen path ≫= λ _,
      deferred (sq_close path) (
        while "snapshot is unreadable" (sq_integrity_check path) ≫= λ result,
        if bool_decide (result = "ok") then mret tt else fail (Text "snapshot failed its integrity check"))
  end.

(** [if e := os.Remove(p); e != nil && !errors.Is(e, os.ErrNotExist)] *)
Definition RemoveIfThere (p : string) : F unit :=
  try (Remove p) ≫= λ e,
  match e with
  | Ok _ | Err ErrNotExist => mret tt
  | Err e => fail e
  end.

Definition Snapshot (source target : string) : F unit :=
  try (Stat source) ≫= λ e,
  match e with
  | Err _ => fail (Text "management storage is missing")
  | Ok _ =>
      RemoveIfThere target ≫= λ _,
      rawOpen source ≫= λ _,
      deferred (sq_close source) (
        while "snapshot failed" (sq_vacuum_into source target) ≫= λ _,
        Chmod target ≫= λ _,
        syncFile target ≫= λ _,
        CheckSnapshot target)
  end.

Definition Restore (snapshot database : string) : F unit :=
  CheckSnapshot snapshot ≫= λ _,
  ReadFile snapshot ≫= λ content,
  let staged := database +:+ ".restore" in
  WriteFile staged content ≫= λ _,
  syncFile staged ≫= λ _,
  for_files (λ suffix, RemoveIfThere (database +:+ suffix)) ["-wal"; "-shm"] ≫= λ _,
  Rename staged database ≫= λ _,
  syncFile (path_dir database).

(** ** A copy a day *)

Definition DailyCopies : nat := 7.

Definition Maintenance (db : DB) : F bool := os_ask (λ _, Ok (maintenance db)).

(** [now.UTC().Format("20060102")] *)
Definition format_date (t : time) : string := pad 4 (year t) +:+ pad 2 (month t) +:+ pad 2 (day t).

Context (glob_dirs : string → Fs → list string).

(** [copies, _ := filepath.Glob(…)] *)
Definition glob_or_none (dir pre suf : string) : F (list string) :=
  try (Glob glob_dirs dir pre suf) ≫= λ r, mret (match r with Ok l => l | Err _ => [] end).

Definition DailyCopy (db : DB) (source dir : string) (now : time) : F string :=
  Maintenance db ≫= λ on : bool,
  if on then mret "" else
  let name := path_join [dir; "pgfy-" +:+ format_date now +:+ ".db"] in
  try (Stat name) ≫= λ e : res fs_error unit,
  if is_ok e then mret "" else
  MkdirAll dir ≫= λ _,
  let staged := name +:+ ".tmp" in
  try (Snapshot source staged) ≫= λ e,
  match e with
  | Err e => ignore (Remove staged) ≫= λ _, fail e
  | Ok _ =>
      Rename staged name ≫= λ _,
      syncFile dir ≫= λ _,
      glob_or_none (path_clean dir) "pgfy-" ".db" ≫= λ copies,
      let copies := sql_order (key_leb id String.leb) copies in
      for_files (λ p, ignore (Remove p)) (take (length copies - DailyCopies) copies) ≫= λ _,
      glob_or_none (path_clean dir) "pgfy-" ".db.tmp" ≫= λ stray,
      for_files (λ p, ignore (Remove p)) stray ≫= λ _,
      mret name
  end.
End snapshots.

(** ** Restore *)

Section restore.
Context `{sq : !Sqlite, !SqliteLaws sq}.

Lemma confined_rawOpen p : confined (db_files p) (rawOpen p).
Proof.
  intros fs Ht. unfold rawOpen, fwp. pose proof (connect_files p fs Ht) as H. unfold fwp in H.
  destruct (sq_connect p fs) as [[] fs1]; [done|]. destruct H as [Ht1 Ho1]. destruct (close_files p fs1 Ht1) as [Ht2 Ho2].
  split; [done|]. eapply only_trans; [|exact Ho1|exact Ho2]. naive_solver.
Qed.
Lemma confined_CheckSnapshot p : confined (db_files p) (CheckSnapshot p).
Proof.
  unfold CheckSnapshot, Stat. apply confined_bind; [auto with files|]. intros [_|e]; [|auto with files].
  apply confined_bind; [apply confined_rawOpen|]. intros _. apply confined_deferred; [|apply close_files].
  apply confined_bind; [apply confined_while; intros fs Ht; by apply check_files|]. intros r. destruct (bool_decide _); auto with files.
Qed.
Lemma confined_syncFile (X : string → Prop) p : X p → confined X (syncFile p).
Proof. intros Hp. unfold syncFile, Open, Stat. auto with files. Qed.
Lemma confined_RemoveIfThere (X : string → Prop) p : X p → confined X (RemoveIfThere p).
Proof. intros Hp. unfold RemoveIfThere. apply confined_bind; [auto with files|]. intros [|[]]; auto with files. Qed.

Lemma RemoveIfThere_wp p fs : tidy fs →
  fwp (RemoveIfThere p) (λ r fs', tidy fs' ∧ only (eq p) fs fs' ∧ (r = Ok tt → now_at fs' p = None)) fs.
Proof.
  intros Ht. unfold RemoveIfThere. apply fwp_bind, fwp_try. eapply fwp_mono; [apply Remove_wp, Ht|].
  intros [[]|[]] fs' (? & ? & ?); (apply fwp_ret || apply fwp_fail); naive_solver.
Qed.

(** A file that is there is flushed when the sync succeeds. *)
Lemma syncFile_wp p n fs : tidy fs → now_at fs p = Some n →
  fwp (syncFile p) (λ r fs', tidy fs' ∧ only (eq p) fs fs' ∧ (r = Ok tt → now_at fs' p = Some (mkNode (n_data n) true))) fs.
Proof.
  intros Ht Hn. unfold syncFile, Open, Stat. apply fwp_bind. apply os_ask_wp. intros fs0 Hq.
  pose proof (quiet_tidy _ _ Hq Ht) as Ht0. pose proof (quiet_only (eq p) _ _ Hq) as Ho0.
  assert (is_file fs0 p = true) as Hf by (apply is_file_now; [done|]; rewrite (quiet_now_at _ _ p Hq), Hn; eauto).
  rewrite Hf. cbn [orb]. split; [|naive_solver]. eapply fwp_mono; [apply Sync_wp, Ht0|].
  intros r fs' (Ht' & Ho' & _ & Hr). split; [done|]. split; [eapply only_trans; [|exact Ho0|exact Ho']; naive_solver|].
  intros E. specialize (Hr E). rewrite Hf in Hr. by rewrite Hr, (quiet_now_at _ _ p Hq), Hn.
Qed.
(** A directory that was synced has no past to come back. *)
Lemma sync_dir_wp p fs : is_file fs p = false →
  fwp (syncFile p) (λ r fs', fs_dir fs' = fs_dir fs ∧ fs_nodes fs' = fs_nodes fs ∧
    (fs_past fs' = fs_past fs ∨ fs_past fs' = []) ∧ (r = Ok tt → fs_past fs' = [])) fs.
Proof.
  intros Hf. unfold syncFile, Open, Stat. apply fwp_bind, os_ask_wp. intros fs0 Hq. rewrite Hq.
  split; [|cbn; naive_solver]. destruct (_ || _); [|cbn; naive_solver].
  apply os_effect_wp. intros fs1 Hq1. rewrite Hq1. unfold is_file in *. cbn in *. rewrite Hf. cbn. naive_solver.
Qed.

Lemma CheckSnapshot_wp p n fs : tidy fs → now_at fs p = Some n → now_at fs (p +:+ "-wal") = None →
  fwp (CheckSnapshot p) (λ r fs', tidy fs' ∧ only (db_files p) fs fs' ∧
    (r = Ok tt → ∃ data, now_at fs' p = Some (mkNode data (n_flushed n)) ∧ sq_sound data)) fs.
Proof.
  intros Ht Hn Hw. cut (fwp (CheckSnapshot p) (λ r fs', r = Ok tt → ∃ data, now_at fs' p = Some (mkNode data (n_flushed n)) ∧ sq_sound data) fs).
  { intros H. pose proof (confined_CheckSnapshot p fs Ht) as Hc. unfold fwp in *. destruct (CheckSnapshot p fs). naive_solver. }
  unfold CheckSnapshot, Stat. apply fwp_bind, fwp_try, os_ask_wp. intros fs0 Hq. pose proof (quiet_tidy _ _ Hq Ht) as Ht0.
  rewrite <- (quiet_now_at _ _ p Hq) in Hn. rewrite <- (quiet_now_at _ _ (p +:+ "-wal") Hq) in Hw.
  split; [|by apply fwp_fail]. destruct (_ || _); [|by apply fwp_fail].
  apply fwp_bind. unfold rawOpen, fwp at 1. pose proof (connect_files p fs0 Ht0) as H1. pose proof (connect_keeps p fs0 n Ht0 Hn) as H2.
  unfold fwp in H1, H2. destruct (sq_connect p fs0) as [[[]|e] fs1]; [|done]. destruct H1 as [Ht1 _], H2 as [Hn1 Hw1].
  apply fwp_deferred, fwp_bind, fwp_while. rewrite Hw in Hw1.
  eapply fwp_mono; [exact (check_vouches p fs1 n Ht1 Hn1 Hw1)|]. intros [r|e] fs' H; [|done].
  case_bool_decide as E; [|by apply fwp_fail]. apply fwp_ret. intros _. apply H. by subst.
Qed.

(** A check of a at_rest database only reads it, whatever its verdict. *)
Lemma CheckSnapshot_reads p fs : tidy fs → at_rest p fs → is_dir fs p = false →
  fwp (CheckSnapshot p) (λ _ f, only (λ q, q ≠ p) fs f) fs.
Proof.
  intros Ht Hs Hd. unfold CheckSnapshot, Stat. apply fwp_bind, fwp_try, os_ask_wp. intros f0 Hq.
  pose proof (quiet_only (λ q, q ≠ p) _ _ Hq) as Ho0. split; [|done]. pose proof (quiet_tidy _ _ Hq Ht) as Ht0.
  rewrite (quiet_is_dir _ _ _ Hq), Hd, orb_false_r. destruct (is_file f0 p) eqn:Ef; [|done]. apply is_file_now in Ef; [|done].
  assert (at_rest p f0) as Hs0 by (destruct Hs; split; by rewrite (quiet_now_at _ _ _ Hq)).
  assert (∀ f g, only (λ q, q ≠ p) fs f → only (λ q, q ≠ p) f g → only (λ q, q ≠ p) fs g) as Htr.
  { clear. intros f g H1 H2. eapply only_trans; [|exact H1|exact H2]. naive_solver. }
  apply fwp_bind. unfold rawOpen, fwp at 1. pose proof (connect_files p f0 Ht0) as H1. pose proof (connect_reads p f0 Ht0 Ef Hs0) as H2.
  unfold fwp in H1, H2. destruct (sq_connect p f0) as [[[]|e] f1]; destruct H1 as [Ht1 _], H2 as (Hr & Hs1 & Hcl); [|by eapply Htr].
  apply fwp_deferred, fwp_bind, fwp_while. eapply fwp_mono.
  - apply (check_reads p f1 Ht1); [|done]. rewrite (only_now _ _ _ Hr) by tauto. done.
  - intros r f2 Hf2. pose proof (Htr _ _ (Htr _ _ Ho0 Hr) Hf2) as Hall. destruct r as [r|e]; [|exact Hall].
    destruct (bool_decide _); exact Hall.
Qed.

(** *** A restore is all or nothing *)

Lemma suffix_ne (p a b : string) : a ≠ b → p +:+ a ≠ p +:+ b.
Proof. intros Hab E. apply Hab. apply (f_equal (sdrop (slen p))) in E. by rewrite !sdrop_app in E. Qed.

Definition staged_name (database : string) : string := database +:+ ".restore".
(** The files a restore uses, apart from the database itself. *)
Definition restore_side (snapshot database q : string) : Prop :=
  db_files snapshot q ∨ q = staged_name database ∨ q = database +:+ "-wal" ∨ q = database +:+ "-shm".

(** A stopped installation: the database on disk is [old] (or missing), the
    snapshot is a file kept elsewhere, with no log or journal of its own. *)
Record stopped (snapshot database : string) (old : option string) (fs : Fs) : Prop := {
  st_tidy : tidy fs;
  st_old d : In d (dirs_of fs) → node_of d fs database = (λ data, mkNode data true) <$> old;
  st_snapshot : is_dir fs snapshot = false ∧ at_rest snapshot fs;
  st_apart : ¬ restore_side snapshot database database ∧ ∀ q, db_files snapshot q → q ≠ staged_name database ∧ q ≠ database +:+ "-wal" ∧ q ≠ database +:+ "-shm";
  st_dir : now_at fs (path_dir database) = None ∧ ¬ restore_side snapshot database (path_dir database) ∧ path_dir database ≠ database;
}.

Lemma flushed_data (o : option string) (found : option string) :
  match (λ data, mkNode data true) <$> o with
  | None => found = None
  | Some n => if n_flushed n then found = Some (n_data n) else is_Some found
  end → found = o.
Proof. by destruct o. Qed.

Section restoring.
Context (snapshot database : string) (old : option string) (fs : Fs) (Hs : stopped snapshot database old fs).
Let side := restore_side snapshot database.

(** Until the rename only files beside the database change, and never the
    snapshot. *)
Definition beside (f : Fs) : Prop := tidy f ∧ only side fs f ∧ only (λ q, q ≠ snapshot) fs f.
Lemma beside_step f f' (X : string → Prop) : beside f → tidy f' → only X f f' → (∀ q, X q → side q ∧ q ≠ snapshot) → beside f'.
Proof. intros (_ & Ho & Hsn) Ht' Ho' HX. split; [done|]. split.
  - eapply only_trans; [|exact Ho|exact Ho']. intros q [?|Hq%HX]; [done|apply Hq].
  - eapply only_trans; [|exact Hsn|exact Ho']. intros q [?|Hq%HX]; [done|apply Hq].
Qed.
(** A call on one of the files beside the database. *)
Lemma beside_call f f' p : beside f → tidy f' → only (eq p) f f' →
  p = staged_name database ∨ p = database +:+ "-wal" ∨ p = database +:+ "-shm" → beside f'.
Proof.
  intros Hb Ht' Ho Hp. apply (beside_step f f' (eq p) Hb Ht' Ho). intros ? <-. split; [by right|]. intros ->.
  destruct (proj2 (st_apart _ _ _ _ Hs) snapshot) as (? & ? & ?); [by left|naive_solver].
Qed.
Lemma beside_quiet f f' : beside f → quiet f f' → beside f'.
Proof. intros H Hq. eapply (beside_step _ _ (λ _, False)); [done|eapply quiet_tidy; [done|apply H]|by apply quiet_only|done]. Qed.
Lemma beside_old f d : beside f → In d (dirs_of f) → node_of d f database = (λ data, mkNode data true) <$> old.
Proof.
  intros (_ & [_ HV] & _) Hd. destruct (HV d Hd) as (d0 & Hd0 & E). rewrite E by apply (st_apart _ _ _ _ Hs). by apply (st_old _ _ _ _ Hs).
Qed.

(** Just before the rename. *)
Record ready_to_rename (content : string) (f : Fs) : Prop := {
  rr_beside : beside f;
  rr_sound : sq_sound content;
  rr_snapshot : data_at f snapshot = Some content;
  rr_staged : now_at f (staged_name database) = Some (mkNode content true);
  rr_no_log : now_at f (database +:+ "-wal") = None ∧ now_at f (database +:+ "-shm") = None;
}.

Lemma restore_prepares :
  fwp (CheckSnapshot snapshot ≫= λ _, ReadFile snapshot ≫= λ content, WriteFile (staged_name database) content ≫= λ _,
       syncFile (staged_name database) ≫= λ _,
       for_files (λ suffix, RemoveIfThere (database +:+ suffix)) ["-wal"; "-shm"] ≫= λ _, mret content)
    (λ r f, beside f ∧ ∀ content, r = Ok content → ready_to_rename content f) fs.
Proof.
  destruct Hs as [Ht _ [Hnd Hset] [Hdb Hap] _]. pose proof (proj1 Hset) as Hw.
  assert (∀ q, db_files snapshot q → side q) as Hside by (intros; by left).
  assert (beside fs) as Hb0 by (split; [done|split; apply only_refl]).
  pose proof (CheckSnapshot_reads snapshot fs Ht Hset Hnd) as Hread.
  (* the check *)
  apply fwp_bind. eapply (fwp_mono _ (λ r f, beside f ∧ (r = Ok tt → ∃ c b, now_at f snapshot = Some (mkNode c b) ∧ sq_sound c))).
  { destruct (now_at fs snapshot) as [n|] eqn:En.
    - eapply fwp_mono; [exact (fwp_and _ _ _ _ (CheckSnapshot_wp snapshot n fs Ht En Hw) Hread)|]. intros r f ((Ht1 & Ho1 & H1) & Hr1).
      split; [split; [done|split; [by eapply only_weaken|done]]|naive_solver].
    - unfold CheckSnapshot, Stat. apply fwp_bind, fwp_try, os_ask_wp. intros f Hq. rewrite Hq.
      assert (is_file fs snapshot = false) as Hf.
      { destruct (is_file fs snapshot) eqn:E; [|done]. apply is_file_now in E as [? ?]; [congruence|done]. }
      unfold is_file, is_dir in *. cbn. rewrite Hf, Hnd. cbn. by split; (split; [eapply beside_quiet; [done|]; by destruct fs|]). }
  intros [[]|e] f1 [Hb1 H1]; [|by split]. destruct (H1 eq_refl) as (content & b & Hn1 & Hsound). clear H1.
  (* the bytes *)
  apply fwp_bind, os_ask_wp. intros f2 Hq2. pose proof (beside_quiet _ _ Hb1 Hq2) as Hb2. split; [|by split].
  rewrite <- (quiet_now_at _ _ snapshot Hq2) in Hn1. unfold data_at. rewrite Hn1. cbn [fmap option_fmap option_map n_data].
  (* the staged file *)
  apply fwp_bind. eapply fwp_mono; [apply WriteFile_wp, Hb2|]. intros [[]|e] f3 (Ht3 & Ho3 & H3);
    (assert (beside f3) as Hb3 by (eapply beside_call; [done..|by left])); [|by split].
  specialize (H3 eq_refl). apply fwp_bind. eapply fwp_mono; [apply (syncFile_wp _ _ _ Ht3 H3)|].
  intros [[]|e] f4 (Ht4 & Ho4 & H4); (assert (beside f4) as Hb4 by (eapply beside_call; [done..|by left])); [|by split].
  specialize (H4 eq_refl). cbn [n_data] in H4.
  (* the log *)
  apply fwp_bind. cbn [for_files]. apply fwp_bind. eapply fwp_mono; [apply (RemoveIfThere_wp _ _ Ht4)|].
  intros [[]|e] f5 (Ht5 & Ho5 & H5); (assert (beside f5) as Hb5 by (eapply beside_call; [done..|right; by left])); [|by split].
  apply fwp_bind. eapply fwp_mono; [apply (RemoveIfThere_wp _ _ Ht5)|].
  intros [[]|e] f6 (Ht6 & Ho6 & H6); (assert (beside f6) as Hb6 by (eapply beside_call; [done..|right; by right])); [|by split].
  apply fwp_ret, fwp_ret. split; [done|]. intros ? [= <-].
  destruct (Hap snapshot) as (Ha1 & Ha2 & Ha3); [by left|].
  split; [done|done|..].
  - unfold data_at. rewrite (only_now _ _ _ Ho6), (only_now _ _ _ Ho5), (only_now _ _ _ Ho4), (only_now _ _ _ Ho3), Hn1 by done. done.
  - rewrite (only_now _ _ _ Ho6), (only_now _ _ _ Ho5) by (by apply suffix_ne). done.
  - split; [|by apply H6]. rewrite (only_now _ _ _ Ho6) by (by apply suffix_ne). by apply H5.
Qed.

(** What may be found: the old database, or the snapshot without a log. *)
Definition found (r : res fs_error unit) (f : Fs) (files : gmap string string) : Prop :=
  (r ≠ Ok tt ∧ files !! database = old) ∨
  (∃ content, sq_sound content ∧ data_at f snapshot = Some content ∧ files !! database = Some content ∧
     files !! (database +:+ "-wal") = None ∧ files !! (database +:+ "-shm") = None).

(** What a run may have changed in the end: the snapshot never. *)
Definition spared (f : Fs) : Prop := only (λ q, q ≠ snapshot) fs f ∧ only (λ q, q = database ∨ side q) fs f.
Lemma beside_spared f : beside f → spared f.
Proof. intros (_ & H1 & H2). split; [done|]. eapply only_weaken; [|exact H1]. by right. Qed.
Lemma moved_spared f f1 f2 : beside f → moved (staged_name database) database f f1 →
  fs_dir f2 = fs_dir f1 → fs_nodes f2 = fs_nodes f1 → fs_past f2 = fs_past f1 ∨ fs_past f2 = [] → spared f2.
Proof.
  intros [H1 H2]%beside_spared Hm Ed En Ep. destruct (st_apart _ _ _ _ Hs) as [Hdb Hap].
  destruct (Hap snapshot) as (Ha & _ & _); [by left|].
  assert (∀ X : string → Prop, X (staged_name database) → X database → only X fs f → only X fs f2) as Hgo.
  { intros X Xs Xd Ho. apply (only_trans X X X fs f f2); [tauto|exact Ho|]. by apply (moved_only X _ _ f f1 f2 Xs Xd Hm). }
  split; apply Hgo; [congruence| |exact H1| | |exact H2].
  - intros E. apply Hdb. left. by left.
  - right. right. by left.
  - by left.
Qed.

Lemma old_found f r files : beside f → r ≠ Ok tt → after_loss f files → found r f files.
Proof.
  intros Hb Hr (d & Hd & Hf). left. split; [done|]. specialize (Hf database). rewrite (beside_old f d Hb Hd) in Hf. by apply flushed_data.
Qed.

(** After the rename, whatever a failed directory sync left. *)
Lemma new_found content f f1 f2 r files : ready_to_rename content f → moved (staged_name database) database f f1 →
  fs_dir f2 = fs_dir f1 → fs_nodes f2 = fs_nodes f1 → fs_past f2 = fs_past f1 ∨ fs_past f2 = [] → (r = Ok tt → fs_past f2 = []) →
  after_loss f2 files → found r f2 files.
Proof.
  intros [Hb Hsd Hsnap Hst [Hw Hsh]] [_ Mn Mp Md] Ed En Ep Er (d & Hd & Hf).
  destruct (st_apart _ _ _ _ Hs) as [Hdb Hap].
  assert (∀ d q, node_of d f2 q = node_of d f q) as Hv by (intros; unfold node_of; by rewrite En, Mn).
  assert (∀ q, q ≠ database → q ≠ staged_name database → node_of (fs_dir f2) f2 q = now_at f q) as Hother.
  { intros q H1 H2. rewrite Hv. unfold node_of, now_at. rewrite Ed, Md. by rewrite !bool_decide_false. }
  assert (∀ a : string, a ≠ "" → database +:+ a ≠ database) as Hne.
  { intros a Ha E. apply (suffix_ne database a "" Ha). by rewrite app_nil_r'. }
  destruct (decide (d = fs_dir f2)) as [->|Hd'].
  - right. exists content. split; [done|]. split; [|split; [|split]].
    + unfold data_at, now_at. rewrite Hother; [exact Hsnap| |]; [intros E; apply Hdb; left; by left|by apply Hap; left].
    + specialize (Hf database). unfold node_of in Hf. rewrite Ed, Md, bool_decide_true in Hf by done.
      unfold now_at, node_of in Hst. rewrite En, Mn in Hf. rewrite Hst in Hf. exact Hf.
    + specialize (Hf (database +:+ "-wal")). rewrite Hother, Hw in Hf; [done|by apply Hne|by apply suffix_ne].
    + specialize (Hf (database +:+ "-shm")). rewrite Hother, Hsh in Hf; [done|by apply Hne|by apply suffix_ne].
  - left. assert (r ≠ Ok tt) as Hr.
    { intros E. destruct Hd as [Hd|Hd]; [done|]. by rewrite (Er E) in Hd. }
    split; [done|]. destruct Hd as [Hd|Hd]; [done|]. destruct Ep as [Ep|Ep]; rewrite Ep in Hd; [|done]. rewrite Mp in Hd.
    specialize (Hf database). rewrite Hv, (beside_old f d Hb Hd) in Hf. by apply flushed_data.
Qed.

Lemma restore_split : Restore snapshot database fs =
  ((CheckSnapshot snapshot ≫= λ _, ReadFile snapshot ≫= λ content, WriteFile (staged_name database) content ≫= λ _,
       syncFile (staged_name database) ≫= λ _,
       for_files (λ suffix, RemoveIfThere (database +:+ suffix)) ["-wal"; "-shm"] ≫= λ _, mret content) ≫= λ _,
   Rename (staged_name database) database ≫= λ _, syncFile (path_dir database)) fs.
Proof.
  unfold Restore, mbind, F_bind. cbv zeta. change (database +:+ ".restore") with (staged_name database).
  destruct (CheckSnapshot snapshot fs) as [[]f1]; [|done]. destruct (ReadFile snapshot f1) as [[]f2]; [|done].
  destruct (WriteFile _ _ f2) as [[]f3]; [|done]. destruct (syncFile _ f3) as [[]f4]; [|done].
  by destruct (for_files _ _ f4) as [[]f5].
Qed.
End restoring.

(** C17. A restore of management storage is all or nothing.  Whatever calls
    fail and wherever the process stops or the power goes, the database file
    found afterwards is the old one, byte for byte, or the snapshot, byte for
    byte, and then no write-ahead log or shared-memory file of the old one is
    left to be replayed onto it.  What was put in place passed the integrity
    check, and a restore that reports success is durable.  However the restore
    ends, the snapshot is as it was, in what is visible and in what a loss of
    power can bring back, so it can be tried again; and besides the database
    only the staged file, the log, and what SQLite keeps beside the snapshot
    may have changed. *)
Theorem restore_all_or_nothing snapshot database old fs r fs' :
  stopped snapshot database old fs →
  Restore snapshot database fs = (r, fs') →
  only (λ q, q ≠ snapshot) fs fs' ∧
  only (λ q, q = database ∨ restore_side snapshot database q) fs fs' ∧
  ∀ files, after_loss fs' files →
    (r ≠ Ok tt ∧ files !! database = old) ∨
    (∃ content, sq_sound content ∧ data_at fs' snapshot = Some content ∧ files !! database = Some content ∧
       files !! (database +:+ "-wal") = None ∧ files !! (database +:+ "-shm") = None).
Proof.
  intros Hs. set (Q := λ (r : res fs_error unit) f, spared snapshot database fs f ∧ ∀ files, after_loss f files → found snapshot database old r f files).
  cut (fwp (Restore snapshot database) Q fs).
  { intros H E. destruct (fwp_run _ _ _ _ _ H E) as [[? ?] ?]. done. }
  unfold fwp. rewrite restore_split. fold (fwp (A:=unit)).
  match goal with |- context [(?m ≫= ?k) fs] => change (fwp (m ≫= k) Q fs) end.
  apply fwp_bind. eapply fwp_mono; [exact (restore_prepares snapshot database old fs Hs)|]. intros [content|e] f [Hb Hr].
  2: { split; [by apply beside_spared|]. intros files. by eapply old_found. }
  specialize (Hr content eq_refl). apply fwp_bind. eapply fwp_mono; [apply Rename_wp|].
  intros r1 f1 [[Hq1 Hr1]|(f0 & Hq0 & Hm)].
  { destruct r1 as [[]|e]; [done|]. pose proof (beside_quiet _ _ _ _ _ Hb Hq1). split; [by apply beside_spared|]. intros files. by eapply old_found. }
  assert (ready_to_rename snapshot database fs content f0) as Hr0.
  { destruct Hr as [R1 R2 R3 R4 R5]. rewrite <- (quiet_now_at _ _ _ Hq0) in R4. unfold data_at in R3. rewrite <- (quiet_now_at _ _ snapshot Hq0) in R3.
    rewrite <- !(quiet_now_at _ _ (database +:+ _) Hq0) in R5. split; [by eapply beside_quiet|done..]. }
  destruct r1 as [[]|e].
  2: { split; [by eapply (moved_spared snapshot database old fs Hs f0 f1 f1); [apply Hr0|done..|left]|].
       intros files. eapply (new_found snapshot database old fs Hs content f0 f1 f1); try done. by left. }
  eapply fwp_mono; [apply sync_dir_wp|].
  - destruct (st_dir _ _ _ _ Hs) as (Hd1 & Hd2 & Hd3). unfold is_file. apply bool_decide_eq_false. rewrite (moved_dir _ _ _ _ Hm).
    rewrite (bool_decide_false (path_dir database = database)) by done. case_bool_decide as E; [intros [? ?]; done|].
    intros [i Hi]. assert (now_at f0 (path_dir database) = None) as Hnone.
    { rewrite (quiet_now_at _ _ _ Hq0). by rewrite (only_now _ _ _ (proj1 (proj2 Hb))). }
    unfold now_at, node_of in Hnone. rewrite Hi in Hnone. cbn in Hnone.
    destruct (tidy_nodes f0 (proj1 (rr_beside _ _ _ _ _ Hr0)) (fs_dir f0) (path_dir database) i) as [? ?]; [by left|done|congruence].
  - intros r2 f2 (Ed & En & Ep & Er). split; [by eapply (moved_spared snapshot database old fs Hs f0 f1 f2); [apply Hr0|..]|]. intros files. by eapply (new_found snapshot database old fs Hs content f0 f1 f2).
Qed.
End restore.

(** ** The daily copy *)

(** The last byte tells the files of a directory of copies apart. *)
Fixpoint slast (s : string) : option ascii :=
  match s with "" => None | String a s => match slast s with Some b => Some b | None => Some a end end.
Lemma slast_app s t : t ≠ "" → slast (s +:+ t) = slast t.
Proof.
  intros Ht. assert (is_Some (slast t)) as [b Hb].
  { clear s. destruct t as [|a t]; [done|]. cbn. destruct (slast t); eauto. }
  induction s as [|a s IH]; [done|]. rewrite app_cons. cbn. by rewrite IH, Hb.
Qed.
Lemma has_suffix_inv s suf : has_suffix s suf = true → ∃ r, s = r +:+ suf.
Proof.
  unfold has_suffix. intros H. bool_simpl. exists (stake (slen s - slen suf) s). rename select (sdrop _ _ = suf) into E. rewrite <- E at 2.
  by rewrite stake_sdrop.
Qed.

Definition copy_file (dir p : string) : bool := matches dir "pgfy-" ".db" p.
Definition stray_file (dir p : string) : bool := matches dir "pgfy-" ".db.tmp" p.

Lemma matches_last dir pre suf p : suf ≠ "" → matches dir pre suf p = true → slast p = slast suf ∧ in_dir dir p = true.
Proof.
  intros Hs. unfold matches, star. intros H. bool_simpl. split; [|done]. rename select (in_dir dir p = true) into Hd. unfold in_dir in Hd. bool_simpl.
  rename select (has_prefix p _ = true) into Hp. apply has_prefix_inv in Hp as [r ->]. rewrite trim_prefix_app in *.
  rename select (has_suffix r suf = true) into Hr. apply has_suffix_inv in Hr as [x ->].
  rewrite slast_app by (destruct x, suf; done). by rewrite slast_app.
Qed.

Lemma stray_off dir q : stray_file dir q = true → in_dir dir q = true ∧ copy_file dir q = false.
Proof.
  intros H. apply matches_last in H as [H1 H2]; [|done]. split; [done|].
  destruct (copy_file dir q) eqn:E; [apply matches_last in E as [E _]; [|done]; by rewrite E in H1|done].
Qed.

Lemma in_dir_name dir n : contains_byte slash n = false → in_dir dir (dir +:+ "/" +:+ n) = true.
Proof.
  intros Hn. unfold in_dir. rewrite <- app_assoc', has_prefix_app, trim_prefix_app, Hn. done.
Qed.
Lemma in_dir_ne dir p : in_dir dir p = true → p ≠ dir.
Proof.
  unfold in_dir. intros H. bool_simpl. rename select (has_prefix p _ = true) into Hp. apply has_prefix_inv in Hp as [r ->].
  intros E. apply (f_equal slen) in E. rewrite !slen_app in E. cbn in E. lia.
Qed.

Section daily_names.
Context (dir : string) (now : time) (Hdir : clean_dir dir = true).
Definition date_part : string := "pgfy-" +:+ format_date now +:+ ".db".
Definition copy_name : string := dir +:+ "/" +:+ date_part.
Definition staged_copy : string := copy_name +:+ ".tmp".

Lemma pad_no_slash w n : contains_byte slash (pad w n) = false.
Proof. unfold pad. rewrite contains_byte_app, digits_no_slash. by destruct (n <? 0). Qed.
Lemma date_part_no_slash : contains_byte slash date_part = false.
Proof. unfold date_part, format_date. by rewrite !contains_byte_app, !pad_no_slash. Qed.
Lemma copy_name_join : path_join [dir; date_part] = copy_name.
Proof.
  apply path_join_name; [done|]. unfold plain_name. rewrite date_part_no_slash. unfold date_part. cbn [negb andb].
  by rewrite !bool_decide_false.
Qed.
Lemma copy_name_matches : copy_file dir copy_name = true.
Proof.
  unfold copy_file, matches, copy_name. rewrite in_dir_name by apply date_part_no_slash. rewrite <- app_assoc', trim_prefix_app.
  unfold star, date_part. rewrite has_prefix_app. cbn [andb]. rewrite <- app_assoc', has_suffix_app. cbn [andb].
  rewrite !slen_app. apply Nat.leb_le. cbn. lia.
Qed.
(** Names that belong to the copy being made, and to nothing else. *)
Lemma staged_files q : db_files staged_copy q → in_dir dir q = true ∧ copy_file dir q = false.
Proof.
  assert (∀ suf, contains_byte slash suf = false → in_dir dir (staged_copy +:+ suf) = true) as Hin.
  { intros suf Hs. unfold staged_copy, copy_name. rewrite !app_assoc'. apply in_dir_name.
    by rewrite !contains_byte_app, date_part_no_slash, Hs. }
  assert (∀ q, slast q ≠ Some "b"%char → copy_file dir q = false) as Hc.
  { intros q' Hq'. destruct (copy_file dir q') eqn:E; [|done]. by apply matches_last in E as [E _]. }
  pose proof (Hin "" eq_refl) as H0. rewrite app_nil_r' in H0.
  intros [->|[->|[->| ->]]]; (split; [by auto|]); apply Hc; unfold staged_copy; by rewrite slast_app.
Qed.
End daily_names.

Section daily.
Context `{sq : !Sqlite, !SqliteLaws sq}.

(** *** What a snapshot leaves *)

Definition snapshot_files (source target q : string) : Prop := db_files source q ∨ db_files target q.

(** [stays p m]: the file [p] is still there after [m], whatever its result. *)
Definition stays {A} (p : string) (m : F A) : Prop :=
  ∀ fs, tidy fs → is_Some (now_at fs p) → fwp m (λ _ f, tidy f ∧ is_Some (now_at f p)) fs.
Lemma stays_bind {A B} p (m : F A) (k : A → F B) : stays p m → (∀ a, stays p (k a)) → stays p (m ≫= k).
Proof. intros Hm Hk fs Ht Hp. apply fwp_bind. eapply fwp_mono; [by apply Hm|]. intros [a|e] f [? ?]; [by apply Hk|done]. Qed.
Lemma stays_confined {A} p X (m : F A) : confined X m → ¬ X p → stays p m.
Proof. intros Hm HX fs Ht Hp. eapply fwp_mono; [by apply Hm|]. intros r f [? Ho]. split; [done|]. by rewrite (only_now _ _ _ Ho). Qed.
Lemma stays_connect p : stays p (rawOpen p).
Proof.
  intros fs Ht Hp. unfold rawOpen, fwp. pose proof (connect_files p fs Ht) as H1. pose proof (connect_stays p fs Ht Hp) as H2.
  unfold fwp in H1, H2. destruct (sq_connect p fs) as [[] f]; [naive_solver|]. split; [apply close_files, H1|apply close_stays; [apply H1|done]].
Qed.
Lemma stays_while {A} p what (m : F A) : stays p m → stays p (while what m).
Proof. intros Hm fs Ht Hp. apply fwp_while. eapply fwp_mono; [by apply Hm|]. by intros []. Qed.
Lemma stays_close {A} p (m : F A) : stays p m → stays p (deferred (sq_close p) m).
Proof.
  intros Hm fs Ht Hp. apply fwp_deferred. eapply fwp_mono; [by apply Hm|]. intros _ f [? ?].
  split; [by apply close_files|by apply close_stays].
Qed.

Lemma confined_Snapshot source target : confined (snapshot_files source target) (Snapshot source target).
Proof.
  assert (∀ q, db_files source q → snapshot_files source target q) as Hl by (by left).
  assert (∀ q, db_files target q → snapshot_files source target q) as Hr by (by right).
  assert (snapshot_files source target target) as Ht by (right; by left).
  unfold Snapshot, Stat, Chmod. apply confined_bind; [auto with files|]. intros [_|e]; [|auto with files].
  apply confined_bind; [by apply confined_RemoveIfThere|]. intros _.
  apply confined_bind; [eapply confined_weaken; [exact Hl|apply confined_rawOpen]|]. intros _.
  apply confined_deferred.
  - apply confined_bind; [apply confined_while; intros fs Hfs; by apply vacuum_files|]. intros _.
    apply confined_bind; [auto with files|]. intros _. apply confined_bind; [by apply confined_syncFile|]. intros _.
    eapply confined_weaken; [exact Hr|apply confined_CheckSnapshot].
  - intros fs Hfs. destruct (close_files source fs Hfs). split; [done|]. by eapply only_weaken; [exact Hl|].
Qed.

Context (source target : string) (Happart : ∀ q, db_files target q → ¬ db_files source q).

(** The database a snapshot is taken of stays. *)
Lemma stays_Snapshot : stays source (Snapshot source target).
Proof using All.
  assert (¬ db_files target source) as Hs by (intros H; apply (Happart source H); by left).
  assert (target ≠ source) as Hne by (intros ->; apply Hs; by left).
  assert (∀ A (m : F A), confined (eq target) m → stays source m) as Hc by (intros A m Hm; exact (stays_confined _ (eq target) m Hm Hne)).
  assert (∀ A (m : F A), confined (λ _, False) m → stays source m) as Hq by (intros A m Hm; exact (stays_confined _ (λ _, False) m Hm (λ x, x))).
  unfold Snapshot, Stat, Chmod. apply stays_bind; [apply Hq; auto with files|]. intros [_|e]; [|apply Hq; auto with files].
  apply stays_bind; [by apply Hc, confined_RemoveIfThere|]. intros _. apply stays_bind; [apply stays_connect|]. intros _.
  apply stays_close. apply stays_bind.
  { apply stays_while. intros fs Ht Hp. eapply fwp_mono; [exact (fwp_and _ _ _ _ (vacuum_files source target fs Ht) (vacuum_stays source target fs Ht (not_eq_sym Hne) Hp))|].
    naive_solver. }
  intros _. apply stays_bind; [apply Hq; auto with files|]. intros _. apply stays_bind; [by apply Hc, confined_syncFile|]. intros _.
  by eapply stays_confined; [apply confined_CheckSnapshot|].
Qed.

(** A snapshot that succeeds is a flushed file that passed the check. *)
Lemma Snapshot_wp fs : tidy fs → now_at fs (target +:+ "-wal") = None →
  fwp (Snapshot source target) (λ r f, tidy f ∧ only (snapshot_files source target) fs f ∧
    (r = Ok tt → ∃ data, now_at f target = Some (mkNode data true) ∧ sq_sound data)) fs.
Proof.
  intros Ht Hw. cut (fwp (Snapshot source target) (λ r f, r = Ok tt → ∃ data, now_at f target = Some (mkNode data true) ∧ sq_sound data) fs).
  { intros H. eapply fwp_mono; [exact (fwp_and _ _ _ _ (confined_Snapshot source target fs Ht) H)|]. intros r f [[Ha Hb] Hc]. auto. }
  assert (∀ f f' q, only (db_files source) f f' → db_files target q → now_at f' q = now_at f q) as Hkeep.
  { intros f f' q Ho Hq. apply (only_now _ _ _ Ho). by apply Happart. }
  assert (db_files target target) as Htt by by left. assert (db_files target (target +:+ "-wal")) as Htw by by right; left.
  assert (target +:+ "-wal" ≠ target) as Hne.
  { intros E. apply (f_equal slen) in E. rewrite slen_app in E. cbn in E. lia. }
  unfold Snapshot, Stat. apply fwp_bind, fwp_try, os_ask_wp. intros f0 Hq0. split; [|by apply fwp_fail].
  destruct (_ || _); [|by apply fwp_fail]. pose proof (quiet_tidy _ _ Hq0 Ht) as Ht0. rewrite <- (quiet_now_at _ _ _ Hq0) in Hw.
  apply fwp_bind. eapply fwp_mono; [apply (RemoveIfThere_wp target f0 Ht0)|]. intros [[]|e] f1 (Ht1 & Ho1 & _); [|done].
  rewrite <- (only_now _ _ _ Ho1) in Hw by done.
  apply fwp_bind. eapply fwp_mono; [apply (confined_rawOpen source f1 Ht1)|]. intros [[]|e] f2 (Ht2 & Ho2); [|done].
  rewrite <- (Hkeep _ _ _ Ho2 Htw) in Hw.
  apply fwp_deferred, fwp_bind, fwp_while.
  eapply fwp_mono; [apply fwp_and; [apply (vacuum_files source target f2 Ht2)|apply fwp_and; [apply (vacuum_writes source target f2 Ht2)|]]|].
  { apply (vacuum_no_log source target f2 Ht2); [|done|by apply Happart]. intros E. apply (Happart target Htt). by left. }
  intros [[]|e] f3 ([Ht3 _] & Hx3 & Hw3); [|done]. destruct (Hx3 eq_refl) as [n Hn]. clear Hx3.
  apply fwp_bind. unfold Chmod. apply os_ask_wp. intros f4 Hq4. split; [|done]. destruct (_ || _); [|done].
  pose proof (quiet_tidy _ _ Hq4 Ht3) as Ht4. rewrite <- (quiet_now_at _ _ _ Hq4) in Hw3. rewrite <- (quiet_now_at _ _ _ Hq4) in Hn.
  apply fwp_bind. eapply fwp_mono; [apply (syncFile_wp target n f4 Ht4 Hn)|]. intros [[]|e] f5 (Ht5 & Ho5 & Hn5); [|done].
  rewrite <- (only_now _ _ _ Ho5) in Hw3 by done.
  eapply fwp_mono; [apply (CheckSnapshot_wp target _ f5 Ht5 (Hn5 eq_refl) Hw3)|]. intros r f6 (Ht6 & _ & Hr) E.
  destruct (Hr E) as (data & Hd & Hs). exists data. split; [|done].
  rewrite (Hkeep _ _ target (proj2 (close_files source f6 Ht6)) Htt). exact Hd.
Qed.
End daily.

(** *** What is kept

    [newer dir p fs]: seven copies with later names are there. *)
Definition newer (dir p : string) (fs : Fs) : Prop :=
  ∃ l, NoDup l ∧ length l = DailyCopies ∧ ∀ q, In q l → copy_file dir q = true ∧ String.leb p q = true ∧ q ≠ p ∧ present fs q = true.

Section pruning.
Context (dir : string) (fs : Fs).
Let copies := sql_order (key_leb id String.leb) (glob_one dir "pgfy-" ".db" fs).
Definition pruned : list string := take (length copies - DailyCopies) copies.
Let kept := drop (length copies - DailyCopies) copies.

Lemma in_glob_one pre suf q : In q (glob_one dir pre suf fs) ↔ present fs q = true ∧ matches dir pre suf q = true.
Proof. unfold glob_one. by rewrite in_sql_order, filter_In, in_names. Qed.
Lemma copies_NoDup : NoDup copies.
Proof.
  unfold copies. rewrite sql_order_perm. unfold glob_one. rewrite sql_order_perm. apply NoDup_ListNoDup, List.NoDup_filter, NoDup_ListNoDup, NoDup_names.
Qed.
Lemma in_pruned q : In q pruned → present fs q = true ∧ copy_file dir q = true.
Proof.
  unfold pruned. intros H. rewrite <- list_elem_of_In in H. apply elem_of_take in H as (i & H & _).
  apply list_elem_of_lookup_2, list_elem_of_In in H. unfold copies in H. rewrite in_sql_order in H. by apply in_glob_one.
Qed.
Lemma copies_split : copies = pruned ++ kept.
Proof. symmetry. apply take_drop. Qed.

(** The names that stay are later than the ones that go. *)
Lemma kept_later p q : In p pruned → In q kept → String.leb p q = true ∧ q ≠ p.
Proof.
  intros Hp Hq. pose proof copies_NoDup as Hn. pose proof (sql_order_sorted id String.leb (glob_one dir "pgfy-" ".db" fs)) as Hs.
  fold copies in Hs. rewrite copies_split in Hn, Hs. split.
  - rewrite <- list_elem_of_In in Hp, Hq. apply StronglySorted_app in Hs as (Hs & _ & _). apply Is_true_true. exact (Hs p q Hp Hq).
  - intros ->. apply NoDup_app in Hn as (_ & Hn & _). by apply (Hn p); apply list_elem_of_In.
Qed.
Lemma kept_seven p : In p pruned → NoDup kept ∧ length kept = DailyCopies.
Proof.
  intros Hp. pose proof copies_NoDup as Hn. rewrite copies_split in Hn. apply NoDup_app in Hn as (_ & _ & Hn). split; [done|].
  unfold kept. rewrite length_drop. assert (length pruned ≠ 0%nat) as Hl by (destruct pruned; [done|cbn; lia]).
  unfold pruned in Hl. rewrite length_take in Hl. lia.
Qed.
Lemma in_kept q : In q kept → present fs q = true ∧ copy_file dir q = true ∧ ¬ In q pruned.
Proof.
  intros Hq. assert (In q copies) as Hc by (rewrite copies_split; apply in_or_app; by right).
  unfold copies in Hc. rewrite in_sql_order, in_glob_one in Hc. split; [apply Hc|]. split; [apply Hc|]. intros Hp.
  by destruct (kept_later q q Hp Hq).
Qed.

Lemma pruned_newer p fs' : In p pruned → (∀ q, copy_file dir q = true → ¬ In q pruned → present fs' q = present fs q) → newer dir p fs'.
Proof.
  intros Hp Hsame. destruct (kept_seven p Hp) as [Hn Hl]. exists kept. split; [done|]. split; [done|]. intros q Hq.
  destruct (in_kept q Hq) as (H1 & H2 & H3). destruct (kept_later p q Hp Hq). split; [done|]. split; [done|]. split; [done|]. by rewrite Hsame.
Qed.
End pruning.

(** *** A run *)

Record copying (source dir : string) (now : time) (fs : Fs) : Prop := {
  cp_tidy : tidy fs;
  cp_dir : clean_dir dir = true ∧ now_at fs dir = None;
  cp_source q : db_files source q → in_dir dir q = false ∧ q ≠ dir;
  cp_log : now_at fs (staged_copy dir now +:+ "-wal") = None;
}.

Section copying.
Context `{sq : !Sqlite, !SqliteLaws sq}.
Context (glob_dirs : string → Fs → list string) (source dir : string) (now : time) (fs : Fs) (Hc : copying source dir now fs).

(** Every file under a copy's name is a sound database, also after a loss. *)
Definition good_copies (f : Fs) : Prop :=
  ∀ d p n, In d (dirs_of f) → copy_file dir p = true → node_of d f p = Some n → n_flushed n = true ∧ sq_sound (n_data n).

(** Before the copy has its name only SQLite's files change. *)
Definition off_copies (q : string) : Prop := db_files source q ∨ db_files (staged_copy dir now) q.
Definition aside (f : Fs) : Prop := only off_copies fs f ∧ (is_Some (now_at fs source) → is_Some (now_at f source)).

Lemma copy_not_off p : copy_file dir p = true → ¬ off_copies p.
Proof.
  intros Hp [Hs|[_ H]%staged_files]; [|congruence]. apply (cp_source _ _ _ _ Hc) in Hs as [Hs _].
  apply matches_last in Hp as [_ Hp]; [congruence|done].
Qed.

(** The verdict on a run that ends in [r] and [f]. *)
Record verdict (r : res fs_error string) (f : Fs) : Prop := {
  vd_good : good_copies fs → good_copies f;
  vd_kept p : copy_file dir p = true → is_Some (now_at fs p) → now_at f p = None → newer dir p f;
  vd_done : r = Ok (copy_name dir now) →
    (∃ data, sq_sound data ∧ ∀ d, In d (dirs_of f) → node_of d f (copy_name dir now) = Some (mkNode data true)) ∨
    newer dir (copy_name dir now) f;
  vd_frame q : ¬ off_copies q → q ≠ copy_name dir now →
    now_at f q = now_at fs q ∨ (now_at f q = None ∧ (copy_file dir q = true ∨ stray_file dir q = true));
  vd_source : is_Some (now_at fs source) → is_Some (now_at f source);
}.

Lemma off_verdict r f : aside f → r ≠ Ok (copy_name dir now) → verdict r f.
Proof.
  intros [[Hn Hv] Hsrc] Hr. split; [| | | |done].
  - intros Hg d p n Hd Hp E. destruct (Hv d Hd) as (d0 & Hd0 & E0). rewrite E0 in E by by apply copy_not_off. by eapply Hg.
  - intros p Hp [n E] E'. rewrite Hn in E' by by apply copy_not_off. congruence.
  - done.
  - intros q H1 _. left. by apply Hn.
Qed.

(** The copy under its name: what is there, and what a loss may bring back. *)
Record landed (data : string) (f : Fs) : Prop := {
  ld_sound : sq_sound data;
  ld_name : now_at f (copy_name dir now) = Some (mkNode data true);
  ld_other p : copy_file dir p = true → p ≠ copy_name dir now → now_at f p = now_at fs p;
  ld_views d : In d (dirs_of f) → d = fs_dir f ∨ ∃ d0, In d0 (dirs_of fs) ∧ ∀ p, copy_file dir p = true → node_of d f p = node_of d0 fs p;
  ld_frame q : ¬ off_copies q → q ≠ copy_name dir now → now_at f q = now_at fs q;
  ld_source : is_Some (now_at fs source) → is_Some (now_at f source);
}.

Lemma landed_good data f : landed data f → good_copies fs → good_copies f.
Proof.
  intros [L1 L2 L3 L4 _ _] Hg d p n Hd Hp E.
  destruct (L4 d Hd) as [->|(d0 & Hd0 & E0)]; [|rewrite E0 in E by done; by eapply Hg].
  destruct (decide (p = copy_name dir now)) as [->|Hne].
  - unfold now_at in L2. rewrite L2 in E. by injection E as <-.
  - change (now_at f p = Some n) in E. rewrite L3 in E by done. eapply (Hg (fs_dir fs)); [by left|done..].
Qed.
Lemma landed_verdict data f r : landed data f → r ≠ Ok (copy_name dir now) → verdict r f.
Proof.
  intros L Hr. split; [by eapply landed_good| |done| |exact (ld_source _ _ L)]; [|intros q H1 H2; left; exact (ld_frame _ _ L q H1 H2)].
  intros p Hp [n E] E'. destruct (decide (p = copy_name dir now)) as [->|Hne]; [rewrite (ld_name _ _ L) in E'; done|].
  rewrite (ld_other _ _ L) in E' by done. congruence.
Qed.

(** Removing files of the directory, the copies among them being [pruned]. *)
Lemma pruned_verdict data f f' l : landed data f → fs_past f = [] →
  only (λ q, In q l ∨ stray_file dir q = true) f f' → shrinks f f' →
  (∀ q, In q l → copy_file dir q = true ∧ newer dir q f') →
  verdict (Ok (copy_name dir now)) f'.
Proof.
  intros L Hp [On Ov] Hshr Hl.
  assert (∀ d q, In d (dirs_of f') → copy_file dir q = true → ¬ In q l → node_of d f' q = now_at f q) as Hv.
  { intros d q Hd Hq Hni. destruct (Ov d Hd) as (d0 & Hd0 & E). unfold dirs_of in Hd0. rewrite Hp in Hd0. destruct Hd0 as [<-|[]].
    apply E. intros [?|Hst]; [done|]. by apply stray_off in Hst as [_ ?]; congruence. }
  split; [| | | |].
  - intros Hg%(landed_good data f L) d p n Hd Hcp E. destruct (Hshr d Hd) as (d0 & Hd0 & H). destruct (H p) as [H0|H0]; [congruence|].
    rewrite H0 in E. by eapply Hg.
  - intros p Hcp [n E] E'. destruct (in_dec String.string_dec p l) as [Hin|Hni]; [by apply Hl|].
    assert (now_at f p = None) as En by (rewrite <- E'; symmetry; apply (Hv (fs_dir f')); [by left|done..]).
    destruct (decide (p = copy_name dir now)) as [->|Hne]; [rewrite (ld_name _ _ L) in En; done|]. rewrite (ld_other _ _ L) in En by done. congruence.
  - intros _. assert (copy_file dir (copy_name dir now) = true) as Hn by apply copy_name_matches.
    destruct (in_dec String.string_dec (copy_name dir now) l) as [Hin|Hni]; [right; by apply Hl|]. left. exists data.
    split; [apply L|]. intros d Hd. rewrite Hv by done. apply L.
  - intros q H1 H2. rewrite <- (ld_frame _ _ L q H1 H2).
    destruct (Hshr (fs_dir f') (or_introl eq_refl)) as (d0 & Hd0 & H). unfold dirs_of in Hd0. rewrite Hp in Hd0. destruct Hd0 as [<-|[]].
    destruct (in_dec String.string_dec q l) as [Hin|Hni].
    + destruct (H q) as [E|E]; [right|left; exact E]. split; [exact E|left; by apply Hl].
    + destruct (stray_file dir q) eqn:Es; [|left; apply On; intros [?|?]; [done|congruence]].
      destruct (H q) as [E|E]; [right|left; exact E]. split; [exact E|by right].
  - intros Hsrc. rewrite On; [by apply (ld_source _ _ L)|]. assert (in_dir dir source = false) as Hi by (apply (cp_source _ _ _ _ Hc); by left).
    intros [Hin|Hst]; [apply Hl, proj1, matches_last in Hin as [_ ?]; [congruence|done]|apply stray_off in Hst as [? _]; congruence].
Qed.

Let staged := staged_copy dir now.
Let name := copy_name dir now.

Lemma staged_off q : db_files staged q → off_copies q.
Proof. intros Hq. by right. Qed.
Lemma staged_not_name : staged ≠ name.
Proof. intros E. assert (copy_file dir staged = false) as H by (apply (staged_files dir now); by left). rewrite E in H. unfold name in H. by rewrite copy_name_matches in H. Qed.

Section landing.
Context (data : string) (f0 f1 f2 : Fs) (Ht0 : tidy f0) (Hab : aside f0) (Hst : now_at f0 staged = Some (mkNode data true))
  (Hsd : sq_sound data) (Hm : moved staged name f0 f1) (Ed : fs_dir f2 = fs_dir f1) (En : fs_nodes f2 = fs_nodes f1)
  (Ep : fs_past f2 = fs_past f1 ∨ fs_past f2 = []).

Let Ho : only off_copies fs f0 := proj1 Hab.
Lemma landed_node d q : node_of d f2 q = node_of d f0 q.
Proof. unfold node_of. by rewrite En, (moved_nodes _ _ _ _ Hm). Qed.
Lemma landed_other q : q ≠ name → q ≠ staged → now_at f2 q = now_at f0 q.
Proof. intros H1 H2. unfold now_at. rewrite landed_node. unfold node_of. rewrite Ed, (moved_dir _ _ _ _ Hm). by rewrite !bool_decide_false. Qed.
Lemma copy_not_staged p : copy_file dir p = true → p ≠ staged.
Proof. intros Hp ->. assert (copy_file dir staged = false) by (apply (staged_files dir now); by left). congruence. Qed.

Lemma rename_lands : landed data f2.
Proof.
  split; [done|..].
  - unfold now_at, node_of. rewrite Ed, (moved_dir _ _ _ _ Hm), En, (moved_nodes _ _ _ _ Hm). rewrite bool_decide_true by done. exact Hst.
  - intros p Hp Hne. rewrite landed_other by (try apply copy_not_staged; done). apply (only_now _ _ _ Ho). by apply copy_not_off.
  - intros d [<-|Hd]; [by left|]. right. destruct Ep as [E|E]; rewrite E in Hd; [|done]. rewrite (moved_past _ _ _ _ Hm) in Hd.
    destruct (only_views _ _ _ Ho d Hd) as (d0 & Hd0 & Hv). exists d0. split; [done|]. intros p Hp. rewrite landed_node. apply Hv. by apply copy_not_off.
  - intros q H1 H2. rewrite landed_other; [by apply (only_now _ _ _ Ho)|done|]. intros ->. apply H1, staged_off. by left.
  - intros Hsrc. apply Hab in Hsrc. destruct (cp_source _ _ _ _ Hc source) as [Hi _]; [by left|]. rewrite landed_other; [done|..].
    + intros E. destruct (matches_last dir _ _ _ (ltac:(done) : ".db" ≠ "") (copy_name_matches dir now)) as [_ H]. fold name in H. congruence.
    + intros E. assert (in_dir dir staged = true) by (apply (staged_files dir now); by left). congruence.
Qed.

(** With the directory synced, names and nodes are in step again. *)
Lemma landed_tidy : fs_past f2 = [] → tidy f2.
Proof.
  intros E.
  assert (∀ q i, fs_dir f2 !! q = Some i → ∃ q0, fs_dir f0 !! q0 = Some i ∧ (q = name ∧ q0 = staged ∨ q = q0 ∧ q ≠ name ∧ q ≠ staged)) as H.
  { intros q i. rewrite Ed, (moved_dir _ _ _ _ Hm). case_bool_decide as E1; [intros Hi; exists staged; auto|].
    case_bool_decide as E2; [done|]. intros Hi. exists q. auto. }
  split; unfold dirs_of; rewrite E.
  - intros d q i [<-|[]] Hi. rewrite En, (moved_nodes _ _ _ _ Hm). destruct (H q i Hi) as (q0 & H0 & _).
    eapply (tidy_nodes f0 Ht0); [by left|exact H0].
  - intros d d' q q' i [<-|[]] [<-|[]] Hi Hi'. destruct (H q i Hi) as (q0 & H0 & Hq), (H q' i Hi') as (q1 & H1 & Hq').
    assert (q0 = q1) as <- by (eapply (tidy_names f0 Ht0 (fs_dir f0) (fs_dir f0)); [by left|by left|done|done]).
    destruct Hq as [[-> ->]|(-> & ? & ?)], Hq' as [[-> ?]|(-> & ? & ?)]; congruence.
Qed.
End landing.

Lemma clean_meta : has_meta dir = false ∧ path_clean dir = dir.
Proof. destruct (cp_dir _ _ _ _ Hc) as [Hd _]. unfold clean_dir in Hd. by bool_simpl. Qed.

Lemma glob_or_none_wp pre suf (Q : res fs_error (list string) → Fs → Prop) g :
  (∀ g', quiet g g' → Q (Ok (glob_one dir pre suf g)) g' ∧ Q (Ok []) g') → fwp (glob_or_none glob_dirs dir pre suf) Q g.
Proof.
  intros HQ. unfold glob_or_none, Glob. apply fwp_bind, fwp_try, os_ask_wp. intros g' Hq. rewrite (proj1 clean_meta).
  destruct (HQ g' Hq). split; [|done]. apply fwp_ret. assert (glob_one dir pre suf g' = glob_one dir pre suf g) as -> by (rewrite Hq; done). done.
Qed.
(** The clean-up after a synced copy. *)
Lemma cleanup_verdict data f : landed data f → tidy f → fs_past f = [] →
  fwp (glob_or_none glob_dirs dir "pgfy-" ".db" ≫= λ copies,
       for_files (λ p, ignore (Remove p)) (take (length (sql_order (key_leb id String.leb) copies) - DailyCopies) (sql_order (key_leb id String.leb) copies)) ≫= λ _,
       glob_or_none glob_dirs dir "pgfy-" ".db.tmp" ≫= λ stray,
       for_files (λ p, ignore (Remove p)) stray ≫= λ _, mret name) verdict f.
Proof.
  intros L Ht Hp.
  cut (∀ g T, quiet f g → T = pruned dir f ∨ T = [] → fwp (for_files (λ p, ignore (Remove p)) T ≫= λ _,
       glob_or_none glob_dirs dir "pgfy-" ".db.tmp" ≫= λ stray, for_files (λ p, ignore (Remove p)) stray ≫= λ _, mret name) verdict g).
  { intros H. apply fwp_bind, glob_or_none_wp. intros g Hg. split; apply H; auto. }
  intros g T Hg HT. apply fwp_bind. eapply fwp_mono; [apply (for_Remove_wp T g), (quiet_tidy _ _ Hg Ht)|].
  intros r g1 (-> & Ht1 & Ho1 & Hs1 & Hp1).
  cut (∀ g2 S, quiet g1 g2 → (∀ q, In q S → matches dir "pgfy-" ".db.tmp" q = true) → fwp (for_files (λ p, ignore (Remove p)) S ≫= λ _, mret name) verdict g2).
  { intros H. apply fwp_bind, glob_or_none_wp. intros g2 Hg2. split; apply H; try done. intros q Hq. by apply in_glob_one in Hq as [_ Hq]. }
  intros g2 S Hg2 HS. apply fwp_bind. eapply fwp_mono; [apply (for_Remove_wp S g2), (quiet_tidy _ _ Hg2 Ht1)|].
  intros r g3 (-> & Ht3 & Ho3 & Hs3 & Hp3). apply fwp_ret. apply (pruned_verdict data f g3 T); [done..| | |].
  - eapply (only_trans (λ _, False)); [|by apply quiet_only|]; [|eapply (only_trans (λ q, In q T)); [|exact Ho1|]; [|eapply (only_trans (λ _, False)); [|by apply quiet_only|exact Ho3]]].
    + intros q [[]|Hq]. exact Hq.
    + intros q [Hq|Hq]; [by left|]. exact Hq.
    + intros q [[]|Hq]. right. by apply HS.
  - eapply shrinks_trans; [by apply quiet_shrinks|]. eapply shrinks_trans; [exact Hs1|]. eapply shrinks_trans; [by apply quiet_shrinks|exact Hs3].
  - destruct HT as [->| ->]; [|done]. intros q Hq. split; [by apply in_pruned in Hq as [_ ?]|].
    apply (pruned_newer dir f q g3 Hq). intros q' Hcp Hni. rewrite Hp3, (quiet_present _ _ q' Hg2), Hp1, (quiet_present _ _ q' Hg); [done..|].
    intros [_ ?]%HS%stray_off. congruence.
Qed.

Lemma aside_step f f' : aside f → only off_copies f f' → (is_Some (now_at f source) → is_Some (now_at f' source)) → aside f'.
Proof. intros [Ho Hsrc] Ho' Hs. split; [|auto]. eapply only_trans; [|exact Ho|exact Ho']. tauto. Qed.
Lemma off_step f f' : tidy f → aside f → quiet f f' → tidy f' ∧ aside f'.
Proof.
  intros Ht Ha Hq. split; [by eapply quiet_tidy|]. eapply aside_step; [done|by apply quiet_only|]. by rewrite (quiet_now_at _ _ _ Hq).
Qed.

Lemma ok_empty : Ok "" ≠ Ok (E:=fs_error) name.
Proof. intros [= E]. unfold name, copy_name in E. apply (f_equal slen) in E. rewrite !slen_app in E. cbn in E. lia. Qed.

(** From the rename on. *)
Lemma finish_verdict data f : tidy f → aside f → now_at f staged = Some (mkNode data true) → sq_sound data →
  fwp (Rename staged name ≫= λ _, syncFile dir ≫= λ _,
       glob_or_none glob_dirs (path_clean dir) "pgfy-" ".db" ≫= λ copies,
       for_files (λ p, ignore (Remove p)) (take (length (sql_order (key_leb id String.leb) copies) - DailyCopies) (sql_order (key_leb id String.leb) copies)) ≫= λ _,
       glob_or_none glob_dirs (path_clean dir) "pgfy-" ".db.tmp" ≫= λ stray,
       for_files (λ p, ignore (Remove p)) stray ≫= λ _, mret name) verdict f.
Proof.
  intros Ht Ho Hst Hsd. rewrite (proj2 clean_meta). apply fwp_bind. eapply fwp_mono; [apply Rename_wp|].
  intros r1 f1 [[Hq1 Hr1]|(f0 & Hq0 & Hm)].
  { destruct r1 as [[]|e]; [done|]. apply off_verdict; [|done]. by eapply off_step. }
  destruct (off_step _ _ Ht Ho Hq0) as [Ht0 Ho0]. rewrite <- (quiet_now_at _ _ _ Hq0) in Hst.
  destruct r1 as [[]|e].
  2: { eapply landed_verdict; [|done]. eapply (rename_lands data f0 f1 f1); try done. by left. }
  apply fwp_bind. eapply fwp_mono; [apply sync_dir_wp|].
  - destruct (cp_dir _ _ _ _ Hc) as [_ Hnone].
    assert (∀ q, in_dir dir q = true → dir ≠ q) as Hne by (intros q Hq; by apply not_eq_sym, in_dir_ne).
    assert (¬ off_copies dir) as Hoff.
    { intros [Hs|[Hi _]%staged_files]; [by apply (cp_source _ _ _ _ Hc) in Hs as [_ ?]|by apply Hne in Hi]. }
    rewrite <- (only_now _ _ _ (proj1 Ho0) _ Hoff) in Hnone.
    unfold is_file. apply bool_decide_eq_false. rewrite (moved_dir _ _ _ _ Hm), !bool_decide_false.
    + intros Hi%(bool_decide_eq_true_2 _). apply is_file_now in Hi as [? ?]; [congruence|done].
    + apply Hne, (staged_files dir now). by left.
    + apply Hne. eapply matches_last, copy_name_matches. done.
  - intros r2 f2 (Ed & En & Ep & Er).
    assert (landed data f2) as L by (eapply (rename_lands data f0 f1 f2); done).
    destruct r2 as [[]|e]; [|by eapply landed_verdict]. specialize (Er eq_refl).
    apply (cleanup_verdict data f2 L); [|done]. by eapply (landed_tidy f0 f1 f2).
Qed.

Lemma daily_verdict db : fwp (DailyCopy glob_dirs db source dir now) verdict fs.
Proof.
  pose proof (cp_tidy _ _ _ _ Hc) as Ht. unfold DailyCopy, Maintenance. apply fwp_bind, os_ask_wp. intros f0 Hq0.
  destruct (off_step _ _ Ht (conj (only_refl _ _) (λ H, H) : aside fs) Hq0) as [Ht0 Ho0]. split; [|by apply off_verdict].
  destruct (maintenance db); [by apply fwp_ret, off_verdict; [|exact ok_empty]|].
  change ("pgfy-" +:+ format_date now +:+ ".db") with (date_part now). rewrite copy_name_join by apply (cp_dir _ _ _ _ Hc).
  fold name. change (name +:+ ".tmp") with staged. cbv zeta.
  apply fwp_bind, fwp_try. unfold Stat. apply os_ask_wp. intros f1 Hq1. destruct (off_step _ _ Ht0 Ho0 Hq1) as [Ht1 Ho1].
  assert (now_at f1 (staged +:+ "-wal") = None) as Hw1 by (rewrite (quiet_now_at _ _ _ Hq1), (quiet_now_at _ _ _ Hq0); apply Hc).
  match goal with |- ?A ∧ ?B => cut B; [intros HB; split; [|exact HB]; destruct (_ || _); [|exact HB]; apply fwp_ret, off_verdict; [done|exact ok_empty]|] end.
  cbn [is_ok]. apply fwp_bind. pose proof (confined_MkdirAll (λ _, False) dir f1 Ht1) as HM.
  eapply fwp_mono; [exact HM|]. intros r f2 [Ht2 Ho2].
  assert (aside f2) as Ho2' by (eapply aside_step; [exact Ho1|by eapply only_weaken; [|exact Ho2]|by rewrite (only_now _ _ _ Ho2) by tauto]).
  destruct r as [[]|e]; [|by apply off_verdict].
  rewrite <- (only_now _ _ _ Ho2) in Hw1 by tauto.
  assert (∀ q, db_files staged q → ¬ db_files source q) as Hap.
  { intros q Hq Hs. apply (cp_source _ _ _ _ Hc) in Hs as [Hs _]. apply (staged_files dir now) in Hq as [Hq _]. congruence. }
  apply fwp_bind, fwp_try. eapply fwp_mono; [apply fwp_and; [by apply (Snapshot_wp source staged)|]|].
  { instantiate (1 := λ _ f, is_Some (now_at f2 source) → is_Some (now_at f source)). unfold fwp.
    pose proof (stays_Snapshot source staged Hap f2 Ht2) as Hs. unfold fwp in Hs. destruct (Snapshot source staged f2). naive_solver. }
  intros r f3 [(Ht3 & Ho3 & Hr) Hs3].
  assert (aside f3) as Ho3'.
  { eapply aside_step; [exact Ho2'|eapply only_weaken; [|exact Ho3]|exact Hs3]. intros q [?|?]; [by left|by right]. }
  destruct r as [[]|e].
  - destruct (Hr eq_refl) as (data & Hn & Hsd). by apply (finish_verdict data).
  - apply fwp_bind, fwp_ignore. eapply fwp_mono; [by apply (confined_Remove (eq staged) staged), Ht3|].
    intros r f4 [Ht4 Ho4]. apply fwp_fail, off_verdict; [|done]. eapply aside_step; [exact Ho3'| |].
    + eapply only_weaken; [|exact Ho4]. intros q <-. apply staged_off. by left.
    + rewrite (only_now _ _ _ Ho4); [done|]. intros E. apply (Hap source); [left; by rewrite <- E|by left].
Qed.
End copying.

(** C19. One run of [DailyCopy], whatever fails in it and wherever the process
    stops or the power goes: every file found under the name of a daily copy
    is a sound database (a half-written one is only ever found under its
    temporary name); a copy that was there and is gone has left seven copies
    with later names; a run that reports a copy has made it durable, unless
    seven later ones made it the one to go; apart from the new copy, its
    temporary file and SQLite's own beside the source, every file is as it was
    or has been removed, and only files named as copies or as temporary copies
    are removed; the database itself is still there, and while an update holds
    the installation quiet nothing has changed at all. *)
Theorem daily_copies_are_kept `{sq : !Sqlite, !SqliteLaws sq} glob_dirs db source dir now fs r fs' :
  copying source dir now fs → good_copies dir fs →
  DailyCopy glob_dirs db source dir now fs = (r, fs') →
  (∀ files p data, after_loss fs' files → copy_file dir p = true → files !! p = Some data → sq_sound data) ∧
  (∀ p, copy_file dir p = true → is_Some (now_at fs p) → now_at fs' p = None → newer dir p fs') ∧
  (r = Ok (copy_name dir now) →
     (∀ files, after_loss fs' files → ∃ data, files !! copy_name dir now = Some data ∧ sq_sound data) ∨ newer dir (copy_name dir now) fs') ∧
  (∀ q, ¬ db_files source q → ¬ db_files (staged_copy dir now) q → q ≠ copy_name dir now →
     now_at fs' q = now_at fs q ∨ (now_at fs' q = None ∧ (copy_file dir q = true ∨ stray_file dir q = true))) ∧
  (is_Some (now_at fs source) → is_Some (now_at fs' source)) ∧
  (maintenance db = true → quiet fs fs').
Proof.
  intros Hc Hg E. destruct (fwp_run _ _ _ _ _ (daily_verdict glob_dirs source dir now fs Hc db) E) as [V1 V2 V3 V4 V5].
  split; [|split; [done|split; [|split; [|split; [done|]]]]].
  - intros files p data (d & Hd & Hf) Hp Hd'. specialize (Hf p). destruct (node_of d fs' p) as [n|] eqn:En; [|congruence].
    destruct (V1 Hg d p n Hd Hp En) as [Hfl Hs]. rewrite Hfl, Hd' in Hf. by injection Hf as ->.
  - intros Hr. destruct (V3 Hr) as [(data & Hs & Hv)|?]; [left|by right]. intros files (d & Hd & Hf). specialize (Hf (copy_name dir now)).
    rewrite (Hv d Hd) in Hf. cbn in Hf. exists data. by split.
  - intros q H1 H2. apply V4. by intros [?|?].
  - intros Hm. cut (fwp (DailyCopy glob_dirs db source dir now) (λ _ f, quiet fs f) fs); [intros H; exact (fwp_run _ _ _ _ _ H E)|].
    unfold DailyCopy, Maintenance. apply fwp_bind, os_ask_wp. intros f0 Hq0. rewrite Hm. done.
Qed.

(** ** A small SQLite

    Enough of it to run the definitions: bytes are a database when they start
    as one, a check reads, a vacuum copies. *)

#[export] Instance small_sqlite : Sqlite := {|
  sq_connect _ := mret tt;
  sq_integrity_check p := λ fs,
    (match data_at fs p with
     | Some data => Ok (if has_prefix data "SQLite" then "ok" else "malformed")
     | None => Err Io
     end, fs);
  sq_vacuum_into p t := λ fs,
    match data_at fs p with
    | Some data => (Ok tt, put t data fs)
    | None => (Err Io, fs)
    end;
  sq_close _ fs := fs;
  sq_sound data := has_prefix data "SQLite" = true;
|}.

#[export] Instance small_sqlite_laws : SqliteLaws small_sqlite.
Proof.
  split; unfold fwp; cbn [small_sqlite sq_connect sq_integrity_check sq_vacuum_into sq_close sq_sound].
  - intros p fs Ht. split; [done|apply only_refl].
  - intros p fs Ht. split; [done|apply only_refl].
  - intros p t fs Ht. destruct (data_at fs p) as [data|]; [|split; [done|apply only_refl]].
    destruct (put_only t data fs Ht) as (Ho & Ht' & _). split; [done|]. eapply only_weaken; [|exact Ho]. intros q <-. right. by left.
  - intros p fs Ht. split; [done|apply only_refl].
  - intros p fs n _ Hn. split; [exact Hn|done].
  - intros p t fs Ht _ Hw _. destruct (data_at fs p) as [data|]; [|done]. destruct (put_only t data fs Ht) as (Ho & _ & _).
    rewrite (only_now _ _ _ Ho); [done|]. intros E. apply (f_equal slen) in E. rewrite slen_app in E. cbn in E. lia.
  - intros p t fs Ht. destruct (data_at fs p) as [data|]; [|done]. intros _. destruct (put_only t data fs Ht) as (_ & _ & ->). eauto.
  - intros p fs [data b] Ht Hn _. unfold data_at. rewrite Hn. cbn [fmap option_fmap option_map n_data n_flushed]. destruct (has_prefix data "SQLite") eqn:E; [|by intros [=]]. intros _. exists data. by split.
  - intros p fs _ _ Hs. split; [apply only_refl|]. split; [done|apply only_refl].
  - intros p fs _ _ _. apply only_refl.
  - done.
  - intros p t fs Ht Hne Hp. destruct (data_at fs p) as [data|]; [|done]. destruct (put_only t data fs Ht) as (Ho & _).
    by rewrite (only_now _ _ _ Ho).
  - done.
Qed.

(** Files written, flushed and at_rest, from nothing. *)
Definition empty_fs (dirs : list string) : Fs := mkFs ∅ ∅ [] (list_to_set dirs) [].
Definition write_all (files : list (string * string)) (fs : Fs) : Fs :=
  (foldr (λ (f : string * string) fs, flush f.1 (put f.1 f.2 fs)) fs files) <| fs_past := [] |>.

Lemma empty_tidy dirs : tidy (empty_fs dirs).
Proof. split; cbn; intros *; [intros [<-|[]]|intros [<-|[]] _]; by rewrite lookup_empty. Qed.
Lemma write_all_tidy files fs : tidy fs → tidy (write_all files fs).
Proof.
  intros Ht. unfold write_all. apply (settle_spec (λ _, True)). induction files as [|[p data] files IH]; [done|]. cbn [foldr fst snd].
  apply flush_spec, put_only, IH.
Qed.

(** A rollback whose rename is done but reported as failed. *)
Definition stopped_files : Fs :=
  write_all [("/data/pgfy.db", "SQLite new"); ("/data/pgfy.db-wal", "frames"); ("/backup/pgfy.db", "SQLite old")]
    (empty_fs ["/"; "/data"; "/backup"]).
Definition stopped_fs : Fs := stopped_files <| fs_faults := replicate 7 Works ++ [Torn ""] |>.

Lemma stopped_example : stopped "/backup/pgfy.db" "/data/pgfy.db" (Some "SQLite new") stopped_fs.
Proof.
  split.
  - apply (tidy_same stopped_files); [reflexivity..|]. apply write_all_tidy, empty_tidy.
  - intros d [<-|[]]. vm_compute. reflexivity.
  - vm_compute. done.
  - split; [intros [[H|[H|[H|H]]]|[H|[H|H]]]; discriminate H|]. intros q [->|[->|[->| ->]]]; done.
  - split; [vm_compute; reflexivity|]. split; [|done]. change (path_dir "/data/pgfy.db") with "/data".
    intros [[H|[H|[H|H]]]|[H|[H|H]]]; discriminate H.
Qed.

Lemma restore_all_or_nothing_witness :
  let (r, fs') := Restore "/backup/pgfy.db" "/data/pgfy.db" stopped_fs in
  r = Err Io ∧ data_at fs' "/data/pgfy.db" = Some "SQLite old" ∧
  ∀ files, after_loss fs' files → files !! "/data/pgfy.db" = Some "SQLite new" ∨
    (files !! "/data/pgfy.db" = Some "SQLite old" ∧ files !! "/data/pgfy.db-wal" = None).
Proof.
  assert ((Restore "/backup/pgfy.db" "/data/pgfy.db" stopped_fs).1 = Err Io) as H1 by (vm_compute; reflexivity).
  assert (data_at (Restore "/backup/pgfy.db" "/data/pgfy.db" stopped_fs).2 "/data/pgfy.db" = Some "SQLite old") as H2 by (vm_compute; reflexivity).
  assert (data_at (Restore "/backup/pgfy.db" "/data/pgfy.db" stopped_fs).2 "/backup/pgfy.db" = Some "SQLite old") as H3 by (vm_compute; reflexivity).
  destruct (Restore "/backup/pgfy.db" "/data/pgfy.db" stopped_fs) as [r fs'] eqn:E. cbn [fst snd] in H1, H2, H3.
  split; [exact H1|]. split; [exact H2|]. intros files Hf.
  destruct (restore_all_or_nothing _ _ _ _ _ _ stopped_example E) as (_ & _ & Hfound). destruct (Hfound files Hf) as [[_ H]|(content & _ & Hc & Hd & Hw & _)].
  - left. exact H.
  - right. split; [rewrite Hd; rewrite H3 in Hc; injection Hc as <-; reflexivity|exact Hw].
Defined.

(** Seven copies, and one more day. *)
Definition daily_files : Fs :=
  write_all (("/data/pgfy.db", "SQLite data") ::
             map (λ day, ("/data/daily/pgfy-2026090" +:+ day +:+ ".db", "SQLite copy")) ["1"; "2"; "3"; "4"; "5"; "6"; "7"])
    (empty_fs ["/"; "/data"; "/data/daily"]).
Definition next_day : time := 1790899200 * Second. (* 2026-10-02 *)
Definition day_before : time := 1785542400 * Second. (* 2026-08-01 *)
Definition no_patterns (_ : string) (_ : Fs) : list string := [].

Lemma daily_example now : now = next_day ∨ now = day_before → copying "/data/pgfy.db" "/data/daily" now daily_files.
Proof.
  intros Hnow. split.
  - apply write_all_tidy, empty_tidy.
  - vm_compute. done.
  - intros q [->|[->|[->| ->]]]; vm_compute; done.
  - destruct Hnow as [->| ->]; vm_compute; reflexivity.
Qed.
Lemma daily_good : good_copies "/data/daily" daily_files.
Proof.
  intros d p n [<-|[]] _. unfold node_of.
  assert (map_Forall (λ _ i, ∃ n, fs_nodes daily_files !! i = Some n ∧ n_flushed n = true ∧ has_prefix (n_data n) "SQLite" = true) (fs_dir daily_files)) as H.
  { apply map_Forall_to_list. vm_compute. repeat constructor; eexists; (split; [reflexivity|]); split; reflexivity. }
  destruct (fs_dir daily_files !! p) as [i|] eqn:Ei; [|done]. destruct (H p i Ei) as (n' & Hn & H1 & H2). cbn [mbind option_bind]. rewrite Hn. intros [= <-]. by split.
Qed.

Lemma daily_copies_are_kept_witness :
  let (r, fs') := DailyCopy no_patterns empty_db "/data/pgfy.db" "/data/daily" next_day daily_files in
  r = Ok "/data/daily/pgfy-20261002.db" ∧ data_at fs' "/data/daily/pgfy-20261002.db" = Some "SQLite data" ∧
  now_at fs' "/data/daily/pgfy-20260901.db" = None ∧ newer "/data/daily" "/data/daily/pgfy-20260901.db" fs'.
Proof.
  assert ((DailyCopy no_patterns empty_db "/data/pgfy.db" "/data/daily" next_day daily_files).1 = Ok "/data/daily/pgfy-20261002.db") as H1
    by (vm_compute; reflexivity).
  assert (data_at (DailyCopy no_patterns empty_db "/data/pgfy.db" "/data/daily" next_day daily_files).2 "/data/daily/pgfy-20261002.db" = Some "SQLite data") as H2
    by (vm_compute; reflexivity).
  assert (now_at (DailyCopy no_patterns empty_db "/data/pgfy.db" "/data/daily" next_day daily_files).2 "/data/daily/pgfy-20260901.db" = None) as H3
    by (vm_compute; reflexivity).
  destruct (DailyCopy no_patterns empty_db "/data/pgfy.db" "/data/daily" next_day daily_files) as [r fs'] eqn:E. cbn [fst snd] in H1, H2, H3.
  split; [exact H1|]. split; [exact H2|]. split; [exact H3|].
  destruct (daily_copies_are_kept _ _ _ _ _ _ _ _ (daily_example next_day (or_introl eq_refl)) daily_good E) as (_ & H & _).
  apply H; [vm_compute; reflexivity| |exact H3]. vm_compute. eauto.
Defined.

(** With a clock that was ahead and is set back, the copy just made has the
    earliest name and is the one that is removed, although the run reports it. *)
Example clock_set_back :
  let (r, fs') := DailyCopy no_patterns empty_db "/data/pgfy.db" "/data/daily" day_before daily_files in
  r = Ok "/data/daily/pgfy-20260801.db" ∧ now_at fs' "/data/daily/pgfy-20260801.db" = None.
Proof. vm_compute. split; reflexivity. Qed.

(** A snapshot written onto the database itself removes it first: the target
    is not compared with the source. *)
Example snapshot_onto_itself :
  let fs := write_all [("/data/pgfy.db", "SQLite data")] (empty_fs ["/"; "/data"]) in
  let (r, fs') := Snapshot "/data/pgfy.db" "/data/pgfy.db" fs in
  is_ok r = false ∧ data_at fs' "/data/pgfy.db" = None.
Proof. vm_compute. split; reflexivity. Qed.
