(* ===== verification/AuthStore.v ===== *)
(** * The administrator, sessions and one-time tokens
    ([internal/store/auth.go], [internal/store/store.go])

    Signing in is a sequence of short-lived tokens, each one row of
    [auth_tokens]: setup, reset, enrolment of a second factor, and a password
    step waiting for its code.  Plain tokens and random values are arguments;
    the code check ([verify]) is a function argument exactly as in the
    sources. *)

From S2P Require Import Prelude GoStrings GoTime Sha Schema Security.

Definition setupTTL : duration := 30 * Minute.
Definition resetTTL : duration := 30 * Minute.
Definition enrolTTL : duration := 10 * Minute.
Definition pendingTTL : duration := 5 * Minute.
Definition codeTries : Z := 5.
Definition sessionTTL : duration := 12 * Hour.

(** ** Tokens *)

Definition token_id (id : Z) (t : AuthToken) : bool := t_ID t =? id.
Definition token_hash (h : string) (t : AuthToken) : bool := bool_decide (t_Hash t = h).
Definition of_purpose (p : string) (t : AuthToken) : bool := bool_decide (t_Purpose t = p).
Definition unconsumed (t : AuthToken) : bool := bool_decide (t_ConsumedAt t = None).
(** [consumed_at IS NULL AND expires_at>? AND attempts<max_attempts] *)
Definition live (now : Z) (t : AuthToken) : bool :=
  unconsumed t && (now <? t_ExpiresAt t) && (t_Attempts t <? t_MaxAttempts t).

(** [DELETE] under [parent_id REFERENCES … ON DELETE SET NULL]. *)
Definition orphan (p : AuthToken → bool) (tokens : list AuthToken) (t : AuthToken) : AuthToken :=
  match t_Parent t with
  | Some id => if sql_exists (λ r, p r && token_id id r) tokens then t <| t_Parent := None |> else t
  | None => t
  end.
Definition delete_tokens (p : AuthToken → bool) (db : DB) : DB :=
  db <| db_tokens := map (orphan p (db_tokens db)) (sql_delete p (db_tokens db)) |>.

Definition issue (purpose hash : string) (ttl : duration) (max : Z) (parent : option Z) (payload : string) (now : time)
  (db : DB) : res store_error (Z * DB) :=
  let db1 := delete_tokens (λ t, t_ExpiresAt t <? unix (now - 24 * Hour)) db in
  let id := db_token_seq db1 + 1 in
  let references := match parent with None => true | Some p => sql_exists (token_id p) (db_tokens db1) end in
  let! tokens := sql_insert (token_hash hash) references
    (mkAuthToken id purpose hash (unix (now + ttl)) 0 max None parent payload (unix now)) (db_tokens db1) in
  Ok (id, db1 <| db_token_seq := id |> <| db_tokens := tokens |>).

(** One attempt is spent on a live token; the row is read back. *)
Definition usable (purpose hash : string) (now : Z) (t : AuthToken) : bool :=
  token_hash hash t && of_purpose purpose t && live now t.
Definition use (purpose hash : string) (now : time) (db : DB) : res store_error (AuthToken * DB) :=
  let p := usable purpose hash (unix now) in
  guard! sql_count p (db_tokens db) =? 1 else ErrToken in
  let db1 := db <| db_tokens := sql_update p (λ t, t <| t_Attempts := t_Attempts t + 1 |>) (db_tokens db) |> in
  match sql_find (token_hash hash) (db_tokens db1) with
  | Some t => Ok (t, db1)
  | None => Err ErrNoRows
  end.

Definition consume (id : Z) (now : time) (db : DB) : DB :=
  db <| db_tokens := sql_update (token_id id) (λ t, t <| t_ConsumedAt := Some (unix now) |>) (db_tokens db) |>.

Definition spendFailure (t : AuthToken) (now : time) (db : DB) : DB :=
  if t_MaxAttempts t <=? t_Attempts t then consume (t_ID t) now db else db.

(** ** Sessions and the administrator row *)

Definition session_hash (h : string) (s : SessionRow) : bool := bool_decide (se_Hash s = h).
Definition adminExists (db : DB) : bool := match db_admin db with Some _ => true | None => false end.

(** [DELETE FROM sessions WHERE expires_at<=? OR scope<>?] *)
Definition prune_sessions (scope : string) (now : time) (db : DB) : DB :=
  db <| db_sessions := sql_delete (λ s, (se_ExpiresAt s <=? unix now) || negb (bool_decide (se_Scope s = scope)))
          (db_sessions db) |>.
Definition insert_session (hash scope : string) (expires : Z) (db : DB) : res store_error DB :=
  let! rows := sql_insert (session_hash hash) (adminExists db) (mkSession hash scope expires) (db_sessions db) in
  Ok (db <| db_sessions := rows |>).
Definition addSession (hash scope : string) (now : time) (db : DB) : res store_error DB :=
  insert_session hash scope (unix (now + sessionTTL)) (prune_sessions scope now db).

Definition insert_admin (a : Admin) (db : DB) : res store_error DB :=
  guard! negb (adminExists db) else ErrConstraint in Ok (db <| db_admin := Some a |>).

(** A committed transaction that reports a failure ([commitThen]). *)
Definition commitThen {A} (e : store_error) (db : DB) : res store_error (res store_error A * DB) := Ok (Err e, db).

(** ** Setup *)

Definition NewSetupToken (plain : string) (now : time) (db : DB) : res store_error string * DB :=
  atomically (λ db,
    let db1 := db <| db_metadata := match db_metadata db !! "setup_lock" with
      | Some _ => db_metadata db | None => <["setup_lock" := "1"]> (db_metadata db) end |> in
    guard! negb (adminExists db1) else ErrSetup in
    guard! sql_count (λ t, of_purpose "setup" t && unconsumed t && (unix now <? t_ExpiresAt t)) (db_tokens db1) =? 0
      else ErrTokenActive in
    let! r := issue "setup" (Hash plain) setupTTL 1 None "" now db1 in
    Ok (Ok plain, r.2)) db.

Definition Setup (setupToken email passwordHash sessionHash scope : string) (now : time) (db : DB) :
  res store_error unit * DB :=
  atomically (λ db,
    match use "setup" (Hash setupToken) now db with
    | Err _ => Err ErrSetup
    | Ok (t, db1) =>
        guard! negb (adminExists db1) else ErrSetup in
        let! db2 := insert_admin (mkAdmin email passwordHash (unix now) None 0 0 0) db1 in
        let! db3 := addSession sessionHash scope now (consume (t_ID t) now db2) in
        Ok (Ok tt, db3)
    end) db.

(** ** Enrolment of a second factor *)

Record Enrolment := mkEnrolment {
  en_Kind : string;
  en_Email : string;
  en_PasswordHash : string;
  en_Binding : string;
  en_Scope : string;
  en_Secret : list Z;
}.
Record Confirmed := mkConfirmed { c_Enrolment : Enrolment; c_SecretSealed : string; c_Step : Z }.

Definition BeginEnrolment (setupToken enrolHash sealed : string) (now : time) (db : DB) : res store_error unit * DB :=
  atomically (λ db,
    match use "setup" (Hash setupToken) now db with
    | Err _ => Err ErrSetup
    | Ok (t, db1) =>
        guard! negb (adminExists db1) else ErrSetup in
        let! r := issue "enrol" enrolHash enrolTTL codeTries (Some (t_ID t)) sealed now (consume (t_ID t) now db1) in
        Ok (Ok tt, r.2)
    end) db.

Definition BeginUpgrade (enrolHash sealed : string) (now : time) (db : DB) : res store_error unit * DB :=
  atomically (λ db, let! r := issue "enrol" enrolHash enrolTTL codeTries None sealed now db in Ok (Ok tt, r.2)) db.

Definition NewResetToken (plain : string) (now : time) (db : DB) : res store_error string * DB :=
  atomically (λ db,
    guard! adminExists db else ErrSetup in
    let db1 := db <| db_tokens := sql_update (λ t, of_purpose "reset" t && unconsumed t)
      (λ t, t <| t_ConsumedAt := Some (unix now) |>) (db_tokens db) |> in
    let! r := issue "reset" (Hash plain) resetTTL 1 None "" now db1 in
    Ok (Ok plain, r.2)) db.

Definition BeginReset (resetToken enrolHash sealed : string) (now : time) (db : DB) : res store_error unit * DB :=
  atomically (λ db,
    match use "reset" (Hash resetToken) now db with
    | Err _ => Err ErrToken
    | Ok (t, db1) =>
        let! r := issue "enrol" enrolHash enrolTTL codeTries (Some (t_ID t)) sealed now (consume (t_ID t) now db1) in
        Ok (Ok tt, r.2)
    end) db.

Definition EnrolmentPayload (enrolHash : string) (now : time) (db : DB) : res store_error string :=
  match sql_find (usable "enrol" enrolHash (unix now)) (db_tokens db) with
  | Some t => Ok (t_Payload t)
  | None => Err ErrToken
  end.

(** The purpose of a token's consumed parent, or nothing. *)
Definition parent_purpose (t : AuthToken) (db : DB) : string :=
  match t_Parent t with
  | Some id =>
      match sql_find (λ r, token_id id r && negb (unconsumed r)) (db_tokens db) with
      | Some r => t_Purpose r
      | None => ""
      end
  | None => ""
  end.
(** [SELECT COALESCE(max(id),0) FROM auth_tokens WHERE purpose='reset'] *)
Definition newest_reset (db : DB) : Z :=
  fold_left (λ m t, Z.max m (t_ID t)) (sql_select (of_purpose "reset") (db_tokens db)) 0.
Definition parent_id (t : AuthToken) : Z := default 0 (t_Parent t).

(** What a confirmed enrolment does to the administrator: the new database,
    nothing when it no longer applies, or an error that rolls back. *)
Inductive applied := Applied (db : DB) | Stale | Refused (e : store_error).

Definition confirm_setup (t : AuthToken) (c : Confirmed) (now : time) (db : DB) : applied :=
  if negb (bool_decide (parent_purpose t db = "setup")) || adminExists db then Stale
  else
    match insert_admin (mkAdmin (en_Email (c_Enrolment c)) (en_PasswordHash (c_Enrolment c)) (unix now)
            (Some (c_SecretSealed c)) (c_Step c) 0 0) db with
    | Ok db1 => Applied db1
    | Err e => Refused e
    end.

Definition confirm_upgrade (c : Confirmed) (db : DB) : applied :=
  match db_admin db with
  | None => Stale
  | Some a =>
      if negb (bool_decide (Hash (a_PasswordHash a) = en_Binding (c_Enrolment c))) then Stale
      else match a_TotpSecretSealed a with
        | Some _ => Stale
        | None => Applied (db <| db_admin := Some (a <| a_TotpSecretSealed := Some (c_SecretSealed c) |>
                    <| a_TotpLastStep := c_Step c |> <| a_CodeFailures := 0 |> <| a_CodeLockedUntil := 0 |>) |>)
        end
  end.

Definition confirm_reset (t : AuthToken) (c : Confirmed) (now : time) (db : DB) : applied :=
  if negb (bool_decide (parent_purpose t db = "reset")) then Stale
  else match db_admin db with
    | None => Stale
    | Some a =>
        if negb (newest_reset db =? parent_id t) then Stale
        else if maintenance db then Refused ErrMaintenance
        else
          let db1 := db <| db_admin := Some (a <| a_PasswordHash := en_PasswordHash (c_Enrolment c) |>
            <| a_TotpSecretSealed := Some (c_SecretSealed c) |> <| a_TotpLastStep := c_Step c |>
            <| a_CodeFailures := 0 |> <| a_CodeLockedUntil := 0 |>) |> <| db_sessions := [] |> in
          let db2 := delete_tokens (λ r, (of_purpose "pending" r || of_purpose "enrol" r || of_purpose "reset" r)
            && negb (token_id (t_ID t) r) && negb (token_id (parent_id t) r)) db1 in
          Applied (db2 <| db_tokens := sql_update (λ r, of_purpose "reset" r && unconsumed r)
            (λ r, r <| t_ConsumedAt := Some (unix now) |>) (db_tokens db2) |>)
    end.

Definition confirm_kind (t : AuthToken) (c : Confirmed) (scope : string) (now : time) (db : DB) : applied :=
  let en := c_Enrolment c in
  if negb (bool_decide (en_Scope en = "")) && negb (bool_decide (en_Scope en = scope)) then Stale
  else if bool_decide (en_Kind en = "setup") then confirm_setup t c now db
  else if bool_decide (en_Kind en = "upgrade") then confirm_upgrade c db
  else if bool_decide (en_Kind en = "reset") then confirm_reset t c now db
  else Stale.

Definition dquote : string := String "034"%char "".
Definition kind_detail (kind : string) : string :=
  "{" +:+ dquote +:+ "kind" +:+ dquote +:+ ":" +:+ dquote +:+ kind +:+ dquote +:+ "}".

(** The audit row and the event of a confirmed enrolment. *)
Definition announce (kind requestID : string) (now : time) (db : DB) : DB :=
  let '(action, event, summary) :=
    if bool_decide (kind = "reset") then ("auth.reset", "admin_reset", "Administrator access was reset over SSH")
    else ("auth.second_factor", "second_factor_enrolled", "A second factor was enrolled for the administrator") in
  let db1 := audit (mkAuditEntry 0 (unix now) 1 action "" requestID (kind_detail kind)) db in
  RecordAlertEvent event (event +:+ ":" +:+ format_rfc3339 now) summary
    "If this was not you, reset access over SSH with pgfyctl reset-admin." now db1.

Definition ConfirmEnrolment (enrolHash sessionHash scope requestID : string) (now : time)
  (verify : string → res store_error Confirmed) (db : DB) : res store_error string * DB :=
  atomically (λ db,
    match use "enrol" enrolHash now db with
    | Err _ => Err ErrToken
    | Ok (t, db1) =>
        match verify (t_Payload t) with
        | Err e => commitThen e (spendFailure t now db1)
        | Ok c =>
            match confirm_kind t c scope now db1 with
            | Stale => commitThen ErrToken (consume (t_ID t) now db1)
            | Refused e => Err e
            | Applied db2 =>
                let! db3 := addSession sessionHash scope now (announce (en_Kind (c_Enrolment c)) requestID now db2) in
                let db4 := consume (t_ID t) now db3 in
                match db_admin db4 with
                | Some a => Ok (Ok (a_Email a), db4)
                | None => Err ErrNoRows
                end
            end
        end
    end) db.

(** ** The password step and its code *)

Record pendingPayload := mkPendingPayload { pp_Binding : string; pp_Scope : string }.

(** [encoding/json] on the payload of a password step. *)
Class PendingCodec := {
  marshal_pending : pendingPayload → string;
  unmarshal_pending : string → option pendingPayload;
}.
(** Text without bytes outside ASCII survives being written and read back. *)
Definition ascii_text (s : string) : bool := sforall (λ a, (nat_of_ascii a <? 128)%nat) s.
Class PendingCodecLaws (pc : PendingCodec) : Prop :=
  pending_roundtrip p : ascii_text (pp_Binding p) = true → ascii_text (pp_Scope p) = true →
    unmarshal_pending (marshal_pending p) = Some p.

Definition has_factor (a : Admin) : bool :=
  match a_TotpSecretSealed a with Some s => negb (bool_decide (s = "")) | None => false end.

(** Whether a second factor is set, and the current password hash. *)
Definition Factor (db : DB) : res store_error (bool * string) :=
  match db_admin db with
  | Some a => Ok (has_factor a, a_PasswordHash a)
  | None => Err ErrNoRows
  end.

(** A signed 64-bit integer. *)
Definition int64 (x : Z) : Z := (x + 2 ^ 63) mod 2 ^ 64 - 2 ^ 63.

(** How long codes stay locked after a failure count that is a multiple of five. *)
Definition lockout (failures : Z) : duration :=
  let lock := int64 (Z.shiftl Minute (failures / 5 - 1)) in
  if (7 <? failures / 5) || (Hour <? lock) then Hour else lock.

(** The failure count, and the end of the lock it starts if any. *)
Definition note_wrong_code (a : Admin) (now : time) (db : DB) : DB :=
  let failures := a_CodeFailures a + 1 in
  let locked := if failures mod 5 =? 0 then unix (now + lockout failures) else 0 in
  let db1 := db <| db_admin := Some (a <| a_CodeFailures := failures |>
    <| a_CodeLockedUntil := if 0 <? locked then locked else a_CodeLockedUntil a |>) |> in
  if failures mod 10 =? 0 then
    RecordAlertEvent "second_factor_failures" ("second_factor_failures:" +:+ format_rfc3339 now)
      "Repeated wrong sign-in codes"
      "Someone who knows the administrator password entered many wrong codes. If it was not you, change the password with pgfyctl reset-admin."
      now db1
  else db1.

Section pending.
Context {pc : PendingCodec}.

Definition BeginPending (pendingHash passwordHash scope : string) (now : time) (db : DB) : res store_error unit * DB :=
  atomically (λ db,
    let payload := marshal_pending (mkPendingPayload (Hash passwordHash) scope) in
    let! r := issue "pending" pendingHash pendingTTL codeTries None payload now db in
    Ok (Ok tt, r.2)) db.

(** The password step still describes the administrator. *)
Definition bound (t : AuthToken) (a : Admin) (scope : string) : bool :=
  match unmarshal_pending (t_Payload t) with
  | Some p => bool_decide (pp_Binding p = Hash (a_PasswordHash a)) && bool_decide (pp_Scope p = scope)
  | None => false
  end.

Definition ConfirmPending (pendingHash sessionHash scope : string) (now : time)
  (verify : string → Z → res store_error Z) (db : DB) : res store_error string * DB :=
  atomically (λ db,
    match db_admin db with
    | None => Err ErrToken
    | Some a =>
        guard! negb (unix now <? a_CodeLockedUntil a) else ErrCodeLocked (a_CodeLockedUntil a - unix now) in
        match use "pending" pendingHash now db with
        | Err _ => Err ErrToken
        | Ok (t, db1) =>
            match bound t a scope, a_TotpSecretSealed a with
            | true, Some secret =>
                match verify secret (a_TotpLastStep a) with
                | Err e =>
                    let db2 := spendFailure t now db1 in
                    commitThen e (if bool_decide (e = ErrCode) then note_wrong_code a now db2 else db2)
                | Ok step =>
                    if negb (a_TotpLastStep a <? step) then commitThen ErrCodeReused db1
                    else
                      let db2 := db1 <| db_admin := Some (a <| a_TotpLastStep := step |> <| a_CodeFailures := 0 |>
                        <| a_CodeLockedUntil := 0 |>) |> in
                      let! db3 := addSession sessionHash scope now db2 in
                      Ok (Ok (a_Email a), consume (t_ID t) now db3)
                end
            | _, _ => commitThen ErrToken (consume (t_ID t) now db1)
            end
        end
    end) db.
End pending.

(** An unfinished step is given up. *)
Definition Abandon (hash : string) (now : time) (db : DB) : DB :=
  db <| db_tokens := sql_update (λ t, token_hash hash t && (of_purpose "pending" t || of_purpose "enrol" t) && unconsumed t)
          (λ t, t <| t_ConsumedAt := Some (unix now) |>) (db_tokens db) |>.

Definition EnrolmentUsable (enrolHash kind : string) (db : DB) : bool :=
  match sql_find (token_hash enrolHash) (db_tokens db) with
  | None => false
  | Some t =>
      if bool_decide (kind = "setup") then negb (adminExists db)
      else if bool_decide (kind = "reset") then
        adminExists db && match t_Parent t with Some p => newest_reset db =? p | None => false end
      else true
  end.

Definition AdminEmail (db : DB) : res store_error string :=
  match db_admin db with Some a => Ok (a_Email a) | None => Err ErrNoRows end.

(** ** Sessions ([store.go]) *)

Definition SetupAvailable (db : DB) : bool := negb (adminExists db).

Definition PasswordOf (email : string) (db : DB) : res store_error string :=
  match db_admin db with
  | Some a => if bool_decide (a_Email a = email) then Ok (a_PasswordHash a) else Err ErrNoRows
  | None => Err ErrNoRows
  end.

Definition AddSession (token scope passwordHash : string) (now : time) (db : DB) : res store_error unit * DB :=
  atomically (λ db,
    match db_admin db with
    | None => Err ErrNoRows
    | Some a =>
        guard! bool_decide (a_PasswordHash a = passwordHash) && negb (has_factor a) else ErrCredentialsChanged in
        let! db1 := insert_session (Hash token) scope (unix (now + 12 * Hour)) (prune_sessions scope now db) in
        Ok (Ok tt, db1)
    end) db.

Record Session := mkSessionView { sn_Email : string; sn_ExpiresAt : Z; sn_CSRF : string; sn_ClientIP : string }.
#[export] Instance eta_Session : Eta Session := λ r, mkSessionView (sn_Email r) (sn_ExpiresAt r) (sn_CSRF r) (sn_ClientIP r).

Definition valid_session (hash scope : string) (now : Z) (s : SessionRow) : bool :=
  session_hash hash s && bool_decide (se_Scope s = scope) && (now <? se_ExpiresAt s).
Definition ReadSession (token scope : string) (now : time) (db : DB) : res store_error Session :=
  match sql_find (valid_session (Hash token) scope (unix now)) (db_sessions db), db_admin db with
  | Some s, Some a => Ok (mkSessionView (a_Email a) (se_ExpiresAt s) "" "")
  | _, _ => Err ErrNoRows
  end.

Definition Logout (token : string) (db : DB) : DB :=
  db <| db_sessions := sql_delete (session_hash (Hash token)) (db_sessions db) |>.

(** ** The database file's identity *)

Definition Check (db : DB) : DB := db <| db_metadata := <["health" := "ok"]> (db_metadata db) |>.

(** [INSERT OR IGNORE], then compared with what is stored. *)
Definition Bind (id : string) (db : DB) : res store_error unit * DB :=
  let db1 := db <| db_metadata := match db_metadata db !! "installation_id" with
    | Some _ => db_metadata db | None => <["installation_id" := id]> (db_metadata db) end |> in
  (match db_metadata db1 !! "installation_id" with
   | Some got => if bool_decide (got = id) then Ok tt else Err (ErrInvalid "installation identity mismatch")
   | None => Err ErrNoRows
   end, db1).
