(* ===== verification/AuthSteps.v ===== *)
(** * Sequences of sign-in operations

    Every operation of [AuthStore] that writes is a constructor of
    [auth_op]; [run_auth] executes a sequence of them, each at its own time,
    with any arguments and any code check.  The theorems hold for every such
    sequence, failed operations included. *)

From S2P Require Import Prelude GoStrings GoTime Sha Schema Security AuthStore.

Inductive auth_op :=
| ANewSetupToken (plain : string)
| ASetup (token email passwordHash sessionHash scope : string)
| ABeginEnrolment (token enrolHash sealed : string)
| ABeginUpgrade (enrolHash sealed : string)
| ANewResetToken (plain : string)
| ABeginReset (token enrolHash sealed : string)
| AConfirmEnrolment (enrolHash sessionHash scope requestID : string) (verify : string → res store_error Confirmed)
| ABeginPending (pendingHash passwordHash scope : string)
| AConfirmPending (pendingHash sessionHash scope : string) (verify : string → Z → res store_error Z)
| AAbandon (hash : string)
| AAddSession (token scope passwordHash : string)
| ALogout (token : string)
| AMaintenance (on : bool)
| AOther (f : DB → DB).

(** What the operations of other components leave alone. *)
Definition auth_frame (f : DB → DB) : Prop := ∀ db,
  db_tokens (f db) = db_tokens db ∧ db_token_seq (f db) = db_token_seq db ∧
  db_sessions (f db) = db_sessions db ∧ db_admin (f db) = db_admin db.
Definition legal (o : auth_op) : Prop := match o with AOther f => auth_frame f | _ => True end.

(** Whether the operation succeeded, and the database it leaves. *)
Definition auth_step {pc : PendingCodec} (now : time) (o : auth_op) (db : DB) : option store_error * DB :=
  let outcome {A} (r : res store_error A * DB) := (match r.1 with Ok _ => None | Err e => Some e end, r.2) in
  match o with
  | ANewSetupToken plain => outcome (NewSetupToken plain now db)
  | ASetup token email ph sh scope => outcome (Setup token email ph sh scope now db)
  | ABeginEnrolment token eh sealed => outcome (BeginEnrolment token eh sealed now db)
  | ABeginUpgrade eh sealed => outcome (BeginUpgrade eh sealed now db)
  | ANewResetToken plain => outcome (NewResetToken plain now db)
  | ABeginReset token eh sealed => outcome (BeginReset token eh sealed now db)
  | AConfirmEnrolment eh sh scope rid verify => outcome (ConfirmEnrolment eh sh scope rid now verify db)
  | ABeginPending h ph scope => outcome (BeginPending h ph scope now db)
  | AConfirmPending h sh scope verify => outcome (ConfirmPending h sh scope now verify db)
  | AAbandon h => (None, Abandon h now db)
  | AAddSession token scope ph => outcome (AddSession token scope ph now db)
  | ALogout token => (None, Logout token db)
  | AMaintenance on => (None, SetMaintenance on db)
  | AOther f => (None, f db)
  end.

Fixpoint run_auth {pc : PendingCodec} (ops : list (time * auth_op)) (db : DB) : DB :=
  match ops with
  | [] => db
  | (now, o) :: ops => run_auth ops (auth_step now o db).2
  end.

(** ** Small steps

    Every operation is a sequence of these writes.  [prim now issued ids] says
    which hashes may be issued. *)

Inductive prim (now : time) (issued : list string) : DB → DB → Prop :=
| prim_frame db db' :
    db_tokens db' = db_tokens db → db_token_seq db' = db_token_seq db →
    db_sessions db' = db_sessions db → db_admin db' = db_admin db → prim now issued db db'
| prim_delete p db : prim now issued db (delete_tokens p db)
| prim_use purpose hash t db db' : use purpose hash now db = Ok (t, db') → prim now issued db db'
| prim_consume p db :
    prim now issued db (db <| db_tokens := sql_update p (λ t, t <| t_ConsumedAt := Some (unix now) |>) (db_tokens db) |>)
| prim_issue purpose hash ttl max parent payload id db db' :
    In hash issued → 0 ≤ max →
    (purpose = "reset" → ∀ t, In t (db_tokens db) → of_purpose "reset" t && unconsumed t = false) →
    issue purpose hash ttl max parent payload now db = Ok (id, db') → prim now issued db db'
| prim_sessions p db : prim now issued db (db <| db_sessions := sql_delete p (db_sessions db) |>)
| prim_session hash scope expires db db' : insert_session hash scope expires db = Ok db' → prim now issued db db'
| prim_admin a db : 0 ≤ a_CodeFailures a →  prim now issued db (db <| db_admin := Some a |>).

(** The hashes an operation may put into the table. *)
Definition issued_by (o : auth_op) : list string :=
  match o with
  | ANewSetupToken plain | ANewResetToken plain => [Hash plain]
  | ABeginEnrolment _ h _ | ABeginUpgrade h _ | ABeginReset _ h _ | ABeginPending h _ _ => [h]
  | _ => []
  end.

Definition auth_failures_ok (db : DB) : Prop := ∀ a, db_admin db = Some a → 0 ≤ a_CodeFailures a.

Section prims.
Context {pc : PendingCodec} (now : time).
Implicit Types (issued : list string) (db : DB).

Lemma one_prim issued db db' : prim now issued db db' → rtc (prim now issued) db db'.
Proof. apply rtc_once. Qed.
Lemma then_prim issued db db1 db' : rtc (prim now issued) db db1 → prim now issued db1 db' → rtc (prim now issued) db db'.
Proof. apply rtc_r. Qed.

Lemma consume_prim issued id db : prim now issued db (consume id now db).
Proof. apply prim_consume. Qed.
Lemma spendFailure_prims issued t db : rtc (prim now issued) db (spendFailure t now db).
Proof. unfold spendFailure. destruct (_ <=? _); [apply one_prim, consume_prim|done]. Qed.
Lemma addSession_prims issued h scope db db' : addSession h scope now db = Ok db' → rtc (prim now issued) db db'.
Proof.
  intros E. unfold addSession in E. eapply then_prim; [eapply one_prim, prim_sessions|]. eapply prim_session. exact E.
Qed.
Lemma announce_prim issued kind rid db : prim now issued db (announce kind rid now db).
Proof. unfold announce. destruct (bool_decide _); by apply prim_frame. Qed.
Lemma note_wrong_code_prims issued a db :
  0 ≤ a_CodeFailures a → rtc (prim now issued) db (note_wrong_code a now db).
Proof.
  intros H. unfold note_wrong_code. cbv zeta.
  assert (∀ l, prim now issued db (db <| db_admin := Some (a <| a_CodeFailures := a_CodeFailures a + 1 |> <| a_CodeLockedUntil := l |>) |>)) as Hp.
  { intros l. apply prim_admin. simpl. lia. }
  destruct (_ mod 10 =? 0); [|apply one_prim, Hp].
  eapply then_prim; [apply one_prim, Hp|]. by apply prim_frame.
Qed.

Lemma insert_admin_prim issued a db db' : 0 ≤ a_CodeFailures a → insert_admin a db = Ok db' → prim now issued db db'.
Proof. unfold insert_admin. intros H. destruct (negb _); [|done]. intros [= <-]. by apply prim_admin. Qed.

Lemma confirm_kind_prims issued t c scope db db' :
  confirm_kind t c scope now db = Applied db' → rtc (prim now issued) db db'.
Proof.
  unfold confirm_kind. destruct (_ && _); [done|]. destruct (bool_decide (_ = "setup")).
  { unfold confirm_setup. destruct (_ || _); [done|]. destruct (insert_admin _ db) eqn:E; [|done].
    intros [= <-]. eapply one_prim, insert_admin_prim; [|done]. simpl. lia. }
  destruct (bool_decide (_ = "upgrade")).
  { unfold confirm_upgrade. destruct (db_admin db) as [a|]; [|done]. destruct (negb _); [done|].
    destruct (a_TotpSecretSealed a); [done|]. intros [= <-]. apply one_prim, prim_admin. simpl. lia. }
  destruct (bool_decide (_ = "reset")); [|done].
  unfold confirm_reset. destruct (negb (bool_decide (parent_purpose _ _ = _))); [done|].
  destruct (db_admin db) as [a|]; [|done]. destruct (negb (_ =? _)); [done|]. destruct (maintenance db); [done|].
  intros [= <-].
  assert (∀ a', 0 ≤ a_CodeFailures a' →
    rtc (prim now issued) db (db <| db_admin := Some a' |> <| db_sessions := [] |>)) as Hs.
  { intros a' Ha. eapply then_prim; [apply one_prim, (prim_admin _ _ a'), Ha|]. set (d := db <| db_admin := _ |>).
    pose proof (prim_sessions now issued (λ _, true) d) as H.
    assert (sql_delete (λ _, true) (db_sessions d) = []) as E by (unfold sql_delete; induction (db_sessions d); auto).
    by rewrite E in H. }
  eapply then_prim; [|apply prim_consume]. eapply then_prim; [|apply prim_delete]. apply Hs. simpl. lia.
Qed.

(** Each operation is a sequence of writes. *)
Lemma auth_step_prims o db :
  legal o → auth_failures_ok db → rtc (prim now (issued_by o)) db (auth_step now o db).2.
Proof.
  intros Hl Hf. destruct o; cbn [auth_step issued_by snd].
  - unfold NewSetupToken, atomically. cbv zeta. destruct (negb _); [|done]. destruct (_ =? 0); [|done].
    match goal with |- context [issue ?a ?b ?c ?d ?e ?f ?g ?h] => destruct (issue a b c d e f g h) as [[id db']|] eqn:E; [|done] end.
    cbn. eapply then_prim; [|eapply prim_issue; [| | |exact E]; [by left|lia|done]]. by apply one_prim, prim_frame.
  - unfold Setup, atomically. destruct (use _ _ _ _) as [[t db1]|] eqn:Eu; [|done]. destruct (negb _); [|done].
    destruct (insert_admin _ _) as [db2|] eqn:Ei; [|done]. cbn [rbind].
    destruct (addSession _ _ _ _) as [db3|] eqn:Es; [|done]. cbn.
    eapply rtc_l; [by eapply prim_use|]. eapply rtc_l; [eapply insert_admin_prim; [|done]; simpl; lia|].
    eapply rtc_l; [apply consume_prim|]. by eapply addSession_prims.
  - unfold BeginEnrolment, atomically. destruct (use _ _ _ _) as [[t db1]|] eqn:Eu; [|done]. destruct (negb _); [|done].
    destruct (issue _ _ _ _ _ _ _ _) as [[id db']|] eqn:E; [|done]. cbn.
    eapply rtc_l; [by eapply prim_use|]. eapply rtc_l; [apply consume_prim|].
    eapply one_prim, prim_issue; [| | |exact E]; [by left|unfold codeTries; lia|done].
  - unfold BeginUpgrade, atomically. destruct (issue _ _ _ _ _ _ _ _) as [[id db']|] eqn:E; [|done]. cbn.
    eapply one_prim, prim_issue; [| | |exact E]; [by left|unfold codeTries; lia|done].
  - unfold NewResetToken, atomically. destruct (adminExists db); [|done]. cbv zeta.
    match goal with |- context [issue ?a ?b ?c ?d ?e ?f ?g ?h] => destruct (issue a b c d e f g h) as [[id db']|] eqn:E; [|done] end.
    cbn. eapply rtc_l; [apply (prim_consume _ _ (λ t, of_purpose "reset" t && unconsumed t))|].
    eapply one_prim, prim_issue; [| | |exact E]; [by left|lia|]. intros _ t (r & Hr & ->)%in_sql_update.
    destruct (of_purpose "reset" r && unconsumed r) eqn:Er; [|done]. unfold unconsumed. cbn.
    by rewrite andb_false_r.
  - unfold BeginReset, atomically. destruct (use _ _ _ _) as [[t db1]|] eqn:Eu; [|done].
    destruct (issue _ _ _ _ _ _ _ _) as [[id db']|] eqn:E; [|done]. cbn.
    eapply rtc_l; [by eapply prim_use|]. eapply rtc_l; [apply consume_prim|].
    eapply one_prim, prim_issue; [| | |exact E]; [by left|unfold codeTries; lia|done].
  - unfold ConfirmEnrolment, atomically. destruct (use _ _ _ _) as [[t db1]|] eqn:Eu; [|done].
    destruct (verify (t_Payload t)) as [c|e]; cbn.
    2: { eapply rtc_l; [by eapply prim_use|]. apply spendFailure_prims. }
    destruct (confirm_kind _ _ _ _ _) as [db2| |e] eqn:Ek; cbn; [| |done].
    2: { eapply rtc_l; [by eapply prim_use|]. apply one_prim, consume_prim. }
    destruct (addSession _ _ _ _) as [db3|] eqn:Es; [|done]. cbn.
    destruct (db_admin db3) eqn:Ea; [|done]. cbn.
    eapply rtc_l; [by eapply prim_use|]. etrans; [by eapply confirm_kind_prims|].
    eapply rtc_l; [apply announce_prim|]. etrans; [by eapply addSession_prims|]. apply one_prim, consume_prim.
  - unfold BeginPending, atomically. destruct (issue _ _ _ _ _ _ _ _) as [[id db']|] eqn:E; [|done]. cbn.
    eapply one_prim, prim_issue; [| | |exact E]; [by left|unfold codeTries; lia|done].
  - unfold ConfirmPending, atomically. destruct (db_admin db) as [a|] eqn:Ea; [|done]. destruct (negb _); [|done].
    destruct (use _ _ _ _) as [[t db1]|] eqn:Eu; [|done].
    assert (prim now [] db db1) as Hu by by eapply prim_use.
    destruct (bound t a scope), (a_TotpSecretSealed a) as [secret|]; cbn;
      try (eapply rtc_l; [exact Hu|]; apply one_prim, consume_prim).
    destruct (verify secret _) as [step|e]; cbn.
    2: { eapply rtc_l; [exact Hu|]. etrans; [apply spendFailure_prims|]. destruct (bool_decide _); [|done]. by apply note_wrong_code_prims, Hf. }
    destruct (negb _); [by apply one_prim|]. cbn.
    destruct (addSession _ _ _ _) as [db3|] eqn:Es; [|done]. cbn. eapply rtc_l; [exact Hu|].
    eapply rtc_l; [apply prim_admin|]; [|etrans; [by eapply addSession_prims|]; apply one_prim, consume_prim]. simpl. lia.
  - apply one_prim, prim_consume.
  - unfold AddSession, atomically. destruct (db_admin db) as [a|]; [|done]. destruct (_ && _); [|done].
    destruct (insert_session _ _ _ _) as [db1|] eqn:E; [|done]. cbn.
    eapply rtc_l; [apply prim_sessions|]. by eapply one_prim, prim_session.
  - apply one_prim, prim_sessions.
  - destruct on; apply one_prim, prim_frame; done.
  - destruct (Hl db) as (? & ? & ? & ?). apply one_prim, prim_frame; done.
Qed.
End prims.

(** ** A token only ever grows older *)

Record evolves (t t' : AuthToken) : Prop := {
  ev_id : t_ID t' = t_ID t;
  ev_purpose : t_Purpose t' = t_Purpose t;
  ev_hash : t_Hash t' = t_Hash t;
  ev_expires : t_ExpiresAt t' = t_ExpiresAt t;
  ev_max : t_MaxAttempts t' = t_MaxAttempts t;
  ev_payload : t_Payload t' = t_Payload t;
  ev_attempts : t_Attempts t ≤ t_Attempts t' ∧ (t_Attempts t' = t_Attempts t ∨ t_Attempts t' ≤ t_MaxAttempts t);
  ev_consumed : unconsumed t' = true → unconsumed t = true;
  ev_parent : t_Parent t' = t_Parent t ∨ t_Parent t' = None;
}.

#[export] Instance evolves_preorder : PreOrder evolves.
Proof.
  split; [split; auto with lia|]. intros a b c [] []. split; try congruence; auto.
  - lia.
  - destruct ev_parent0, ev_parent1; auto; (left; congruence) || (right; congruence).
Qed.

Lemma live_evolves t t' now now' : evolves t t' → now ≤ now' → live now' t' = true → live now t = true.
Proof.
  intros [] Hn. unfold live. rewrite ev_expires0, ev_max0. intros H. bool_simpl.
  rewrite ev_consumed0 by done. bool_simpl. simpl. apply andb_true_iff. split; lia.
Qed.

Definition grows (issued : list string) (l l' : list AuthToken) : Prop :=
  ∀ t', In t' l' → (∃ t, In t l ∧ evolves t t') ∨ In (t_Hash t') issued.

#[export] Instance grows_preorder issued : PreOrder (grows issued).
Proof.
  split.
  - intros l t Ht. left. exists t. split; [done|reflexivity].
  - intros l1 l2 l3 H12 H23 t3 H3. destruct (H23 _ H3) as [(t2 & H2 & E23)|]; [|by right].
    destruct (H12 _ H2) as [(t1 & H1 & E12)|]; [left; exists t1; split; [done|by etrans]|].
    right. by rewrite (ev_hash _ _ E23).
Qed.

Lemma orphan_evolves p l t : evolves t (orphan p l t).
Proof.
  unfold orphan. destruct (t_Parent t) eqn:E; [|reflexivity]. destruct (sql_exists _ _); [|reflexivity].
  split; simpl; auto; lia.
Qed.
Lemma consumed_evolves t n : evolves t (t <| t_ConsumedAt := Some n |>).
Proof. split; simpl; auto; lia || done. Qed.

Lemma use_grows issued purpose hash now t db db' :
  use purpose hash now db = Ok (t, db') → grows issued (db_tokens db) (db_tokens db').
Proof.
  unfold use. destruct (_ =? 1); [|done]. cbn [rbind].
  destruct (sql_find _ _); [|done]. intros [= _ <-] t' (r & Hr & ->)%in_sql_update. left. exists r. split; [done|].
  destruct (usable _ _ _ r) eqn:E; [|reflexivity]. unfold usable, live in E. bool_simpl.
  split; simpl; auto; lia.
Qed.

Lemma issue_tokens purpose hash ttl max parent payload now id db db' :
  issue purpose hash ttl max parent payload now db = Ok (id, db') →
  let db1 := delete_tokens (λ t, t_ExpiresAt t <? unix (now - 24 * Hour)) db in
  id = db_token_seq db + 1 ∧
  db' = db1 <| db_token_seq := id |> <| db_tokens := db_tokens db1 ++
    [mkAuthToken id purpose hash (unix (now + ttl)) 0 max None parent payload (unix now)] |> ∧
  (∀ t, In t (db_tokens db1) → t_Hash t ≠ hash) ∧
  (∀ p, parent = Some p → ∃ r, In r (db_tokens db1) ∧ t_ID r = p).
Proof.
  unfold issue. cbv zeta. destruct (sql_insert _ _ _ _) as [l|] eqn:E; [|done]. cbn [rbind]. intros [= <- <-].
  apply sql_insert_ok in E as (-> & Hr & Hc). split_and!; [done|done| |].
  - intros t Ht. specialize (Hc t Ht). unfold token_hash in Hc. by bool_simpl.
  - intros p ->. apply sql_exists_true in Hr as (r & Hin & Hid). unfold token_id in Hid. bool_simpl. eauto.
Qed.

Lemma delete_grows issued p db : grows issued (db_tokens db) (db_tokens (delete_tokens p db)).
Proof.
  intros t' (t & <- & [Ht _]%in_sql_delete)%in_map_iff. left. exists t. split; [done|apply orphan_evolves].
Qed.

Lemma prim_grows now issued db db' : prim now issued db db' → grows issued (db_tokens db) (db_tokens db').
Proof.
  destruct 1 as [db db' E _ _ _|p db|purpose hash t db db' E|p db|purpose hash ttl max parent payload id db db' Hi _ _ E
    |p db|hash scope expires db db' E|a db _].
  - rewrite E. reflexivity.
  - apply delete_grows.
  - by eapply use_grows.
  - intros t' (t & Ht & ->)%in_sql_update. left. exists t. split; [done|].
    destruct (p t); [apply consumed_evolves|reflexivity].
  - apply issue_tokens in E as (_ & -> & _). intros t' [Ht|[<-|[]]]%in_app_iff; [|by right]. by eapply delete_grows.
  - reflexivity.
  - unfold insert_session in E. destruct (sql_insert _ _ _ _); [|done]. injection E as <-. reflexivity.
  - reflexivity.
Qed.

Lemma prims_grow now issued db db' : rtc (prim now issued) db db' → grows issued (db_tokens db) (db_tokens db').
Proof. induction 1; [reflexivity|]. etrans; [by eapply prim_grows|done]. Qed.

(** ** Well-formed tables *)

Definition open_reset (t : AuthToken) : bool := of_purpose "reset" t && unconsumed t.

Record auth_wf (db : DB) : Prop := {
  wf_ids : NoDup (map t_ID (db_tokens db));
  wf_hashes : NoDup (map t_Hash (db_tokens db));
  wf_seq t : In t (db_tokens db) → t_ID t ≤ db_token_seq db;
  wf_attempts t : In t (db_tokens db) → 0 ≤ t_Attempts t ≤ t_MaxAttempts t;
  wf_parents t p : In t (db_tokens db) → t_Parent t = Some p → ∃ r, In r (db_tokens db) ∧ t_ID r = p;
  wf_resets : sql_count open_reset (db_tokens db) ≤ 1;
  wf_sessions : NoDup (map se_Hash (db_sessions db));
  wf_owner : db_sessions db ≠ [] → adminExists db = true;
  wf_failures : auth_failures_ok db;
}.

Lemma map_key_orphan {K} (key : AuthToken → K) p l0 l :
  (∀ t, key (orphan p l0 t) = key t) → map key (map (orphan p l0) l) = map key l.
Proof. intros H. rewrite List.map_map. by apply map_ext. Qed.
Lemma orphan_id p l t : t_ID (orphan p l t) = t_ID t.
Proof. apply (ev_id _ _ (orphan_evolves p l t)). Qed.
Lemma orphan_hash p l t : t_Hash (orphan p l t) = t_Hash t.
Proof. apply (ev_hash _ _ (orphan_evolves p l t)). Qed.

Lemma sql_count_map q (f : AuthToken → AuthToken) l : (∀ t, q (f t) = q t) → sql_count q (map f l) = sql_count q l.
Proof.
  intros H. induction l as [|t l IH]; [done|]. cbn [map]. by rewrite !sql_count_cons, IH, H.
Qed.

Lemma delete_tokens_wf p db : auth_wf db → auth_wf (delete_tokens p db).
Proof.
  intros []. split; unfold delete_tokens; cbn [db_tokens db_token_seq db_sessions db_admin upd]; auto.
  - rewrite map_key_orphan by apply orphan_id. by apply NoDup_map_sql_delete.
  - rewrite map_key_orphan by apply orphan_hash. by apply NoDup_map_sql_delete.
  - intros t' (t & <- & [Ht _]%in_sql_delete)%in_map_iff. rewrite orphan_id. by apply wf_seq0.
  - intros t' (t & <- & [Ht _]%in_sql_delete)%in_map_iff.
    destruct (orphan_evolves p (db_tokens db) t). rewrite ev_max0. specialize (wf_attempts0 t Ht). lia.
  - intros t' q (t & <- & [Ht _]%in_sql_delete)%in_map_iff. unfold orphan.
    destruct (t_Parent t) as [q'|] eqn:Ep; [|congruence].
    destruct (sql_exists _ _) eqn:Ex; [done|]. rewrite Ep. intros [= ->].
    destruct (wf_parents0 t q Ht Ep) as (r & Hr & Hid). rewrite sql_exists_false in Ex. specialize (Ex r Hr).
    unfold token_id in Ex. rewrite Hid, Z.eqb_refl, andb_true_r in Ex.
    exists (orphan p (db_tokens db) r). rewrite orphan_id. split; [|done]. apply in_map, in_sql_delete. auto.
  - rewrite sql_count_map; [by etrans; [apply sql_count_delete_le|]|].
    intros t. unfold open_reset, of_purpose, unconsumed, orphan. destruct (t_Parent t); [|done].
    by destruct (sql_exists _ _).
Qed.

(** An update that keeps keys and parents, and spends at most what is left. *)
Lemma update_tokens_wf p f db :
  (∀ t, p t = true → evolves t (f t) ∧ t_Parent (f t) = t_Parent t ∧
    (t_Attempts t ≤ t_MaxAttempts t → t_Attempts (f t) ≤ t_MaxAttempts t)) →
  auth_wf db → auth_wf (db <| db_tokens := sql_update p f (db_tokens db) |>).
Proof.
  intros Hf []. split; cbn [db_tokens db_token_seq db_sessions db_admin upd]; auto.
  - rewrite (map_sql_update t_ID); [done|]. intros t Ht Hp. apply Hf, Hp.
  - rewrite (map_sql_update t_Hash); [done|]. intros t Ht Hp. apply Hf, Hp.
  - intros t' (t & Ht & ->)%in_sql_update. destruct (p t) eqn:E; [|by apply wf_seq0].
    rewrite (ev_id _ _ (proj1 (Hf t E))). by apply wf_seq0.
  - intros t' (t & Ht & ->)%in_sql_update. specialize (wf_attempts0 t Ht). destruct (p t) eqn:E; [|done].
    destruct (Hf t E) as ([] & _ & H). rewrite ev_max0. lia.
  - intros t' q (t & Ht & ->)%in_sql_update. intros Hq.
    destruct (wf_parents0 t q Ht) as (r & Hr & Hid).
    { destruct (p t) eqn:E; [|done]. rewrite <- Hq. symmetry. apply (Hf t E). }
    exists (if p r then f r else r). split; [apply in_sql_update; eauto|].
    destruct (p r) eqn:E; [|done]. by rewrite (ev_id _ _ (proj1 (Hf r E))).
  - etrans; [|exact wf_resets0]. apply sql_count_update_le. intros t Ht E.
    destruct (Hf t E) as ([] & _). unfold open_reset, of_purpose. rewrite ev_purpose0. intros Ho. bool_simpl.
    apply andb_true_iff. split; [by apply bool_decide_eq_true|auto].
Qed.

Lemma issue_wf purpose hash ttl max parent payload now id db db' :
  0 ≤ max → (purpose = "reset" → ∀ t, In t (db_tokens db) → open_reset t = false) →
  issue purpose hash ttl max parent payload now db = Ok (id, db') → auth_wf db → auth_wf db'.
Proof.
  intros Hm Hr (Hid & -> & Hh & Hp)%issue_tokens Hwf. cbv zeta in *.
  set (old := λ t, t_ExpiresAt t <? unix (now - 24 * Hour)) in *.
  pose proof (delete_tokens_wf old db Hwf) as [].
  change (db_token_seq (delete_tokens old db)) with (db_token_seq db) in wf_seq0.
  change (db_admin (delete_tokens old db)) with (db_admin db) in *.
  split; cbn [db_tokens db_token_seq db_sessions db_admin upd]; auto.
  - apply NoDup_map_snoc; [done|]. cbn. intros t Ht. specialize (wf_seq0 t Ht). lia.
  - apply NoDup_map_snoc; [done|]. cbn. intros t Ht. by apply Hh.
  - intros t [Ht|[<-|[]]]%in_app_iff; [specialize (wf_seq0 t Ht); lia|]. cbn. lia.
  - intros t [Ht|[<-|[]]]%in_app_iff; [auto|]. cbn. lia.
  - intros t p [Ht|[<-|[]]]%in_app_iff Ep.
    + destruct (wf_parents0 t p Ht Ep) as (r & Hin & Hid'). exists r. split; [by apply in_app_iff; left|done].
    + cbn in Ep. destruct (Hp p Ep) as (r & Hin & Hid'). exists r. split; [by apply in_app_iff; left|done].
  - rewrite sql_count_app, sql_count_one.
    assert (∀ i h e m q y c, open_reset (mkAuthToken i purpose h e 0 m None q y c) = bool_decide (purpose = "reset")) as ->
      by (intros; apply andb_true_r).
    case_bool_decide as E; [|lia]. enough (sql_count open_reset (db_tokens (delete_tokens old db)) = 0) by lia.
    apply sql_count_zero. intros t' Ht'. destruct (delete_grows [] old db t' Ht') as [(t & Ht & [])|[]].
    specialize (Hr E t Ht). unfold open_reset, of_purpose in *. rewrite ev_purpose0.
    destruct (unconsumed t') eqn:Eu; [|by rewrite andb_false_r]. rewrite ev_consumed0 in Hr by done. done.
Qed.

Lemma prim_wf now issued db db' : prim now issued db db' → auth_wf db → auth_wf db'.
Proof.
  destruct 1 as [db db' E1 E2 E3 E4|p db|purpose hash t db db' E|p db|purpose hash ttl max parent payload id db db' Hi Hm Hr E
    |p db|hash scope expires db db' E|a db Ha]; intros Hwf.
  - destruct Hwf. split; unfold auth_failures_ok, adminExists in *; rewrite ?E1, ?E2, ?E3, ?E4; auto.
  - by apply delete_tokens_wf.
  - unfold use in E. destruct (_ =? 1); [|done]. cbn [rbind] in E.
    destruct (sql_find _ _); [|done]. injection E as _ <-. apply update_tokens_wf; [|done].
    intros r Hr. unfold usable, live in Hr. bool_simpl. split; [split; simpl; auto; lia|]. split; [done|simpl; lia].
  - apply update_tokens_wf; [|done]. intros r _. split; [apply consumed_evolves|]. split; [done|simpl; lia].
  - by eapply issue_wf.
  - destruct Hwf. split; auto; cbn [db_sessions upd].
    + by apply NoDup_map_sql_delete.
    + intros Hn. apply wf_owner0. intros Es. apply Hn. by rewrite Es.
  - unfold insert_session in E. destruct (sql_insert _ _ _ _) as [l|] eqn:Ei; [|done]. injection E as <-.
    apply sql_insert_ok in Ei as (-> & Ha & Hc). destruct Hwf. split; auto; cbn [db_sessions upd].
    apply NoDup_map_snoc; [done|]. intros s Hs. specialize (Hc s Hs). unfold session_hash in Hc. bool_simpl. done.
  - destruct Hwf. split; auto. intros a' [= <-]. done.
Qed.

Lemma prims_wf now issued db db' : rtc (prim now issued) db db' → auth_wf db → auth_wf db'.
Proof. induction 1; [done|]. intros H'. by apply IHrtc, (prim_wf now issued x). Qed.

Lemma auth_step_wf {pc : PendingCodec} now o db : legal o → auth_wf db → auth_wf (auth_step now o db).2.
Proof. intros Hl Hwf. eapply prims_wf; [|done]. apply auth_step_prims; [done|apply Hwf]. Qed.

Lemma run_auth_wf {pc : PendingCodec} ops db : Forall (λ op, legal op.2) ops → auth_wf db → auth_wf (run_auth ops db).
Proof.
  revert db. induction ops as [|[now o] ops IH]; intros db Hl Hwf; [done|]. apply Forall_cons in Hl as [Ho Hl].
  cbn [run_auth]. apply IH; [done|]. by apply auth_step_wf.
Qed.

Lemma empty_auth_wf : auth_wf empty_db.
Proof. split; cbn; try done; try apply NoDup_nil_2; lia. Qed.

(** C35. After any sequence of sign-in operations, at any times and with any
    arguments, token ids and hashes are unique, no token was tried more often
    than its limit, a token's parent exists, at most one reset token is open,
    session hashes are unique, and sessions exist only with an administrator. *)
Theorem sign_in_tables_wf {pc : PendingCodec} ops : Forall (λ op, legal op.2) ops → auth_wf (run_auth ops empty_db).
Proof. intros H. apply run_auth_wf; [done|apply empty_auth_wf]. Qed.
(** A codec with the law, for the examples. *)
Fixpoint sample_encode (b s : string) : string :=
  match b with "" => String "-"%char s | String c b => String "+"%char (String c (sample_encode b s)) end.
Fixpoint sample_decode (s : string) : option (string * string) :=
  match s with
  | String x r =>
      if bool_decide (x = "-"%char) then Some ("", r)
      else match r with String c r => prod_map (String c) id <$> sample_decode r | "" => None end
  | "" => None
  end.
Definition sample_pending : PendingCodec := {|
  marshal_pending p := sample_encode (pp_Binding p) (pp_Scope p);
  unmarshal_pending s := (λ p, mkPendingPayload p.1 p.2) <$> sample_decode s |}.
#[export] Instance sample_pending_laws : PendingCodecLaws sample_pending.
Proof.
  intros [b s] _ _. cbn. assert (sample_decode (sample_encode b s) = Some (b, s)) as ->; [|done].
  induction b as [|c b IH]; [done|]. cbn. by rewrite IH.
Qed.
Definition at_second (n : Z) : time := of_unix (1800000000 + n).
Definition sample_setup : list (time * auth_op) :=
  [(at_second 0, ANewSetupToken "T"); (at_second 5, ASetup "T" "a@b.c" "hash" "S" "scope")].
Lemma sign_in_tables_wf_witness :
  adminExists (run_auth (pc := sample_pending) sample_setup empty_db) = true ∧
  auth_wf (run_auth (pc := sample_pending) sample_setup empty_db).
Proof.
  split; [vm_compute; reflexivity|]. apply (sign_in_tables_wf (pc := sample_pending)). repeat constructor.
Defined.

(** ** A token works once *)

Definition dead (h : string) (now : Z) (db : DB) : Prop :=
  ∀ t, In t (db_tokens db) → t_Hash t = h → live now t = false.

(** The hash of the token an operation presents. *)
Definition presents (o : auth_op) : option string :=
  match o with
  | ASetup token _ _ _ _ | ABeginEnrolment token _ _ | ABeginReset token _ _ => Some (Hash token)
  | AConfirmEnrolment h _ _ _ _ | AConfirmPending h _ _ _ => Some h
  | _ => None
  end.

Lemma dead_grows issued h n n' db db' :
  grows issued (db_tokens db) (db_tokens db') → ¬ In h issued → n ≤ n' → dead h n db → dead h n' db'.
Proof.
  intros Hg Hi Hn Hd t' Ht' Hh. destruct (Hg t' Ht') as [(t & Ht & E)|]; [|congruence].
  destruct (live n' t') eqn:El; [|done]. eapply live_evolves in El; [|done..].
  rewrite (Hd t Ht) in El; [done|]. by rewrite <- (ev_hash _ _ E).
Qed.

Lemma use_row purpose hash now t db db' :
  use purpose hash now db = Ok (t, db') →
  In t (db_tokens db') ∧ t_Hash t = hash ∧ db_admin db' = db_admin db ∧ db_sessions db' = db_sessions db ∧
  ∃ r, In r (db_tokens db) ∧ usable purpose hash (unix now) r = true.
Proof.
  unfold use. destruct (_ =? 1) eqn:Ec; [|done]. cbn [rbind].
  destruct (sql_find _ _) as [t0|] eqn:Ef; [|done]. intros [= -> <-]. apply sql_find_some in Ef as [Hin Hh].
  split_and!; [done| |done|done|]; [unfold token_hash in Hh; by bool_simpl|].
  destruct (sql_exists (usable purpose hash (unix now)) (db_tokens db)) eqn:Ex; [by apply sql_exists_true in Ex|].
  bool_simpl. rewrite (proj2 (sql_count_zero _ _)) in Ec; [done|]. by apply sql_exists_false.
Qed.

Lemma use_dead purpose h now db : dead h (unix now) db → use purpose h now db = Err ErrToken.
Proof.
  intros Hd. unfold use. replace (sql_count _ _) with 0; [done|]. symmetry. apply sql_count_zero. intros t Ht.
  unfold usable, token_hash. case_bool_decide as E; [|done]. by rewrite (Hd t Ht E), andb_false_r.
Qed.

(** Consuming a token by its id kills its hash, through any further writes. *)
Lemma consume_kills issued h n now t db db' :
  auth_wf db → In t (db_tokens db) → t_Hash t = h → ¬ In h issued →
  grows issued (db_tokens db) (db_tokens db') → dead h n (consume (t_ID t) now db').
Proof.
  intros Hwf Ht Hh Hi Hg t2 (t1 & H1 & ->)%in_sql_update.
  assert (t_Hash t1 = h → t_ID t1 = t_ID t) as Hid.
  { intros E1. destruct (Hg t1 H1) as [(t0 & H0 & E)|]; [|congruence]. rewrite (ev_id _ _ E).
    f_equal. eapply (NoDup_map_inj t_Hash); [apply Hwf|done|done|]. rewrite <- (ev_hash _ _ E). congruence. }
  unfold token_id. destruct (Z.eqb_spec (t_ID t1) (t_ID t)) as [_|Hne]; [done|]. intros E1. by destruct Hne; apply Hid.
Qed.

Lemma use_wf purpose h now t db db' : use purpose h now db = Ok (t, db') → auth_wf db → auth_wf db'.
Proof. intros E. apply (prim_wf now []). by eapply prim_use. Qed.

Lemma success_kills {pc : PendingCodec} now o h db :
  auth_wf db → presents o = Some h → ¬ In h (issued_by o) → (auth_step now o db).1 = None →
  dead h (unix now) (auth_step now o db).2.
Proof.
  intros Hwf Hp Hi. destruct o; try done; injection Hp as <-; cbn [auth_step fst snd issued_by] in *.
  - unfold Setup, atomically. destruct (use _ _ _ _) as [[t db1]|] eqn:Eu; [|done]. destruct (negb _); [|done].
    destruct (insert_admin _ _) as [db2|] eqn:Ei; [|done]. cbn [rbind].
    destruct (addSession _ _ _ _) as [db3|] eqn:Es; [|done]. intros _. cbn.
    destruct (use_row _ _ _ _ _ _ Eu) as (Ht & Hh & _).
    apply (dead_grows [] _ (unix now) (unix now) (consume (t_ID t) now db2)); [|done|lia|].
    { by eapply prims_grow, addSession_prims. }
    eapply (consume_kills []); [by eapply use_wf|done|done|by intros []|].
    eapply prim_grows, (insert_admin_prim now); [|done]. simpl. lia.
  - unfold BeginEnrolment, atomically. destruct (use _ _ _ _) as [[t db1]|] eqn:Eu; [|done]. destruct (negb _); [|done].
    destruct (issue _ _ _ _ _ _ _ _) as [[id db']|] eqn:E; [|done]. intros _. cbn.
    destruct (use_row _ _ _ _ _ _ Eu) as (Ht & Hh & _).
    eapply (dead_grows [enrolHash] _ (unix now)); [|done|lia|eapply (consume_kills []); [by eapply use_wf|done|done|by intros []|reflexivity]].
    eapply (prim_grows now), prim_issue; [by left| | |exact E]; [unfold codeTries; lia|done].
  - unfold BeginReset, atomically. destruct (use _ _ _ _) as [[t db1]|] eqn:Eu; [|done].
    destruct (issue _ _ _ _ _ _ _ _) as [[id db']|] eqn:E; [|done]. intros _. cbn.
    destruct (use_row _ _ _ _ _ _ Eu) as (Ht & Hh & _).
    eapply (dead_grows [enrolHash] _ (unix now)); [|done|lia|eapply (consume_kills []); [by eapply use_wf|done|done|by intros []|reflexivity]].
    eapply (prim_grows now), prim_issue; [by left| | |exact E]; [unfold codeTries; lia|done].
  - unfold ConfirmEnrolment, atomically. destruct (use _ _ _ _) as [[t db1]|] eqn:Eu; [|done].
    destruct (verify (t_Payload t)) as [c|e]; [|done].
    destruct (confirm_kind _ _ _ _ _) as [db2| |e] eqn:Ek; [|done|done].
    destruct (addSession _ _ _ _) as [db3|] eqn:Es; [|done]. cbn.
    destruct (db_admin db3) eqn:Ea; [|done]. intros _. cbn.
    destruct (use_row _ _ _ _ _ _ Eu) as (Ht & Hh & _).
    eapply (consume_kills []); [by eapply use_wf|done|done|by intros []|].
    etrans; [by eapply prims_grow, confirm_kind_prims|]. etrans; [apply (prim_grows now), announce_prim|].
    by eapply prims_grow, addSession_prims.
  - unfold ConfirmPending, atomically. destruct (db_admin db) as [a|] eqn:Ea; [|done]. destruct (negb _); [|done].
    destruct (use _ _ _ _) as [[t db1]|] eqn:Eu; [|done].
    destruct (bound t a scope), (a_TotpSecretSealed a) as [secret|]; try done.
    destruct (verify secret _) as [step|e]; [|done]. destruct (negb _); [done|]. cbv zeta.
    destruct (addSession _ _ _ _) as [db3|] eqn:Es; [|done]. intros _. cbn.
    destruct (use_row _ _ _ _ _ _ Eu) as (Ht & Hh & _).
    eapply (consume_kills []); [by eapply use_wf|done|done|by intros []|]. by apply (addSession_prims now []), prims_grow in Es.
Qed.

Lemma dead_refused {pc : PendingCodec} now o h db :
  presents o = Some h → dead h (unix now) db → ∃ e, auth_step now o db = (Some e, db).
Proof.
  intros Hp Hd. destruct o; try done; injection Hp as <-; cbn [auth_step];
    unfold Setup, BeginEnrolment, BeginReset, ConfirmEnrolment, ConfirmPending, atomically;
    rewrite ?use_dead by done; try by eexists.
  destruct (db_admin db) as [a|]; [|by eexists]. destruct (negb _); by eexists.
Qed.

(** A token does its job at most once.  After an operation that presented
    it succeeded, or once it has expired, been consumed or run out of
    attempts, every operation that presents it fails and changes nothing,
    whatever other operations ran in between and however much later, as long
    as the same random hash is not issued again. *)
Theorem token_works_once {pc : PendingCodec} h now o ops now' o' db :
  auth_wf db → presents o = Some h → presents o' = Some h →
  Forall (λ op, legal op.2 ∧ ¬ In h (issued_by op.2) ∧ now ≤ op.1) ((now, o) :: ops) → now ≤ now' →
  (auth_step now o db).1 = None ∨ dead h (unix now) db →
  let db' := run_auth ops (auth_step now o db).2 in ∃ e, auth_step now' o' db' = (Some e, db').
Proof.
  intros Hwf Hp Hp' Hall Hn Hd. apply Forall_cons in Hall as [(Hl & Hi & _) Hops]. cbn [fst snd] in *.
  assert (∀ x, now ≤ x → unix now ≤ unix x) as Hu by (intros; apply Z.div_le_mono; [unfold Second; lia|done]).
  apply (dead_refused _ _ h); [done|]. cut (dead h (unix now) (run_auth ops (auth_step now o db).2)).
  { intros H'. eapply (dead_grows []); [reflexivity|by intros []|by apply Hu|done]. }
  assert (auth_wf (auth_step now o db).2 ∧ dead h (unix now) (auth_step now o db).2) as [Hwf1 Hd1].
  { split; [by apply auth_step_wf|]. destruct Hd as [Hs|Hd]; [by apply success_kills|].
    eapply dead_grows; [eapply prims_grow, auth_step_prims; [done|apply Hwf]|done|reflexivity|done]. }
  revert Hwf1 Hd1. generalize (auth_step now o db).2. clear Hwf Hd. induction Hops as [|[t q] ops (Hlq & Hiq & Hq) _ IH]; [done|].
  intros d Hwf1 Hd1. cbn [run_auth fst snd] in *. apply IH; [by apply auth_step_wf|].
  eapply dead_grows; [eapply prims_grow, auth_step_prims; [done|apply Hwf1]|done|reflexivity|done].
Qed.
Lemma token_works_once_witness :
  let pc := sample_pending in
  let db := run_auth [(at_second 0, ANewSetupToken "T")] empty_db in
  let o := ASetup "T" "a@b.c" "hash" "S" "scope" in
  let db' := run_auth [(at_second 6, ALogout "x")] (auth_step (at_second 5) o db).2 in
  (auth_step (at_second 5) o db).1 = None ∧ ∃ e, auth_step (at_second 7) (ABeginEnrolment "T" "E" "sealed") db' = (Some e, db').
Proof.
  cbv zeta. set (pc := sample_pending). split; [vm_compute; reflexivity|].
  eapply (token_works_once (Hash "T") (at_second 5) (ASetup "T" "a@b.c" "hash" "S" "scope")).
  - apply run_auth_wf; [repeat constructor|apply empty_auth_wf].
  - reflexivity.
  - reflexivity.
  - repeat (apply Forall_cons_2 || apply Forall_nil_2); (split; [exact I|split; [by intros []|done]]).
  - done.
  - left. vm_compute. reflexivity.
Defined.

(** ** What opens a session and what changes the administrator *)

Lemma use_admin purpose h now t db db' : use purpose h now db = Ok (t, db') →
  db_admin db' = db_admin db ∧ db_sessions db' = db_sessions db.
Proof. intros E. destruct (use_row _ _ _ _ _ _ E) as (_ & _ & H1 & H2 & _). auto. Qed.
Lemma issue_admin purpose h ttl max parent payload now id db db' :
  issue purpose h ttl max parent payload now db = Ok (id, db') → db_admin db' = db_admin db ∧ db_sessions db' = db_sessions db.
Proof. intros (_ & -> & _)%issue_tokens. done. Qed.

Lemma insert_session_rows h scope expires db db' : insert_session h scope expires db = Ok db' →
  db_admin db' = db_admin db ∧ db_sessions db' = db_sessions db ++ [mkSession h scope expires] ∧ db_tokens db' = db_tokens db.
Proof.
  unfold insert_session. destruct (sql_insert _ _ _ _) as [l|] eqn:E; [|done]. intros [= <-].
  apply sql_insert_ok in E as (-> & _). done.
Qed.
(** Opening a session drops the expired ones and those of other scopes. *)
Lemma addSession_rows h scope now db db' : addSession h scope now db = Ok db' →
  db_admin db' = db_admin db ∧ db_tokens db' = db_tokens db ∧
  ∀ s, In s (db_sessions db') ↔
    (In s (db_sessions db) ∧ unix now < se_ExpiresAt s ∧ se_Scope s = scope) ∨ s = mkSession h scope (unix (now + sessionTTL)).
Proof.
  intros (Ha & Hs & Ht)%insert_session_rows. split; [done|]. split; [done|]. intros s. rewrite Hs, in_app_iff. unfold prune_sessions.
  cbn [db_sessions upd]. rewrite in_sql_delete, orb_false_iff, negb_false_iff, bool_decide_eq_true, Z.leb_gt. simpl. naive_solver.
Qed.

Lemma note_wrong_code_admin a now db :
  ∃ f l, db_admin (note_wrong_code a now db) = Some (a <| a_CodeFailures := f |> <| a_CodeLockedUntil := l |>) ∧
    db_sessions (note_wrong_code a now db) = db_sessions db.
Proof. unfold note_wrong_code. cbv zeta. destruct (_ mod 10 =? 0); do 2 eexists; split; reflexivity. Qed.
Lemma spendFailure_frame t now db : db_admin (spendFailure t now db) = db_admin db ∧ db_sessions (spendFailure t now db) = db_sessions db.
Proof. unfold spendFailure. by destruct (_ <=? _). Qed.

(** The three kinds of enrolment. *)
Inductive confirmed_kind (t : AuthToken) (c : Confirmed) (db : DB) : DB → Prop :=
| kind_setup db' :
    en_Kind (c_Enrolment c) = "setup" → parent_purpose t db = "setup" → db_admin db = None →
    (∃ created, db_admin db' = Some (mkAdmin (en_Email (c_Enrolment c)) (en_PasswordHash (c_Enrolment c)) created
      (Some (c_SecretSealed c)) (c_Step c) 0 0)) →
    db_sessions db' = db_sessions db → confirmed_kind t c db db'
| kind_upgrade db' a :
    en_Kind (c_Enrolment c) = "upgrade" → db_admin db = Some a → a_TotpSecretSealed a = None →
    Hash (a_PasswordHash a) = en_Binding (c_Enrolment c) →
    db_admin db' = Some (a <| a_TotpSecretSealed := Some (c_SecretSealed c) |>
      <| a_TotpLastStep := c_Step c |> <| a_CodeFailures := 0 |> <| a_CodeLockedUntil := 0 |>) →
    db_sessions db' = db_sessions db → confirmed_kind t c db db'
| kind_reset db' a :
    en_Kind (c_Enrolment c) = "reset" → parent_purpose t db = "reset" → db_admin db = Some a →
    newest_reset db = parent_id t → maintenance db = false →
    db_admin db' = Some (a <| a_PasswordHash := en_PasswordHash (c_Enrolment c) |>
      <| a_TotpSecretSealed := Some (c_SecretSealed c) |> <| a_TotpLastStep := c_Step c |>
      <| a_CodeFailures := 0 |> <| a_CodeLockedUntil := 0 |>) →
    db_sessions db' = [] →
    (∀ r, In r (db_tokens db') → t_ID r ≠ t_ID t → t_ID r ≠ parent_id t →
      t_Purpose r ≠ "pending" ∧ t_Purpose r ≠ "enrol" ∧ t_Purpose r ≠ "reset") →
    (∀ r, In r (db_tokens db') → t_Purpose r = "reset" → unconsumed r = false) →
    confirmed_kind t c db db'.

Lemma confirm_kind_cases t c scope now db db' : confirm_kind t c scope now db = Applied db' →
  (en_Scope (c_Enrolment c) = "" ∨ en_Scope (c_Enrolment c) = scope) ∧ confirmed_kind t c db db'.
Proof.
  unfold confirm_kind. destruct (_ && _) eqn:Esc; [done|]. intros H. split.
  { apply andb_false_iff in Esc as [Esc|Esc]; bool_simpl; auto. }
  clear Esc. revert H. destruct (bool_decide (_ = "setup")) eqn:Ek.
  { unfold confirm_setup. destruct (_ || _) eqn:E; [done|]. apply orb_false_iff in E as [E1 E2]. bool_simpl.
    destruct (insert_admin _ db) as [db1|] eqn:Ei; [|done]. intros [= <-]. unfold insert_admin in Ei.
    rewrite E2 in Ei. cbn [negb] in Ei. injection Ei as <-. apply kind_setup; try done; [|by eexists].
    unfold adminExists in E2. by destruct (db_admin db). }
  destruct (bool_decide (_ = "upgrade")) eqn:Ek2.
  { unfold confirm_upgrade. destruct (db_admin db) as [a|] eqn:Ea; [|done]. destruct (negb _) eqn:Eb; [done|]. bool_simpl.
    destruct (a_TotpSecretSealed a) eqn:Es; [done|]. intros [= <-]. by eapply kind_upgrade. }
  destruct (bool_decide (_ = "reset")) eqn:Ek3; [|done].
  unfold confirm_reset. destruct (negb _) eqn:Ep; [done|]. destruct (db_admin db) as [a|] eqn:Ea; [|done].
  destruct (negb (_ =? _)) eqn:En; [done|]. destruct (maintenance db) eqn:Em; [done|]. bool_simpl. intros [= <-].
  eapply kind_reset; try done.
  - intros r (r1 & H1 & ->)%in_sql_update Hne1 Hne2. revert H1. unfold delete_tokens. cbn [db_tokens upd].
    intros (r0 & <- & [_ H0]%in_sql_delete)%in_map_iff.
    assert (∀ q, (if of_purpose "reset" q && unconsumed q then q <| t_ConsumedAt := Some (unix now) |> else q).(t_ID) = t_ID q ∧
      (if of_purpose "reset" q && unconsumed q then q <| t_ConsumedAt := Some (unix now) |> else q).(t_Purpose) = t_Purpose q) as Hq
      by (intros q; by destruct (of_purpose "reset" q && unconsumed q)).
    rewrite (proj1 (Hq _)), orphan_id in Hne1. rewrite (proj1 (Hq _)), orphan_id in Hne2. rewrite (proj2 (Hq _)).
    rewrite (ev_purpose _ _ (orphan_evolves _ _ _)). unfold token_id, of_purpose in H0.
    apply Z.eqb_neq in Hne1, Hne2. rewrite Hne1, Hne2, !andb_true_r in H0. bool_simpl. auto.
  - intros r (r1 & H1 & ->)%in_sql_update. destruct (of_purpose "reset" r1 && unconsumed r1) eqn:E; [done|].
    intros Hr. unfold of_purpose in E. rewrite Hr, bool_decide_true in E by done. done.
Qed.

(** Every way a code step ends. *)
Inductive pending_outcome {pc : PendingCodec} (h sh scope : string) (now : time) (verify : string → Z → res store_error Z) (db : DB) :
  res store_error string → DB → Prop :=
| pending_refused e : e ≠ ErrCode → pending_outcome h sh scope now verify db (Err e) db
| pending_unbound a t db1 :
    db_admin db = Some a → use "pending" h now db = Ok (t, db1) → bound t a scope = false ∨ a_TotpSecretSealed a = None →
    pending_outcome h sh scope now verify db (Err ErrToken) (consume (t_ID t) now db1)
| pending_wrong a t db1 secret e :
    db_admin db = Some a → a_CodeLockedUntil a ≤ unix now → use "pending" h now db = Ok (t, db1) →
    bound t a scope = true → a_TotpSecretSealed a = Some secret → verify secret (a_TotpLastStep a) = Err e →
    pending_outcome h sh scope now verify db (Err e)
      (if bool_decide (e = ErrCode) then note_wrong_code a now (spendFailure t now db1) else spendFailure t now db1)
| pending_reused a t db1 secret step :
    db_admin db = Some a → use "pending" h now db = Ok (t, db1) → a_TotpSecretSealed a = Some secret →
    verify secret (a_TotpLastStep a) = Ok step → step ≤ a_TotpLastStep a →
    pending_outcome h sh scope now verify db (Err ErrCodeReused) db1
| pending_accepted a t db1 secret step db3 :
    db_admin db = Some a → a_CodeLockedUntil a ≤ unix now → use "pending" h now db = Ok (t, db1) →
    bound t a scope = true → a_TotpSecretSealed a = Some secret →
    verify secret (a_TotpLastStep a) = Ok step → a_TotpLastStep a < step →
    addSession sh scope now (db1 <| db_admin := Some (a <| a_TotpLastStep := step |> <| a_CodeFailures := 0 |>
      <| a_CodeLockedUntil := 0 |>) |>) = Ok db3 →
    pending_outcome h sh scope now verify db (Ok (a_Email a)) (consume (t_ID t) now db3).

Lemma addSession_error h scope now db e : addSession h scope now db = Err e → e = ErrConstraint.
Proof.
  unfold addSession, insert_session. destruct (sql_insert _ _ _ _) as [l|e'] eqn:E; [done|]. intros [= <-]. by apply sql_insert_err in E as [-> _].
Qed.

Lemma ConfirmPending_outcome {pc : PendingCodec} h sh scope now verify db r db' :
  ConfirmPending h sh scope now verify db = (r, db') → pending_outcome h sh scope now verify db r db'.
Proof.
  unfold ConfirmPending, atomically. destruct (db_admin db) as [a|] eqn:Ea; [|intros [= <- <-]; by constructor].
  destruct (negb _) eqn:El; [|intros [= <- <-]; by constructor]. bool_simpl.
  destruct (use _ _ _ _) as [[t db1]|] eqn:Eu; [|intros [= <- <-]; by constructor].
  destruct (bound t a scope) eqn:Eb; [|intros [= <- <-]; eapply pending_unbound; eauto].
  destruct (a_TotpSecretSealed a) as [secret|] eqn:Es; [|intros [= <- <-]; eapply pending_unbound; eauto].
  destruct (verify secret _) as [step|e] eqn:Ev; [|intros [= <- <-]; eapply pending_wrong; eauto].
  destruct (negb _) eqn:Est; bool_simpl; [intros [= <- <-]; eapply pending_reused; eauto|]. cbv zeta.
  destruct (addSession _ _ _ _) as [db3|e] eqn:Ead; [|intros [= <- <-]; constructor; by apply addSession_error in Ead as ->].
  cbn [rbind]. intros [= <- <-]. eapply pending_accepted; eauto.
Qed.

(** Every way the confirmation of an enrolment ends. *)
Inductive enrol_outcome (h sh scope rid : string) (now : time) (verify : string → res store_error Confirmed) (db : DB) :
  res store_error string → DB → Prop :=
| enrol_refused e : enrol_outcome h sh scope rid now verify db (Err e) db
| enrol_wrong t db1 e :
    use "enrol" h now db = Ok (t, db1) → verify (t_Payload t) = Err e →
    enrol_outcome h sh scope rid now verify db (Err e) (spendFailure t now db1)
| enrol_stale t db1 :
    use "enrol" h now db = Ok (t, db1) → enrol_outcome h sh scope rid now verify db (Err ErrToken) (consume (t_ID t) now db1)
| enrol_accepted t db1 c db2 db3 a :
    use "enrol" h now db = Ok (t, db1) → verify (t_Payload t) = Ok c →
    (en_Scope (c_Enrolment c) = "" ∨ en_Scope (c_Enrolment c) = scope) → confirmed_kind t c db1 db2 → grows [] (db_tokens db1) (db_tokens db2) →
    addSession sh scope now (announce (en_Kind (c_Enrolment c)) rid now db2) = Ok db3 → db_admin db3 = Some a →
    enrol_outcome h sh scope rid now verify db (Ok (a_Email a)) (consume (t_ID t) now db3).

Lemma ConfirmEnrolment_outcome h sh scope rid now verify db r db' :
  ConfirmEnrolment h sh scope rid now verify db = (r, db') → enrol_outcome h sh scope rid now verify db r db'.
Proof.
  unfold ConfirmEnrolment, atomically.
  destruct (use _ _ _ _) as [[t db1]|] eqn:Eu; [|intros [= <- <-]; constructor].
  destruct (verify (t_Payload t)) as [c|e] eqn:Ev; [|intros [= <- <-]; by eapply enrol_wrong].
  destruct (confirm_kind _ _ _ _ _) as [db2| |e] eqn:Ek;
    [|intros [= <- <-]; by eapply enrol_stale|intros [= <- <-]; constructor].
  pose proof (prims_grow _ _ _ _ (confirm_kind_prims now [] _ _ _ _ _ Ek)) as Hg. apply confirm_kind_cases in Ek as [Hs Hk].
  destruct (addSession _ _ _ _) as [db3|] eqn:Es; [|intros [= <- <-]; constructor]. cbn [rbind].
  change (db_admin (consume (t_ID t) now db3)) with (db_admin db3).
  destruct (db_admin db3) as [a|] eqn:Ea; intros [= <- <-]; [|constructor]. by eapply enrol_accepted.
Qed.

Lemma announce_frame kind rid now db :
  db_admin (announce kind rid now db) = db_admin db ∧ db_sessions (announce kind rid now db) = db_sessions db ∧
  db_tokens (announce kind rid now db) = db_tokens db.
Proof. unfold announce. by destruct (bool_decide _). Qed.

Lemma Setup_outcome token email ph sh scope now db r db' :
  Setup token email ph sh scope now db = (r, db') →
  (db' = db ∧ is_ok r = false) ∨
  (r = Ok tt ∧ db_admin db = None ∧ ∃ t db1 db2, use "setup" (Hash token) now db = Ok (t, db1) ∧
    db_admin db2 = Some (mkAdmin email ph (unix now) None 0 0 0) ∧ db_sessions db2 = db_sessions db ∧
    addSession sh scope now db2 = Ok db').
Proof.
  unfold Setup, atomically. destruct (use _ _ _ _) as [[t db1]|] eqn:Eu; [|intros [= <- <-]; auto].
  destruct (adminExists db1) eqn:Ex; [intros [= <- <-]; auto|]. cbn [negb].
  destruct (insert_admin _ _) as [db2|] eqn:Ei; [|intros [= <- <-]; auto]. cbn [rbind].
  destruct (addSession _ _ _ _) as [db3|] eqn:Es; [|intros [= <- <-]; auto]. cbn [rbind]. intros [= <- <-]. right.
  split; [done|]. apply use_admin in Eu as Hu. destruct Hu as [Hu1 Hu2].
  unfold insert_admin in Ei. rewrite Ex in Ei. injection Ei as <-.
  split; [rewrite <- Hu1; unfold adminExists in Ex; by destruct (db_admin db1)|].
  exists t, db1. eexists. split; [done|]. split; [|split; [|exact Es]]; done.
Qed.

(** Operations that only touch tokens (and metadata). *)
Definition token_only (o : auth_op) : bool :=
  match o with
  | ANewSetupToken _ | ABeginEnrolment _ _ _ | ABeginUpgrade _ _ | ANewResetToken _ | ABeginReset _ _ _
  | ABeginPending _ _ _ | AAbandon _ | AMaintenance _ | AOther _ => true
  | _ => false
  end.

Lemma token_only_frame {pc : PendingCodec} now o db :
  token_only o = true → legal o →
  db_admin (auth_step now o db).2 = db_admin db ∧ db_sessions (auth_step now o db).2 = db_sessions db.
Proof.
  intros Ho Hl. destruct o; try done; cbn [auth_step snd].
  - unfold NewSetupToken, atomically. cbv zeta. destruct (negb _); [|done]. destruct (_ =? 0); [|done].
    match goal with |- context [issue ?a ?b ?c ?d ?e ?f ?g ?h] => destruct (issue a b c d e f g h) as [[id db']|] eqn:E; [|done] end.
    by apply issue_admin in E.
  - unfold BeginEnrolment, atomically. destruct (use _ _ _ _) as [[t db1]|] eqn:Eu; [|done]. destruct (negb _); [|done].
    destruct (issue _ _ _ _ _ _ _ _) as [[id db']|] eqn:E; [|done]. apply issue_admin in E as [Ea Es]. cbn in *.
    rewrite Ea, Es. by apply use_admin in Eu.
  - unfold BeginUpgrade, atomically. destruct (issue _ _ _ _ _ _ _ _) as [[id db']|] eqn:E; [|done]. by apply issue_admin in E.
  - unfold NewResetToken, atomically. destruct (adminExists db); [|done]. cbv zeta.
    match goal with |- context [issue ?a ?b ?c ?d ?e ?f ?g ?h] => destruct (issue a b c d e f g h) as [[id db']|] eqn:E; [|done] end.
    by apply issue_admin in E.
  - unfold BeginReset, atomically. destruct (use _ _ _ _) as [[t db1]|] eqn:Eu; [|done].
    destruct (issue _ _ _ _ _ _ _ _) as [[id db']|] eqn:E; [|done]. apply issue_admin in E as [Ea Es]. cbn in *.
    rewrite Ea, Es. by apply use_admin in Eu.
  - unfold BeginPending, atomically. destruct (issue _ _ _ _ _ _ _ _) as [[id db']|] eqn:E; [|done]. by apply issue_admin in E.
  - destruct on; by split.
  - by destruct (Hl db) as (_ & _ & ? & ?).
Qed.

Section sessions.
Context {pc : PendingCodec} (now : time) (db : DB).

(** What must be true for an operation to open session [s]. *)
Definition earned (o : auth_op) (s : SessionRow) : Prop :=
  match o with
  | ASetup token _ _ sh scope =>
      db_admin db = None ∧ s = mkSession sh scope (unix (now + sessionTTL)) ∧
      ∃ t, In t (db_tokens db) ∧ usable "setup" (Hash token) (unix now) t = true
  | AConfirmEnrolment h sh scope _ verify =>
      s = mkSession sh scope (unix (now + sessionTTL)) ∧
      ∃ t c, In t (db_tokens db) ∧ usable "enrol" h (unix now) t = true ∧ verify (t_Payload t) = Ok c
  | AConfirmPending h sh scope verify =>
      s = mkSession sh scope (unix (now + sessionTTL)) ∧
      ∃ a secret step t, db_admin db = Some a ∧ a_TotpSecretSealed a = Some secret ∧
        a_CodeLockedUntil a ≤ unix now ∧ In t (db_tokens db) ∧ usable "pending" h (unix now) t = true ∧
        bound t a scope = true ∧ verify secret (a_TotpLastStep a) = Ok step ∧ a_TotpLastStep a < step
  | AAddSession token scope passwordHash =>
      s = mkSession (Hash token) scope (unix (now + sessionTTL)) ∧
      ∃ a, db_admin db = Some a ∧ has_factor a = false ∧ a_PasswordHash a = passwordHash
  | _ => False
  end.

(** The row [use] returns is the presented token with one attempt more. *)
Lemma use_origin purpose h t db1 : auth_wf db → use purpose h now db = Ok (t, db1) →
  ∃ r, In r (db_tokens db) ∧ usable purpose h (unix now) r = true ∧ t = r <| t_Attempts := t_Attempts r + 1 |>.
Proof.
  intros Hwf Eu. destruct (use_row _ _ _ _ _ _ Eu) as (Ht & Hh & _ & _ & r & Hr & Hu). exists r. split; [done|]. split; [done|].
  unfold use in Eu. destruct (_ =? 1); [|done]. cbn [rbind] in Eu. destruct (sql_find _ _) as [t0|] eqn:Ef; [|done].
  injection Eu as -> <-. apply in_sql_update in Ht as (r0 & H0 & E).
  assert (r0 = r) as ->.
  { eapply (NoDup_map_inj t_Hash); [apply Hwf|done|done|]. unfold usable, token_hash in Hu. bool_simpl.
    transitivity (t_Hash t); [subst t; by destruct (usable _ _ _ r0)|congruence]. }
  by rewrite Hu in E.
Qed.

Lemma session_cases o s :
  auth_wf db → legal o → In s (db_sessions (auth_step now o db).2) → In s (db_sessions db) ∨ earned o s.
Proof.
  intros Hwf Hl. destruct (token_only o) eqn:Eo; [rewrite (proj2 (token_only_frame now o db Eo Hl)); by left|].
  destruct o; try done; cbn [auth_step snd fst earned].
  - destruct (Setup _ _ _ _ _ _ _) as [r db'] eqn:E. apply Setup_outcome in E as [[-> _]|(_ & Ha & t & db1 & db2 & Eu & _ & Hs & Es)]; [by left|].
    apply addSession_rows in Es as (_ & _ & Es). cbn. rewrite Es, Hs. intros [[? _]| ->]; [by left|right].
    split; [done|]. split; [done|]. by destruct (use_row _ _ _ _ _ _ Eu) as (_ & _ & _ & _ & H').
  - destruct (ConfirmEnrolment _ _ _ _ _ _ _) as [r db'] eqn:E. cbn.
    apply ConfirmEnrolment_outcome in E as [e|t db1 e Eu _|t db1 Eu|t db1 c db2 db3 a Eu Ev _ Hk _ Es _].
    + by left.
    + rewrite (proj2 (spendFailure_frame _ _ _)), (proj2 (use_admin _ _ _ _ _ _ Eu)). by left.
    + cbn. rewrite (proj2 (use_admin _ _ _ _ _ _ Eu)). by left.
    + apply addSession_rows in Es as (_ & _ & Es). cbn. rewrite Es, (proj1 (proj2 (announce_frame _ _ _ _))).
      intros [[Hin _]| ->].
      * left. assert (db_sessions db2 = db_sessions db1 ∨ db_sessions db2 = []) as [H'|H'] by (inversion Hk; auto).
        { by rewrite H', (proj2 (use_admin _ _ _ _ _ _ Eu)) in Hin. } { by rewrite H' in Hin. }
      * right. split; [done|]. destruct (use_origin _ _ _ _ Hwf Eu) as (row & Hr & Hu & ->). eauto 6.
  - destruct (ConfirmPending _ _ _ _ _ _) as [r db'] eqn:E. cbn.
    apply ConfirmPending_outcome in E
      as [e _|a t db1 Ea Eu _|a t db1 secret e Ea _ Eu _ _ _|a t db1 secret step Ea Eu _ _ _|a t db1 secret step db3 Ea Hlock Eu Hb Hs Hv Hst Es].
    + by left.
    + cbn. rewrite (proj2 (use_admin _ _ _ _ _ _ Eu)). by left.
    + destruct (bool_decide _);
        [destruct (note_wrong_code_admin a now (spendFailure t now db1)) as (f & l & _ & ->)|];
        rewrite (proj2 (spendFailure_frame _ _ _)), (proj2 (use_admin _ _ _ _ _ _ Eu)); by left.
    + rewrite (proj2 (use_admin _ _ _ _ _ _ Eu)). by left.
    + apply addSession_rows in Es as (_ & _ & Es). cbn. rewrite Es. cbn [db_sessions upd].
      rewrite (proj2 (use_admin _ _ _ _ _ _ Eu)). intros [[? _]| ->]; [by left|right]. split; [done|].
      destruct (use_origin _ _ _ _ Hwf Eu) as (row & Hr & Hu & ->). exists a, secret, step, row. auto 10.
  - unfold AddSession, atomically. destruct (db_admin db) as [a|] eqn:Ea; [|by left]. destruct (_ && _) eqn:Eg; [|by left]. bool_simpl.
    destruct (insert_session _ _ _ _) as [db1|] eqn:E; [|by left]. apply insert_session_rows in E as (_ & E & _). cbn. rewrite E, in_app_iff.
    cbn. intros [[Hin _]%in_sql_delete|[<-|[]]]; [by left|right]. eauto 6.
  - cbn. intros [Hin _]%in_sql_delete. by left.
Qed.
End sessions.

(** C26. Nobody is signed in without proof.  A step opens a session only as
    the first administrator's setup with a live setup token, after a verified
    enrolment code on a live enrolment, after a verified code of a step later
    than the last one on a live password step bound to the current password
    and scope while codes are not locked, or with the current password of an
    administrator who has no second factor.  The session is the one asked
    for, and lasts twelve hours. *)
Theorem session_is_earned {pc : PendingCodec} ops now o s :
  Forall (λ op, legal op.2) ops → legal o →
  let db := run_auth ops empty_db in
  In s (db_sessions (auth_step now o db).2) → ¬ In s (db_sessions db) → earned now db o s.
Proof.
  intros Hops Hl db Hin Hnot. assert (auth_wf db) as Hwf by (apply run_auth_wf; [done|apply empty_auth_wf]).
  by destruct (session_cases now db o s Hwf Hl Hin).
Qed.
Lemma session_is_earned_witness :
  earned (pc := sample_pending) (at_second 5) (run_auth (pc := sample_pending) [(at_second 0, ANewSetupToken "T")] empty_db)
    (ASetup "T" "a@b.c" "hash" "S" "scope") (mkSession "S" "scope" (1800000005 + 43200)).
Proof.
  apply (session_is_earned (pc := sample_pending) [(at_second 0, ANewSetupToken "T")] (at_second 5)).
  - repeat constructor.
  - exact I.
  - vm_compute. by left.
  - vm_compute. by intros [].
Defined.

(** A code was checked and found wrong. *)
Definition wrong_code {pc : PendingCodec} (now : time) (o : auth_op) (db : DB) : bool :=
  match o with AConfirmPending _ _ _ _ => bool_decide ((auth_step now o db).1 = Some ErrCode) | _ => false end.

(** What a step may do to an existing administrator. *)
Inductive admin_change {pc : PendingCodec} (now : time) (o : auth_op) (db : DB) (a : Admin) : Admin → Prop :=
| admin_kept : wrong_code now o db = false → admin_change now o db a a
| admin_counted h sh scope verify :
    o = AConfirmPending h sh scope verify → (auth_step now o db).1 = Some ErrCode → a_CodeLockedUntil a ≤ unix now →
    let n := a_CodeFailures a + 1 in
    let locked := if n mod 5 =? 0 then unix (now + lockout n) else 0 in
    admin_change now o db a (a <| a_CodeFailures := n |> <| a_CodeLockedUntil := if 0 <? locked then locked else a_CodeLockedUntil a |>)
| admin_signed_in h sh scope verify secret step :
    o = AConfirmPending h sh scope verify → (auth_step now o db).1 = None →
    a_TotpSecretSealed a = Some secret → verify secret (a_TotpLastStep a) = Ok step → a_TotpLastStep a < step →
    admin_change now o db a (a <| a_TotpLastStep := step |> <| a_CodeFailures := 0 |> <| a_CodeLockedUntil := 0 |>)
| admin_upgraded h sh scope rid verify payload c :
    o = AConfirmEnrolment h sh scope rid verify → (auth_step now o db).1 = None → verify payload = Ok c →
    en_Kind (c_Enrolment c) = "upgrade" → a_TotpSecretSealed a = None → Hash (a_PasswordHash a) = en_Binding (c_Enrolment c) →
    admin_change now o db a (a <| a_TotpSecretSealed := Some (c_SecretSealed c) |>
      <| a_TotpLastStep := c_Step c |> <| a_CodeFailures := 0 |> <| a_CodeLockedUntil := 0 |>)
| admin_reset h sh scope rid verify payload c :
    o = AConfirmEnrolment h sh scope rid verify → (auth_step now o db).1 = None → verify payload = Ok c →
    en_Kind (c_Enrolment c) = "reset" → maintenance db = false →
    (∃ r, In r (db_tokens db) ∧ t_Purpose r = "reset" ∧ unconsumed r = false) →
    admin_change now o db a (a <| a_PasswordHash := en_PasswordHash (c_Enrolment c) |>
      <| a_TotpSecretSealed := Some (c_SecretSealed c) |> <| a_TotpLastStep := c_Step c |>
      <| a_CodeFailures := 0 |> <| a_CodeLockedUntil := 0 |>).

Lemma use_metadata purpose h now t db db' : use purpose h now db = Ok (t, db') → db_metadata db' = db_metadata db.
Proof.
  unfold use. destruct (_ =? 1); [|done]. cbn [rbind]. destruct (sql_find _ _); [|done]. by intros [= _ <-].
Qed.

Lemma use_keeps purpose h now t db db' : use purpose h now db = Ok (t, db') →
  ∀ r, In r (db_tokens db') → ∃ r0, In r0 (db_tokens db) ∧ t_Purpose r = t_Purpose r0 ∧ unconsumed r = unconsumed r0.
Proof.
  unfold use. destruct (_ =? 1); [|done]. cbn [rbind]. destruct (sql_find _ _); [|done].
  intros [= _ <-] r (r0 & H0 & ->)%in_sql_update. exists r0. split; [done|]. by destruct (usable _ _ _ r0).
Qed.

Lemma parent_purpose_row t p db : p ≠ "" → parent_purpose t db = p →
  ∃ r, In r (db_tokens db) ∧ t_Purpose r = p ∧ unconsumed r = false.
Proof.
  unfold parent_purpose. intros Hp. destruct (t_Parent t) as [id|]; [|congruence].
  destruct (sql_find _ _) as [r|] eqn:E; [|congruence]. apply sql_find_some in E as [Hin Hc]. bool_simpl. eauto.
Qed.

Lemma enrol_admin_cases {pc : PendingCodec} now h sh scope rid verify db a :
  auth_wf db → db_admin db = Some a → let o := AConfirmEnrolment h sh scope rid verify in
  ∃ a', db_admin (auth_step now o db).2 = Some a' ∧ admin_change now o db a a'.
Proof.
  intros Hwf Ea o. destruct (ConfirmEnrolment h sh scope rid now verify db) as [r db'] eqn:E.
  assert ((auth_step now o db).1 = match r with Ok _ => None | Err e => Some e end ∧ (auth_step now o db).2 = db') as [Hr ->]
    by (unfold o; cbn [auth_step]; rewrite E; done).
  revert Hr. subst o. destruct (ConfirmEnrolment_outcome _ _ _ _ _ _ _ _ _ E)
    as [e|t db1 e Eu _|t db1 Eu|t db1 c db2 db3 a3 Eu Ev _ Hk _ Es _].
  all: intros Hok.
  1,2,3: exists a; split; [|by constructor].
  - done.
  - by rewrite (proj1 (spendFailure_frame _ _ _)), (proj1 (use_admin _ _ _ _ _ _ Eu)).
  - cbn. by rewrite (proj1 (use_admin _ _ _ _ _ _ Eu)).
  - apply addSession_rows in Es as (Es & _). cbn. rewrite Es, (proj1 (announce_frame _ _ _ _)).
    pose proof (proj1 (use_admin _ _ _ _ _ _ Eu)) as Ea1. rewrite Ea in Ea1.
    inversion Hk as [db2' _ _ Hn|db2' a1 Hkind Ha1 Hs Hb Hd|db2' a1 Hkind Hp Ha1 Hnew Hm Hd]; subst db2'; [congruence| |];
      rewrite Ea1 in Ha1; injection Ha1 as <-; eexists; (split; [exact Hd|]).
    + by eapply admin_upgraded.
    + eapply admin_reset; try done.
      { unfold maintenance in *. by rewrite <- (use_metadata _ _ _ _ _ _ Eu). }
      apply parent_purpose_row in Hp as (r & Hr & Hrp & Hrc); [|done].
      destruct (use_keeps _ _ _ _ _ _ Eu r Hr) as (r0 & Hr0 & Hp0 & Hc0). exists r0. split; [done|].
      split; congruence.
Qed.

Lemma pending_admin_cases {pc : PendingCodec} now h sh scope verify db a :
  db_admin db = Some a → let o := AConfirmPending h sh scope verify in
  ∃ a', db_admin (auth_step now o db).2 = Some a' ∧ admin_change now o db a a'.
Proof.
  intros Ea o. destruct (ConfirmPending h sh scope now verify db) as [r db'] eqn:E.
  assert ((auth_step now o db).1 = match r with Ok _ => None | Err e => Some e end ∧ (auth_step now o db).2 = db') as [Hr ->]
    by (unfold o; cbn [auth_step]; rewrite E; done).
  revert Hr. subst o. destruct (ConfirmPending_outcome _ _ _ _ _ _ _ _ E)
    as [e He|a1 t db1 Ea1 Eu _|a1 t db1 secret e Ea1 Hl Eu _ Hs Hv|a1 t db1 secret step Ea1 Eu _ _ _|a1 t db1 secret step db3 Ea1 Hl Eu _ Hs Hv Hst Es].
  all: intros Hok; try (rewrite Ea in Ea1; injection Ea1 as <-).
  all: try assert (∀ e', e' ≠ ErrCode → (auth_step now (AConfirmPending h sh scope verify) db).1 = Some e' →
    admin_change now (AConfirmPending h sh scope verify) db a a) as Hkept
    by (intros e' He' Ho; apply admin_kept; unfold wrong_code; rewrite Ho; apply bool_decide_eq_false; congruence).
  - exists a. split; [done|eapply Hkept; [|exact Hok]; done].
  - exists a. split; [|eapply Hkept; [|exact Hok]; done]. cbn. by rewrite (proj1 (use_admin _ _ _ _ _ _ Eu)).
  - destruct (bool_decide (e = ErrCode)) eqn:Ee; bool_simpl.
    + subst e. eexists. split; [|by eapply admin_counted]. unfold note_wrong_code. cbv zeta. by destruct (_ mod 10 =? 0).
    + exists a. split; [|eapply Hkept; [|exact Hok]; done]. by rewrite (proj1 (spendFailure_frame _ _ _)), (proj1 (use_admin _ _ _ _ _ _ Eu)).
  - exists a. split; [|eapply Hkept; [|exact Hok]; done]. by rewrite (proj1 (use_admin _ _ _ _ _ _ Eu)).
  - apply addSession_rows in Es as (Es & _). cbn. rewrite Es. eexists. split; [done|]. by eapply admin_signed_in.
Qed.

Lemma admin_cases {pc : PendingCodec} now o db a :
  auth_wf db → legal o → db_admin db = Some a →
  ∃ a', db_admin (auth_step now o db).2 = Some a' ∧ admin_change now o db a a'.
Proof.
  intros Hwf Hl Ea. destruct (token_only o) eqn:Eo.
  { exists a. rewrite (proj1 (token_only_frame now o db Eo Hl)). split; [done|]. apply admin_kept. by destruct o. }
  destruct o; try done.
  - exists a. split; [|by constructor]. cbn [auth_step].
    destruct (Setup _ _ _ _ _ _ _) as [r db'] eqn:E. apply Setup_outcome in E as [[-> _]|(_ & Ha & _)]; [done|congruence].
  - by apply enrol_admin_cases.
  - by apply pending_admin_cases.
  - exists a. split; [|by constructor]. cbn [auth_step]. unfold AddSession, atomically. rewrite Ea. destruct (_ && _); [|done].
    destruct (insert_session _ _ _ _) as [db1|] eqn:E; [|done]. apply insert_session_rows in E as (E & _). cbn. by rewrite E.
  - exists a. split; [done|by constructor].
Qed.

(** The administrator's account is never replaced or removed.  From any
    reachable state and by any operation: the email stays, the password and
    the second factor change only through a confirmed enrolment code (a first
    factor bound to the current password, or a reset that began with a reset
    token issued on the server, never during an update), a factor once set is
    never removed, and the last accepted step never goes back except by such
    a reset. *)
Theorem administrator_is_kept {pc : PendingCodec} ops now o a :
  Forall (λ op, legal op.2) ops → legal o →
  let db := run_auth ops empty_db in
  db_admin db = Some a →
  ∃ a', db_admin (auth_step now o db).2 = Some a' ∧ admin_change now o db a a' ∧
    a_Email a' = a_Email a ∧ a_CreatedAt a' = a_CreatedAt a ∧
    (a_TotpSecretSealed a ≠ None → a_TotpSecretSealed a' ≠ None).
Proof.
  intros Hops Hl db Ea. destruct (admin_cases now o db a) as (a' & Ha' & Hc); [|done|done|].
  { apply run_auth_wf; [done|apply empty_auth_wf]. }
  exists a'. split; [done|]. split; [done|]. destruct Hc; cbn; auto.
Qed.
Lemma administrator_is_kept_witness :
  ∃ a', db_admin (auth_step (pc := sample_pending) (at_second 9) (ALogout "x") (run_auth (pc := sample_pending) sample_setup empty_db)).2 = Some a' ∧
    a_Email a' = "a@b.c".
Proof.
  destruct (administrator_is_kept (pc := sample_pending) sample_setup (at_second 9) (ALogout "x")
    (mkAdmin "a@b.c" "hash" 1800000005 None 0 0 0)) as (a' & Ha & _ & He & _).
  - repeat constructor.
  - exact I.
  - vm_compute. reflexivity.
  - exists a'. split; [exact Ha|exact He].
Defined.

(** ** A code is accepted once *)







(** ** Guessing codes is slow *)

Definition lock_seconds (k : nat) : Z := Z.min (60 * 2 ^ (Z.of_nat k - 1)) 3600.
Fixpoint waited (k : nat) : Z := match k with O => 0 | S k => waited k + lock_seconds (S k) end.

Lemma lockout_seconds k : (1 ≤ k)%nat → lockout (5 * Z.of_nat k) = lock_seconds k * Second.
Proof.
  intros Hk. unfold lockout. replace (5 * Z.of_nat k / 5) with (Z.of_nat k) by (symmetry; rewrite Z.mul_comm; apply Z.div_mul; lia).
  destruct (Nat.le_gt_cases k 7) as [H|H].
  - do 8 (destruct k as [|k]; [lia || reflexivity|]). lia.
  - replace (7 <? Z.of_nat k) with true by lia. cbn [orb]. unfold lock_seconds. rewrite Z.min_r; [done|].
    assert (2 ^ 7 ≤ 2 ^ (Z.of_nat k - 1)) by (apply Z.pow_le_mono_r; lia). lia.
Qed.
Lemma lock_seconds_bounds k : (1 ≤ k)%nat → 60 ≤ lock_seconds k ≤ 3600.
Proof. intros. unfold lock_seconds. assert (1 ≤ 2 ^ (Z.of_nat k - 1)) by (pose proof (Z.pow_pos_nonneg 2 (Z.of_nat k - 1)); lia). lia. Qed.
Lemma waited_bound k : 3600 * Z.of_nat k - 17820 ≤ waited k.
Proof.
  destruct (Nat.le_gt_cases k 6) as [H|H]; [do 7 (destruct k as [|k]; [done|]); lia|].
  replace k with (6 + (k - 6))%nat by lia. induction (k - 6)%nat as [|j IH]; [done|].
  replace (6 + S j)%nat with (S (6 + j)) by lia. cbn [waited].
  assert (lock_seconds (S (6 + j)) = 3600) as ->; [|lia]. unfold lock_seconds. apply Z.min_r.
  assert (2 ^ 6 ≤ 2 ^ (Z.of_nat (S (6 + j)) - 1)) by (apply Z.pow_le_mono_r; lia). lia.
Qed.

Section guessing.
Context {pc : PendingCodec}.

Fixpoint wrong_codes (ops : list (time * auth_op)) (db : DB) : Z :=
  match ops with
  | [] => 0
  | (now, o) :: ops => (if wrong_code now o db then 1 else 0) + wrong_codes ops (auth_step now o db).2
  end.
(** No step of the sequence is signed in with a code. *)
Fixpoint unaccepted (ops : list (time * auth_op)) (db : DB) : Prop :=
  match ops with
  | [] => True
  | (now, o) :: ops =>
      match o with
      | AConfirmPending _ _ _ _ | AConfirmEnrolment _ _ _ _ _ => (auth_step now o db).1 ≠ None
      | _ => True
      end ∧ unaccepted ops (auth_step now o db).2
  end.
Fixpoint ordered (t : time) (ops : list (time * auth_op)) : Prop :=
  match ops with [] => True | (now, _) :: ops => t ≤ now ∧ ordered now ops end.
Fixpoint end_time (t : time) (ops : list (time * auth_op)) : time :=
  match ops with [] => t | (now, _) :: ops => end_time now ops end.

(** After [n] wrong codes since [base], all locks but possibly the last have been waited for. *)
Definition slowed (base : Z) (n : Z) (t : time) (a : Admin) : Prop :=
  a_CodeFailures a = n ∧ 0 ≤ n ∧
  base + waited (Z.to_nat (n / 5)) ≤ Z.max (unix t) (a_CodeLockedUntil a) ∧
  (1 ≤ n → base + waited (Z.to_nat ((n - 1) / 5)) ≤ unix t).

Lemma unix_mono s t : s ≤ t → unix s ≤ unix t.
Proof. intros. apply Z.div_le_mono; [unfold Second; lia|done]. Qed.
Lemma unix_add t k : unix (t + k * Second) = unix t + k.
Proof. unfold unix. apply Z.div_add. unfold Second. lia. Qed.

Lemma slowed_later base n t t' a : t ≤ t' → slowed base n t a → slowed base n t' a.
Proof. intros Ht%unix_mono (H1 & H2 & H3 & H4). unfold slowed. split_and!; [done|done|lia|lia]. Qed.

Lemma slowed_wrong base n now a :
  0 ≤ now → a_CodeLockedUntil a ≤ unix now → slowed base n now a →
  let m := n + 1 in
  let locked := if m mod 5 =? 0 then unix (now + lockout m) else 0 in
  slowed base m now (a <| a_CodeFailures := m |> <| a_CodeLockedUntil := if 0 <? locked then locked else a_CodeLockedUntil a |>).
Proof.
  intros Hnow Hl (Hf & Hn & Hw & _). cbv zeta. assert (base + waited (Z.to_nat (n / 5)) ≤ unix now) as Hw' by lia.
  unfold slowed. cbn [a_CodeFailures a_CodeLockedUntil upd]. replace (n + 1 - 1) with n by lia. split_and!; [done|lia| |done].
  destruct (Z.eqb_spec ((n + 1) mod 5) 0) as [E|E].
  - assert ((n + 1) / 5 = n / 5 + 1) as Ed by div_lia. assert (0 ≤ n / 5) by (apply Z.div_pos; lia).
    assert (n + 1 = 5 * Z.of_nat (S (Z.to_nat (n / 5)))) as E5 by div_lia.
    assert (lockout (n + 1) = lock_seconds (S (Z.to_nat (n / 5))) * Second) as -> by (rewrite E5 at 1; apply lockout_seconds; lia).
    rewrite unix_add, Ed. replace (Z.to_nat (n / 5 + 1)) with (S (Z.to_nat (n / 5))) by lia. cbn [waited].
    pose proof (lock_seconds_bounds (S (Z.to_nat (n / 5)))). assert (0 ≤ unix now) by (apply Z.div_pos; [done|unfold Second; lia]).
    replace (0 <? _) with true by lia. lia.
  - assert ((n + 1) / 5 = n / 5) as -> by div_lia. cbn. lia.
Qed.

Lemma guessing_step base n t now o db a :
  auth_wf db → legal o → 0 ≤ t → t ≤ now → db_admin db = Some a → slowed base n t a → unaccepted [(now, o)] db →
  ∃ a', db_admin (auth_step now o db).2 = Some a' ∧ slowed base (n + if wrong_code now o db then 1 else 0) now a'.
Proof.
  intros Hwf Hl H0 Ht Ha Hs [Hu _]. destruct (admin_cases now o db a Hwf Hl Ha) as (a' & Ha' & Hc). exists a'. split; [done|].
  apply (slowed_later _ _ _ now) in Hs; [|done].
  destruct Hc as [Hw|h sh scope verify Ho Hok Hlock|h sh scope verify ? ? Ho Hok|? ? ? ? ? ? ? Ho Hok|? ? ? ? ? ? ? Ho Hok];
    try (subst o; done).
  - by rewrite Hw, Z.add_0_r.
  - assert (wrong_code now o db = true) as -> by (unfold wrong_code; subst o; by rewrite Hok).
    pose proof (proj1 Hs) as <-. apply slowed_wrong; [lia|done|done].
Qed.

Lemma guessing base n t ops db a :
  auth_wf db → Forall (λ op, legal op.2) ops → 0 ≤ t → ordered t ops → db_admin db = Some a → slowed base n t a → unaccepted ops db →
  ∃ a', db_admin (run_auth ops db) = Some a' ∧ slowed base (n + wrong_codes ops db) (end_time t ops) a'.
Proof.
  revert n t db a. induction ops as [|[now o] ops IH]; intros n t db a Hwf Hl H0 Ho Ha Hs Hu.
  { exists a. cbn. by rewrite Z.add_0_r. }
  apply Forall_cons in Hl as [Hl1 Hl]. destruct Ho as [Ht Ho], Hu as [Hu1 Hu].
  destruct (guessing_step base n t now o db a) as (a1 & Ha1 & Hs1); [done..|]. cbn [run_auth wrong_codes end_time].
  rewrite Z.add_assoc. eapply IH; [by apply auth_step_wf|done|lia|done|done|done|done].
Qed.
End guessing.

(** C37. Codes cannot be guessed quickly, across tokens, sign-ins and
    restarts.  From an administrator with no failure counted and no lock
    running, over any sequence of operations in the order of their times in
    which no code is accepted at sign-in and no enrolment is confirmed (either
    one clears the count, and the bound starts anew), the number [n] of wrong
    codes that were checked satisfies [3600 * ((n - 1) / 5) ≤ elapsed + 17820]
    seconds: about 145 guesses in the first day and 120 on every later one. *)
Theorem code_guessing_is_slow {pc : PendingCodec} ops db a t0 :
  auth_wf db → Forall (λ op, legal op.2) ops → 0 ≤ t0 → ordered t0 ops → unaccepted ops db →
  db_admin db = Some a → a_CodeFailures a = 0 → a_CodeLockedUntil a ≤ unix t0 →
  3600 * ((wrong_codes ops db - 1) / 5) ≤ unix (end_time t0 ops) - unix t0 + 17820.
Proof.
  intros Hwf Hl H0 Ho Hu Ha Hf Hlock.
  destruct (guessing (unix t0) 0 t0 ops db a) as (a' & _ & _ & Hn & _ & Hw); try done.
  { split_and!; [done|lia| |lia]. change (waited _) with 0. lia. }
  rewrite Z.add_0_l in *. generalize dependent (wrong_codes ops db). intros n Hn Hw.
  assert (unix t0 ≤ unix (end_time t0 ops)).
  { apply unix_mono. clear -Ho. revert t0 Ho. induction ops as [|[now o] ops IH]; intros t; cbn; [lia|].
    intros [Ht Ho]. etrans; [exact Ht|by apply IH]. }
  destruct (Z.le_gt_cases 1 n) as [H1|H1]; [|assert (n = 0) as -> by lia; change ((0 - 1) / 5) with (-1); lia].
  specialize (Hw H1). pose proof (waited_bound (Z.to_nat ((n - 1) / 5))) as Hb.
  rewrite Z2Nat.id in Hb by (apply Z.div_pos; lia). lia.
Qed.

(** An administrator with a second factor, for the examples. *)
Definition sample_enrolment (kind password : string) (step : Z) : string → res store_error Confirmed :=
  λ _, Ok (mkConfirmed (mkEnrolment kind "a@b.c" password "" "scope" []) "sealed secret" step).
Definition enrolled : list (time * auth_op) :=
  [(at_second 0, ANewSetupToken "T"); (at_second 5, ABeginEnrolment "T" "E" "payload");
   (at_second 9, AConfirmEnrolment "E" "S" "scope" "r" (sample_enrolment "setup" "hash" 100))].
Definition enrolled_db : DB := run_auth (pc := sample_pending) enrolled empty_db.
Lemma enrolled_wf : auth_wf enrolled_db.
Proof. apply run_auth_wf; [repeat constructor|apply empty_auth_wf]. Qed.


Definition six_wrong : list (time * auth_op) :=
  (at_second 20, ABeginPending "Q" "hash" "scope") ::
  map (λ n, (at_second (20 + Z.of_nat n), AConfirmPending "Q" "S1" "scope" (λ _ _, Err ErrCode))) (seq 1 6) ++
  [(at_second 90, ABeginPending "Q2" "hash" "scope"); (at_second 91, AConfirmPending "Q2" "S1" "scope" (λ _ _, Err ErrCode))].
Lemma code_guessing_is_slow_witness :
  let pc := sample_pending in
  wrong_codes six_wrong enrolled_db = 6 ∧
  3600 * ((wrong_codes six_wrong enrolled_db - 1) / 5) ≤ unix (end_time (at_second 10) six_wrong) - unix (at_second 10) + 17820.
Proof.
  cbv zeta. set (pc := sample_pending). split; [vm_compute; reflexivity|].
  apply (code_guessing_is_slow six_wrong enrolled_db (mkAdmin "a@b.c" "hash" 1800000009 (Some "sealed secret") 100 0 0)).
  - apply enrolled_wf.
  - unfold six_wrong. cbn. repeat constructor.
  - done.
  - vm_compute. intuition discriminate.
  - vm_compute. intuition discriminate.
  - vm_compute. reflexivity.
  - reflexivity.
  - vm_compute. discriminate.
Defined.

Lemma parent_is_reset t db db' r :
  auth_wf db → parent_purpose t db = "reset" → grows [] (db_tokens db) (db_tokens db') →
  In r (db_tokens db') → t_ID r = parent_id t → t_Purpose r = "reset".
Proof.
  unfold parent_purpose, parent_id. intros Hwf Hp Hg Hr. destruct (t_Parent t) as [id|]; [|done]. cbn. intros Hid.
  destruct (sql_find _ _) as [q|] eqn:E; [|done]. apply sql_find_some in E as [Hq Hc]. unfold token_id in Hc. bool_simpl.
  destruct (Hg r Hr) as [(r0 & Hr0 & Ev)|[]]. rewrite (ev_purpose _ _ Ev). rewrite (ev_id _ _ Ev) in Hid.
  assert (r0 = q) as -> by (eapply (NoDup_map_inj t_ID); [apply Hwf|done|done|congruence]). done.
Qed.

(** C38. A reset of access revokes everything that came before it: once its
    code is confirmed, the only session is the new one, no earlier password
    step, enrolment or reset token can be used any more, the password is the
    new one, and codes are unlocked for the new factor. *)
Theorem reset_revokes_everything h sh scope rid now verify db email db' :
  auth_wf db → (∀ p c, verify p = Ok c → en_Kind (c_Enrolment c) = "reset") →
  ConfirmEnrolment h sh scope rid now verify db = (Ok email, db') →
  db_sessions db' = [mkSession sh scope (unix (now + sessionTTL))] ∧
  (∀ t n, In t (db_tokens db') → t_Purpose t = "pending" ∨ t_Purpose t = "enrol" ∨ t_Purpose t = "reset" → live n t = false) ∧
  ∃ p c a, verify p = Ok c ∧ db_admin db' = Some a ∧ a_PasswordHash a = en_PasswordHash (c_Enrolment c) ∧
    a_TotpSecretSealed a = Some (c_SecretSealed c) ∧ a_CodeLockedUntil a = 0 ∧ maintenance db = false.
Proof.
  intros Hwf Hv E. apply ConfirmEnrolment_outcome in E.
  inversion E as [|? ? ? ? ?|? ? ?|t db1 c db2 db3 a Eu Ev _ Hk Hg Es Ea]; subst; try done.
  pose proof (Hv _ _ Ev) as Hkind. inversion Hk as [? Hk'|? ? Hk'|d2 a1 Hk' Hp Ha1 Hnew Hm Hd Hs Ht Hr]; subst; try congruence.
  unfold addSession in Es. apply insert_session_rows in Es as (Eadm & Esess & Etok).
  change (db_admin (prune_sessions ?x ?y ?z)) with (db_admin z) in Eadm. rewrite (proj1 (announce_frame _ _ _ _)) in Eadm.
  assert (db_tokens db3 = db_tokens db2) as Et by (rewrite Etok; apply announce_frame).
  split_and!.
  - cbn. rewrite Esess. unfold prune_sessions. cbn [db_sessions upd].
    by rewrite (proj1 (proj2 (announce_frame _ _ _ _))), Hs.
  - intros t2 n (t3 & H3 & ->)%in_sql_update. rewrite Et in H3. unfold token_id.
    destruct (Z.eqb_spec (t_ID t3) (t_ID t)) as [|Hne]; [done|]. intros Hpur.
    assert (t_Purpose t3 = "reset") as Hres.
    { destruct (decide (t_ID t3 = parent_id t)) as [Hpar|Hpar].
      - eapply parent_is_reset; [by eapply use_wf|done|done|done|done].
      - destruct (Ht t3 H3 Hne Hpar) as (? & ? & ?). destruct Hpur as [?|[?|?]]; congruence. }
    unfold live. by rewrite (Hr t3 H3 Hres).
  - exists (t_Payload t), c, a. rewrite Eadm in Ea. cbn. rewrite Eadm. rewrite Hd in Ea. injection Ea as <-.
    split_and!; try done. unfold maintenance in *. by rewrite <- (use_metadata _ _ _ _ _ _ Eu).
Qed.
Lemma reset_revokes_everything_witness :
  let pc := sample_pending in
  let db := run_auth [(at_second 20, ABeginPending "Q" "hash" "scope"); (at_second 30, ANewResetToken "R");
    (at_second 31, ABeginReset "R" "E2" "payload")] enrolled_db in
  db_sessions (ConfirmEnrolment "E2" "S9" "scope" "r" (at_second 40) (sample_enrolment "reset" "hash2" 200) db).2 =
    [mkSession "S9" "scope" (unix (at_second 40 + sessionTTL))].
Proof.
  cbv zeta. set (pc := sample_pending).
  eapply (reset_revokes_everything "E2" "S9" "scope" "r" (at_second 40) (sample_enrolment "reset" "hash2" 200) _ "a@b.c").
  - apply (run_auth_wf (pc := pc) [(at_second 20, ABeginPending "Q" "hash" "scope"); (at_second 30, ANewResetToken "R");
      (at_second 31, ABeginReset "R" "E2" "payload")]); [repeat constructor|apply enrolled_wf].
  - by intros p c [= <-].
  - vm_compute. reflexivity.
Defined.

(** ** Signing in works *)

Lemma Hash_ascii s : ascii_text (Hash s) = true.
Proof.
  unfold Hash, sha256, hex, ascii_text.
  assert (Forall is_byte (concat (map (be_bytes 4) (fold_left block256 (blocks (bytes s)) h256)))) as Hb.
  { apply Forall_concat, Forall_map, Forall_forall. intros x _. apply be_bytes_bytes. }
  induction Hb as [|x l Hx _ IH]; [done|]. cbn [map concat]. cbn [app String.string_of_list_ascii sforall].
  rewrite IH, andb_true_r. unfold is_byte in Hx.
  assert (∀ n, 0 ≤ n < 16 → (nat_of_ascii (hex_digit n) <? 128)%nat = true) as Hd.
  { intros n Hn. unfold hex_digit. apply Nat.ltb_lt. destruct (Z.ltb_spec n 10); rewrite nat_ascii_embedding; lia. }
  rewrite !Hd by div_lia. done.
Qed.

Lemma use_fresh purpose h now l t db :
  db_tokens db = l ++ [t] → (∀ x, In x l → t_Hash x ≠ h) → usable purpose h (unix now) t = true →
  use purpose h now db = Ok (t <| t_Attempts := t_Attempts t + 1 |>,
    db <| db_tokens := l ++ [t <| t_Attempts := t_Attempts t + 1 |>] |>).
Proof.
  intros El Hl Ht. unfold use. rewrite El.
  assert (∀ x, In x l → usable purpose h (unix now) x = false) as Hx.
  { intros x Hin. unfold usable, token_hash. by rewrite bool_decide_false by auto. }
  rewrite sql_count_app, sql_count_one, Ht, (proj2 (sql_count_zero _ _)) by done. cbn [Z.add Z.eqb rbind Pos.eqb].
  cbn [db_tokens upd].
  assert (sql_update (usable purpose h (unix now)) (λ t, t <| t_Attempts := t_Attempts t + 1 |>) (l ++ [t]) =
    l ++ [t <| t_Attempts := t_Attempts t + 1 |>]) as Eup.
  { unfold sql_update. rewrite map_app. cbn [map]. rewrite Ht. f_equal. by apply sql_update_id. }
  rewrite Eup, sql_find_snoc; [done| |].
  - intros x Hin. unfold token_hash. by rewrite bool_decide_false by auto.
  - unfold usable, token_hash in *. bool_simpl. by apply bool_decide_eq_true.
Qed.

(** Signing in with a second factor succeeds: after a password step
    recorded for the current password, a right code within five minutes,
    while codes are not locked, opens the session that was asked for, and that
    session is accepted for the next twelve hours. *)
Theorem sign_in_completes {pc : PendingCodec} {laws : PendingCodecLaws pc} db db1 a secret h token scope now now' verify step n :
  BeginPending h (a_PasswordHash a) scope now db = (Ok tt, db1) →
  db_admin db = Some a → a_TotpSecretSealed a = Some secret → a_CodeLockedUntil a ≤ unix now' →
  unix now' < unix (now + pendingTTL) → verify secret (a_TotpLastStep a) = Ok step → a_TotpLastStep a < step →
  (∀ s, In s (db_sessions db) → se_Hash s ≠ Hash token) → ascii_text scope = true → unix n < unix (now' + sessionTTL) →
  ∃ db', ConfirmPending h (Hash token) scope now' verify db1 = (Ok (a_Email a), db') ∧
    ReadSession token scope n db' = Ok (mkSessionView (a_Email a) (unix (now' + sessionTTL)) "" "").
Proof.
  intros Hb Ha Hs Hlock Hexp Hv Hstep Hfresh Hsc Hn. unfold BeginPending, atomically in Hb. cbv zeta in Hb.
  destruct (issue _ _ _ _ _ _ _ _) as [[id db1']|] eqn:E; [|done]. injection Hb as <-.
  apply issue_tokens in E as (_ & E & Hhash & _). cbv zeta in E. cbn [snd].
  set (tok := mkAuthToken _ "pending" h _ _ _ _ _ _ _) in E.
  assert (db_admin db1' = Some a ∧ db_sessions db1' = db_sessions db) as [Ha1 Hs1] by (rewrite E; done).
  unfold ConfirmPending, atomically. rewrite Ha1. replace (unix now' <? _) with false by lia. cbn [negb].
  assert (usable "pending" h (unix now') tok = true) as Hu.
  { unfold usable, token_hash, of_purpose, live, unconsumed, tok. cbn [t_Hash t_Purpose t_ConsumedAt t_ExpiresAt t_Attempts t_MaxAttempts].
    rewrite !bool_decide_true by done. apply Z.ltb_lt in Hexp. by rewrite Hexp. }
  rewrite (use_fresh "pending" h now' _ tok db1' ltac:(by rewrite E) Hhash Hu).
  assert (bound (tok <| t_Attempts := t_Attempts tok + 1 |>) a scope = true) as ->.
  { unfold bound. change (t_Payload _) with (marshal_pending (mkPendingPayload (Hash (a_PasswordHash a)) scope)).
    rewrite pending_roundtrip by (done || apply Hash_ascii). cbn [pp_Binding pp_Scope]. by rewrite !bool_decide_true. }
  rewrite Hs, Hv. replace (_ <? step) with true by lia. cbn [negb].
  set (d := _ <| db_admin := Some _ |>).
  assert (addSession (Hash token) scope now' d =
    Ok ((prune_sessions scope now' d) <| db_sessions := db_sessions (prune_sessions scope now' d) ++
      [mkSession (Hash token) scope (unix (now' + sessionTTL))] |>)) as ->.
  { unfold addSession, insert_session, sql_insert. rewrite (proj2 (sql_exists_false _ _)); [reflexivity|].
    intros s [Hin _]%in_sql_delete. unfold session_hash. apply bool_decide_eq_false, Hfresh. rewrite <- Hs1. exact Hin. }
  cbn [rbind]. eexists. split; [reflexivity|]. unfold ReadSession. cbn [db_sessions db_admin upd consume].
  rewrite sql_find_snoc; [reflexivity| |].
  - intros s [Hin _]%in_sql_delete. unfold valid_session, session_hash. rewrite bool_decide_false; [done|].
    apply Hfresh. rewrite <- Hs1. exact Hin.
  - unfold valid_session, session_hash. cbn. rewrite !bool_decide_true by done. cbn. lia.
Qed.
Lemma sign_in_completes_witness :
  let pc := sample_pending in
  ∃ db', ConfirmPending "Q" (Hash "session") "scope" (at_second 25) (λ _ _, Ok 101)
      (BeginPending "Q" "hash" "scope" (at_second 20) enrolled_db).2 = (Ok "a@b.c", db') ∧
    ReadSession "session" "scope" (at_second 3000) db' = Ok (mkSessionView "a@b.c" (unix (at_second 25 + sessionTTL)) "" "").
Proof.
  cbv zeta. set (pc := sample_pending).
  apply (sign_in_completes (pc := pc) (laws := sample_pending_laws) enrolled_db _
    (mkAdmin "a@b.c" "hash" 1800000009 (Some "sealed secret") 100 0 0) "sealed secret" "Q" "session" "scope"
    (at_second 20) (at_second 25) (λ _ _, Ok 101) 101 (at_second 3000)); try (vm_compute; done).
  vm_compute. intros s [<-|[]]. discriminate.
Defined.
