(* ===== verification/AlertStore.v ===== *)
(** * Alert conditions and events in management storage ([internal/store/alerts.go])

    A condition is one row per key that remembers what is true now and what
    the receiver last heard; an event is a one-shot row.  Every operation is
    one transaction or one statement on [Schema.DB]. *)

From S2P Require Import Prelude GoStrings GoTime Schema.

Definition AlertRepeat : duration := 24 * Hour.
Definition AlertClearAfter : duration := 10 * Minute.
Definition AlertEventMaxAge : duration := 24 * Hour.
Definition AlertWebhookSetting : string := "alerts_webhook".

(** A condition as the engine reports it: the first five columns. *)
Record Condition := mkCondition {
  cn_Key : string; cn_Kind : string; cn_Source : string; cn_Summary : string; cn_Detail : string }.
#[export] Instance Condition_eq_dec : EqDecision Condition.
Proof. solve_decision. Defined.

Definition with_key (k : string) (c : AlertCondition) : bool := bool_decide (ac_Key c = k).
Definition sent (s : string) (c : AlertCondition) : bool := bool_decide (ac_SentState c = s).

(** ** Reconciling *)

(** [CASE WHEN active=1 OR clear_since IS NOT NULL AND ?-clear_since < ? THEN first_seen_at ELSE excluded.first_seen_at END] *)
Definition seen_again (c : Condition) (now : Z) (r : AlertCondition) : AlertCondition :=
  let continues := ac_Active r || match ac_ClearSince r with
    | Some s => now - s <? AlertClearAfter / Second | None => false end in
  mkAlertCondition (ac_Key r) (cn_Kind c) (cn_Source c) (cn_Summary c) (cn_Detail c) true
    (if continues then ac_FirstSeenAt r else now) now None (ac_LastFiredAt r) (ac_SentState r).
Definition first_seen (c : Condition) (now : Z) : AlertCondition :=
  mkAlertCondition (cn_Key c) (cn_Kind c) (cn_Source c) (cn_Summary c) (cn_Detail c) true now now None None "".

Definition note_active (now : Z) (t : list AlertCondition) (c : Condition) : list AlertCondition :=
  sql_upsert (with_key (cn_Key c)) (first_seen c now) (seen_again c now) t.

(** [SELECT DISTINCT source … WHERE active=0 AND sent_state='firing'] *)
Definition awaiting (c : AlertCondition) : bool := negb (ac_Active c) && sent "firing" c.
Definition allSources (t : list AlertCondition) : list string := map ac_Source (sql_select awaiting t).

Definition restart_wait (checked : string → bool) (now : Z) (t : list AlertCondition) : list AlertCondition :=
  fold_left (λ t source,
    if checked source then t
    else sql_update (λ c, awaiting c && bool_decide (ac_Source c = source)) (λ c, c <| ac_ClearSince := Some now |>) t)
    (allSources t) t.

Definition clear_key (now : Z) (t : list AlertCondition) (k : string) : list AlertCondition :=
  sql_update (with_key k) (λ c, c <| ac_Active := false |> <| ac_ClearSince := Some now |>) t.

Definition long_resolved (now : time) (c : AlertCondition) : bool :=
  negb (ac_Active c) && negb (sent "firing" c) &&
  match ac_ClearSince c with Some s => s <? unix (now - 30 * 24 * Hour) | None => false end.

Definition old_event (now : time) (e : AlertEvent) : bool :=
  match ae_SentAt e with
  | Some s => s <? unix (now - 30 * 24 * Hour)
  | None => ae_CreatedAt e <? unix (now - AlertEventMaxAge)
  end.

(** [seen[key]] *)
Definition is_seen (active : list Condition) (k : string) : bool := List.existsb (λ c, bool_decide (cn_Key c = k)) active.

Definition reconcile_conditions (active : list Condition) (checked : string → bool) (now : time)
  (t : list AlertCondition) : list AlertCondition :=
  let t1 := fold_left (note_active (unix now)) active t in
  let clear := map ac_Key (sql_select (λ c, ac_Active c && (negb (is_seen active (ac_Key c)) && checked (ac_Source c))) t1) in
  let t2 := restart_wait checked (unix now) t1 in
  let t3 := fold_left (clear_key (unix now)) clear t2 in
  sql_delete (long_resolved now) t3.

Definition ReconcileAlerts (active : list Condition) (checked : string → bool) (now : time) (db : DB) : DB :=
  db <| db_conditions := reconcile_conditions active checked now (db_conditions db) |>
     <| db_events := sql_delete (old_event now) (db_events db) |>.

(** ** Sending *)

Record Outgoing := mkOutgoing {
  o_Key : string; o_Kind : string; o_State : string; o_Summary : string; o_Detail : string; o_EventID : Z; o_At : Z }.

Definition due_firing (now : time) (c : AlertCondition) : bool :=
  ac_Active c && match ac_LastFiredAt c with Some t => t <=? unix (now - AlertRepeat) | None => true end.
Definition due_resolved (now : time) (c : AlertCondition) : bool :=
  awaiting c && match ac_ClearSince c with Some s => s <=? unix (now - AlertClearAfter) | None => false end.

Definition outgoing_condition (c : AlertCondition) : Outgoing :=
  mkOutgoing (ac_Key c) (ac_Kind c) (if ac_Active c then "firing" else "resolved") (ac_Summary c) (ac_Detail c) 0 (ac_LastSeenAt c).
Definition outgoing_event (e : AlertEvent) : Outgoing :=
  mkOutgoing (ae_Key e) (ae_Kind e) "event" (ae_Summary e) (ae_Detail e) (ae_ID e) (ae_CreatedAt e).

(** Rows first seen at the same second come in any order in SQL; the model takes the table's. *)
Definition AlertsToSend (now : time) (db : DB) : list Outgoing :=
  map outgoing_condition (sql_order (key_leb ac_FirstSeenAt Z.leb)
    (sql_select (λ c, due_firing now c || due_resolved now c) (db_conditions db))) ++
  map outgoing_event (sql_order (key_leb ae_ID Z.leb)
    (sql_select (λ e, bool_decide (ae_SentAt e = None) && (unix (now - AlertEventMaxAge) <=? ae_CreatedAt e)) (db_events db))).

Definition event_id (id : Z) (e : AlertEvent) : bool := ae_ID e =? id.

Definition MarkAlertSent (o : Outgoing) (now : time) (db : DB) : DB :=
  if bool_decide (o_State o = "event") then
    db <| db_events := sql_update (event_id (o_EventID o))
            (λ e, e <| ae_SentAt := Some (unix now) |> <| ae_Attempts := ae_Attempts e + 1 |>) (db_events db) |>
  else if bool_decide (o_State o = "firing") then
    db <| db_conditions := sql_update (with_key (o_Key o))
            (λ c, c <| ac_SentState := "firing" |> <| ac_LastFiredAt := Some (unix now) |>) (db_conditions db) |>
  else
    db <| db_conditions := sql_update (λ c, with_key (o_Key o) c && negb (ac_Active c))
            (λ c, c <| ac_SentState := "resolved" |>) (db_conditions db) |>.

Definition AlertAttemptFailed (o : Outgoing) (db : DB) : DB :=
  if bool_decide (o_State o = "event") then
    db <| db_events := sql_update (event_id (o_EventID o)) (λ e, e <| ae_Attempts := ae_Attempts e + 1 |>) (db_events db) |>
  else db.

Definition forget_sent (t : list AlertCondition) : list AlertCondition :=
  sql_update ac_Active (λ c, c <| ac_SentState := "" |> <| ac_LastFiredAt := None |>) t.
Definition ResetAlertDelivery (db : DB) : DB := db <| db_conditions := forget_sent (db_conditions db) |>.

(** [ORDER BY active DESC, first_seen_at DESC LIMIT 200] *)
Definition condition_order : bool * Z → bool * Z → bool := rev_leb (lex_leb implb Z.leb).
Definition AlertConditions (db : DB) : list AlertCondition :=
  take 200 (sql_order (key_leb (λ c, (ac_Active c, ac_FirstSeenAt c)) condition_order) (db_conditions db)).

Definition SetAlertWebhook (sealed : string) (receiverChanged : bool) (now : time) (db : DB) : DB :=
  let db1 := SetSetting AlertWebhookSetting sealed now db in
  if receiverChanged then
    db1 <| db_conditions := sql_update (λ c, negb (ac_Active c)) (λ c, c <| ac_SentState := "" |>)
             (forget_sent (db_conditions db1)) |>
  else db1.

(** ** Reconciling, row by row *)

Definition mark_clear (now : Z) (c : AlertCondition) : AlertCondition := c <| ac_Active := false |> <| ac_ClearSince := Some now |>.
Definition wait_again (now : Z) (c : AlertCondition) : AlertCondition := c <| ac_ClearSince := Some now |>.

(** What a pass does to a row whose key it did not see. *)
Definition unseen_row (checked : string → bool) (now : Z) (c : AlertCondition) : AlertCondition :=
  if ac_Active c then (if checked (ac_Source c) then mark_clear now c else c)
  else if awaiting c && negb (checked (ac_Source c)) then wait_again now c else c.
(** What it does to the row, if any, of a key it saw. *)
Definition seen_row (now : Z) (r : option AlertCondition) (c : Condition) : option AlertCondition :=
  Some (match r with Some r => seen_again c now r | None => first_seen c now end).

Definition row_step (active : list Condition) (checked : string → bool) (now : time) (k : string) (r : option AlertCondition) :
  option AlertCondition :=
  match List.filter (λ c, bool_decide (cn_Key c = k)) active with
  | [] => r ≫= λ r, let r' := unseen_row checked (unix now) r in if long_resolved now r' then None else Some r'
  | cs => fold_left (seen_row (unix now)) cs r
  end.

Lemma restart_wait_rows checked now t :
  restart_wait checked now t =
    map (λ c, if awaiting c && negb (checked (ac_Source c)) then wait_again now c else c) t.
Proof.
  unfold restart_wait.
  assert (∀ ss l, fold_left (λ t source, if checked source then t
      else sql_update (λ c, awaiting c && bool_decide (ac_Source c = source)) (λ c, c <| ac_ClearSince := Some now |>) t) ss l =
    map (λ c, if awaiting c && negb (checked (ac_Source c)) && List.existsb (λ s, bool_decide (ac_Source c = s)) ss
      then wait_again now c else c) l) as H.
  { induction ss as [|s ss IH]; intros l; cbn [fold_left].
    { rewrite <- (map_id l) at 1. apply map_ext. intros c. by rewrite andb_false_r. }
    rewrite IH. destruct (checked s) eqn:Es.
    - apply map_ext. intros c. cbn [List.existsb]. case_bool_decide as E; [|done]. subst s. by rewrite Es, andb_false_r.
    - unfold sql_update. rewrite List.map_map. apply map_ext. intros c. cbn [List.existsb].
      destruct (awaiting c && bool_decide (ac_Source c = s)) eqn:Ec.
      + bool_simpl. subst s. rewrite H, Es, bool_decide_true by done. cbn.
        match goal with |- (if ?b then _ else _) = _ => by destruct b end.
      + destruct (awaiting c) eqn:Ea; [|done]. cbn in Ec. by rewrite Ec. }
  rewrite H. apply map_ext_in. intros c Hc. destruct (awaiting c) eqn:Ea; [|done]. cbn.
  assert (List.existsb (λ s, bool_decide (ac_Source c = s)) (allSources t) = true) as ->; [|by rewrite andb_true_r].
  apply List.existsb_exists. exists (ac_Source c). split; [|by apply bool_decide_eq_true].
  apply in_map, in_sql_select. done.
Qed.

Lemma clear_keys_rows now ks t :
  fold_left (clear_key now) ks t = map (λ c, if bool_decide (ac_Key c ∈ ks) then mark_clear now c else c) t.
Proof.
  revert t. induction ks as [|k ks IH]; intros t; cbn [fold_left].
  { rewrite <- (map_id t) at 1. apply map_ext. intros c. by rewrite bool_decide_false by apply not_elem_of_nil. }
  rewrite IH. unfold clear_key, sql_update. rewrite List.map_map. apply map_ext. intros c. unfold with_key.
  destruct (decide (ac_Key c = k)) as [<-|Hk].
  - rewrite (bool_decide_true (ac_Key c = ac_Key c)), (bool_decide_true (ac_Key c ∈ ac_Key c :: ks)) by (done || left).
    by destruct (bool_decide _).
  - rewrite (bool_decide_false (ac_Key c = k)) by done.
    by rewrite (bool_decide_ext (ac_Key c ∈ ks) (ac_Key c ∈ k :: ks)) by (rewrite elem_of_cons; naive_solver).
Qed.

Definition keys_unique (t : list AlertCondition) : Prop := NoDup (map ac_Key t).
Definition row (k : string) (t : list AlertCondition) : option AlertCondition := sql_find (with_key k) t.

Lemma with_key_true k c : with_key k c = true ↔ ac_Key c = k.
Proof. apply bool_decide_eq_true. Qed.

Lemma note_active_row now t c k :
  row k (note_active now t c) = if bool_decide (cn_Key c = k) then seen_row now (row k t) c else row k t.
Proof.
  unfold row, note_active. case_bool_decide as E.
  - subst k. rewrite sql_find_upsert; [done|by apply with_key_true|]. intros r. by rewrite !with_key_true.
  - apply sql_find_upsert_other; unfold with_key; cbn; intros; rewrite ?bool_decide_eq_true in *;
      apply bool_decide_eq_false; cbn; congruence.
Qed.
Lemma note_active_unique now t c : keys_unique t → keys_unique (note_active now t c).
Proof. apply NoDup_map_upsert; [|done]. intros r. cbn. apply with_key_true. Qed.

Lemma note_all_row now active t k :
  row k (fold_left (note_active now) active t) =
    fold_left (seen_row now) (List.filter (λ c, bool_decide (cn_Key c = k)) active) (row k t).
Proof.
  revert t. induction active as [|c active IH]; intros t; [done|]. cbn [fold_left List.filter].
  rewrite IH, note_active_row. by case_bool_decide.
Qed.
Lemma note_all_unique now active t : keys_unique t → keys_unique (fold_left (note_active now) active t).
Proof. revert t. induction active as [|c active IH]; intros t H; [done|]. cbn. by apply IH, note_active_unique. Qed.

Lemma row_map (f : AlertCondition → AlertCondition) k t :
  (∀ c, ac_Key (f c) = ac_Key c) → row k (map f t) = f <$> row k t.
Proof.
  intros H. unfold row, sql_find. induction t as [|c t IH]; [done|]. cbn. unfold with_key at 1. rewrite H.
  fold (with_key k c). by destruct (with_key k c).
Qed.
Lemma row_delete p k t : keys_unique t →
  row k (sql_delete p t) = row k t ≫= λ c, if p c then None else Some c.
Proof.
  unfold row, sql_find, sql_delete, keys_unique. induction t as [|c t IH]; [done|]. cbn. intros [Hn Ht]%NoDup_cons.
  destruct (with_key k c) eqn:Ek; cbn.
  - destruct (p c) eqn:Ep; cbn; [|by rewrite Ek]. rewrite IH by done.
    destruct (List.find (with_key k) t) as [r|] eqn:Ef; [|done]. apply find_some in Ef as [Hr Hk].
    apply with_key_true in Hk, Ek. destruct Hn. rewrite Ek, <- Hk. apply list_elem_of_In, in_map, Hr.
  - destruct (p c); cbn; rewrite ?Ek; by apply IH.
Qed.
Lemma row_in k t c : keys_unique t → row k t = Some c ↔ In c t ∧ ac_Key c = k.
Proof.
  intros Hu. split.
  - intros [Hin Hk]%sql_find_some. by rewrite with_key_true in Hk.
  - intros [Hin <-]. apply (sql_find_unique ac_Key); [done|apply with_key_true|done].
Qed.

Lemma seen_fold now cs r : cs ≠ [] → ∃ c, fold_left (seen_row now) cs r = Some c ∧ ac_Active c = true.
Proof.
  revert r. induction cs as [|c cs IH]; intros r Hn; [done|]. cbn [fold_left]. destruct cs as [|c' cs]; [|by apply IH].
  cbn. by destruct r; eexists.
Qed.

Lemma is_seen_filter active k :
  is_seen active k = match List.filter (λ c, bool_decide (cn_Key c = k)) active with [] => false | _ => true end.
Proof.
  induction active as [|c active IH]; [done|]. cbn. by case_bool_decide.
Qed.

(** After noting what is active, each row is cleared, waits again, or stays. *)
Definition settle_row (seen checked : string → bool) (now : Z) (c : AlertCondition) : AlertCondition :=
  if ac_Active c && negb (seen (ac_Key c)) && checked (ac_Source c) then mark_clear now c
  else if awaiting c && negb (checked (ac_Source c)) then wait_again now c else c.

Lemma settle_rows seen checked now t : keys_unique t →
  fold_left (clear_key now) (map ac_Key (sql_select (λ c, ac_Active c && (negb (seen (ac_Key c)) && checked (ac_Source c))) t))
    (restart_wait checked now t) = map (settle_row seen checked now) t.
Proof.
  intros Hu. rewrite clear_keys_rows, restart_wait_rows, List.map_map. apply map_ext_in. intros c Hc. unfold settle_row.
  set (ks := map ac_Key _).
  assert (ac_Key c ∈ ks ↔ ac_Active c && negb (seen (ac_Key c)) && checked (ac_Source c) = true) as Hks.
  { unfold ks. rewrite list_elem_of_In, in_map_iff. setoid_rewrite in_sql_select. rewrite <- andb_assoc. split.
    - intros (c' & Hk & Hc' & H'). replace c with c' by (eapply (NoDup_map_inj ac_Key); done). done.
    - intros H'. exists c. auto. }
  destruct (awaiting c && negb (checked (ac_Source c))) eqn:Ea.
  - assert (ac_Key c ∉ ks) as Hn.
    { rewrite Hks. bool_simpl. unfold awaiting in *. bool_simpl. destruct (ac_Active c); [done|]. done. }
    rewrite bool_decide_false by done. destruct (_ && checked _) eqn:E; [|done]. by destruct Hn; apply Hks.
  - destruct (_ && checked _) eqn:E; [rewrite bool_decide_true by by apply Hks|rewrite bool_decide_false by (rewrite Hks; congruence)]; done.
Qed.

Lemma settle_key seen checked now c : ac_Key (settle_row seen checked now c) = ac_Key c.
Proof. unfold settle_row. destruct (_ && checked _); [done|]. by destruct (_ && negb _). Qed.

Lemma reconcile_unique active checked now t : keys_unique t → keys_unique (reconcile_conditions active checked now t).
Proof.
  intros Hu. unfold reconcile_conditions. cbv zeta. rewrite settle_rows by by apply note_all_unique.
  apply NoDup_map_sql_delete. rewrite List.map_map. rewrite (map_ext _ ac_Key) by (intros; apply settle_key).
  by apply note_all_unique.
Qed.

Lemma reconcile_row active checked now t k : keys_unique t →
  row k (reconcile_conditions active checked now t) = row_step active checked now k (row k t).
Proof.
  intros Hu. unfold reconcile_conditions. cbv zeta. rewrite settle_rows by by apply note_all_unique.
  rewrite row_delete.
  2: { unfold keys_unique. rewrite List.map_map. rewrite (map_ext _ ac_Key) by (intros; apply settle_key). by apply note_all_unique. }
  rewrite row_map by (intros; apply settle_key). rewrite note_all_row. unfold row_step. pose proof (is_seen_filter active k) as Hseen.
  destruct (List.filter _ active) as [|c0 cs] eqn:Ef.
  - cbn [fold_left]. destruct (row k t) as [r|] eqn:Er; [|done]. apply row_in in Er as [_ Hk]; [|done]. cbn.
    assert (settle_row (is_seen active) checked (unix now) r = unseen_row checked (unix now) r) as ->; [|done].
    unfold settle_row, unseen_row, awaiting. rewrite Hk, Hseen. destruct (ac_Active r), (checked (ac_Source r)); done.
  - destruct (seen_fold (unix now) (c0 :: cs) (row k t)) as (r & Hr & Ha); [done|].
    assert (ac_Key r = k) as Hk.
    { assert (row k (fold_left (note_active (unix now)) active t) = Some r) as Hr' by (rewrite note_all_row, Ef; exact Hr).
      by apply row_in in Hr' as [_ ?]; [|apply note_all_unique]. }
    rewrite Hr. cbn. unfold settle_row, awaiting. rewrite Hk, Hseen, Ha. cbn. unfold long_resolved. by rewrite Ha.
Qed.

(** A reconciliation pass treats every condition on its own.  The row of a
    key afterwards is a function of the row before, of the conditions listed
    for that key and of whether the row's source was checked: a listed
    condition is active (and keeps its start unless it had been clear for ten
    minutes); an unlisted one turns clear only if its source was checked; one
    already clear and not yet reported starts waiting again when its source
    was not checked; and only conditions whose end the receiver has heard are
    forgotten, after thirty days.  Undelivered events are dropped after a day. *)
Theorem ReconcileAlerts_rows active checked now db k :
  keys_unique (db_conditions db) →
  let db' := ReconcileAlerts active checked now db in
  keys_unique (db_conditions db') ∧
  row k (db_conditions db') = row_step active checked now k (row k (db_conditions db)) ∧
  ∀ e, In e (db_events db') ↔ In e (db_events db) ∧
    match ae_SentAt e with
    | Some s => unix (now - 30 * 24 * Hour) ≤ s
    | None => unix (now - AlertEventMaxAge) ≤ ae_CreatedAt e
    end.
Proof.
  intros Hu. split; [by apply reconcile_unique|]. split; [by apply reconcile_row|].
  intros e. cbn. rewrite in_sql_delete. unfold old_event. destruct (ae_SentAt e); by rewrite Z.ltb_ge.
Qed.
Definition sample_condition : Condition := mkCondition "disk_low:data" "disk_low" "disk" "Free disk space is under 15%" "data: 9% free.".
Lemma ReconcileAlerts_rows_witness :
  row "disk_low:data" (db_conditions (ReconcileAlerts [sample_condition] (λ _, true) (of_unix 1000) empty_db)) =
    Some (first_seen sample_condition 1000).
Proof.
  destruct (ReconcileAlerts_rows [sample_condition] (λ _, true) (of_unix 1000) empty_db "disk_low:data") as (_ & H & _).
  - apply NoDup_nil_2.
  - rewrite H. vm_compute. reflexivity.
Defined.
