(* ===== verification/AlertSteps.v ===== *)
(** * What the receiver hears

    Sequences of reconciliation passes and delivery passes, in any order,
    with any conditions and any outcome of each delivery.  The state keeps the
    log of delivered messages and of the passes made, newest first. *)

From S2P Require Import Prelude GoStrings GoTime Schema AlertStore.

Record Heard := mkHeard {
  he_db : DB;
  he_log : list (time * Outgoing);
  he_passes : list (time * (list Condition * (string → bool)));
}.

Inductive alert_op :=
| LReconcile (active : list Condition) (checked : string → bool)
| LSend (accepted : Outgoing → bool)
| LOther (f : DB → DB).
Definition alert_legal (o : alert_op) : Prop :=
  match o with LOther f => ∀ db, db_conditions (f db) = db_conditions db | _ => True end.

(** The messages a delivery pass gets accepted, and the marks it leaves. *)
Definition delivered (accepted : Outgoing → bool) (now : time) (db : DB) : list Outgoing :=
  List.filter accepted (AlertsToSend now db).
Definition mark_all (now : time) (os : list Outgoing) (db : DB) : DB := fold_left (λ db o, MarkAlertSent o now db) os db.

Definition alert_step (now : time) (o : alert_op) (h : Heard) : Heard :=
  match o with
  | LReconcile active checked =>
      mkHeard (ReconcileAlerts active checked now (he_db h)) (he_log h) ((now, (active, checked)) :: he_passes h)
  | LSend accepted =>
      let os := delivered accepted now (he_db h) in
      mkHeard (mark_all now os (he_db h)) (rev (map (λ o, (now, o)) os) ++ he_log h) (he_passes h)
  | LOther f => mkHeard (f (he_db h)) (he_log h) (he_passes h)
  end.

(** Reachable by legal operations at times that never go back; [now] is the last one. *)
Inductive heard_reach : time → Heard → Prop :=
| reach_start now db : db_conditions db = [] → heard_reach now (mkHeard db [] [])
| reach_step now now' o h : heard_reach now h → now ≤ now' → alert_legal o → heard_reach now' (alert_step now' o h).

(** ** The view of one condition *)

Definition about (k : string) (e : time * Outgoing) : bool :=
  negb (bool_decide (o_State e.2 = "event")) && bool_decide (o_Key e.2 = k).
Definition heard (k : string) (log : list (time * Outgoing)) : list (time * Outgoing) := List.filter (about k) log.
Definition firing (e : time * Outgoing) : bool := bool_decide (o_State e.2 = "firing").

Definition due (now : time) (c : AlertCondition) : bool := due_firing now c || due_resolved now c.
Definition mark_row (now : time) (c : AlertCondition) : AlertCondition :=
  if ac_Active c then c <| ac_SentState := "firing" |> <| ac_LastFiredAt := Some (unix now) |>
  else c <| ac_SentState := "resolved" |>.
(** What a delivery pass does to a row. *)
Definition sent_row (accepted : Outgoing → bool) (now : time) (c : AlertCondition) : AlertCondition :=
  if due now c && accepted (outgoing_condition c) then mark_row now c else c.

Definition message_for (k : string) (o : Outgoing) : bool :=
  negb (bool_decide (o_State o = "event")) && bool_decide (o_Key o = k).

Lemma mark_all_row now os db k : keys_unique (db_conditions db) →
  keys_unique (db_conditions (mark_all now os db)) ∧
  (List.filter (message_for k) os = [] → row k (db_conditions (mark_all now os db)) = row k (db_conditions db)).
Proof.
  revert db. induction os as [|o os IH]; intros db Hu; [done|]. cbn [mark_all fold_left]. fold (mark_all now os (MarkAlertSent o now db)).
  assert (keys_unique (db_conditions (MarkAlertSent o now db)) ∧
    (message_for k o = false → row k (db_conditions (MarkAlertSent o now db)) = row k (db_conditions db))) as [Hu1 H1].
  { unfold MarkAlertSent, message_for. case_bool_decide as E1; [done|]. cbn [negb andb].
    case_bool_decide as E2; cbn [db_conditions upd]; (split; [unfold keys_unique; by rewrite map_sql_update|]);
      intros Hk; unfold row; rewrite sql_find_update by done; (destruct (sql_find _ _) as [r|] eqn:Er; [|done]);
      apply sql_find_some in Er as [_ Er]; apply with_key_true in Er; cbn [fmap option_fmap option_map]; unfold with_key; rewrite Er;
      apply bool_decide_eq_false in Hk; by rewrite bool_decide_false by congruence. }
  destruct (IH _ Hu1) as [Hu2 H2]. split; [done|]. cbn [List.filter]. destruct (message_for k o); [done|]. intros Hn.
  by rewrite H2, H1.
Qed.

Lemma mark_one_row now c db : keys_unique (db_conditions db) → row (ac_Key c) (db_conditions db) = Some c →
  row (ac_Key c) (db_conditions (MarkAlertSent (outgoing_condition c) now db)) = Some (mark_row now c).
Proof.
  intros Hu Hr. unfold MarkAlertSent, outgoing_condition, mark_row. cbn [o_State o_Key].
  destruct (ac_Active c) eqn:Ea;
    repeat match goal with |- context [bool_decide (?x = ?y :> string)] =>
      let b := eval vm_compute in (bool_decide (x = y)) in change (bool_decide (x = y)) with b end;
    cbv match; cbn [db_conditions upd]; unfold row in *; rewrite sql_find_update by done; rewrite Hr; cbn.
  - unfold with_key. by rewrite bool_decide_true.
  - unfold with_key. by rewrite bool_decide_true, Ea by done.
Qed.

Lemma filter_key k l : keys_unique l →
  List.filter (with_key k) l = match row k l with Some r => [r] | None => [] end.
Proof.
  unfold keys_unique, row, sql_find. induction l as [|c l IH]; [done|]. cbn. intros [Hn Hl]%NoDup_cons.
  destruct (with_key k c) eqn:Ek; [|by apply IH]. f_equal. rewrite IH by done.
  destruct (List.find (with_key k) l) as [r|] eqn:Ef; [|done]. apply find_some in Ef as [Hr Hk].
  apply with_key_true in Hk, Ek. destruct Hn. rewrite Ek, <- Hk. apply list_elem_of_In, in_map, Hr.
Qed.

Lemma filter_singleton {A} (p : A → bool) l x : List.filter p l = [x] →
  ∃ l1 l2, l = l1 ++ x :: l2 ∧ List.filter p l1 = [] ∧ List.filter p l2 = [].
Proof.
  induction l as [|y l IH]; [done|]. cbn. destruct (p y) eqn:E.
  - intros [= <- Hl]. by exists [], l.
  - intros (l1 & l2 & -> & H1 & H2)%IH. exists (y :: l1), l2. cbn. by rewrite E.
Qed.

Lemma filter_map_comm {A B} (p : B → bool) (f : A → B) l : List.filter p (map f l) = map f (List.filter (λ x, p (f x)) l).
Proof. induction l as [|x l IH]; [done|]. cbn. destruct (p (f x)); cbn; by rewrite IH. Qed.

Section one_condition.
Context (accepted : Outgoing → bool) (now : time) (db : DB) (k : string) (Hu : keys_unique (db_conditions db)).

Definition due_rows : list AlertCondition :=
  sql_order (key_leb ac_FirstSeenAt Z.leb) (sql_select (due now) (db_conditions db)).

Lemma due_rows_unique : keys_unique due_rows.
Proof.
  assert (Permutation (map ac_Key due_rows) (map ac_Key (sql_delete (λ c, negb (due now c)) (db_conditions db)))) as HP.
  { etrans; [apply Permutation_map, (sql_order_perm ac_FirstSeenAt Z.leb)|].
    unfold sql_select, sql_delete. rewrite (List.filter_ext (λ c, negb (negb (due now c))) (due now)); [done|].
    intros c. apply negb_involutive. }
  unfold keys_unique. rewrite HP. by apply NoDup_map_sql_delete.
Qed.

Lemma due_row : row k due_rows = row k (db_conditions db) ≫= λ c, if due now c then Some c else None.
Proof.
  destruct (row k (db_conditions db)) as [c|] eqn:E; cbn.
  - apply row_in in E as [Hin Hk]; [|done]. destruct (due now c) eqn:Ed.
    + apply row_in; [apply due_rows_unique|]. split; [|done]. unfold due_rows. apply (in_sql_order ac_FirstSeenAt Z.leb), in_sql_select. done.
    + destruct (row k due_rows) as [c'|] eqn:E'; [|done]. apply row_in in E' as [Hin' Hk']; [|apply due_rows_unique].
      unfold due_rows in Hin'. apply (in_sql_order ac_FirstSeenAt Z.leb), in_sql_select in Hin' as [Hin' Hd'].
      replace c' with c in Hd' by (eapply (NoDup_map_inj ac_Key); [exact Hu|done|done|congruence]). congruence.
  - destruct (row k due_rows) as [c'|] eqn:E'; [|done]. apply row_in in E' as [Hin' Hk']; [|apply due_rows_unique].
    unfold due_rows in Hin'. apply (in_sql_order ac_FirstSeenAt Z.leb), in_sql_select in Hin' as [Hin' _].
    assert (row k (db_conditions db) = Some c') by by apply row_in. congruence.
Qed.

Lemma message_for_condition c : message_for k (outgoing_condition c) = with_key k c.
Proof. unfold message_for, outgoing_condition, with_key. cbn. by destruct (ac_Active c). Qed.

(** At most one message of a pass is about a condition. *)
Lemma delivered_for :
  List.filter (message_for k) (delivered accepted now db) =
    match row k (db_conditions db) with
    | Some c => if due now c && accepted (outgoing_condition c) then [outgoing_condition c] else []
    | None => []
    end.
Proof.
  unfold delivered, AlertsToSend. change (sql_select (λ c, due_firing now c || due_resolved now c) (db_conditions db))
    with (sql_select (due now) (db_conditions db)). fold due_rows.
  rewrite filter_filter_and, List.filter_app, !filter_map_comm.
  assert (∀ es, List.filter (λ x, accepted (outgoing_event x) && message_for k (outgoing_event x)) es = []) as ->.
  { induction es as [|e es IH]; [done|]. cbn. by rewrite andb_false_r. }
  rewrite app_nil_r. rewrite (List.filter_ext _ (λ c, with_key k c && accepted (outgoing_condition c))).
  2: { intros c. rewrite message_for_condition. apply andb_comm. }
  rewrite <- filter_filter_and, filter_key by apply due_rows_unique. rewrite due_row.
  destruct (row k (db_conditions db)) as [c|]; [|done]. cbn. destruct (due now c); [|done]. cbn. by destruct (accepted _).
Qed.

Lemma send_row :
  let db' := mark_all now (delivered accepted now db) db in
  keys_unique (db_conditions db') ∧ row k (db_conditions db') = sent_row accepted now <$> row k (db_conditions db).
Proof.
  cbv zeta. destruct (mark_all_row now (delivered accepted now db) db k Hu) as [Hu' Hnone]. split; [done|].
  pose proof delivered_for as Hd. destruct (row k (db_conditions db)) as [c|] eqn:Er; cbn; [|by apply Hnone].
  unfold sent_row. destruct (due now c && accepted (outgoing_condition c)); [|by apply Hnone].
  apply filter_singleton in Hd as (l1 & l2 & -> & H1 & H2). unfold mark_all. rewrite fold_left_app. cbn [fold_left].
  fold (mark_all now l1 db). destruct (mark_all_row now l1 db k Hu) as [Hu1 Hr1]. specialize (Hr1 H1).
  set (db1 := mark_all now l1 db) in *. fold (mark_all now l2 (MarkAlertSent (outgoing_condition c) now db1)).
  assert (ac_Key c = k) as Hk by exact (proj2 (proj1 (row_in _ _ _ Hu) Er)). rewrite Er in Hr1.
  pose proof (mark_one_row now c db1 Hu1) as Hone. rewrite Hk in Hone. specialize (Hone Hr1).
  assert (keys_unique (db_conditions (MarkAlertSent (outgoing_condition c) now db1))) as Hu2.
  { apply (mark_all_row now [outgoing_condition c] db1 k Hu1). }
  destruct (mark_all_row now l2 _ k Hu2) as [_ Hr2]. by rewrite Hr2.
Qed.
End one_condition.

(** ** The protocol of one condition *)

Fixpoint spaced (hs : list (time * Outgoing)) : Prop :=
  match hs with
  | [] => True
  | e :: tl => (firing e = true → ∀ e', In e' tl → firing e' = true → unix e'.1 ≤ unix (e.1 - AlertRepeat)) ∧ spaced tl
  end.
Definition head_firing (hs : list (time * Outgoing)) : bool := match hs with e :: _ => firing e | [] => false end.
Fixpoint alternates (hs : list (time * Outgoing)) : Prop :=
  match hs with [] => True | e :: tl => (firing e = false → head_firing tl = true) ∧ alternates tl end.

Definition clear_passes (k source : string) (s : Z) (ps : list (time * (list Condition * (string → bool)))) : Prop :=
  ∀ p, In p ps → s < unix p.1 → p.2.2 source = true ∧ is_seen p.2.1 k = false.

Record row_inv (now : time) (k : string) (c : AlertCondition) (hs : list (time * Outgoing))
  (ps : list (time * (list Condition * (string → bool)))) : Prop := {
  ri_fired f : ac_LastFiredAt c = Some f → f ≤ unix now;
  ri_sent : sent "firing" c = head_firing hs;
  ri_clear : ac_Active c = false → ∃ s, ac_ClearSince c = Some s ∧ s ≤ unix now ∧ ∀ f, ac_LastFiredAt c = Some f → f ≤ s;
  ri_passes s : awaiting c = true → ac_ClearSince c = Some s → clear_passes k (ac_Source c) s ps;
}.

Definition old_firings (now : time) (r : option AlertCondition) (hs : list (time * Outgoing)) : Prop :=
  ∀ e, In e hs → firing e = true →
    unix e.1 ≤ unix (now - AlertRepeat) ∨ ∃ c f, r = Some c ∧ ac_LastFiredAt c = Some f ∧ unix e.1 ≤ f.

Record cond_inv (now : time) (k : string) (r : option AlertCondition) (hs : list (time * Outgoing))
  (ps : list (time * (list Condition * (string → bool)))) : Prop := {
  ci_spaced : spaced hs;
  ci_alternates : alternates hs;
  ci_times p : In p ps → p.1 ≤ now;
  ci_old : old_firings now r hs;
  ci_row : match r with Some c => row_inv now k c hs ps | None => head_firing hs = false end;
}.

Lemma unix_le s t : s ≤ t → unix s ≤ unix t.
Proof. intros. apply Z.div_le_mono; [unfold Second; lia|done]. Qed.

Lemma cond_inv_later now now' k r hs ps : now ≤ now' → cond_inv now k r hs ps → cond_inv now' k r hs ps.
Proof.
  intros Hle []. pose proof (unix_le _ _ Hle). split; [done|done| | |].
  - intros p Hp. specialize (ci_times0 p Hp). lia.
  - intros e He Hf. destruct (ci_old0 e He Hf) as [H'|H']; [left|by right].
    etrans; [exact H'|]. apply unix_le. lia.
  - destruct r as [c|]; [|done]. destruct ci_row0. split; [|done| |done].
    + intros f Hf. specialize (ri_fired0 f Hf). lia.
    + intros Ha. destruct (ri_clear0 Ha) as (s & ? & ? & ?). exists s. split_and!; [done|lia|done].
Qed.

Lemma seen_fold_fields now cs r c : fold_left (seen_row now) cs r = Some c → cs ≠ [] →
  ac_Active c = true ∧ ac_LastFiredAt c = r ≫= ac_LastFiredAt ∧ ac_SentState c = default "" (ac_SentState <$> r).
Proof.
  revert r. induction cs as [|c0 cs IH]; intros r H Hn; [done|]. cbn [fold_left] in H. destruct cs as [|c1 cs].
  - cbn in H. destruct r; injection H as <-; done.
  - apply IH in H as (Ha & Hf & Hs); [|done]. split; [done|]. rewrite Hf, Hs. by destruct r.
Qed.

Lemma unseen_row_inv now k c hs ps active checked :
  is_seen active k = false → (∀ p, In p ps → p.1 ≤ now) → row_inv now k c hs ps →
  row_inv now k (unseen_row checked (unix now) c) hs ((now, (active, checked)) :: ps).
Proof.
  intros Hseen Ht [].
  assert (∀ source, clear_passes k source (unix now) ((now, (active, checked)) :: ps)) as Hnow.
  { intros source p [<-|Hp] Hlt; cbn in *; [lia|]. specialize (Ht p Hp). apply unix_le in Ht. lia. }
  unfold unseen_row. destruct (ac_Active c) eqn:Ea.
  - destruct (checked (ac_Source c)) eqn:Ec.
    + split; cbn; [done|done| |].
      * intros _. exists (unix now). auto with lia.
      * intros s _ [= <-]. apply Hnow.
    + split; [done|done|congruence|]. intros s Haw. unfold awaiting in Haw. by rewrite Ea in Haw.
  - destruct (awaiting c && negb (checked (ac_Source c))) eqn:Ew.
    + split; cbn; [done|done| |].
      * intros _. exists (unix now). auto with lia.
      * intros s _ [= <-]. apply Hnow.
    + split; [exact ri_fired0|exact ri_sent0|intros _; exact (ri_clear0 eq_refl)|]. intros s Haw Hs p [<-|Hp] Hlt; [|by eapply ri_passes0].
      rewrite Haw in Ew. cbn in *. by apply negb_false_iff in Ew.
Qed.

Lemma reconcile_inv now k r hs ps active checked :
  cond_inv now k r hs ps →
  cond_inv now k (row_step active checked now k r) hs ((now, (active, checked)) :: ps).
Proof.
  intros []. unfold row_step. pose proof (is_seen_filter active k) as Hseen.
  assert (∀ p, In p ((now, (active, checked)) :: ps) → p.1 ≤ now) as Ht by (intros p [<-|Hp]; [done|auto]).
  destruct (List.filter _ active) as [|c0 cs].
  - destruct r as [c|]; cbn; [|split; auto].
    pose proof (unseen_row_inv now k c hs ps active checked Hseen ci_times0 ci_row0) as Hri.
    set (c' := unseen_row checked (unix now) c) in *.
    assert (ac_LastFiredAt c' = ac_LastFiredAt c) as Hlf.
    { unfold c', unseen_row. destruct (ac_Active c), (checked (ac_Source c)); try done; by destruct (awaiting c). }
    destruct (long_resolved now c') eqn:El.
    + unfold long_resolved in El. bool_simpl. split; [done|done|done| |].
      * intros e He Hf. left. destruct (ci_old0 e He Hf) as [?|(c1 & f & [= <-] & Hf1 & Hle)]; [done|].
        destruct (ri_clear _ _ _ _ _ Hri) as (s & Hs & _ & Hsf); [done|].
        rewrite Hs in *. bool_simpl. specialize (Hsf f). rewrite Hlf in Hsf. specialize (Hsf Hf1).
        assert (unix (now - 30 * 24 * Hour) ≤ unix (now - AlertRepeat)).
        { apply unix_le. unfold AlertRepeat, Hour, Minute, Second. lia. } lia.
      * rewrite <- (ri_sent _ _ _ _ _ Hri). done.
    + split; [done|done|done| |done]. intros e He Hf.
      destruct (ci_old0 e He Hf) as [?|(c1 & f & [= <-] & Hf1 & Hle)]; [by left|right].
      exists c', f. rewrite Hlf. auto.
  - destruct (seen_fold (unix now) (c0 :: cs) r) as (c & Hc & _); [done|]. rewrite Hc.
    apply seen_fold_fields in Hc as (Ha & Hlf & Hs); [|done]. split; [done|done|done| |].
    + intros e He Hf. destruct (ci_old0 e He Hf) as [?|(c1 & f & -> & Hf1 & Hle)]; [by left|right].
      exists c, f. cbn in Hlf. rewrite Hlf. auto.
    + split; [| |congruence|unfold awaiting; by rewrite Ha].
      * intros f. rewrite Hlf. destruct r as [c1|]; [|done]. cbn. apply (ri_fired _ _ _ _ _ ci_row0).
      * unfold sent. rewrite Hs. destruct r as [c1|]; cbn; [apply (ri_sent _ _ _ _ _ ci_row0)|]. by rewrite ci_row0.
Qed.

(** A delivery pass adds at most one message about a condition. *)
Definition news (accepted : Outgoing → bool) (now : time) (r : option AlertCondition) : list (time * Outgoing) :=
  match r with
  | Some c => if due now c && accepted (outgoing_condition c) then [(now, outgoing_condition c)] else []
  | None => []
  end.

Lemma firing_outgoing now c : firing (now, outgoing_condition c) = ac_Active c.
Proof. unfold firing, outgoing_condition. cbn. by destruct (ac_Active c). Qed.

Lemma send_inv accepted now k r hs ps : cond_inv now k r hs ps →
  cond_inv now k (sent_row accepted now <$> r) (news accepted now r ++ hs) ps.
Proof.
  intros Hinv. destruct r as [c|]; [|exact Hinv]. cbn. unfold sent_row.
  destruct (due now c && accepted (outgoing_condition c)) eqn:E; [|exact Hinv].
  apply andb_true_iff in E as [Ed _]. destruct Hinv as [Hsp Hal Ht Hold [Hf Hs Hc Hp]].
  assert (∀ e, In e hs → firing e = true → ac_Active c = true → unix e.1 ≤ unix (now - AlertRepeat)) as Hrep.
  { intros e He Hfe Ha. destruct (Hold e He Hfe) as [?|(c1 & f & [= <-] & Hf1 & Hle)]; [done|].
    unfold due, due_firing, due_resolved, awaiting in Ed. rewrite Ha, Hf1 in Ed. cbn in Ed. rewrite orb_false_r in Ed. lia. }
  unfold mark_row. destruct (ac_Active c) eqn:Ea.
  - split; cbn [spaced alternates app]; rewrite ?firing_outgoing, ?Ea; [by auto|done|done| |].
    + intros e [<-|He] Hfe; right; (eexists _, _; split_and!; [done|done|]); [done|].
      destruct (Hold e He Hfe) as [Hle|(c1 & f & [= <-] & Hf1 & Hle)].
      * etrans; [exact Hle|]. apply unix_le. unfold AlertRepeat, Hour, Minute, Second. lia.
      * specialize (Hf f Hf1). lia.
    + split; cbn; [by intros f [= <-]|by rewrite firing_outgoing|by rewrite Ea|]. unfold awaiting. cbn. by rewrite Ea.
  - assert (sent "firing" c = true) as Hsent.
    { unfold due, due_firing, due_resolved, awaiting in Ed. rewrite Ea in Ed. cbn in Ed. by apply andb_true_iff in Ed as [? _]. }
    split; cbn [spaced alternates app]; rewrite ?firing_outgoing, ?Ea; [by split|split; [congruence|done]|done| |].
    + intros e [<-|He] Hfe; [rewrite firing_outgoing in Hfe; congruence|].
      destruct (Hold e He Hfe) as [Hle|(c1 & f & [= <-] & Hf1 & Hle)]; [by left|right]. by exists (c <| ac_SentState := "resolved" |>), f.
    + split; cbn; [exact Hf|by rewrite firing_outgoing|intros _; exact (Hc eq_refl)|]. unfold awaiting. cbn. by rewrite Ea.
Qed.

Lemma heard_log accepted now db log k : keys_unique (db_conditions db) →
  heard k (rev (map (λ o, (now, o)) (delivered accepted now db)) ++ log) =
  news accepted now (row k (db_conditions db)) ++ heard k log.
Proof.
  intros Hu. unfold heard. rewrite List.filter_app. f_equal.
  rewrite filter_rev, filter_map_comm. change (λ x, about k (now, x)) with (message_for k).
  rewrite delivered_for by done. unfold news. destruct (row k (db_conditions db)) as [c|]; [|done]. by destruct (due now c && _).
Qed.

Lemma alert_step_inv now o h k : alert_legal o → keys_unique (db_conditions (he_db h)) →
  cond_inv now k (row k (db_conditions (he_db h))) (heard k (he_log h)) (he_passes h) →
  let h' := alert_step now o h in
  keys_unique (db_conditions (he_db h')) ∧
  cond_inv now k (row k (db_conditions (he_db h'))) (heard k (he_log h')) (he_passes h').
Proof.
  intros Hl Hu Hinv. destruct o as [active checked|accepted|f]; cbn [alert_step he_db he_log he_passes].
  - change (db_conditions (ReconcileAlerts active checked now (he_db h)))
      with (reconcile_conditions active checked now (db_conditions (he_db h))).
    split; [by apply reconcile_unique|]. rewrite reconcile_row by done. by apply reconcile_inv.
  - destruct (send_row accepted now (he_db h) k Hu) as [Hu' Hr]. split; [done|]. rewrite Hr, heard_log by done. by apply send_inv.
  - cbn in Hl. by rewrite Hl.
Qed.

Lemma heard_reach_inv now h k : heard_reach now h →
  keys_unique (db_conditions (he_db h)) ∧
  cond_inv now k (row k (db_conditions (he_db h))) (heard k (he_log h)) (he_passes h).
Proof.
  induction 1 as [now db Hdb|now now' o h _ [Hu Hinv] Hle Hl].
  - cbn. rewrite Hdb. split; [apply NoDup_nil_2|]. split; [done|done|by intros ? []|by intros ? []|done].
  - apply alert_step_inv; [done|done|]. by eapply cond_inv_later.
Qed.

(** What the receiver of the alerts hears about any one condition, after
    any sequence of reconciliation and delivery passes at times that do not
    go back, with any outcome of each delivery: two messages that it is firing
    are at least the repeat interval of 24 hours apart (to the second the
    database keeps), even when the condition cleared, resolved or was
    forgotten in between; and a message that it resolved directly follows one
    that it was firing, so nothing resolves twice or out of the blue. *)
Theorem receiver_is_not_flooded now h k : heard_reach now h →
  spaced (heard k (he_log h)) ∧ alternates (heard k (he_log h)).
Proof. intros H. by destruct (heard_reach_inv now h k H) as [_ []]. Qed.

(** Resolved means seen to be clear.  When a delivery pass has a message
    that a condition resolved to send, the last accepted message about it said
    that it is firing, and for the ten minutes of the clear time every
    reconciliation pass had checked the condition's source and did not find
    it: a pass that could not check restarts the wait. *)
Theorem resolved_was_observed now h k o : heard_reach now h →
  In o (AlertsToSend now (he_db h)) → o_State o = "resolved" → o_Key o = k →
  head_firing (heard k (he_log h)) = true ∧
  ∃ c s, row k (db_conditions (he_db h)) = Some c ∧ s ≤ unix (now - AlertClearAfter) ∧
    clear_passes k (ac_Source c) s (he_passes h).
Proof.
  intros Hr Hin Hst Hk. destruct (heard_reach_inv now h k Hr) as [Hu [_ _ _ _ Hrow]].
  unfold AlertsToSend in Hin. apply in_app_iff in Hin as [Hin|Hin]; apply in_map_iff in Hin as (c & <- & Hin); [|done].
  apply (in_sql_order ac_FirstSeenAt Z.leb), in_sql_select in Hin as [Hin Hd]. cbn in Hst, Hk.
  pose proof (proj2 (row_in _ _ _ Hu) (conj Hin Hk)) as Her. rewrite Her in Hrow. destruct Hrow as [_ Hs _ Hp].
  destruct (ac_Active c) eqn:Ea; [done|]. unfold due_firing, due_resolved in Hd. rewrite Ea in Hd. cbn [andb orb] in Hd.
  apply andb_true_iff in Hd as [Hw Hd]. split.
  - rewrite <- Hs. unfold awaiting in Hw. by apply andb_true_iff in Hw as [_ ?].
  - destruct (ac_ClearSince c) as [s|] eqn:Es; [|done]. exists c, s. split_and!; [done|lia|]. by apply Hp.
Qed.

(** A condition that fires, is delivered, clears and is delivered as resolved. *)
Module Story.
Definition disk : Condition := mkCondition "disk:/" "disk_space" "host" "The disk is almost full" "".
Definition all_checked (_ : string) : bool := true.
Definition all_accepted (_ : Outgoing) : bool := true.
Definition script : list (time * alert_op) :=
  [(1000 * Second, LReconcile [disk] all_checked); (1001 * Second, LSend all_accepted);
   (1060 * Second, LReconcile [disk] all_checked); (1061 * Second, LSend all_accepted);
   (1120 * Second, LReconcile [] all_checked); (1180 * Second, LReconcile [] all_checked)].
Definition play (s : list (time * alert_op)) (h : Heard) : Heard := fold_left (λ h p, alert_step p.1 p.2 h) s h.
Definition start : Heard := mkHeard empty_db [] [].
Definition at_clear : Heard := play script start.
Definition resolved : Outgoing := mkOutgoing "disk:/" "disk_space" "resolved" "The disk is almost full" "" 0 1060.
End Story.

Lemma story_reach : heard_reach (1900 * Second) (Story.at_clear).
Proof.
  assert (heard_reach (1180 * Second) Story.at_clear) as H.
  { unfold Story.at_clear, Story.play, Story.script. cbn [fold_left fst snd].
    apply (reach_step (1120 * Second)); [|unfold Second; lia|done]. apply (reach_step (1061 * Second)); [|unfold Second; lia|done].
    apply (reach_step (1060 * Second)); [|unfold Second; lia|done]. apply (reach_step (1001 * Second)); [|unfold Second; lia|done].
    apply (reach_step (1000 * Second)); [|unfold Second; lia|done]. apply (reach_step (1000 * Second)); [|unfold Second; lia|done].
    by apply reach_start. }
  replace Story.at_clear with (alert_step (1900 * Second) (LOther id) Story.at_clear) by (by destruct Story.at_clear).
  eapply reach_step; [exact H|unfold Second; lia|done].
Qed.

Lemma receiver_is_not_flooded_witness :
  spaced (heard "disk:/" (he_log Story.at_clear)) ∧ length (heard "disk:/" (he_log Story.at_clear)) = 1%nat.
Proof. split; [exact (proj1 (receiver_is_not_flooded _ _ "disk:/" story_reach))|by vm_compute]. Defined.

Lemma resolved_was_observed_witness :
  ∃ c s, row "disk:/" (db_conditions (he_db Story.at_clear)) = Some c ∧ s ≤ unix (1900 * Second - AlertClearAfter) ∧
    clear_passes "disk:/" (ac_Source c) s (he_passes Story.at_clear).
Proof.
  apply (resolved_was_observed _ _ "disk:/" Story.resolved story_reach); [|done|done].
  vm_compute. by left.
Defined.
