(* ===== verification/JobStore.v ===== *)
(** * The job queue in management storage ([internal/store/jobs.go])

    Every operation is one transaction on [Schema.DB].  [backoff] and
    [recordOutcome] keep the per-project schedule that the backup scheduler
    reads. *)

From S2P Require Import Prelude GoStrings GoTime Schema.

(** ** Predicates of the queries *)

Definition in_state (s : string) (j : Job) : bool := bool_decide (j_State j = s).
(** [state IN ('queued','running')] *)
Definition active_job (j : Job) : bool := in_state "queued" j || in_state "running" j.
Definition has_id (id : string) (j : Job) : bool := bool_decide (j_ID j = id).
Definition of_kind (k : string) (j : Job) : bool := bool_decide (j_Kind j = k).
Definition of_project (id : string) (j : Job) : bool := bool_decide (j_ProjectID j = Some id).

(** [ORDER BY created_at, id] *)
Definition job_age (j : Job) : Z * string := (j_CreatedAt j, j_ID j).
Definition oldest_first : Z * string → Z * string → bool := lex_leb Z.leb String.leb.
#[export] Instance oldest_first_total : TotalLeb oldest_first.
Proof. unfold oldest_first. apply _. Qed.

(** ** Reading *)

Definition JobByID (id : string) (db : DB) : res store_error Job :=
  match sql_find (has_id id) (db_jobs db) with
  | Some j => Ok j
  | None => Err ErrProjectNotFound
  end.

(** [ORDER BY created_at DESC, id DESC LIMIT n] *)
Definition ProjectJobs (projectID : string) (limit : nat) (db : DB) : list Job :=
  take limit (sql_order (key_leb job_age (rev_leb oldest_first)) (sql_select (of_project projectID) (db_jobs db))).
Definition ActiveJobs (db : DB) : list Job :=
  sql_order (key_leb job_age oldest_first) (sql_select active_job (db_jobs db)).
Definition RecentJobs (limit : nat) (db : DB) : list Job :=
  take limit (sql_order (key_leb job_age (rev_leb oldest_first)) (db_jobs db)).

(** ** The schedule of a project *)

Definition schedule_of (projectID : string) (s : BackupSchedule) : bool := bool_decide (bs_ProjectID s = projectID).

(** [Store.BackupSchedule]: no row reads as zeroes. *)
Definition ReadSchedule (projectID : string) (db : DB) : BackupSchedule :=
  default (mkBackupSchedule projectID 0 0 0) (sql_find (schedule_of projectID) (db_schedule db)).
#[global] Arguments ReadSchedule _ _ : simpl never.

Definition backoff (failures : Z) (interval : duration) : duration :=
  if failures <=? 1 then 15 * Minute
  else if failures =? 2 then Hour
  else if failures =? 3 then 4 * Hour
  else interval.

(** [INSERT … ON CONFLICT(project_id) DO UPDATE]: a new row needs its project. *)
Definition upsert_schedule (row : BackupSchedule) (f : BackupSchedule → BackupSchedule) (db : DB) : res store_error DB :=
  let p := schedule_of (bs_ProjectID row) in
  guard! sql_exists p (db_schedule db) || project_exists db (bs_ProjectID row) else ErrConstraint in
  Ok (db <| db_schedule := sql_upsert p row f (db_schedule db) |>).

Definition recordOutcome (projectID : string) (succeeded : bool) (now : time) (interval : duration) (db : DB) :
  res store_error DB :=
  if succeeded then
    upsert_schedule (mkBackupSchedule projectID (unix now) 0 0)
      (λ s, s <| bs_LastAttemptAt := unix now |> <| bs_Failures := 0 |> <| bs_NextAttemptAt := 0 |>) db
  else
    let failures := bs_Failures (ReadSchedule projectID db) + 1 in
    let next := unix (now + backoff failures interval) in
    upsert_schedule (mkBackupSchedule projectID (unix now) failures next)
      (λ s, s <| bs_LastAttemptAt := unix now |> <| bs_Failures := failures |> <| bs_NextAttemptAt := next |>) db.

(** ** Enqueueing *)

Definition enqueue (id kind projectID input : string) (scheduled : bool) (now : time) (db : DB) :
  res store_error Job * DB :=
  atomically (λ db,
    guard! negb (maintenance db) else ErrMaintenance in
    guard! sql_count active_job (db_jobs db) =? 0 else ErrJobBusy in
    let project := if bool_decide (projectID = "") then None else Some projectID in
    let references := match project with None => true | Some p => project_exists db p end in
    let! jobs := sql_insert (has_id id) references (new_job id kind project input (unix now) scheduled) (db_jobs db) in
    let db1 := db <| db_jobs := jobs |> in
    let! db2 :=
      if bool_decide (kind = "backup") && negb (bool_decide (projectID = "")) then
        upsert_schedule (mkBackupSchedule projectID (unix now) 0 0)
          (λ s, s <| bs_LastAttemptAt := unix now |>) db1
      else Ok db1 in
    Ok (JobByID id db2, db2)) db.

Definition EnqueueJob (id kind projectID input : string) (now : time) : DB → res store_error Job * DB :=
  enqueue id kind projectID input false now.
Definition EnqueueBackupJob (id projectID input : string) (scheduled : bool) (now : time) : DB → res store_error Job * DB :=
  enqueue id "backup" projectID input scheduled now.

Definition SetJobTarget (id target tkey : string) (db : DB) : DB :=
  db <| db_jobs := sql_update (has_id id)
          (λ j, j <| j_TargetStorage := target |> <| j_TargetKey := tkey |>) (db_jobs db) |>.

(** ** Running *)

(** The oldest queued job moves to running; [None] means nothing to do. *)
Definition ClaimJob (now : time) (db : DB) : option Job * DB :=
  match sql_order (key_leb job_age oldest_first) (sql_select (in_state "queued") (db_jobs db)) with
  | [] => (None, db)
  | j :: _ =>
      if maintenance db then (None, db)
      else
        (Some (j <| j_State := "running" |> <| j_Stage := "starting" |> <| j_StartedAt := unix now |>),
         db <| db_jobs := sql_update (has_id (j_ID j))
                (λ r, r <| j_State := "running" |> <| j_Stage := "starting" |>
                        <| j_StartedAt := unix now |> <| j_StageAt := unix now |>) (db_jobs db) |>)
  end.

Definition SetJobStage (id stage : string) (now : time) (db : DB) : DB :=
  db <| db_jobs := sql_update (λ j, has_id id j && in_state "running" j)
          (λ j, j <| j_Stage := stage |> <| j_StageAt := unix now |>) (db_jobs db) |>.

Definition finish_row (state stage errorText result : string) (now : time) (j : Job) : Job :=
  j <| j_State := state |> <| j_Stage := stage |> <| j_Error := errorText |> <| j_Result := result |>
    <| j_FinishedAt := unix now |>.

Definition FinishJob (id state stage errorText result : string) (now : time) (db : DB) : DB :=
  db <| db_jobs := sql_update (has_id id) (finish_row state stage errorText result now) (db_jobs db) |>.

(** ** Interruption *)

Definition interrupted_error : string := "The application restarted before this job finished.".

Definition interrupt_one (now : time) (interval : duration) (db : DB) (j : Job) : res store_error DB :=
  let db1 := db <| db_jobs := sql_update (has_id (j_ID j))
    (λ r, r <| j_State := "interrupted" |> <| j_Error := interrupted_error |> <| j_FinishedAt := unix now |>)
    (db_jobs db) |> in
  let outcome := if of_kind "delete" j then "the deletion resumes automatically." else "it was not completed." in
  let db2 := RecordAlertEvent "job_interrupted" ("job_interrupted:" +:+ j_ID j)
    ("A " +:+ j_Kind j +:+ " was interrupted by an application restart")
    ("Job " +:+ j_ID j +:+ " stopped at stage " +:+ j_Stage j +:+ "; " +:+ outcome) now db1 in
  match j_ProjectID j with
  | Some p =>
      if of_kind "backup" j && j_Scheduled j && negb (bool_decide (p = ""))
      then recordOutcome p false now interval db2 else Ok db2
  | None => Ok db2
  end.

Fixpoint interrupt_all (now : time) (interval : duration) (running : list Job) (db : DB) : res store_error DB :=
  match running with
  | [] => Ok db
  | j :: js => let! db' := interrupt_one now interval db j in interrupt_all now interval js db'
  end.

Definition InterruptRunningJobs (now : time) (interval : duration) (db : DB) : res store_error (list Job) * DB :=
  atomically (λ db,
    let running := sql_select (in_state "running") (db_jobs db) in
    let! db' := interrupt_all now interval running db in
    Ok (Ok running, db')) db.

(** ** Completion *)

Definition insert_backup (b : Backup) (db : DB) : res store_error DB :=
  let references := match b_ProjectID b with None => true | Some p => project_exists db p end in
  let! rows := sql_insert (λ r, bool_decide (b_ID r = b_ID b) || bool_decide (b_ObjectKey r = b_ObjectKey b))
    references b (db_backups db) in
  Ok (db <| db_backups := rows |>).

Definition CompleteBackupJob (id projectID state stage errorText result : string) (backup : option Backup)
  (scheduled : bool) (now : time) (interval : duration) (db : DB) : res store_error unit * DB :=
  atomically (λ db,
    let db1 := FinishJob id state stage errorText result now db in
    let! db2 := match backup with Some b => insert_backup b db1 | None => Ok db1 end in
    let succeeded := bool_decide (state = "succeeded") in
    let! db3 :=
      if negb (bool_decide (projectID = "")) && (succeeded || scheduled)
      then recordOutcome projectID succeeded now interval db2 else Ok db2 in
    Ok (Ok tt, db3)) db.

Definition RecordBackup (b : Backup) (db : DB) : res store_error DB := insert_backup b db.

(** [ORDER BY created_at DESC LIMIT n]; rows of equal age come in any order in
    SQL, the model takes the table's. *)
Definition ProjectBackups (projectID : string) (limit : nat) (db : DB) : list Backup :=
  take limit (sql_order (key_leb b_CreatedAt (rev_leb Z.leb))
    (sql_select (λ b, bool_decide (b_ProjectID b = Some projectID)) (db_backups db))).

(** ** Well-formedness *)

(** Job ids are unique, every job's project exists, and the schedule has at
    most one row per project, for projects that exist. *)
Record jobs_wf (db : DB) : Prop := {
  wf_job_ids : NoDup (map j_ID (db_jobs db));
  wf_job_project j p : In j (db_jobs db) → j_ProjectID j = Some p → project_exists db p = true;
  wf_schedule_ids : NoDup (map bs_ProjectID (db_schedule db));
  wf_schedule_project s : In s (db_schedule db) → project_exists db (bs_ProjectID s) = true;
}.

(** ** Lemmas *)

Lemma upsert_schedule_ok row f db db' :
  upsert_schedule row f db = Ok db' →
  db' = db <| db_schedule := sql_upsert (schedule_of (bs_ProjectID row)) row f (db_schedule db) |>.
Proof. unfold upsert_schedule. rewrite guard_ok. intros [_ [= <-]]. done. Qed.

(** An outcome writes nothing but the schedule. *)
Lemma recordOutcome_frame projectID s now interval db db' :
  recordOutcome projectID s now interval db = Ok db' → db' = db <| db_schedule := db_schedule db' |>.
Proof. unfold recordOutcome. destruct s; intros ->%upsert_schedule_ok; done. Qed.

(** What an upsert leaves in the schedule: a fresh project starts from zeroes,
    and no other project is touched. *)
Lemma upsert_schedule_read row f db db' :
  (∀ s, bs_ProjectID (f s) = bs_ProjectID s) → f (mkBackupSchedule (bs_ProjectID row) 0 0 0) = row →
  upsert_schedule row f db = Ok db' →
  ReadSchedule (bs_ProjectID row) db' = f (ReadSchedule (bs_ProjectID row) db) ∧
  ∀ q, q ≠ bs_ProjectID row → ReadSchedule q db' = ReadSchedule q db.
Proof.
  intros Hf Hrow ->%upsert_schedule_ok. unfold ReadSchedule, schedule_of. cbn [db_schedule upd]. split.
  - rewrite sql_find_upsert; [|by apply bool_decide_eq_true|intros r; by rewrite Hf].
    destruct (sql_find _ _); [done|]. by rewrite <- Hrow at 1.
  - intros q Hq. f_equal. apply sql_find_upsert_other.
    + apply bool_decide_eq_false. congruence.
    + intros r ?. bool_simpl. apply bool_decide_eq_false. congruence.
    + intros r ?. bool_simpl. rewrite Hf. apply bool_decide_eq_false. congruence.
Qed.

Lemma ReadSchedule_id projectID db : bs_ProjectID (ReadSchedule projectID db) = projectID.
Proof.
  unfold ReadSchedule. destruct (sql_find _ _) eqn:E; [|done].
  apply sql_find_some in E as [_ E]. by apply bool_decide_eq_true in E.
Qed.

(** What an outcome writes, and that it touches no other project. *)
Lemma recordOutcome_spec projectID succeeded now interval db db' :
  recordOutcome projectID succeeded now interval db = Ok db' →
  (let failures := if succeeded then 0 else bs_Failures (ReadSchedule projectID db) + 1 in
   ReadSchedule projectID db' =
     mkBackupSchedule projectID (unix now) failures
       (if succeeded then 0 else unix (now + backoff failures interval))) ∧
  (∀ q, q ≠ projectID → ReadSchedule q db' = ReadSchedule q db).
Proof.
  intros H. pose proof (ReadSchedule_id projectID db) as Hid.
  destruct succeeded; apply upsert_schedule_read in H as [H1 H2]; try done;
    (split; [cbv zeta | exact H2]); cbn [bs_ProjectID] in H1; rewrite H1; unfold upd; cbn; by rewrite Hid.
Qed.

(** With its project present an outcome is always recorded. *)
Lemma recordOutcome_total projectID s now interval db :
  project_exists db projectID = true → is_ok (recordOutcome projectID s now interval db) = true.
Proof. intros H. unfold recordOutcome, upsert_schedule. destruct s; cbn; by rewrite H, orb_true_r. Qed.

Lemma has_id_true id j : has_id id j = true ↔ j_ID j = id.
Proof. apply bool_decide_eq_true. Qed.

(** Updating the one row that has a given id. *)
Lemma in_update_by_id id f t j :
  NoDup (map j_ID t) → In j t → j_ID j = id →
  ∀ r, In r (sql_update (has_id id) f t) ↔ r = f j ∨ (In r t ∧ r ≠ j).
Proof.
  intros HN Hj <- r. rewrite in_sql_update. split.
  - intros (r0 & Hr & ->). destruct (has_id (j_ID j) r0) eqn:E.
    + apply has_id_true in E. left. f_equal. eauto using NoDup_map_inj.
    + right. split; [done|]. intros ->. unfold has_id in E. bool_simpl. done.
  - intros [->|[Hr Hne]].
    + exists j. split; [done|]. by rewrite (proj2 (has_id_true _ _)).
    + exists r. split; [done|]. destruct (has_id (j_ID j) r) eqn:E; [|done].
      apply has_id_true in E. destruct Hne. eauto using NoDup_map_inj.
Qed.

(** ** What enqueueing does

    Every outcome of [enqueue]: during maintenance and while another job
    is queued or running nothing at all is written (not even the attempt
    time); a clash of ids or a project that does not exist also leaves the
    database untouched; otherwise exactly one queued job is appended, the
    returned job is that row, and a backup's attempt time is recorded in the
    same transaction, without disturbing its failure count, its backoff or
    the schedule of any other project. *)
Theorem enqueue_outcomes id kind projectID input scheduled now db :
  let project := if bool_decide (projectID = "") then None else Some projectID in
  let job := new_job id kind project input (unix now) scheduled in
  let (r, db') := enqueue id kind projectID input scheduled now db in
  match r with
  | Err e =>
      db' = db ∧
      (e = ErrMaintenance ∧ maintenance db = true ∨
       e = ErrJobBusy ∧ maintenance db = false ∧ (∃ j, In j (db_jobs db) ∧ active_job j = true) ∨
       e = ErrConstraint ∧ maintenance db = false ∧
         ((∃ j, In j (db_jobs db) ∧ j_ID j = id) ∨ (projectID ≠ "" ∧ project_exists db projectID = false)))
  | Ok j =>
      maintenance db = false ∧ (∀ x, In x (db_jobs db) → active_job x = false) ∧
      j = job ∧ db' = db <| db_jobs := db_jobs db ++ [job] |> <| db_schedule := db_schedule db' |> ∧
      (if bool_decide (kind = "backup" ∧ projectID ≠ "") then
         ReadSchedule projectID db' = (ReadSchedule projectID db) <| bs_LastAttemptAt := unix now |> ∧
         ∀ q, q ≠ projectID → ReadSchedule q db' = ReadSchedule q db
       else db_schedule db' = db_schedule db)
  end.
Proof.
  cbv zeta. unfold enqueue, atomically. set (project := if bool_decide (projectID = "") then None else Some projectID).
  set (job := new_job _ _ _ _ _ _).
  destruct (maintenance db) eqn:Em; cbn [negb]; [auto|].
  destruct (sql_count active_job (db_jobs db) =? 0) eqn:Ec; [|split; [done|right; left]].
  2:{ bool_simpl. repeat split. destruct (sql_exists active_job (db_jobs db)) eqn:Ee; [by apply sql_exists_true|].
      destruct Ec. by apply sql_count_zero, sql_exists_false. }
  bool_simpl. pose proof (proj1 (sql_count_zero _ _) Ec) as Hidle.
  destruct (sql_insert _ _ _ _) as [jobs|e] eqn:Ei; cbn [rbind].
  2:{ split; [done|]. do 2 right. apply sql_insert_err in Ei as (-> & Ei). repeat split.
      destruct Ei as [(j & Hj & E)|E]; [left; exists j; by apply has_id_true in E|right].
      unfold project in E. case_bool_decide; [discriminate|done]. }
  apply sql_insert_ok in Ei as (-> & Href & Hfresh).
  assert (∀ db2, db_jobs db2 = db_jobs db ++ [job] → JobByID id db2 = Ok job) as Hread.
  { intros db2 E. unfold JobByID. rewrite E,  (sql_find_snoc (has_id id) _ job); auto. by apply has_id_true. }
  destruct (bool_decide (kind = "backup") && negb (bool_decide (projectID = ""))) eqn:Ek; cbn [rbind].
  - bool_simpl. rewrite (bool_decide_eq_true_2 (_ ∧ _)) by done.
    destruct (upsert_schedule _ _ _) as [db2|] eqn:Eu; cbn [rbind].
    + pose proof (upsert_schedule_ok _ _ _ _ Eu) as E2.
      apply upsert_schedule_read in Eu as [R1 R2]; [|done|done].
      rewrite E2 in *. cbn [bs_ProjectID upd] in *. rewrite Hread by done. repeat split; [done|exact R1|exact R2].
    + exfalso. unfold upsert_schedule in Eu. unfold project in Href. rewrite bool_decide_eq_false_2 in Href by done.
      change (project_exists _ (bs_ProjectID _)) with (project_exists db projectID) in Eu.
      by rewrite Href, orb_true_r in Eu.
  - rewrite Hread by done. rewrite bool_decide_eq_false_2; [done|].
    intros [? ?]. apply andb_false_iff in Ek as [Ek|Ek]; bool_simpl; tauto.
Qed.

(** ** What claiming does

    [ClaimJob] is a fair, guarded queue: it returns a job exactly when one
    is queued and no update holds the installation quiet; that job is a least
    one by age among the queued ones; exactly its row moves to running, and
    every other row and table stays as it was. *)
Theorem ClaimJob_oldest_first now db :
  let (r, db') := ClaimJob now db in
  match r with
  | None => db' = db ∧ (maintenance db = true ∨ ∀ j, In j (db_jobs db) → in_state "queued" j = false)
  | Some j =>
      maintenance db = false ∧ db' = db <| db_jobs := db_jobs db' |> ∧
      ∃ j0, In j0 (db_jobs db) ∧ in_state "queued" j0 = true ∧
        (∀ x, In x (db_jobs db) → in_state "queued" x = true → oldest_first (job_age j0) (job_age x) = true) ∧
        j = j0 <| j_State := "running" |> <| j_Stage := "starting" |> <| j_StartedAt := unix now |> ∧
        (∀ x, In x (db_jobs db') ↔
           ∃ x0, In x0 (db_jobs db) ∧
             x = if has_id (j_ID j0) x0 then
                   x0 <| j_State := "running" |> <| j_Stage := "starting" |>
                      <| j_StartedAt := unix now |> <| j_StageAt := unix now |> else x0)
  end.
Proof.
  unfold ClaimJob. destruct (sql_order _ _) as [|j l] eqn:E.
  - split; [done|]. right. intros j Hj. apply (proj1 (sql_order_nil job_age oldest_first _)) in E.
    destruct (in_state "queued" j) eqn:Ej; [|done].
    assert (In j (sql_select (in_state "queued") (db_jobs db))) as Hin by (by apply in_sql_select).
    by rewrite E in Hin.
  - apply (sql_order_head job_age oldest_first) in E as [Hj Hle]. apply in_sql_select in Hj as [Hj Hq].
    destruct (maintenance db) eqn:Em; [auto|]. repeat split. exists j. repeat split; try done.
    + intros x Hx Hqx. apply Hle, in_sql_select. auto.
    + intros Hx. by apply in_sql_update in Hx.
    + intros Hx. by apply in_sql_update.
Qed.

(** ** What a restart does *)

Definition interrupt_row (now : time) (j : Job) : Job :=
  j <| j_State := "interrupted" |> <| j_Error := interrupted_error |> <| j_FinishedAt := unix now |>.

(** A scheduled backup of a project, whose interruption counts as a failure. *)
Definition counts_against (p : string) (j : Job) : bool :=
  of_kind "backup" j && j_Scheduled j && of_project p j.

(** Everything but the schedule, after the listed jobs were interrupted. *)
Lemma interrupt_one_spec now interval db j db' :
  interrupt_one now interval db j = Ok db' →
  db_jobs db' = sql_update (has_id (j_ID j)) (interrupt_row now) (db_jobs db) ∧
  db_projects db' = db_projects db ∧
  map ae_Key (db_events db') = map ae_Key (db_events db) ++ ["job_interrupted:" +:+ j_ID j] ∧
  ∀ p, p ≠ "" → bs_Failures (ReadSchedule p db') =
    bs_Failures (ReadSchedule p db) + (if counts_against p j then 1 else 0).
Proof.
  unfold interrupt_one, counts_against, of_project. set (db2 := RecordAlertEvent _ _ _ _ _ _).
  assert (map ae_Key (db_events db2) = map ae_Key (db_events db) ++ ["job_interrupted:" +:+ j_ID j]) as Hev.
  { unfold db2, RecordAlertEvent. cbn. by rewrite map_app. }
  assert (∀ p, ReadSchedule p db2 = ReadSchedule p db) as Hsch by done.
  destruct (j_ProjectID j) as [q|] eqn:Eq.
  - destruct (of_kind "backup" j && j_Scheduled j && negb (bool_decide (q = ""))) eqn:E.
    + intros H. pose proof (recordOutcome_frame _ _ _ _ _ _ H) as Hfr.
      apply recordOutcome_spec in H as [H1 H2]. bool_simpl. rewrite Hfr. split; [done|]. split; [done|].
      split; [done|]. rewrite <- Hfr. intros p Hpn. destruct (decide (p = q)) as [->|Hpq].
      * rewrite H1. cbn. by rewrite Hsch, H, H3, bool_decide_eq_true_2.
      * rewrite H2, Hsch by done. rewrite (bool_decide_eq_false_2 (Some q = Some p)) by congruence.
        rewrite andb_false_r. lia.
    + intros [= <-]. repeat split; try done. intros p Hpn. rewrite Hsch.
      destruct (decide (p = q)) as [->|Hpq].
      * rewrite bool_decide_eq_true_2 by done. rewrite (bool_decide_eq_false_2 (q = "")) in E by done.
        cbn [negb] in E. rewrite E. lia.
      * rewrite (bool_decide_eq_false_2 (Some q = Some p)) by congruence. rewrite andb_false_r. lia.
  - intros [= <-]. repeat split; try done. intros p Hpn. rewrite Hsch, bool_decide_eq_false_2, andb_false_r by done. lia.
Qed.

(** One of the listed jobs has this row's id. *)
Definition listed (l : list Job) (r : Job) : bool := existsb (λ j, has_id (j_ID j) r) l.

Lemma interrupt_row_id now j : j_ID (interrupt_row now j) = j_ID j.
Proof. done. Qed.

Lemma interrupt_row_idem now j : interrupt_row now (interrupt_row now j) = interrupt_row now j.
Proof. done. Qed.

Lemma interrupt_all_spec now interval l db db' :
  interrupt_all now interval l db = Ok db' →
  db_jobs db' = sql_update (listed l) (interrupt_row now) (db_jobs db) ∧
  db_projects db' = db_projects db ∧
  map ae_Key (db_events db') = map ae_Key (db_events db) ++ map (λ j, "job_interrupted:" +:+ j_ID j) l ∧
  ∀ p, p ≠ "" → bs_Failures (ReadSchedule p db') = bs_Failures (ReadSchedule p db) + sql_count (counts_against p) l.
Proof.
  revert db. induction l as [|j l IH]; intros db; simpl.
  - intros [= <-]. rewrite app_nil_r. repeat split; try done; [by rewrite sql_update_id|].
    intros; unfold sql_count; simpl; lia.
  - destruct (interrupt_one now interval db j) as [db1|] eqn:E; simpl; [|discriminate].
    apply interrupt_one_spec in E as (Ej & Ep & Ee & Es). intros H.
    destruct (IH _ H) as (Hj & Hp & He & Hs). split; [|split; [congruence|split]].
    + rewrite Hj, Ej. unfold sql_update. rewrite map_map. apply map_ext. intros r.
      unfold listed, has_id; simpl. destruct (bool_decide (j_ID r = j_ID j)) eqn:Er; simpl; [|done].
      by destruct (existsb _ _).
    + by rewrite He, Ee, <- app_assoc.
    + intros p Hpn. rewrite Hs, Es, sql_count_cons by done. lia.
Qed.

(** With every job's project present, interrupting never fails. *)
Lemma interrupt_all_total now interval l db :
  (∀ j p, In j l → j_ProjectID j = Some p → project_exists db p = true) →
  is_ok (interrupt_all now interval l db) = true.
Proof.
  revert db. induction l as [|j l IH]; intros db H; simpl; [done|].
  destruct (interrupt_one now interval db j) as [db1|e] eqn:E; simpl.
  - apply IH. intros j' p Hj' Hp. unfold project_exists.
    apply interrupt_one_spec in E as (_ & -> & _). apply (H j' p); simpl; auto.
  - exfalso. unfold interrupt_one in E. destruct (j_ProjectID j) as [p|] eqn:Ep; [|discriminate].
    destruct (_ && _); [|discriminate].
    assert (project_exists db p = true) as Hp by (apply (H j); simpl; auto).
    set (db2 := RecordAlertEvent _ _ _ _ _ _) in E.
    pose proof (recordOutcome_total p false now interval db2 Hp) as Ht. by rewrite E in Ht.
Qed.

(** At startup every job that was running when the process died becomes
    interrupted, never succeeded, and no other row changes; each leaves
    exactly one alert event; each interrupted scheduled backup counts as one
    failed attempt of its project, so a crash loop backs off.  On a
    well-formed database the transaction cannot fail. *)
Theorem InterruptRunningJobs_spec now interval db :
  jobs_wf db →
  let running := sql_select (in_state "running") (db_jobs db) in
  let (r, db') := InterruptRunningJobs now interval db in
  r = Ok running ∧
  db_jobs db' = sql_update (in_state "running") (interrupt_row now) (db_jobs db) ∧
  RunningJobs db' = 0 ∧
  map ae_Key (db_events db') = map ae_Key (db_events db) ++ map (λ j, "job_interrupted:" +:+ j_ID j) running ∧
  ∀ p, p ≠ "" →
    bs_Failures (ReadSchedule p db') = bs_Failures (ReadSchedule p db) + sql_count (counts_against p) running.
Proof.
  intros [Hids Hproj _ _]. cbv zeta. unfold InterruptRunningJobs, atomically.
  set (running := sql_select (in_state "running") (db_jobs db)).
  pose proof (interrupt_all_total now interval running db) as Ht.
  destruct (interrupt_all now interval running db) as [db'|e] eqn:E; simpl.
  - apply interrupt_all_spec in E as (Ej & Ep & Ee & Es).
    assert (db_jobs db' = sql_update (in_state "running") (interrupt_row now) (db_jobs db)) as Hjobs.
    { rewrite Ej. unfold sql_update. apply map_ext_in. intros r Hr. replace (listed running r) with (in_state "running" r); [done|].
      unfold listed, running. destruct (in_state "running" r) eqn:Er; symmetry.
      - apply existsb_exists. exists r. split; [by apply in_sql_select|by apply has_id_true].
      - apply not_true_iff_false. intros (j & Hj & Hid)%existsb_exists.
        apply in_sql_select in Hj as [Hj Hs]. apply has_id_true in Hid.
        assert (r = j) as -> by eauto using NoDup_map_inj. congruence. }
    repeat split; try done. unfold RunningJobs. rewrite Hjobs. apply sql_count_zero.
    intros r (r0 & Hr & ->)%in_sql_update. destruct (in_state "running" r0) eqn:E0; [done|exact E0].
  - exfalso. assert (is_ok (Err e : res store_error DB) = true) as H; [|done].
    apply Ht. intros j p Hj. apply Hproj. by apply in_sql_select in Hj as [? _].
Qed.

(** A database with one project and its scheduled backup running. *)
Definition example_project : Project :=
  mkProject "p1" "Shop" "shop" "shop_owner" "k1" "ready" false "" 10 20 0 0.
Definition example_job : Job :=
  (new_job "j1" "backup" (Some "p1") "{}" 100 true) <| j_State := "running" |> <| j_Stage := "dump" |>.
Definition example_db : DB := empty_db <| db_projects := [example_project] |> <| db_jobs := [example_job] |>.

Lemma example_db_wf : jobs_wf example_db.
Proof.
  split; cbn.
  - apply NoDup_singleton.
  - intros j p [<-|[]] [= <-]. reflexivity.
  - apply NoDup_nil_2.
  - intros s [].
Defined.

Lemma InterruptRunningJobs_spec_witness :
  RunningJobs example_db = 1 ∧
  let (r, db') := InterruptRunningJobs (200 * Second) (24 * Hour) example_db in
  RunningJobs db' = 0 ∧ bs_Failures (ReadSchedule "p1" db') = 1.
Proof.
  split; [reflexivity|].
  pose proof (InterruptRunningJobs_spec (200 * Second) (24 * Hour) example_db example_db_wf) as H.
  cbv zeta in H. destruct (InterruptRunningJobs _ _ _) as [r db'].
  destruct H as (_ & _ & H0 & _ & Hs). split; [exact H0|]. rewrite Hs by discriminate. reflexivity.
Defined.

(** A backup job's end is one transaction: the job row, the history row
    and the schedule change together or not at all.  Success clears the
    failure count and the backoff; a scheduled failure raises the count by
    one and waits 15 minutes, 1 hour, 4 hours and then one interval; a failed
    manual backup leaves every project's schedule exactly as it was. *)
Theorem CompleteBackupJob_atomic id projectID state stage errorText result backup scheduled now interval db :
  let (r, db') := CompleteBackupJob id projectID state stage errorText result backup scheduled now interval db in
  match r with
  | Err e => db' = db ∧ e = ErrConstraint
  | Ok _ =>
      db_jobs db' = sql_update (has_id id) (finish_row state stage errorText result now) (db_jobs db) ∧
      db_backups db' = db_backups db ++ (match backup with Some b => [b] | None => [] end) ∧
      (∀ q, q ≠ projectID → ReadSchedule q db' = ReadSchedule q db) ∧
      (projectID ≠ "" →
       ReadSchedule projectID db' =
         if bool_decide (state = "succeeded") then mkBackupSchedule projectID (unix now) 0 0
         else if scheduled then
           let n := bs_Failures (ReadSchedule projectID db) + 1 in
           mkBackupSchedule projectID (unix now) n (unix (now + backoff n interval))
         else ReadSchedule projectID db)
  end.
Proof.
  unfold CompleteBackupJob, atomically.
  destruct (match backup with Some b => _ | None => _ end) as [db2|e] eqn:E; simpl.
  2:{ split; [done|]. destruct backup as [b|]; [|discriminate]. unfold insert_backup in E.
      destruct (sql_insert _ _ _ _) eqn:Ei; [discriminate|]. injection E as <-. by apply sql_insert_err in Ei as [? _]. }
  assert (db_jobs db2 = sql_update (has_id id) (finish_row state stage errorText result now) (db_jobs db) ∧
    db_backups db2 = db_backups db ++ (match backup with Some b => [b] | None => [] end) ∧
    ∀ q, ReadSchedule q db2 = ReadSchedule q db) as (Hj & Hb & Hs).
  { destruct backup as [b|]; [|injection E as <-; by rewrite app_nil_r].
    unfold insert_backup in E. destruct (sql_insert _ _ _ _) eqn:Ei; [|discriminate].
    injection E as <-. by apply sql_insert_ok in Ei as (-> & _). }
  destruct (negb (bool_decide (projectID = "")) && (bool_decide (state = "succeeded") || scheduled)) eqn:Eo; simpl.
  - destruct (recordOutcome _ _ _ _ _) as [db3|e] eqn:Er; simpl.
    + pose proof (recordOutcome_frame _ _ _ _ _ _ Er) as ->. cbn.
      apply recordOutcome_spec in Er as [H1 H2]. split; [done|]. split; [done|].
      split; [intros q Hq; rewrite <- Hs; by apply H2|]. intros _. cbv zeta in H1. rewrite Hs in H1.
      refine (eq_trans H1 _). bool_simpl. destruct (bool_decide (state = "succeeded")); [done|].
      simpl in *. by subst scheduled.
    + split; [done|]. unfold recordOutcome, upsert_schedule in Er.
      destruct (bool_decide (state = "succeeded")); destruct (_ || _) in Er; congruence.
  - repeat split; try done. intros Hp. rewrite Hs.
    rewrite bool_decide_eq_false_2 in Eo by done. simpl in Eo. apply orb_false_iff in Eo as [-> ->]. done.
Qed.
