(* ===== verification/ProjectStore.v ===== *)
(** * Projects in management storage
    ([internal/store/projects.go], [deletion.go], [access.go])

    Identity, access policy, connection checks, limits and password rotation
    of projects, and the deletion protocol: a tombstone ([stage='deleting']),
    a queued delete job, and the transaction that removes every row of the
    project. *)

From S2P Require Import Prelude GoStrings GoTime Schema JobStore.

(** ** Predicates of the queries *)

Definition project_id (id : string) (p : Project) : bool := bool_decide (p_ID p = id).
Definition in_stage (s : string) (p : Project) : bool := bool_decide (p_Stage p = s).
Definition secret_of (id : string) (s : Secret) : bool := bool_decide (sec_ProjectID s = id).
Definition policy_of (id : string) (s : PolicyStateRow) : bool := bool_decide (ps_ProjectID s = id).
Definition limits_of (id : string) (l : ProjectLimits) : bool := bool_decide (pl_ProjectID l = id).
Definition revision_of (id : string) (r : PolicyRevision) : bool := bool_decide (pr_ProjectID r = id).
Definition check_of (id : string) (c : ConnectionCheck) : bool := bool_decide (cc_ProjectID c = id).
Definition check_id (id : string) (c : ConnectionCheck) : bool := bool_decide (cc_ID c = id).
Definition pending_check (c : ConnectionCheck) : bool := bool_decide (cc_State c = "pending").

(** [ORDER BY created_at, id] *)
Definition project_age (p : Project) : Z * string := (p_CreatedAt p, p_ID p).

(** The result of an update that must touch exactly one row. *)
Definition expect_one (n : Z) (db' : DB) : res store_error unit * DB :=
  if n =? 1 then (Ok tt, db') else (Err ErrProjectNotFound, db').

(** ** Limits *)

Definition DefaultLimits : Limits := mkLimits 60000 300000 1048576 10000 25.

Definition timeout_ok (v : Z) : bool := (v =? 0) || negb ((v <? 1000) || (86400000 <? v)).

Definition Limits_Validate (l : Limits) : res store_error unit :=
  guard! timeout_ok (l_StatementTimeoutMS l)
    else ErrInvalid "statement timeout must be off or between 1 second and 24 hours" in
  guard! timeout_ok (l_IdleInTransactionMS l)
    else ErrInvalid "idle-in-transaction timeout must be off or between 1 second and 24 hours" in
  guard! timeout_ok (l_LockTimeoutMS l)
    else ErrInvalid "lock timeout must be off or between 1 second and 24 hours" in
  guard! (l_TempFileLimitKB l =? -1) || negb ((l_TempFileLimitKB l <? 1024) || (1073741824 <? l_TempFileLimitKB l))
    else ErrInvalid "temporary file limit must be unlimited or between 1 MB and 1 TB" in
  guard! negb ((l_ConnectionLimit l <? 1) || (100 <? l_ConnectionLimit l))
    else ErrInvalid "connection limit must be between 1 and 100" in
  Ok tt.

Definition ReadLimits (projectID : string) (db : DB) : res store_error ProjectLimits :=
  match sql_find (limits_of projectID) (db_limits db) with
  | Some l => Ok l
  | None => Err ErrProjectNotFound
  end.

Definition SetProjectLimits (projectID : string) (l : Limits) (seenRevision : Z) (now : time) (db : DB) :
  res store_error ProjectLimits * DB :=
  match Limits_Validate l with
  | Err e => (Err e, db)
  | Ok _ =>
      let p := λ r, limits_of projectID r && (pl_Revision r =? seenRevision) in
      let db' := db <| db_limits := sql_update p
        (λ r, r <| pl_Limits := l |> <| pl_Revision := pl_Revision r + 1 |> <| pl_UpdatedAt := unix now |>)
        (db_limits db) |> in
      if sql_count p (db_limits db) =? 1 then (ReadLimits projectID db', db')
      else match ReadLimits projectID db' with
           | Err e => (Err e, db')
           | Ok _ => (Err ErrRevisionConflict, db')
           end
  end.

(** [RoleLimits]: project, role and database beside the limits. *)
Definition ReadyProjectLimits (db : DB) : list (string * string * string * ProjectLimits) :=
  let ready := sql_order (key_leb p_CreatedAt Z.leb) (sql_select (in_stage "ready") (db_projects db)) in
  concat (map (λ p, map (λ l, (p_ID p, p_RoleName p, p_DBName p, l))
    (sql_select (limits_of (p_ID p)) (db_limits db))) ready).

Definition MarkLimitsApplied (projectID : string) (revision : Z) (db : DB) : DB :=
  db <| db_limits := sql_update (λ r, limits_of projectID r && (pl_Revision r =? revision))
    (λ r, r <| pl_AppliedRevision := revision |> <| pl_LastError := "" |>) (db_limits db) |>.

Definition LimitsFailed (projectID reason : string) (db : DB) : DB :=
  db <| db_limits := sql_update (limits_of projectID) (λ r, r <| pl_LastError := reason |>) (db_limits db) |>.

(** ** Identity *)

Definition projectBy (p : Project → bool) (db : DB) : res store_error Project :=
  match sql_find p (db_projects db) with
  | Some q => Ok q
  | None => Err ErrProjectNotFound
  end.
Definition ProjectByID (id : string) : DB → res store_error Project := projectBy (project_id id).
Definition by_key (k : string) (p : Project) : bool := bool_decide (p_IdempotencyKey p = k).
Lemma ProjectByID_id id d q : ProjectByID id d = Ok q → p_ID q = id.
Proof.
  unfold ProjectByID, projectBy. destruct (sql_find _ _) as [p|] eqn:E; [|done]. intros [= <-].
  apply sql_find_some in E as [_ E]. by apply bool_decide_eq_true in E.
Qed.

(** The [UNIQUE] and [PRIMARY KEY] columns of [projects]. *)
Definition project_clash (p : Project) (key : string) (q : Project) : bool :=
  project_id (p_ID p) q || bool_decide (p_DBName q = p_DBName p) || bool_decide (p_RoleName q = p_RoleName p) ||
  by_key key q.

Definition project_row (p : Project) (key : string) (now : time) : Project :=
  mkProject (p_ID p) (p_Name p) (p_DBName p) (p_RoleName p) key "identity_persisted" false "" (unix now) 0 0 0.

Definition CreateProject (p : Project) (idempotencyKey sealedPassword : string) (now : time) (db : DB) :
  res store_error (Project * bool) * DB :=
  match sql_insert (project_clash p idempotencyKey) true (project_row p idempotencyKey now) (db_projects db) with
  | Err e =>
      match projectBy (by_key idempotencyKey) db with
      | Ok existing => (Ok (existing, false), db)
      | Err _ => (Err e, db)
      end
  | Ok projects =>
      atomically (λ db,
        let! secrets := sql_insert (secret_of (p_ID p)) true (mkSecret (p_ID p) sealedPassword None "") (db_secrets db) in
        let! policies := sql_insert (policy_of (p_ID p)) true (mkPolicyState (p_ID p) 0 0 "idle" "") (db_policy_state db) in
        let! limits := sql_insert (limits_of (p_ID p)) true
          (mkProjectLimits (p_ID p) DefaultLimits 1 0 "" (unix now)) (db_limits db) in
        Ok (Ok (p <| p_Stage := "identity_persisted" |> <| p_CreatedAt := unix now |>, true),
            db <| db_projects := projects |> <| db_secrets := secrets |> <| db_policy_state := policies |>
               <| db_limits := limits |>)) db
  end.

Definition Projects (db : DB) : list Project := sql_order (key_leb project_age oldest_first) (db_projects db).

Definition IncompleteProjects (db : DB) : list Project :=
  sql_order (key_leb project_age oldest_first)
    (sql_select (λ p, negb (p_Failed p) && negb (in_stage "ready" p || in_stage "deleting" p)) (db_projects db)).

(** Neither ever overwrites the deletion tombstone. *)
Definition SetProjectStage (id stage : string) (now : time) (db : DB) : DB :=
  let p := λ r, project_id id r && negb (in_stage "deleting" r) in
  if bool_decide (stage = "ready") then
    db <| db_projects := sql_update p (λ r, r <| p_Stage := stage |> <| p_ReadyAt := unix now |>) (db_projects db) |>
  else db <| db_projects := sql_update p (λ r, r <| p_Stage := stage |>) (db_projects db) |>.

Definition FailProject (id stageError : string) (db : DB) : DB :=
  db <| db_projects := sql_update (λ r, project_id id r && negb (in_stage "deleting" r))
    (λ r, r <| p_Failed := true |> <| p_StageError := stageError |>) (db_projects db) |>.

Definition RetryProject (id : string) (db : DB) : res store_error unit * DB :=
  let p := λ r, project_id id r && p_Failed r in
  expect_one (sql_count p (db_projects db))
    (db <| db_projects := sql_update p (λ r, r <| p_Failed := false |> <| p_StageError := "" |>) (db_projects db) |>).

(** The zero time resumes writes. *)
Definition SetProjectFrozen (id : string) (at' : time) (db : DB) : res store_error unit * DB :=
  let value := if bool_decide (at' = zero_time) then 0 else unix at' in
  expect_one (sql_count (project_id id) (db_projects db))
    (db <| db_projects := sql_update (project_id id) (λ r, r <| p_FrozenAt := value |>) (db_projects db) |>).

Definition SealedPassword (id : string) (db : DB) : res store_error string :=
  match sql_find (secret_of id) (db_secrets db) with
  | Some s => Ok (sec_Sealed s)
  | None => Err ErrProjectNotFound
  end.

(** ** Access policy *)

Definition RecordPolicyRevision (projectID : string) (expectedRevision : Z) (addresses : string) (now : time) (db : DB) :
  res store_error Z * DB :=
  atomically (λ db,
    let! st := match sql_find (policy_of projectID) (db_policy_state db) with
               | Some st => Ok st | None => Err ErrProjectNotFound end in
    guard! ps_CurrentRevision st =? expectedRevision else ErrRevisionConflict in
    let next := ps_CurrentRevision st + 1 in
    let! revisions := sql_insert (λ r, revision_of projectID r && (pr_Revision r =? next)) (project_exists db projectID)
      (mkPolicyRevision projectID next addresses (unix now)) (db_policy_revisions db) in
    Ok (Ok next,
        db <| db_policy_revisions := revisions |>
           <| db_policy_state := sql_update (policy_of projectID)
                (λ s, s <| ps_CurrentRevision := next |> <| ps_State := "pending" |> <| ps_LastError := "" |>)
                (db_policy_state db) |>)) db.

(** The state row beside the addresses of its current revision. *)
Definition PolicyState (projectID : string) (db : DB) : res store_error (PolicyStateRow * string) :=
  match sql_find (policy_of projectID) (db_policy_state db) with
  | Some st =>
      Ok (st, match sql_find (λ r, revision_of (ps_ProjectID st) r && (pr_Revision r =? ps_CurrentRevision st))
                      (db_policy_revisions db) with
              | Some r => pr_Addresses r
              | None => "[]"
              end)
  | None => Err ErrProjectNotFound
  end.

Definition ApplyPolicyResult (projectID : string) (revision : Z) (applied : bool) (message : string) (db : DB) : DB :=
  let p := λ s, policy_of projectID s && (ps_CurrentRevision s =? revision) in
  if applied then
    db <| db_policy_state := sql_update p
      (λ s, s <| ps_AppliedRevision := revision |> <| ps_State := "applied" |> <| ps_LastError := "" |>)
      (db_policy_state db) |>
  else
    db <| db_policy_state := sql_update p (λ s, s <| ps_State := "failed" |> <| ps_LastError := message |>)
      (db_policy_state db) |>.

(** ** Connection checks *)

Definition NewConnectionCheck (id projectID challengeHash fingerprint : string) (now : time) (db : DB) : res store_error DB :=
  let! rows := sql_insert (check_id id) (project_exists db projectID)
    (mkConnectionCheck id projectID challengeHash (unix (now + 10 * Minute)) "pending" "" fingerprint (unix now))
    (db_connection_checks db) in
  Ok (db <| db_connection_checks := rows |>).

Definition ReadConnectionCheck (projectID checkID : string) (db : DB) : res store_error ConnectionCheck :=
  match sql_find (λ c, check_id checkID c && check_of projectID c) (db_connection_checks db) with
  | Some c => Ok c
  | None => Err ErrProjectNotFound
  end.

Definition ExpireConnectionChecks (now : time) (db : DB) : DB :=
  db <| db_connection_checks := sql_update (λ c, pending_check c && (cc_ExpiresAt c <=? unix now))
    (λ c, c <| cc_State := "expired" |>) (db_connection_checks db) |>.

Definition PendingChallengeHash (projectID checkID : string) (db : DB) : res store_error string :=
  match sql_find (λ c, check_id checkID c && check_of projectID c && pending_check c) (db_connection_checks db) with
  | Some c => Ok (cc_ChallengeHash c)
  | None => Err ErrProjectNotFound
  end.

Definition CompleteConnectionCheck (id evidence : string) (db : DB) : res store_error unit * DB :=
  let p := λ c, check_id id c && pending_check c in
  expect_one (sql_count p (db_connection_checks db))
    (db <| db_connection_checks := sql_update p (λ c, c <| cc_State := "successful" |> <| cc_Evidence := evidence |>)
             (db_connection_checks db) |>).

(** ** Audit *)

Definition Audit (entry : AuditEntry) (db : DB) : DB := audit entry db.
Definition AuditEntries (limit : nat) (db : DB) : list AuditEntry :=
  take limit (sql_order (key_leb au_ID (rev_leb Z.leb)) (db_audit db)).

(** ** Password rotation *)

Definition BeginRotation (projectID sealed requestID : string) (db : DB) : res store_error unit * DB :=
  let p := λ s, secret_of projectID s &&
    sql_exists (λ q, project_id (sec_ProjectID s) q && in_stage "ready" q) (db_projects db) in
  expect_one (sql_count p (db_secrets db))
    (db <| db_secrets := sql_update p (λ s, s <| sec_Pending := Some sealed |> <| sec_PendingRequestID := requestID |>)
             (db_secrets db) |>).

Definition PendingPassword (projectID : string) (db : DB) : res store_error string :=
  match sql_find (secret_of projectID) (db_secrets db) with
  | Some s => Ok (default "" (sec_Pending s))
  | None => Err ErrProjectNotFound
  end.

(** Project, request and sealed password of every rotation in flight. *)
Definition PendingRotations (db : DB) : list (string * string * string) :=
  omap (λ s,
    if sql_exists (λ p, project_id (sec_ProjectID s) p && negb (in_stage "deleting" p)) (db_projects db)
    then (λ x, (sec_ProjectID s, sec_PendingRequestID s, x)) <$> sec_Pending s else None) (db_secrets db).

Definition CompleteRotation (projectID sealed : string) (entry : AuditEntry) (db : DB) : res store_error bool * DB :=
  let p := λ s, secret_of projectID s && bool_decide (sec_Pending s = Some sealed) in
  if sql_count p (db_secrets db) =? 0 then (Ok false, db)
  else
    let db1 := db <| db_secrets := sql_update p
      (λ s, s <| sec_Sealed := sealed |> <| sec_Pending := None |> <| sec_PendingRequestID := "" |>) (db_secrets db) |> in
    (Ok true,
     RecordAlertEvent "credential_rotated" ("credential_rotated:" +:+ projectID) "A database password was changed"
       ("Project " +:+ projectID +:+ "; every session using the old password was closed.") (of_unix (au_At entry))
       (audit entry db1)).

(** ** Deletion *)

Definition delete_job_of (projectID : string) (j : Job) : bool := of_project projectID j && of_kind "delete" j.
Definition active_delete (projectID : string) (j : Job) : bool := delete_job_of projectID j && active_job j.

Definition insertDeleteJob (id projectID input : string) (now : time) (db : DB) : res store_error DB :=
  let! jobs := sql_insert (has_id id) (project_exists db projectID)
    (new_job id "delete" (Some projectID) input (unix now) false) (db_jobs db) in
  Ok (db <| db_jobs := jobs |>).

(** What marking a project for deletion writes, before its job is queued. *)
Definition mark_deleting (projectID : string) (entry : AuditEntry) (now : time) (db : DB) : DB :=
  let db1 := db <| db_projects := sql_update (project_id projectID)
      (λ r, r <| p_Stage := "deleting" |> <| p_Failed := false |> <| p_StageError := "" |> <| p_DeletingAt := unix now |>)
      (db_projects db) |> in
  let db2 := db1 <| db_jobs := sql_update
      (λ j, of_project projectID j && in_state "queued" j && negb (of_kind "delete" j))
      (λ j, j <| j_State := "failed" |> <| j_Error := "Cancelled: the database is being deleted." |>
              <| j_FinishedAt := unix now |>) (db_jobs db1) |> in
  let db3 := audit entry db2 in
  db3 <| db_conditions := sql_delete
      (λ c, bool_decide (ac_Key c = "backup_failed:" +:+ projectID) || bool_decide (ac_Key c = "backup_stale:" +:+ projectID))
      (db_conditions db3) |>.

Definition BeginProjectDeletion (projectID : string) (newJob : Project → string * string) (entry : AuditEntry) (now : time)
  (db : DB) : res store_error (Job * bool) * DB :=
  atomically (λ db,
    guard! negb (maintenance db) else ErrMaintenance in
    let! p := ProjectByID projectID db in
    let queue (db1 : DB) (created : bool) : res store_error (res store_error (Job * bool) * DB) :=
      let (id, input) := newJob p in
      let! db2 := insertDeleteJob id projectID input now db1 in
      Ok (rbind (JobByID id db2) (λ job, Ok (job, created)), db2) in
    if in_stage "deleting" p then
      match sql_order (key_leb j_CreatedAt Z.leb) (sql_select (active_delete projectID) (db_jobs db)) with
      | active :: _ => Ok (Ok (active, false), db)
      | [] => queue (audit (entry <| au_Action := "project.delete.retry" |>) db) false
      end
    else
      guard! in_stage "ready" p || p_Failed p else ErrNotDeletable in
      guard! sql_count (λ j, of_project projectID j && in_state "running" j) (db_jobs db) =? 0 else ErrProjectBusy in
      queue (mark_deleting projectID entry now db) true) db.

(** [ORDER BY p.deleting_at, p.id] *)
Definition deletion_age (p : Project) : Z * string := (p_DeletingAt p, p_ID p).
Definition pending_deletions (db : DB) : list Project :=
  sql_order (key_leb deletion_age oldest_first)
    (sql_select (λ p, in_stage "deleting" p && negb (sql_exists (active_delete (p_ID p)) (db_jobs db))) (db_projects db)).

Fixpoint queue_deletions (newJob : Project → string * string) (now : time) (pending : list Project) (db : DB) :
  res store_error DB :=
  match pending with
  | [] => Ok db
  | p :: ps =>
      let (id, input) := newJob p in
      let! db' := insertDeleteJob id (p_ID p) input now db in
      queue_deletions newJob now ps db'
  end.

Definition ResumeDeletions (newJob : Project → string * string) (now : time) (db : DB) : res store_error Z * DB :=
  if maintenance db then (Ok 0, db)
  else atomically (λ db,
    let pending := pending_deletions db in
    let! db' := queue_deletions newJob now pending db in
    Ok (Ok (Z.of_nat (length pending)), db')) db.

(** [ORDER BY created_at DESC, rowid DESC LIMIT 1]: among jobs of equal age
    the one inserted last. *)
Definition LastDeleteJob (projectID : string) (db : DB) : option Job :=
  head (sql_order (key_leb j_CreatedAt (rev_leb Z.leb)) (rev (sql_select (delete_job_of projectID) (db_jobs db)))).

(** The statements of [CompleteProjectDeletion], in their order. *)
Definition remove_project (id : string) (db : DB) : DB :=
  db <| db_secrets := sql_delete (secret_of id) (db_secrets db) |>
     <| db_policy_revisions := sql_delete (revision_of id) (db_policy_revisions db) |>
     <| db_policy_state := sql_delete (policy_of id) (db_policy_state db) |>
     <| db_connection_checks := sql_delete (check_of id) (db_connection_checks db) |>
     <| db_limits := sql_delete (limits_of id) (db_limits db) |>
     <| db_schedule := sql_delete (schedule_of id) (db_schedule db) |>
     <| db_jobs := sql_update (of_project id) (λ j, j <| j_ProjectID := None |>) (db_jobs db) |>
     <| db_backups := sql_update (λ b, bool_decide (b_ProjectID b = Some id)) (λ b, b <| b_ProjectID := None |>)
          (db_backups db) |>
     <| db_projects := sql_delete (project_id id) (db_projects db) |>.

Definition CompleteProjectDeletion (jobID : string) (p : Project) (result : string) (now : time) (db : DB) :
  res store_error unit * DB :=
  atomically (λ db,
    guard! match sql_find (project_id (p_ID p)) (db_projects db) with
           | Some q => in_stage "deleting" q
           | None => false
           end else ErrInvalid "the project is no longer marked for deletion" in
    let db1 := FinishJob jobID "succeeded" "done" "" result now (remove_project (p_ID p) db) in
    Ok (Ok tt, RecordAlertEvent "project_deleted" ("project_deleted:" +:+ p_ID p) "A database was deleted"
      ("Project " +:+ p_Name p +:+ " (" +:+ p_DBName p +:+
       ") and its PostgreSQL user were removed. Its backups stay in the bucket under the retention policy.") now db1)) db.

Definition FailDeleteJob (jobID projectID projectName stage message result : string) (now : time) (db : DB) : DB :=
  let earlier := sql_count (λ j, delete_job_of projectID j && in_state "failed" j && negb (has_id jobID j)) (db_jobs db) in
  let db1 := FinishJob jobID "failed" stage message result now db in
  if (earlier =? 0) && negb (bool_decide (projectID = "")) then
    RecordAlertEvent "delete_failed" ("delete_failed:" +:+ projectID) ("Deleting " +:+ projectName +:+ " did not finish")
      ("It stopped at stage " +:+ stage +:+ ": " +:+ message +:+
       " It is retried automatically every 15 minutes; see the database page.") now db1
  else db1.

(** ** Creating a project *)

Lemma sql_find_app {Row} (p : Row → bool) t t' r : sql_find p t = Some r → sql_find p (t ++ t') = Some r.
Proof. unfold sql_find. induction t as [|x t IH]; simpl; [done|]. by destruct (p x). Qed.

(** Creating a project is idempotent in its key: a creation that reported
    success left the project's row with its sealed password, its idle access
    policy and the default limits, all in one transaction; repeating the
    request with the same key, with whatever identity and password, changes
    nothing and returns the project that exists. *)
Theorem CreateProject_idempotent p key sealed now db q db' :
  CreateProject p key sealed now db = (Ok (q, true), db') →
  In (project_row p key now) (db_projects db') ∧
  SealedPassword (p_ID p) db' = Ok sealed ∧
  PolicyState (p_ID p) db' = Ok (mkPolicyState (p_ID p) 0 0 "idle" "",
    match sql_find (λ r, revision_of (p_ID p) r && (pr_Revision r =? 0)) (db_policy_revisions db) with
    | Some r => pr_Addresses r | None => "[]" end) ∧
  ReadLimits (p_ID p) db' = Ok (mkProjectLimits (p_ID p) DefaultLimits 1 0 "" (unix now)) ∧
  ∀ p2 sealed2 now2, ∃ existing,
    CreateProject p2 key sealed2 now2 db' = (Ok (existing, false), db') ∧ p_IdempotencyKey existing = key.
Proof.
  unfold CreateProject at 1. destruct (sql_insert _ _ _ (db_projects db)) as [ps|] eqn:Ep.
  2:{ destruct (projectBy _ _); by intros [= ? ?]. }
  unfold atomically.
  destruct (sql_insert _ _ _ (db_secrets db)) as [ss|] eqn:E1; cbn [rbind]; [|done].
  destruct (sql_insert _ _ _ (db_policy_state db)) as [pp|] eqn:E2; cbn [rbind]; [|done].
  destruct (sql_insert _ _ _ (db_limits db)) as [ll|] eqn:E3; cbn [rbind]; [|done]. intros [= <- <-].
  apply sql_insert_ok in Ep as (-> & _ & _), E1 as (-> & _ & F1), E2 as (-> & _ & F2), E3 as (-> & _ & F3).
  split; [apply in_app_iff; right; left; done|].
  unfold SealedPassword, PolicyState, ReadLimits. cbn [db_secrets db_policy_state db_limits db_policy_revisions upd].
  rewrite !sql_find_snoc; try done; try (by apply bool_decide_eq_true). split; [done|]. split; [done|]. split; [done|].
  intros p2 sealed2 now2.
  destruct (sql_find (by_key key) (db_projects db ++ [project_row p key now])) as [e|] eqn:Ee.
  2:{ exfalso. assert (by_key key (project_row p key now) = false) as H; [|by apply bool_decide_eq_false in H].
      apply (proj1 (sql_find_none _ _) Ee). apply in_app_iff. right. by left. }
  exists e. pose proof Ee as [He Hk]%sql_find_some. unfold by_key in Hk. split; [|by apply bool_decide_eq_true in Hk].
  unfold CreateProject. cbn [db_projects upd].
  destruct (sql_insert (project_clash p2 key) _ _ _) eqn:Ei.
  - apply sql_insert_ok in Ei as (_ & _ & Hf). specialize (Hf e He). unfold project_clash, by_key in Hf.
    rewrite Hk in Hf. by rewrite orb_true_r in Hf.
  - unfold projectBy. cbn [db_projects upd]. by rewrite Ee.
Qed.

Lemma CreateProject_idempotent_witness :
  let out := CreateProject example_project "k1" "sealed" (of_unix 10) empty_db in
  ∃ q db', out = (Ok (q, true), db') ∧ SealedPassword "p1" db' = Ok "sealed".
Proof.
  cbv zeta. eexists _, _. split; [reflexivity|].
  apply (CreateProject_idempotent example_project "k1" "sealed" (of_unix 10) empty_db _ _ eq_refl).
Defined.

(** ** Removing a project *)

(** [CompleteProjectDeletion] runs only on a project that carries the
    tombstone (otherwise nothing changes), and then no table mentions the
    project: its password, policy, revisions, checks, limits and schedule
    are gone, exactly these rows and no other project's; job and backup
    history keep every row, with the reference cleared; the view of the
    bucket, and so the backups themselves, are untouched. *)
Theorem CompleteProjectDeletion_erases jobID p result now db :
  let (r, db') := CompleteProjectDeletion jobID p result now db in
  match r with
  | Err _ => db' = db ∧ (∀ q, sql_find (project_id (p_ID p)) (db_projects db) = Some q → p_Stage q ≠ "deleting")
  | Ok _ =>
      (∃ q, In q (db_projects db) ∧ p_ID q = p_ID p ∧ p_Stage q = "deleting") ∧
      project_exists db' (p_ID p) = false ∧
      (∀ x, In x (db_projects db') ↔ In x (db_projects db) ∧ p_ID x ≠ p_ID p) ∧
      (∀ x, In x (db_secrets db') ↔ In x (db_secrets db) ∧ sec_ProjectID x ≠ p_ID p) ∧
      (∀ x, In x (db_policy_state db') ↔ In x (db_policy_state db) ∧ ps_ProjectID x ≠ p_ID p) ∧
      (∀ x, In x (db_policy_revisions db') ↔ In x (db_policy_revisions db) ∧ pr_ProjectID x ≠ p_ID p) ∧
      (∀ x, In x (db_connection_checks db') ↔ In x (db_connection_checks db) ∧ cc_ProjectID x ≠ p_ID p) ∧
      (∀ x, In x (db_limits db') ↔ In x (db_limits db) ∧ pl_ProjectID x ≠ p_ID p) ∧
      (∀ x, In x (db_schedule db') ↔ In x (db_schedule db) ∧ bs_ProjectID x ≠ p_ID p) ∧
      map j_ID (db_jobs db') = map j_ID (db_jobs db) ∧ (∀ j, In j (db_jobs db') → j_ProjectID j ≠ Some (p_ID p)) ∧
      map b_ObjectKey (db_backups db') = map b_ObjectKey (db_backups db) ∧
      (∀ b, In b (db_backups db') → b_ProjectID b ≠ Some (p_ID p)) ∧
      db_bucket db' = db_bucket db
  end.
Proof.
  unfold CompleteProjectDeletion, atomically. destruct (sql_find _ _) as [q|] eqn:Eq; [|done].
  destruct (in_stage "deleting" q) eqn:Es; unfold in_stage in Es; bool_simpl.
  2:{ split; [done|]. by intros ? [= <-]. }
  apply sql_find_some in Eq as [Hq Hid]. unfold project_id in Hid. bool_simpl.
  set (db' := RecordAlertEvent _ _ _ _ _ _).
  assert (∀ Row (key : Row → string) t x, In x (sql_delete (λ r, bool_decide (key r = p_ID p)) t) ↔ In x t ∧ key x ≠ p_ID p) as D.
  { intros. by rewrite in_sql_delete, bool_decide_eq_false. }
  repeat match goal with |- _ ∧ _ => split end; try (intros x; apply D).
  - by exists q.
  - apply sql_exists_false. intros r [_ Hr]%D. by apply bool_decide_eq_false.
  - etrans; [by apply map_sql_update|]. by apply map_sql_update.
  - intros j (j0 & (j1 & _ & ->)%in_sql_update & ->)%in_sql_update. unfold of_project.
    destruct (has_id _ _); case_bool_decide; cbn; done.
  - by apply map_sql_update.
  - intros b (b0 & _ & ->)%in_sql_update. by case_bool_decide.
  - done.
Qed.

(** ** Access policy under concurrent edits *)

(** Access policy edits are compare-and-swap on the revision: an edit
    based on a stale revision, or of an unknown project, changes nothing; an
    accepted edit moves to the next revision, becomes what [PolicyState]
    reports, and is pending until a result for exactly that revision
    arrives: a late result for any other revision changes nothing. *)
Theorem policy_revision_cas id expected addresses now db :
  let (r, db') := RecordPolicyRevision id expected addresses now db in
  match r with
  | Err e => db' = db
  | Ok next =>
      next = expected + 1 ∧
      (∃ st, sql_find (policy_of id) (db_policy_state db) = Some st ∧ ps_CurrentRevision st = expected) ∧
      (∃ st', PolicyState id db' = Ok (st', addresses) ∧ ps_CurrentRevision st' = next ∧ ps_State st' = "pending") ∧
      (∀ stale applied message, stale ≠ next →
         PolicyState id (ApplyPolicyResult id stale applied message db') = PolicyState id db')
  end.
Proof.
  unfold RecordPolicyRevision, atomically. destruct (sql_find _ _) as [st|] eqn:Est; cbn [rbind]; [|done].
  destruct (_ =? expected) eqn:Er; [|done]. bool_simpl. subst expected.
  destruct (sql_insert _ _ _ _) as [rs|] eqn:Ei; cbn [rbind]; [|done]. apply sql_insert_ok in Ei as (-> & _ & Hf).
  set (next := ps_CurrentRevision st + 1) in *. set (db' := _ <| db_policy_state := _ |>).
  pose proof Est as [Hin Hid]%sql_find_some. unfold policy_of in Hid. apply bool_decide_eq_true in Hid.
  set (st' := st <| ps_CurrentRevision := next |> <| ps_State := "pending" |> <| ps_LastError := "" |>).
  assert (sql_find (policy_of id) (db_policy_state db') = Some st') as Hst.
  { unfold db'. cbn [db_policy_state upd]. rewrite sql_find_update, Est by done. cbn.
    unfold policy_of. by rewrite bool_decide_eq_true_2. }
  split; [done|]. split; [by exists st|]. split.
  - exists st'. unfold PolicyState. rewrite Hst. split; [|done]. do 2 f_equal. cbn.
    rewrite sql_find_snoc; [done| |]; rewrite Hid; [exact Hf|].
    unfold revision_of. cbn. by rewrite bool_decide_eq_true_2, Z.eqb_refl.
  - intros stale applied message Hne. unfold PolicyState.
    replace (sql_find (policy_of id) (db_policy_state (ApplyPolicyResult id stale applied message db'))) with (Some st').
    + rewrite Hst. unfold ApplyPolicyResult. by destruct applied.
    + unfold ApplyPolicyResult. destruct applied; cbn [db_policy_state upd]; rewrite sql_find_update, Hst by done; cbn;
        rewrite (proj2 (Z.eqb_neq next stale)) by done; by rewrite andb_false_r.
Qed.

(** ** Password rotation *)

Lemma secret_count_le (p : Secret → bool) id t :
  NoDup (map sec_ProjectID t) → (∀ s, p s = true → sec_ProjectID s = id) → sql_count p t ≤ 1.
Proof.
  intros HN Hp. induction t as [|s t IH]; [done|]. rewrite sql_count_cons. apply NoDup_cons in HN as [Hs HN].
  destruct (p s) eqn:E; [|specialize (IH HN); lia]. rewrite (proj2 (sql_count_zero p t)); [lia|].
  intros r Hr. apply not_true_iff_false. intros Er. apply Hs. rewrite (Hp s E), <- (Hp r Er).
  by apply list_elem_of_In, in_map.
Qed.

(** A rotation is a compare-and-swap on the pending password: it is
    accepted only for a ready project; completing it makes exactly the
    password recorded at the beginning the active one, clears the pending
    one and writes one audit row; completing it again, or completing a
    rotation that was overtaken, changes nothing. *)
Theorem rotation_is_cas id sealed requestID entry db :
  NoDup (map sec_ProjectID (db_secrets db)) →
  let (r, db1) := BeginRotation id sealed requestID db in
  match r with
  | Err _ => db_secrets db1 = db_secrets db
  | Ok _ =>
      (∃ q, In q (db_projects db) ∧ p_ID q = id ∧ p_Stage q = "ready") ∧
      PendingPassword id db1 = Ok sealed ∧ SealedPassword id db1 = SealedPassword id db ∧
      let (done1, db2) := CompleteRotation id sealed entry db1 in
      done1 = Ok true ∧ SealedPassword id db2 = Ok sealed ∧ PendingPassword id db2 = Ok "" ∧
      db_audit db2 = db_audit db ++ [entry <| au_ID := db_audit_seq db + 1 |>] ∧
      ∀ other entry2, CompleteRotation id other entry2 db2 = (Ok false, db2)
  end.
Proof.
  intros HN. unfold BeginRotation. set (p := λ s : Secret, _ && _).
  assert (∀ s, p s = true → sec_ProjectID s = id) as Hp.
  { unfold p, secret_of. intros s ?. by bool_simpl. }
  pose proof (secret_count_le p id _ HN Hp) as Hle. pose proof (sql_count_nonneg p (db_secrets db)) as Hge.
  unfold expect_one. destruct (_ =? 1) eqn:Ec; bool_simpl.
  2:{ cbn. apply sql_update_id. apply sql_count_zero. lia. }
  assert (∃ s, In s (db_secrets db) ∧ p s = true) as (s & Hs & Ps).
  { apply sql_exists_true. destruct (sql_exists p (db_secrets db)) eqn:E; [done|].
    rewrite sql_exists_false in E. rewrite (proj2 (sql_count_zero p _) E) in Ec. lia. }
  pose proof (Hp s Ps) as Hid.
  assert (∀ db', map sec_ProjectID (db_secrets db') = map sec_ProjectID (db_secrets db) → ∀ x,
    sec_ProjectID x = id → In x (db_secrets db') → sql_find (secret_of id) (db_secrets db') = Some x) as Hfind.
  { intros db' Hm x Hx Hin. apply (sql_find_unique sec_ProjectID); [by rewrite Hm|unfold secret_of; intros; by rewrite bool_decide_eq_true, Hx|done]. }
  set (db1 := db <| db_secrets := _ |>).
  set (s1 := s <| sec_Pending := Some sealed |> <| sec_PendingRequestID := requestID |>).
  assert (sql_find (secret_of id) (db_secrets db1) = Some s1) as F1.
  { apply Hfind; [by apply map_sql_update|done|]. apply in_sql_update. exists s. by rewrite Ps. }
  assert (sql_find (secret_of id) (db_secrets db) = Some s) as F0 by (by apply Hfind).
  split; [|split; [by unfold PendingPassword; rewrite F1|split; [by unfold SealedPassword; rewrite F1, F0|]]].
  { unfold p in Ps. bool_simpl. apply sql_exists_true in H0 as (q & Hq & Hr). unfold project_id, in_stage in Hr. bool_simpl.
    exists q. by rewrite <- Hid. }
  unfold CompleteRotation at 1. set (p2 := λ s : Secret, secret_of id s && _).
  assert (p2 s1 = true) as P2.
  { unfold p2, secret_of. by rewrite !bool_decide_eq_true_2. }
  destruct (sql_count p2 (db_secrets db1) =? 0) eqn:E2; bool_simpl.
  { apply sql_find_some in F1 as [Hin _]. rewrite (proj1 (sql_count_zero _ _) E2 s1 Hin) in P2. discriminate. }
  set (db2 := RecordAlertEvent _ _ _ _ _ _).
  set (s2 := s1 <| sec_Sealed := sealed |> <| sec_Pending := None |> <| sec_PendingRequestID := "" |>).
  assert (sql_find (secret_of id) (db_secrets db2) = Some s2) as F2.
  { apply Hfind; [etrans; by apply map_sql_update|done|]. apply in_sql_update. exists s1.
    apply sql_find_some in F1 as [? _]. by rewrite P2. }
  split; [done|]. unfold SealedPassword, PendingPassword. rewrite F2. do 3 (split; [done|]).
  intros other entry2. unfold CompleteRotation. rewrite (proj2 (Z.eqb_eq _ 0)); [done|].
  apply sql_count_zero. intros x Hx. apply andb_false_iff.
  destruct (secret_of id x) eqn:Ex; [right|by left]. unfold secret_of in Ex. bool_simpl.
  apply (Hfind db2) in Hx; [|etrans; by apply map_sql_update|done]. rewrite F2 in Hx. injection Hx as <-.
  by apply bool_decide_eq_false.
Qed.

Lemma rotation_is_cas_witness :
  let db := empty_db <| db_projects := [example_project] |> <| db_secrets := [mkSecret "p1" "old" None ""] |> in
  let db1 := (BeginRotation "p1" "new" "req" db).2 in
  SealedPassword "p1" (CompleteRotation "p1" "new" (mkAuditEntry 0 5 1 "rotate" "p1" "req" "") db1).2 = Ok "new".
Proof.
  cbv zeta.
  pose proof (rotation_is_cas "p1" "new" "req" (mkAuditEntry 0 5 1 "rotate" "p1" "req" "")
    (empty_db <| db_projects := [example_project] |> <| db_secrets := [mkSecret "p1" "old" None ""] |>)) as H.
  destruct (BeginRotation _ _ _ _) as [r db1] eqn:E. injection E as <- <-.
  destruct H as (_ & _ & _ & H); [apply NoDup_singleton|].
  destruct (CompleteRotation _ _ _ _) as [d db2]. by destruct H as (_ & H & _).
Defined.
