(* ===== verification/BackupStore.v ===== *)
(** * The reconciled view of the bucket ([internal/store/backups.go])

    The backup policy, the schedule's candidates, and the cache of what a
    complete listing of each database prefix found in the active store. *)

From S2P Require Import Prelude GoStrings GoTime Storage Schema JobStore ProjectStore.

(** ** Policy *)

Definition BackupComplete : string := "complete".
Definition BackupManifestOnly : string := "manifest_only".
Definition BackupArchiveOnly : string := "archive_only".
Definition BackupDamaged : string := "damaged".

Definition Interval (p : BackupPolicy) : duration := bp_TargetIntervalHours p * Hour.

Definition backupIntervals (h : Z) : bool := (h =? 1) || (h =? 6) || (h =? 12) || (h =? 24).

Definition Policy_Validate (p : BackupPolicy) : res store_error unit :=
  guard! backupIntervals (bp_TargetIntervalHours p)
    else ErrInvalid "the backup target interval must be 1, 6, 12 or 24 hours" in
  guard! negb ((bp_RetentionDaily p <? 1) || (90 <? bp_RetentionDaily p))
    else ErrInvalid "daily retention must be between 1 and 90 backups" in
  guard! negb ((bp_RetentionWeekly p <? 0) || (52 <? bp_RetentionWeekly p))
    else ErrInvalid "weekly retention must be between 0 and 52 backups" in
  guard! negb ((bp_PreferredHour p <? -1) || (23 <? bp_PreferredHour p))
    else ErrInvalid "the preferred hour must be between 0 and 23, or any time" in
  Ok tt.

(** The preferred hour applies to daily backups only. *)
Definition hourly (p : BackupPolicy) : bool := (0 <=? bp_PreferredHour p) && (bp_TargetIntervalHours p =? 24).

Definition DueBefore (p : BackupPolicy) (now : time) : time :=
  if negb (hourly p) then now - Interval p
  else
    let window := date (year now) (month now) (day now) (bp_PreferredHour p) 0 0 in
    let window := if now <? window then add_days window (-1) else window in
    window - Second.

Definition NextAfter (p : BackupPolicy) (newest : Z) : Z :=
  if negb (hourly p) then newest + Z.quot (Interval p) Second
  else
    let at' := of_unix newest in
    let next := date (year at') (month at') (day at') (bp_PreferredHour p) 0 0 in
    let next := if negb (at' <? next) then add_days next 1 else next in
    unix next.

Definition ReadBackupPolicy (db : DB) : BackupPolicy := db_policy db.

Definition SetBackupPolicy (p : BackupPolicy) (now : time) (db : DB) : res store_error unit * DB :=
  match Policy_Validate p with
  | Err e => (Err e, db)
  | Ok _ =>
      (Ok tt, db <| db_policy := mkBackupPolicy (bp_TargetIntervalHours p) (bp_RetentionDaily p) (bp_RetentionWeekly p)
                      (bp_PreferredHour p) (unix now) |>)
  end.

(** ** Schedule *)

(** A map from project id; the join keeps projects that are not being deleted. *)
Definition BackupFailures (db : DB) : list BackupSchedule :=
  sql_select (λ s, (0 <? bs_Failures s) &&
    sql_exists (λ p, project_id (bs_ProjectID s) p && negb (in_stage "deleting" p)) (db_projects db)) (db_schedule db).

(** A bucket row this installation can restore for the project: complete, in
    the active store, and naming the installation, the project and its
    database. *)
Definition recoverable (target installationID projectID dbName : string) (b : BucketBackup) : bool :=
  bool_decide (bb_Target b = target) && bool_decide (bb_State b = BackupComplete) &&
  bool_decide (bb_InstallationID b = installationID) && bool_decide (bb_ProjectID b = projectID) &&
  bool_decide (bb_DBName b = dbName).

(** [max(taken_at)], [NULL] for no rows. *)
Definition max_taken (l : list BucketBackup) : option Z :=
  fold_right (λ b acc, Some (match acc with Some m => Z.max (bb_TakenAt b) m | None => bb_TakenAt b end)) None l.

Definition newest_taken (target installationID : string) (p : Project) (db : DB) : option Z :=
  max_taken (sql_select (recoverable target installationID (p_ID p) (p_DBName p)) (db_bucket db)).

(** [ORDER BY last_attempt_at, created_at, id] *)
Definition attempt_age (db : DB) (p : Project) : Z * (Z * string) :=
  (bs_LastAttemptAt (ReadSchedule (p_ID p) db), project_age p).
Definition least_attempted : Z * (Z * string) → Z * (Z * string) → bool := lex_leb Z.leb oldest_first.
#[export] Instance least_attempted_total : TotalLeb least_attempted.
Proof. unfold least_attempted. apply _. Qed.

Definition backup_due (target installationID : string) (now dueBefore : time) (db : DB) (p : Project) : bool :=
  in_stage "ready" p && negb (p_Failed p) &&
  (bs_NextAttemptAt (ReadSchedule (p_ID p) db) <=? unix now) &&
  (default 0 (newest_taken target installationID p db) <=? unix dueBefore).

Definition BackupCandidates (target installationID : string) (now dueBefore : time) (db : DB) : list Project :=
  sql_order (key_leb (attempt_age db) least_attempted)
    (sql_select (backup_due target installationID now dueBefore db) (db_projects db)).

(** The shared column list, qualified for a joined query. *)
Definition prefixed (columns alias : string) : string :=
  alias +:+ "." +:+ join ("," +:+ alias +:+ ".") (split_on ","%char columns).
Example prefixed_columns : prefixed "id,name,db_name" "p" = "p.id,p.name,p.db_name".
Proof. reflexivity. Qed.

Definition NewestRecoverable (target installationID : string) (db : DB) : gmap string Z :=
  list_to_map (omap (λ p, pair (p_ID p) <$> newest_taken target installationID p db) (db_projects db)).

Lemma max_taken_in l n : max_taken l = Some n → ∃ b, In b l ∧ bb_TakenAt b = n.
Proof.
  revert n. induction l as [|b l IH]; cbn [max_taken fold_right]; [done|]. fold (max_taken l). intros n [= <-].
  destruct (max_taken l) as [m|]; [|exists b; split; [by left|done]].
  destruct (Z.max_spec (bb_TakenAt b) m) as [[_ ->]|[_ ->]]; [|exists b; split; [by left|done]].
  destruct (IH m eq_refl) as (b' & Hb & <-). exists b'. split; [by right|done].
Qed.
Lemma NewestRecoverable_row target installationID db id n : NewestRecoverable target installationID db !! id = Some n →
  ∃ p b, In p (db_projects db) ∧ p_ID p = id ∧ In b (db_bucket db) ∧
    recoverable target installationID id (p_DBName p) b = true ∧ bb_TakenAt b = n.
Proof.
  unfold NewestRecoverable. intros H%elem_of_list_to_map_2. apply list_elem_of_omap in H as (p & Hp%list_elem_of_In & Hn).
  unfold newest_taken in Hn. destruct (max_taken _) as [m|] eqn:Em; [|done]. injection Hn as <- <-.
  apply max_taken_in in Em as (b & Hb & <-). apply in_sql_select in Hb as [Hb Hr]. by exists p, b.
Qed.

Definition LateProjects (target installationID : string) (interval : duration) (now : time) (db : DB) : list Project :=
  let newest := NewestRecoverable target installationID db in
  let deadline := unix (now + Z.quot (-3 * interval) 2) in
  List.filter (λ p,
    in_stage "ready" p && negb (p_Failed p) &&
    match newest !! p_ID p with
    | Some at' => at' <? deadline
    | None => p_ReadyAt p <? deadline
    end) (Projects db).

(** ** Storage targets *)

Definition target_is (t : string) (s : StorageTarget) : bool := bool_decide (st_Target s = t).

Definition ActivateStorageTarget (t : StorageTarget) (db : DB) : DB :=
  let rows := sql_upsert (target_is (st_Target t))
    (mkStorageTarget (st_Target t) (st_Endpoint t) (st_Bucket t) (st_Prefix t) true 0 "")
    (λ s, s <| st_Endpoint := st_Endpoint t |> <| st_Bucket := st_Bucket t |> <| st_Prefix := st_Prefix t |>
            <| st_Active := true |>) (db_targets db) in
  db <| db_targets := sql_update (λ s, negb (target_is (st_Target t) s)) (λ s, s <| st_Active := false |>) rows |>.

Definition ReadStorageTarget (target : string) (db : DB) : StorageTarget :=
  default (mkStorageTarget target "" "" "" false 0 "") (sql_find (target_is target) (db_targets db)).

(** Two statements, each its own transaction. *)
Definition note_target (target : string) (db : DB) : DB :=
  db <| db_targets := sql_insert_or_ignore (target_is target) (mkStorageTarget target "" "" "" false 0 "") (db_targets db) |>.
Definition SetTargetReconciled (target : string) (at' : time) (lastError : string) (db : DB) : DB :=
  let db1 := note_target target db in
  if negb (bool_decide (lastError = "")) then
    db1 <| db_targets := sql_update (target_is target) (λ s, s <| st_LastError := lastError |>) (db_targets db1) |>
  else
    db1 <| db_targets := sql_update (target_is target)
      (λ s, s <| st_ReconciledAt := unix at' |> <| st_LastError := "" |>) (db_targets db1) |>.

(** ** The cache of one prefix *)

Definition bucket_row (target key : string) (b : BucketBackup) : bool :=
  bool_decide (bb_Target b = target) && bool_decide (bb_ManifestKey b = key).
Definition in_prefix (target dbName : string) (b : BucketBackup) : bool :=
  bool_decide (bb_Target b = target) && bool_decide (bb_DBName b = dbName).
Definition prefix_row (target dbName : string) (p : PrefixState) : bool :=
  bool_decide (px_Target p = target) && bool_decide (px_DBName p = dbName).

(** The row a listed entry is stored as: a deletion we began is remembered
    only while the listing still shows the archive without its manifest. *)
Definition listed_row (target : string) (now : time) (b : BucketBackup) (started : Z) : BucketBackup :=
  b <| bb_Target := target |> <| bb_SeenAt := unix now |>
    <| bb_DeleteStartedAt := if bool_decide (bb_State b = BackupArchiveOnly) then started else 0 |>.

Definition store_listed (target : string) (now : time) (rows : list BucketBackup) (b : BucketBackup) : list BucketBackup :=
  sql_upsert (bucket_row target (bb_ManifestKey b)) (listed_row target now b 0)
    (λ old, listed_row target now b (bb_DeleteStartedAt old)) rows.

Definition ReplacePrefix (target : string) (state : PrefixState) (backups : list BucketBackup) (now : time) (db : DB) : DB :=
  let keys := map bb_ManifestKey backups in
  let gone := List.filter (λ k, negb (bool_decide (k ∈ keys)))
    (map bb_ManifestKey (sql_select (in_prefix target (px_DBName state)) (db_bucket db))) in
  let rows := fold_left (λ rows k, sql_delete (bucket_row target k) rows) gone (db_bucket db) in
  let rows := fold_left (store_listed target now) backups rows in
  let row := mkPrefixState target (px_DBName state) (unix now) (px_Complete state) (px_ManifestOnly state)
    (px_ArchiveOnly state) (px_Damaged state) (px_Mixed state) in
  db <| db_bucket := rows |>
     <| db_prefixes := sql_upsert (prefix_row target (px_DBName state)) row (λ _, row) (db_prefixes db) |>.

Definition empty_prefix (dbName : string) : PrefixState := mkPrefixState "" dbName 0 0 0 0 0 false.

(** Each vanished prefix is its own transaction. *)
Definition TombstonePrefixes (target : string) (present : list string) (now : time) (db : DB) : DB :=
  let gone := List.filter (λ n, negb (bool_decide (n ∈ present)))
    (map px_DBName (sql_select (λ p, bool_decide (px_Target p = target)) (db_prefixes db))) in
  fold_left (λ db n, ReplacePrefix target (empty_prefix n) [] now db) gone db.

Definition PrefixStates (target : string) (db : DB) : list PrefixState :=
  sql_order (key_leb px_DBName String.leb) (sql_select (λ p, bool_decide (px_Target p = target)) (db_prefixes db)).

(** ** Reading the cache *)

(** [ORDER BY taken_at DESC, manifest_key DESC] *)
Definition bucket_age (b : BucketBackup) : Z * string := (bb_TakenAt b, bb_ManifestKey b).

Definition BucketBackups (target dbName : string) (before : Z) (limit : nat) (db : DB) : list BucketBackup * bool :=
  let before := if before <=? 0 then 2 ^ 62 - 1 else before in
  let out := take (limit + 1) (sql_order (key_leb bucket_age newest_first)
    (sql_select (λ b, in_prefix target dbName b && bool_decide (bb_State b = BackupComplete) && (bb_TakenAt b <? before))
      (db_bucket db))) in
  if (limit <? length out)%nat then (take limit out, true) else (out, false).

Definition PrefixBackups (target dbName : string) (db : DB) : list BucketBackup :=
  sql_order (key_leb bucket_age newest_first) (sql_select (in_prefix target dbName) (db_bucket db)).

Definition ReadBucketBackup (target manifestKey : string) (db : DB) : res store_error BucketBackup :=
  match sql_find (bucket_row target manifestKey) (db_bucket db) with
  | Some b => Ok b
  | None => Err ErrProjectNotFound
  end.

(** ** Deleting *)

Definition MarkBackupDeleting (target manifestKey : string) (now : time) (db : DB) : DB :=
  db <| db_bucket := sql_update (bucket_row target manifestKey) (λ b, b <| bb_DeleteStartedAt := unix now |>) (db_bucket db) |>.
Definition MarkBackupArchiveOnly (target manifestKey : string) (db : DB) : DB :=
  db <| db_bucket := sql_update (bucket_row target manifestKey) (λ b, b <| bb_State := BackupArchiveOnly |>) (db_bucket db) |>.
Definition ForgetBucketBackup (target manifestKey : string) (db : DB) : DB :=
  db <| db_bucket := sql_delete (bucket_row target manifestKey) (db_bucket db) |>.
Definition DeleteLocalBackupRow (target objectKey : string) (db : DB) : DB :=
  db <| db_backups := sql_delete (λ b, bool_decide (b_StorageTarget b = target) && bool_decide (b_ObjectKey b = objectKey))
          (db_backups db) |>.

Definition lost_backup (target : string) (db : DB) (b : Backup) : bool :=
  bool_decide (b_StorageTarget b = target) &&
  negb (sql_exists (λ r, bucket_row (b_StorageTarget b) (b_ObjectKey b) r && bool_decide (bb_State r = BackupComplete))
          (db_bucket db)).
Definition ForgetLostLocalBackups (target : string) (db : DB) : Z * DB :=
  (sql_count (lost_backup target db) (db_backups db),
   db <| db_backups := sql_delete (lost_backup target db) (db_backups db) |>).

(** ** Provenance *)

Definition abandoned_claim (target k : string) (before : time) (j : Job) : bool :=
  of_kind "backup" j && bool_decide (j_TargetStorage j = target) && bool_decide (j_TargetKey j = k) &&
  (in_state "failed" j || in_state "interrupted" j) && (0 <? j_FinishedAt j) && (j_FinishedAt j <? unix before).
Definition AbandonedUploadKey (target k : string) (before : time) (db : DB) : bool :=
  0 <? sql_count (abandoned_claim target k before) (db_jobs db).

(** SQLite's [LIKE]: [%] matches any run, [_] any one character, and ASCII
    letters match in either case. *)
Fixpoint like (pattern : string) : string → bool :=
  match pattern with
  | EmptyString => λ s, bool_decide (s = "")
  | String c rest =>
      if bool_decide (c = "%"%char) then
        fix any (s : string) : bool := like rest s || match s with EmptyString => false | String _ s' => any s' end
      else λ s,
        match s with
        | EmptyString => false
        | String a s' => (bool_decide (c = "_"%char) || bool_decide (lower_byte a = lower_byte c)) && like rest s'
        end
  end.

Definition prunable (before : time) (db : DB) (j : Job) : bool :=
  (0 <? j_FinishedAt j) && (j_FinishedAt j <? unix before) &&
  negb (sql_exists (λ b, bool_decide (bb_Target b = j_TargetStorage j) && bool_decide (bb_State b = BackupArchiveOnly) &&
          negb (bool_decide (j_TargetKey j = "")) && like (j_TargetKey j +:+ "%") (bb_ManifestKey b)) (db_bucket db)) &&
  (bool_decide (j_TargetKey j = "") ||
   sql_exists (λ t, target_is (j_TargetStorage j) t && (j_FinishedAt j <? st_ReconciledAt t)) (db_targets db)).

Definition PruneJobs (before : time) (db : DB) : Z * DB :=
  (sql_count (prunable before db) (db_jobs db), db <| db_jobs := sql_delete (prunable before db) (db_jobs db) |>).

(** ** The policy *)

Lemma ltb_of_unix t w : (t <? of_unix w) = (unix t <? w).
Proof.
  unfold unix, of_unix. apply eq_true_iff_eq. rewrite !Z.ltb_lt. assert (0 < Second) by done.
  generalize dependent Second. intros S HS. pose proof (Z.div_mod t S). pose proof (Z.mod_pos_bound t S). split; nia.
Qed.

Lemma of_unix_days w k : of_unix w + k * 24 * Hour = of_unix (w + k * 86400).
Proof. unfold of_unix, Hour, Minute. lia. Qed.

Lemma of_unix_pred w : of_unix w - Second = of_unix (w - 1).
Proof. unfold of_unix. lia. Qed.

Lemma Policy_Validate_ok p :
  Policy_Validate p = Ok tt ↔
  (bp_TargetIntervalHours p = 1 ∨ bp_TargetIntervalHours p = 6 ∨ bp_TargetIntervalHours p = 12 ∨
   bp_TargetIntervalHours p = 24) ∧
  1 ≤ bp_RetentionDaily p ≤ 90 ∧ 0 ≤ bp_RetentionWeekly p ≤ 52 ∧ -1 ≤ bp_PreferredHour p ≤ 23.
Proof.
  unfold Policy_Validate, backupIntervals. rewrite !guard_ok, !negb_true_iff, !orb_false_iff, !orb_true_iff.
  rewrite !Z.eqb_eq, !Z.ltb_ge. intuition lia.
Qed.

(** The two formulations of the schedule agree at every instant: a
    project whose newest backup was taken at [newest] is due now
    ([DueBefore], which the scheduler queries with) exactly when the time
    shown to the administrator ([NextAfter]) has come, with and without a
    preferred hour. *)
Theorem DueBefore_iff_NextAfter (p : BackupPolicy) (newest : Z) (now : time) :
  Policy_Validate p = Ok tt →
  newest ≤ unix (DueBefore p now) ↔ NextAfter p newest ≤ unix now.
Proof.
  intros Hv%Policy_Validate_ok. unfold DueBefore, NextAfter. destruct (hourly p) eqn:Eh; cbn [negb].
  - assert (0 ≤ bp_PreferredHour p ≤ 23) by (unfold hourly in Eh; bool_simpl; lia). clear Hv. rewrite !date_of_fields, !ltb_of_unix, !add_days_spec, !of_unix_days.
    unfold day_number. rewrite unix_of_unix. generalize dependent (bp_PreferredHour p). intros h Hh.
    destruct (unix now <? _) eqn:E1; destruct (newest <? _) eqn:E2; cbn [negb];
      rewrite of_unix_pred, !unix_of_unix; bool_simpl; div_lia.
  - unfold Interval. replace (Z.quot (bp_TargetIntervalHours p * Hour) Second) with (bp_TargetIntervalHours p * 3600).
    + unfold unix, Hour, Minute, Second. div_lia.
    + replace (bp_TargetIntervalHours p * Hour) with (bp_TargetIntervalHours p * 3600 * Second)
        by (unfold Hour, Minute; lia). by rewrite Z.quot_mul.
Qed.

Lemma DueBefore_iff_NextAfter_witness :
  let p := mkBackupPolicy 24 14 8 3 0 in
  Policy_Validate p = Ok tt ∧
  (1767225600 ≤ unix (DueBefore p (of_unix 1767240000)) ↔ NextAfter p 1767225600 ≤ unix (of_unix 1767240000)).
Proof. split; [reflexivity|]. apply (DueBefore_iff_NextAfter (mkBackupPolicy 24 14 8 3 0)). reflexivity. Defined.

(** ** Candidates *)

Lemma max_taken_le l bound : 0 ≤ bound →
  default 0 (max_taken l) ≤ bound ↔ ∀ b, In b l → bb_TakenAt b ≤ bound.
Proof.
  intros Hb. induction l as [|x l IH]; simpl; [split; [done|intros; lia]|].
  destruct (max_taken l) as [m|] eqn:E; simpl in *.
  - split.
    + intros H b [<-|Hin]; [lia|]. apply IH; [lia|done].
    + intros H. assert (m ≤ bound) by (apply IH; intros; apply H; auto).
      assert (bb_TakenAt x ≤ bound) by (apply H; auto). lia.
  - destruct l; [|simpl in E; discriminate]. split; [intros ? b [<-|[]]; lia|]. intros H. apply H. auto.
Qed.

(** The scheduler's choice.  A project is a candidate exactly when it is
    ready, not failed, its backoff has expired, and no backup that this
    installation can restore for it (complete, in the active store, naming
    this installation, this project and its database) is newer than the due
    time: another server's backup never satisfies it.  The first candidate
    is the one attempted least recently. *)
Theorem BackupCandidates_spec target installationID now dueBefore db :
  0 ≤ unix dueBefore →
  (∀ p, In p (BackupCandidates target installationID now dueBefore db) ↔
     In p (db_projects db) ∧ p_Stage p = "ready" ∧ p_Failed p = false ∧
     bs_NextAttemptAt (ReadSchedule (p_ID p) db) ≤ unix now ∧
     ∀ b, In b (db_bucket db) → bb_Target b = target → bb_State b = BackupComplete →
       bb_InstallationID b = installationID → bb_ProjectID b = p_ID p → bb_DBName b = p_DBName p →
       bb_TakenAt b ≤ unix dueBefore) ∧
  (∀ p l, BackupCandidates target installationID now dueBefore db = p :: l →
     ∀ q, In q (p :: l) →
       bs_LastAttemptAt (ReadSchedule (p_ID p) db) ≤ bs_LastAttemptAt (ReadSchedule (p_ID q) db)).
Proof.
  intros Hdue. unfold BackupCandidates. split.
  - intros p. rewrite in_sql_order, in_sql_select. unfold backup_due, newest_taken, in_stage.
    rewrite !andb_true_iff, negb_true_iff, !Z.leb_le, bool_decide_eq_true, max_taken_le by done.
    enough ((∀ b, In b (sql_select (recoverable target installationID (p_ID p) (p_DBName p)) (db_bucket db)) →
               bb_TakenAt b ≤ unix dueBefore) ↔
            (∀ b, In b (db_bucket db) → bb_Target b = target → bb_State b = BackupComplete →
               bb_InstallationID b = installationID → bb_ProjectID b = p_ID p → bb_DBName b = p_DBName p →
               bb_TakenAt b ≤ unix dueBefore)) as -> by tauto.
    unfold recoverable. split; intros H b.
    + intros. apply H. rewrite in_sql_select. split; [done|]. by rewrite !bool_decide_eq_true_2.
    + intros [Hb Hr]%in_sql_select. bool_simpl. by apply H.
  - intros p l E q Hq. rewrite <- E, in_sql_order in Hq.
    apply (sql_order_head (attempt_age db) least_attempted) in E as [_ Hle]. apply Hle in Hq.
    unfold least_attempted, lex_leb in Hq. bool_simpl. simpl in *. lia.
Qed.

(** A ready project whose only backup in the store was taken by another
    installation: it is due, and it is the one candidate. *)
Definition foreign_row : BucketBackup :=
  mkBucketBackup "t1" "backups/shop/20260101T000000Z/manifest.json" "backups/shop/20260101T000000Z/archive.dump" "shop"
    1767225600 BackupComplete "other" "p1" "Shop" "17" 3 100 1767225700 0.
Definition candidates_db : DB := example_db <| db_jobs := [] |> <| db_bucket := [foreign_row] |>.

Lemma BackupCandidates_spec_witness :
  0 ≤ unix (of_unix 1767139200) ∧
  (∀ b, In b (db_bucket candidates_db) → bb_InstallationID b ≠ "mine") ∧
  In example_project (BackupCandidates "t1" "mine" (of_unix 1767225800) (of_unix 1767139200) candidates_db).
Proof.
  split; [vm_compute; discriminate|]. split; [intros b [<-|[]]; discriminate|].
  apply (BackupCandidates_spec "t1" "mine" (of_unix 1767225800) (of_unix 1767139200) candidates_db); [vm_compute; discriminate|].
  repeat split; [left; reflexivity | vm_compute; discriminate |].
  intros b [<-|[]] _ _ [=].
Defined.

(** ** The cache is the listing *)

Definition bucket_key (b : BucketBackup) : string * string := (bb_Target b, bb_ManifestKey b).
(** The table's primary key. *)
Definition bucket_wf (rows : list BucketBackup) : Prop := NoDup (map bucket_key rows).

Lemma bucket_row_true t k b : bucket_row t k b = true ↔ bucket_key b = (t, k).
Proof.
  unfold bucket_row, bucket_key. rewrite andb_true_iff, !bool_decide_eq_true. split; [intros [-> ->]; done|].
  by intros [= <- <-].
Qed.

Lemma bucket_row_key t k b : bb_Target b = t → bb_ManifestKey b = k → bucket_row t k b = true.
Proof. intros <- <-. by apply bucket_row_true. Qed.

(** The deletion we began of the object a row names, 0 for none. *)
Definition deletion_mark (target key : string) (rows : list BucketBackup) : Z :=
  match sql_find (bucket_row target key) rows with Some old => bb_DeleteStartedAt old | None => 0 end.

Lemma listed_row_key target now b s : bucket_key (listed_row target now b s) = (target, bb_ManifestKey b).
Proof. done. Qed.

Lemma store_listed_wf target now rows b : bucket_wf rows → bucket_wf (store_listed target now rows b).
Proof.
  intros HN. unfold store_listed, bucket_wf.
  eapply NoDup_map_upsert; [..|exact HN]; intros r; rewrite bucket_row_true, ?listed_row_key; [done|].
  intros ->. done.
Qed.

Lemma find_store_listed target now rows b t k :
  sql_find (bucket_row t k) (store_listed target now rows b) =
  if bool_decide ((t, k) = (target, bb_ManifestKey b))
  then Some (listed_row target now b (deletion_mark target (bb_ManifestKey b) rows))
  else sql_find (bucket_row t k) rows.
Proof.
  unfold store_listed, deletion_mark. case_bool_decide as E.
  - injection E as -> ->. rewrite sql_find_upsert; [by destruct (sql_find _ _)|by apply bucket_row_true|].
    intros r _. by apply bucket_row_true.
  - apply sql_find_upsert_other.
    + apply not_true_iff_false. rewrite bucket_row_true, listed_row_key. congruence.
    + intros r Hr%bucket_row_true. apply not_true_iff_false. rewrite bucket_row_true. congruence.
    + intros r Hr%bucket_row_true. apply not_true_iff_false. rewrite bucket_row_true, listed_row_key. congruence.
Qed.

Lemma fold_store_listed_wf target now backups rows :
  bucket_wf rows → bucket_wf (fold_left (store_listed target now) backups rows).
Proof. revert rows. induction backups as [|b l IH]; simpl; auto using store_listed_wf. Qed.

(** Storing a listing with distinct keys: each key reads as its listed row,
    every other key as before. *)
Lemma find_fold_listed target now backups rows t k :
  NoDup (map bb_ManifestKey backups) →
  sql_find (bucket_row t k) (fold_left (store_listed target now) backups rows) =
  match (if bool_decide (t = target) then List.find (λ b, bool_decide (bb_ManifestKey b = k)) backups else None) with
  | Some b => Some (listed_row target now b (deletion_mark target k rows))
  | None => sql_find (bucket_row t k) rows
  end.
Proof.
  revert rows. induction backups as [|b l IH]; intros rows HN; simpl.
  - by case_bool_decide.
  - apply NoDup_cons in HN as [Hb HN]. rewrite IH by done. unfold deletion_mark.
    rewrite !find_store_listed. destruct (decide (t = target)) as [->|Ht].
    + rewrite bool_decide_eq_true_2 by done. destruct (decide (bb_ManifestKey b = k)) as [<-|Hk].
      * rewrite (bool_decide_eq_true_2 (_ = _)) by done.
        destruct (List.find _ l) as [b'|] eqn:E; [exfalso|by rewrite !bool_decide_eq_true_2 by done].
        apply find_some in E as [Hin E]. apply bool_decide_eq_true in E. apply Hb. rewrite <- E.
        by apply list_elem_of_In, in_map.
      * rewrite (bool_decide_eq_false_2 (bb_ManifestKey b = k)) by done.
        rewrite (bool_decide_eq_false_2 ((target, k) = _)) by congruence. done.
    + rewrite (bool_decide_eq_false_2 (t = target)) by done.
      rewrite (bool_decide_eq_false_2 ((t, k) = _)) by congruence. done.
Qed.

Lemma in_fold_delete target gone rows r :
  In r (fold_left (λ rows k, sql_delete (bucket_row target k) rows) gone rows) ↔
  In r rows ∧ ¬ (bb_Target r = target ∧ In (bb_ManifestKey r) gone).
Proof.
  revert rows. induction gone as [|k gone IH]; intros rows; simpl; [tauto|].
  rewrite IH, in_sql_delete. unfold bucket_row. rewrite andb_false_iff, !bool_decide_eq_false.
  split; [intros [[? Hk] ?]; split; [done|]; intros [? [?|?]]; destruct Hk; auto|].
  intros [? Hn]. split; [split; [done|]|].
  - destruct (decide (bb_Target r = target)); [right|by left]. intros ?. apply Hn. auto.
  - intros [? ?]. apply Hn. auto.
Qed.

Lemma fold_delete_wf target gone rows :
  bucket_wf rows → bucket_wf (fold_left (λ rows k, sql_delete (bucket_row target k) rows) gone rows).
Proof. revert rows. induction gone as [|k gone IH]; simpl; intros rows H; [done|]. apply IH. by apply NoDup_map_sql_delete. Qed.

Lemma in_find_bucket rows r : bucket_wf rows →
  In r rows ↔ sql_find (bucket_row (bb_Target r) (bb_ManifestKey r)) rows = Some r.
Proof.
  intros HN. symmetry. apply (sql_find_unique bucket_key); [done|]. intros x. apply bucket_row_true.
Qed.

(** A listing of one prefix: distinct keys, all of the prefix, none of which
    the cache files under another database. *)
Record listing_of (target dbName : string) (backups rows : list BucketBackup) : Prop := {
  listing_keys : NoDup (map bb_ManifestKey backups);
  listing_db b : In b backups → bb_DBName b = dbName;
  listing_rows b r : In b backups → In r rows → bucket_row target (bb_ManifestKey b) r = true → bb_DBName r = dbName;
}.

Section replace_prefix.
Context (target : string) (state : PrefixState) (backups : list BucketBackup) (now : time) (db : DB).
Context (Hwf : bucket_wf (db_bucket db)) (Hl : listing_of target (px_DBName state) backups (db_bucket db)).

Let gone := List.filter (λ k, negb (bool_decide (k ∈ map bb_ManifestKey backups)))
  (map bb_ManifestKey (sql_select (in_prefix target (px_DBName state)) (db_bucket db))).
Let kept := fold_left (λ rows k, sql_delete (bucket_row target k) rows) gone (db_bucket db).

Lemma in_gone k : In k gone ↔
  k ∉ map bb_ManifestKey backups ∧
  ∃ r, In r (db_bucket db) ∧ in_prefix target (px_DBName state) r = true ∧ bb_ManifestKey r = k.
Proof.
  unfold gone. rewrite filter_In, negb_true_iff, bool_decide_eq_false, in_map_iff.
  setoid_rewrite in_sql_select. firstorder.
Qed.

Lemma kept_find k : In k (map bb_ManifestKey backups) →
  sql_find (bucket_row target k) kept = sql_find (bucket_row target k) (db_bucket db).
Proof.
  intros Hk. unfold kept. assert (∀ g, In g gone → g ≠ k) as Hg.
  { intros g [Hg _]%in_gone ->. apply Hg. by apply list_elem_of_In. }
  revert Hg. generalize (db_bucket db). induction gone as [|g gs IH]; intros rows Hg; simpl; [done|].
  rewrite IH by (intros; apply Hg; simpl; auto). apply sql_find_delete.
  intros x Hx%bucket_row_true. apply not_true_iff_false. rewrite bucket_row_true, Hx. intros [= ->].
  by apply (Hg g); [left|].
Qed.

Lemma ReplacePrefix_in r :
  In r (db_bucket (ReplacePrefix target state backups now db)) ↔
  (∃ b, In b backups ∧ r = listed_row target now b (deletion_mark target (bb_ManifestKey b) (db_bucket db))) ∨
  (In r (db_bucket db) ∧ in_prefix target (px_DBName state) r = false).
Proof using Hwf Hl.
  change (db_bucket (ReplacePrefix target state backups now db)) with (fold_left (store_listed target now) backups kept).
  assert (bucket_wf kept) as Hk by (by apply fold_delete_wf).
  rewrite in_find_bucket by (by apply fold_store_listed_wf). rewrite find_fold_listed by apply Hl.
  split.
  - destruct (if bool_decide _ then _ else None) as [b|] eqn:E.
    + case_bool_decide as Et; [|discriminate]. apply find_some in E as [Hb Ek]. bool_simpl.
      intros [= <-]. left. exists b. split; [done|]. unfold deletion_mark. rewrite <- Ek, kept_find; [done|].
      by apply in_map.
    + rewrite <- in_find_bucket by done. unfold kept. rewrite in_fold_delete. intros [Hr Hn]. right. split; [done|].
      apply not_true_iff_false. unfold in_prefix. intros Hp. bool_simpl. apply Hn. split; [done|]. apply in_gone.
      rewrite bool_decide_eq_true_2 in E by done. split.
      * intros (b & Hb & Hin)%list_elem_of_In%in_map_iff. apply (find_none _ _ E) in Hin. bool_simpl. congruence.
      * exists r. unfold in_prefix. by rewrite !bool_decide_eq_true_2.
  - intros [(b & Hb & ->)|[Hr Hp]].
    + cbn. rewrite bool_decide_eq_true_2 by done.
      destruct (List.find _ backups) as [b'|] eqn:E.
      * apply find_some in E as [Hb' Ek]. bool_simpl.
        assert (b' = b) as -> by (eapply NoDup_map_inj; [apply Hl|..]; done).
        unfold deletion_mark. rewrite kept_find; [done|by apply in_map].
      * apply (find_none _ _ E) in Hb. by rewrite bool_decide_eq_true_2 in Hb.
    + destruct (if bool_decide _ then _ else None) as [b|] eqn:E.
      * case_bool_decide as Et; [|discriminate]. apply find_some in E as [Hb Ek]. bool_simpl. exfalso.
        assert (bb_DBName r = px_DBName state) by (eapply (listing_rows _ _ _ _ Hl); [exact Hb|exact Hr|by apply bucket_row_key]).
        unfold in_prefix in Hp. by rewrite !bool_decide_eq_true_2 in Hp.
      * apply in_find_bucket; [done|]. unfold kept. rewrite in_fold_delete. split; [done|].
        intros [Ht (Hk1 & r' & Hr' & Hp' & Ekey)%in_gone]. assert (r = r') as ->.
        { eapply (NoDup_map_inj bucket_key); [exact Hwf|..]; try done. unfold bucket_key, in_prefix in *. bool_simpl. congruence. }
        congruence.
Qed.
End replace_prefix.

(** After a complete listing the cache of a prefix is exactly that
    listing: a row is there exactly when its entry was listed, every other
    prefix and every other store keeps its rows, and the primary key holds.
    A deletion we began survives only for an entry now seen as an archive
    without its manifest; seeing the manifest again clears the mark. *)
Theorem ReplacePrefix_is_listing target state backups now db :
  bucket_wf (db_bucket db) → listing_of target (px_DBName state) backups (db_bucket db) →
  let db' := ReplacePrefix target state backups now db in
  bucket_wf (db_bucket db') ∧
  (∀ r, In r (PrefixBackups target (px_DBName state) db') ↔
     ∃ b, In b backups ∧ r = listed_row target now b (deletion_mark target (bb_ManifestKey b) (db_bucket db))) ∧
  (∀ r, in_prefix target (px_DBName state) r = false → In r (db_bucket db') ↔ In r (db_bucket db)).
Proof.
  intros Hwf Hl. cbv zeta. split; [|split].
  - apply fold_store_listed_wf, fold_delete_wf, Hwf.
  - intros r. unfold PrefixBackups. rewrite in_sql_order, in_sql_select, ReplacePrefix_in by done. split.
    + intros [[H|[_ H]] Hp]; [done|congruence].
    + intros (b & Hb & ->). split; [by left; eauto|]. unfold in_prefix. cbn.
      rewrite (listing_db _ _ _ _ Hl b Hb). by rewrite !bool_decide_eq_true_2.
  - intros r Hp. rewrite ReplacePrefix_in by done. split; [|by right].
    intros [(b & Hb & ->)|[H _]]; [|done]. unfold in_prefix in Hp. cbn in Hp.
    rewrite (listing_db _ _ _ _ Hl b Hb) in Hp. by rewrite !bool_decide_eq_true_2 in Hp.
Qed.

Definition listed_entry : BucketBackup := foreign_row <| bb_State := BackupArchiveOnly |>.
Definition marked_row : BucketBackup := foreign_row <| bb_DeleteStartedAt := 5 |>.

Lemma ReplacePrefix_is_listing_witness :
  let db := empty_db <| db_bucket := [marked_row] |> in
  let db' := ReplacePrefix "t1" (empty_prefix "shop") [listed_entry] (of_unix 9) db in
  ∃ r, In r (PrefixBackups "t1" "shop" db') ∧ bb_State r = BackupArchiveOnly ∧ bb_DeleteStartedAt r = 5.
Proof.
  cbv zeta.
  pose proof (ReplacePrefix_is_listing "t1" (empty_prefix "shop") [listed_entry] (of_unix 9)
    (empty_db <| db_bucket := [marked_row] |>)) as (_ & H & _).
  - apply NoDup_singleton.
  - split; cbn.
    + apply NoDup_singleton.
    + intros b [<-|[]]. reflexivity.
    + intros b r' [<-|[]] [<-|[]] _. reflexivity.
  - eexists. split; [apply H; exists listed_entry; split; [left; reflexivity|reflexivity]|]. split; reflexivity.
Defined.

(** ** Provenance survives pruning *)

Lemma like_any rest s : like rest s = true → ∀ t, like (String "%" rest) (t +:+ s) = true.
Proof.
  intros H t. change (like (String "%" rest)) with
    (fix any (s : string) : bool := like rest s || match s with EmptyString => false | String _ s' => any s' end).
  induction t as [|a t IH]; simpl.
  - change ("" +:+ s) with s. destruct s; simpl; by rewrite H.
  - change (String a t +:+ s) with (String a (t +:+ s)). simpl. rewrite IH. apply orb_true_r.
Qed.

(** A key, wildcards and all, matches every string it is a prefix of. *)
Lemma like_prefix k s : like (k +:+ "%") (k +:+ s) = true.
Proof.
  induction k as [|a k IH].
  - change ("" +:+ s) with s. rewrite <- (app_nil_r' s). by apply (like_any "" "").
  - change (String a k +:+ "%") with (String a (k +:+ "%")). change (String a k +:+ s) with (String a (k +:+ s)).
    destruct (decide (a = "%"%char)) as [->|Ha].
    + by apply (like_any (k +:+ "%") (k +:+ s) IH "%").
    + cbn [like]. rewrite bool_decide_eq_false_2 by done. rewrite IH, andb_true_r.
      rewrite (bool_decide_eq_true_2 (lower_byte a = lower_byte a)) by done. apply orb_true_r.
Qed.

(** Pruning old jobs never destroys the evidence that an archive in the
    bucket is ours to clean: for every archive-only entry the cache knows,
    the question whether a finished backup job claims its directory has the
    same answer before and after [PruneJobs]. *)
Theorem PruneJobs_keeps_provenance before db target k file cutoff :
  k ≠ "" →
  (∃ b, In b (db_bucket db) ∧ bb_Target b = target ∧ bb_State b = BackupArchiveOnly ∧ bb_ManifestKey b = k +:+ file) →
  AbandonedUploadKey target k cutoff (PruneJobs before db).2 = AbandonedUploadKey target k cutoff db.
Proof.
  intros Hk (b & Hb & Ht & Hs & Hm). unfold AbandonedUploadKey, PruneJobs. cbn. f_equal.
  unfold sql_count, sql_select, sql_delete. f_equal. f_equal.
  induction (db_jobs db) as [|j js IH]; simpl; [done|].
  destruct (abandoned_claim target k cutoff j) eqn:Ej.
  - assert (prunable before db j = false) as ->; [|simpl; by rewrite Ej, IH].
    unfold abandoned_claim in Ej. bool_simpl. unfold prunable.
    replace (sql_exists _ (db_bucket db)) with true; [by rewrite andb_false_r|].
    symmetry. apply sql_exists_true. exists b. split; [done|]. subst.
    rewrite Hm, Hs, like_prefix, !bool_decide_eq_true_2, bool_decide_eq_false_2 by done. done.
  - destruct (prunable before db j); simpl; rewrite ?Ej; done.
Qed.

Lemma PruneJobs_keeps_provenance_witness :
  let j := (new_job "j1" "backup" (Some "p1") "{}" 100 true) <| j_State := "failed" |> <| j_FinishedAt := 200 |>
             <| j_TargetStorage := "t1" |> <| j_TargetKey := "backups/shop/20260101T000000Z" |> in
  let db := empty_db <| db_jobs := [j] |> <| db_bucket := [listed_entry] |> in
  AbandonedUploadKey "t1" "backups/shop/20260101T000000Z" (of_unix 1000) (PruneJobs (of_unix 100000) db).2 = true.
Proof.
  cbv zeta. rewrite (PruneJobs_keeps_provenance _ _ _ _ "/manifest.json"); [reflexivity|discriminate|].
  exists listed_entry. repeat split. left. reflexivity.
Defined.

(** ** The active store *)

(** After [ActivateStorageTarget] exactly the given store is active, its
    address is the given one, and what was known about it (when it was last
    reconciled, its last error) and about every other store is kept: old
    stores are only ever deactivated, never forgotten. *)
Theorem ActivateStorageTarget_unique t db :
  NoDup (map st_Target (db_targets db)) →
  let db' := ActivateStorageTarget t db in
  NoDup (map st_Target (db_targets db')) ∧
  (∀ s, In s (db_targets db') → st_Active s = bool_decide (st_Target s = st_Target t)) ∧
  (∀ n, ReadStorageTarget n db' =
     if bool_decide (n = st_Target t)
     then (ReadStorageTarget n db) <| st_Endpoint := st_Endpoint t |> <| st_Bucket := st_Bucket t |>
            <| st_Prefix := st_Prefix t |> <| st_Active := true |>
     else (ReadStorageTarget n db) <| st_Active := false |>).
Proof.
  intros HN. cbv zeta. unfold ActivateStorageTarget. cbn [db_targets upd]. set (rows := sql_upsert _ _ _ _).
  assert (NoDup (map st_Target rows)) as HN'.
  { apply NoDup_map_upsert; [|done|done]. intros r. unfold target_is. cbn. by rewrite bool_decide_eq_true. }
  split; [by rewrite map_sql_update|]. split.
  - intros s (s0 & Hs & ->)%in_sql_update. unfold target_is. destruct (bool_decide _) eqn:E; cbn.
    + rewrite E. apply in_sql_upsert in Hs as [->|[(s1 & _ & _ & ->)|[_ Hs]]]; [done..|].
      unfold target_is in Hs. congruence.
    + by rewrite E.
  - intros n. unfold ReadStorageTarget. cbn [db_targets upd]. rewrite sql_find_update by done.
    unfold target_is, rows. case_bool_decide as En.
    + subst n. rewrite sql_find_upsert; [|by apply bool_decide_eq_true|done].
      destruct (sql_find _ _) as [s|] eqn:E; simpl.
      * apply sql_find_some in E as [_ E]. unfold target_is in E. by rewrite E.
      * by rewrite bool_decide_eq_true_2.
    + rewrite sql_find_upsert_other.
      * destruct (sql_find _ _) as [s|] eqn:E; simpl; [|done].
        apply sql_find_some in E as [_ E]. bool_simpl. by rewrite bool_decide_eq_false_2 by congruence.
      * apply bool_decide_eq_false. cbn. congruence.
      * intros r ?. unfold target_is in *. bool_simpl. apply bool_decide_eq_false. congruence.
      * intros r ?. unfold target_is in *. bool_simpl. apply bool_decide_eq_false. cbn. congruence.
Qed.

Definition store_a : StorageTarget := mkStorageTarget "ta" "https://a" "one" "" true 7 "".
Definition store_b : StorageTarget := mkStorageTarget "tb" "https://b" "two" "p" true 0 "".

Lemma ActivateStorageTarget_unique_witness :
  let db' := ActivateStorageTarget store_b (empty_db <| db_targets := [store_a] |>) in
  st_Active (ReadStorageTarget "tb" db') = true ∧ ReadStorageTarget "ta" db' = store_a <| st_Active := false |>.
Proof.
  cbv zeta.
  destruct (ActivateStorageTarget_unique store_b (empty_db <| db_targets := [store_a] |>)) as (_ & _ & H);
    [apply NoDup_singleton|].
  rewrite !H. split; reflexivity.
Defined.
