(* ===== verification/StoreSteps.v ===== *)
(** * Sequences of store operations

    Every operation of [JobStore], [ProjectStore] and [BackupStore] that
    changes the shared tables is a constructor of [op]; [run] executes a
    sequence of them, in any order and with any arguments, from the empty
    database.  The invariants below hold after every such sequence, failed
    operations included. *)

From S2P Require Import Prelude GoStrings GoTime Schema JobStore ProjectStore BackupStore.

(** How a job ends: the worker records nothing else. *)
Definition terminal (succeeded : bool) : string := if succeeded then "succeeded" else "failed".

Inductive op :=
| OpEnqueueBackup (id projectID input : string) (scheduled : bool) (now : time)
| OpEnqueueRestore (id projectID input : string) (now : time)
| OpSetJobTarget (id target k : string)
| OpClaim (now : time)
| OpSetJobStage (id stage : string) (now : time)
| OpFinish (id : string) (succeeded : bool) (stage errorText result : string) (now : time)
| OpInterrupt (now : time) (interval : duration)
| OpCompleteBackup (id projectID : string) (succeeded : bool) (stage errorText result : string) (backup : option Backup)
    (scheduled : bool) (now : time) (interval : duration)
| OpRecordBackup (b : Backup)
| OpPrune (before : time)
| OpMaintenance (on : bool)
| OpCreateProject (p : Project) (idempotencyKey sealed : string) (now : time)
| OpSetProjectStage (id stage : string) (now : time)
| OpFailProject (id stageError : string)
| OpRetryProject (id : string)
| OpSetProjectFrozen (id : string) (at' : time)
| OpPolicyRevision (id : string) (expected : Z) (addresses : string) (now : time)
| OpPolicyResult (id : string) (revision : Z) (applied : bool) (message : string)
| OpNewCheck (id projectID challengeHash fingerprint : string) (now : time)
| OpExpireChecks (now : time)
| OpCompleteCheck (id evidence : string)
| OpSetLimits (id : string) (l : Limits) (seen : Z) (now : time)
| OpLimitsApplied (id : string) (revision : Z)
| OpLimitsFailed (id reason : string)
| OpBeginRotation (id sealed requestID : string)
| OpCompleteRotation (id sealed : string) (entry : AuditEntry)
| OpBeginDeletion (id : string) (newJob : Project → string * string) (entry : AuditEntry) (now : time)
| OpResumeDeletions (newJob : Project → string * string) (now : time)
| OpCompleteDeletion (jobID : string) (p : Project) (result : string) (now : time)
| OpFailDelete (jobID projectID projectName stage message result : string) (now : time).

Definition run_op (o : op) (db : DB) : DB :=
  match o with
  | OpEnqueueBackup id projectID input scheduled now => (EnqueueBackupJob id projectID input scheduled now db).2
  | OpEnqueueRestore id projectID input now => (EnqueueJob id "restore" projectID input now db).2
  | OpSetJobTarget id target k => SetJobTarget id target k db
  | OpClaim now => (ClaimJob now db).2
  | OpSetJobStage id stage now => SetJobStage id stage now db
  | OpFinish id ok stage errorText result now => FinishJob id (terminal ok) stage errorText result now db
  | OpInterrupt now interval => (InterruptRunningJobs now interval db).2
  | OpCompleteBackup id projectID ok stage errorText result backup scheduled now interval =>
      (CompleteBackupJob id projectID (terminal ok) stage errorText result backup scheduled now interval db).2
  | OpRecordBackup b => match RecordBackup b db with Ok db' => db' | Err _ => db end
  | OpPrune before => (PruneJobs before db).2
  | OpMaintenance on => SetMaintenance on db
  | OpCreateProject p k sealed now => (CreateProject p k sealed now db).2
  | OpSetProjectStage id stage now => SetProjectStage id stage now db
  | OpFailProject id e => FailProject id e db
  | OpRetryProject id => (RetryProject id db).2
  | OpSetProjectFrozen id at' => (SetProjectFrozen id at' db).2
  | OpPolicyRevision id expected addresses now => (RecordPolicyRevision id expected addresses now db).2
  | OpPolicyResult id revision applied message => ApplyPolicyResult id revision applied message db
  | OpNewCheck id projectID h f now => match NewConnectionCheck id projectID h f now db with Ok db' => db' | Err _ => db end
  | OpExpireChecks now => ExpireConnectionChecks now db
  | OpCompleteCheck id evidence => (CompleteConnectionCheck id evidence db).2
  | OpSetLimits id l seen now => (SetProjectLimits id l seen now db).2
  | OpLimitsApplied id revision => MarkLimitsApplied id revision db
  | OpLimitsFailed id reason => LimitsFailed id reason db
  | OpBeginRotation id sealed requestID => (BeginRotation id sealed requestID db).2
  | OpCompleteRotation id sealed entry => (CompleteRotation id sealed entry db).2
  | OpBeginDeletion id newJob entry now => (BeginProjectDeletion id newJob entry now db).2
  | OpResumeDeletions newJob now => (ResumeDeletions newJob now db).2
  | OpCompleteDeletion jobID p result now => (CompleteProjectDeletion jobID p result now db).2
  | OpFailDelete jobID projectID projectName stage message result now =>
      FailDeleteJob jobID projectID projectName stage message result now db
  end.

Definition run (ops : list op) (db : DB) : DB := fold_left (λ db o, run_op o db) ops db.

(** ** The invariants *)

Definition heavy (j : Job) : bool := active_job j && negb (of_kind "delete" j).
Definition ids (db : DB) : list string := map p_ID (db_projects db).

(** Rows of a table that belong to a project belong to one of [I]. *)
Definition owned {Row} (key : Row → string) (I : list string) (t : list Row) : Prop := ∀ r, In r t → In (key r) I.
Definition owned_opt {Row} (key : Row → option string) (I : list string) (t : list Row) : Prop :=
  ∀ r p, In r t → key r = Some p → In p I.

Record rows_inv_on (I : list string) (db : DB) : Prop := {
  inv_secrets : owned sec_ProjectID I (db_secrets db);
  inv_policy : owned ps_ProjectID I (db_policy_state db);
  inv_revisions : owned pr_ProjectID I (db_policy_revisions db);
  inv_checks : owned cc_ProjectID I (db_connection_checks db);
  inv_limits : owned pl_ProjectID I (db_limits db);
  inv_schedule : owned bs_ProjectID I (db_schedule db);
  inv_backups : owned_opt b_ProjectID I (db_backups db);
  inv_jobs : owned_opt j_ProjectID I (db_jobs db);
}.

Record queue_inv (jobs : list Job) : Prop := {
  inv_job_ids : NoDup (map j_ID jobs);
  inv_heavy : sql_count heavy jobs ≤ 1;
  inv_delete p : sql_count (active_delete p) jobs ≤ 1;
}.

(** The project of an active delete job carries the tombstone. *)
Definition tomb_inv (db : DB) : Prop :=
  ∀ j p, In j (db_jobs db) → active_delete p j = true →
    ∃ q, In q (db_projects db) ∧ p_ID q = p ∧ p_Stage q = "deleting".

Record store_inv (db : DB) : Prop := {
  si_ids : NoDup (ids db);
  si_rows : rows_inv_on (ids db) db;
  si_queue : queue_inv (db_jobs db);
  si_tomb : tomb_inv db;
}.

Lemma project_exists_ids db p : project_exists db p = true ↔ In p (ids db).
Proof.
  unfold project_exists, ids. rewrite sql_exists_true, in_map_iff. setoid_rewrite bool_decide_eq_true. firstorder.
Qed.

(** *** The queue *)

Lemma queue_inv_update p f jobs :
  (∀ j, j_ID (f j) = j_ID j) →
  (∀ j, p j = true → (active_job (f j) = true → active_job j = true) ∧
     j_Kind (f j) = j_Kind j ∧ (j_ProjectID (f j) = j_ProjectID j ∨ j_ProjectID (f j) = None)) →
  queue_inv jobs → queue_inv (sql_update p f jobs).
Proof.
  intros Hid Hf [H1 H2 H3]. split.
  - by rewrite map_sql_update.
  - etrans; [|exact H2]. apply sql_count_update_le. intros j _ Hp. destruct (Hf j Hp) as (Ha & Hk & _).
    unfold heavy, of_kind. rewrite Hk, !andb_true_iff. tauto.
  - intros q. etrans; [|apply (H3 q)]. apply sql_count_update_le. intros j _ Hp. destruct (Hf j Hp) as (Ha & Hk & Hq).
    unfold active_delete, delete_job_of, of_kind, of_project. rewrite Hk, !andb_true_iff, !bool_decide_eq_true.
    destruct Hq as [->| ->]; [tauto|]. intros [[? ?] ?]. discriminate.
Qed.

Lemma queue_inv_delete p jobs : queue_inv jobs → queue_inv (sql_delete p jobs).
Proof.
  intros [H1 H2 H3]. split; [by apply NoDup_map_sql_delete|..].
  - etrans; [apply sql_count_delete_le|done].
  - intros q. etrans; [apply sql_count_delete_le|done].
Qed.

(** Adding a job to an idle queue. *)
Lemma queue_inv_idle_snoc jobs j :
  (∀ x, In x jobs → active_job x = false) → (∀ x, In x jobs → j_ID x ≠ j_ID j) →
  queue_inv jobs → queue_inv (jobs ++ [j]).
Proof.
  intros Hidle Hid [H1 H2 H3].
  assert (∀ q : Job → bool, (∀ x, q x = true → active_job x = true) → sql_count q jobs = 0) as Hz.
  { intros q Hq. apply sql_count_zero. intros r Hr. apply not_true_iff_false. intros E%Hq. rewrite Hidle in E by done.
    discriminate. }
  split; [by apply NoDup_map_snoc|..].
  - autorewrite with pgfy_rw. rewrite Hz by (unfold heavy; intros; by bool_simpl). by destruct (heavy j).
  - intros p. autorewrite with pgfy_rw. rewrite Hz by (unfold active_delete; intros; by bool_simpl).
    by destruct (active_delete p j).
Qed.

(** Adding a project's delete job when it has none active. *)
Lemma queue_inv_delete_snoc jobs j p :
  j_Kind j = "delete" → j_ProjectID j = Some p → (∀ x, In x jobs → active_delete p x = false) →
  (∀ x, In x jobs → j_ID x ≠ j_ID j) → queue_inv jobs → queue_inv (jobs ++ [j]).
Proof.
  intros Hk Hp Hnone Hid [H1 H2 H3]. split; [by apply NoDup_map_snoc|..].
  - autorewrite with pgfy_rw. unfold heavy at 2, of_kind. rewrite Hk, bool_decide_eq_true_2, andb_false_r by done. lia.
  - intros q. autorewrite with pgfy_rw. destruct (decide (q = p)) as [->|Hq].
    + rewrite (proj2 (sql_count_zero _ _) Hnone). by destruct (active_delete p j).
    + unfold active_delete at 2, delete_job_of, of_project. rewrite Hp, bool_decide_eq_false_2 by congruence.
      simpl. specialize (H3 q). lia.
Qed.

(** *** What the operations of [JobStore] do to the schedule's owners *)

Definition sched_owned (db db' : DB) : Prop :=
  ∀ s, In s (db_schedule db') →
    (∃ s0, In s0 (db_schedule db) ∧ bs_ProjectID s = bs_ProjectID s0) ∨ project_exists db (bs_ProjectID s) = true.

Lemma upsert_schedule_owned row f db db' :
  (∀ s, bs_ProjectID (f s) = bs_ProjectID s) → upsert_schedule row f db = Ok db' → sched_owned db db'.
Proof.
  intros Hf H s Hs. unfold upsert_schedule in H. apply guard_ok in H as [Hg [= <-]]. cbn in Hs.
  apply orb_true_iff in Hg. unfold sql_upsert in Hs. destruct (sql_exists _ (db_schedule db)).
  - apply in_sql_update in Hs as (s0 & Hs & ->). left. exists s0. split; [done|]. by destruct (schedule_of _ _).
  - apply in_app_iff in Hs as [Hs|[<-|[]]]; [eauto|]. right. by destruct Hg.
Qed.

Lemma recordOutcome_owned p ok now interval db db' :
  recordOutcome p ok now interval db = Ok db' → sched_owned db db'.
Proof. unfold recordOutcome. destruct ok; apply upsert_schedule_owned; done. Qed.

Lemma enqueue_shape id kind projectID input scheduled now db :
  let db' := (enqueue id kind projectID input scheduled now db).2 in
  let job := new_job id kind (if bool_decide (projectID = "") then None else Some projectID) input (unix now) scheduled in
  db' = db ∨
  (db' = db <| db_jobs := db_jobs db ++ [job] |> <| db_schedule := db_schedule db' |> ∧
   (∀ x, In x (db_jobs db) → active_job x = false) ∧ (∀ x, In x (db_jobs db) → j_ID x ≠ id) ∧
   (∀ p, j_ProjectID job = Some p → project_exists db p = true) ∧ sched_owned db db').
Proof.
  cbv zeta. unfold enqueue, atomically. destruct (maintenance db); cbn [negb]; [by left|].
  destruct (sql_count active_job (db_jobs db) =? 0) eqn:Ec; [|by left]. bool_simpl.
  destruct (sql_insert _ _ _ _) as [jobs|e] eqn:Ei; cbn [rbind]; [|by left].
  apply sql_insert_ok in Ei as (-> & Href & Hfresh).
  assert ((∀ x, In x (db_jobs db) → active_job x = false) ∧ ∀ x, In x (db_jobs db) → j_ID x ≠ id) as [Hidle Hid].
  { split; [by apply sql_count_zero|]. intros x Hx E. specialize (Hfresh x Hx). by apply bool_decide_eq_false in Hfresh. }
  destruct (_ && _); cbn [rbind].
  - destruct (upsert_schedule _ _ _) as [db2|] eqn:Eu; cbn [rbind snd]; [right|by left].
    pose proof (upsert_schedule_ok _ _ _ _ Eu) as E2. apply upsert_schedule_owned in Eu; [|done].
    rewrite E2. repeat split; try done; [|by rewrite E2 in Eu]. cbn. by case_bool_decide; [|intros p [= <-]].
  - right. repeat split; try done; [|by intros s Hs; left; eauto]. cbn. by case_bool_decide; [|intros p [= <-]].
Qed.

Lemma interrupt_all_owned now interval l db db' :
  interrupt_all now interval l db = Ok db' →
  db' = db <| db_jobs := db_jobs db' |> <| db_schedule := db_schedule db' |> <| db_events := db_events db' |>
           <| db_event_seq := db_event_seq db' |> ∧
  sched_owned db db'.
Proof.
  revert db. induction l as [|j l IH]; intros db; simpl.
  - intros [= <-]. split; [by destruct db|]. intros s Hs; eauto.
  - destruct (interrupt_one now interval db j) as [db1|] eqn:E; simpl; [|discriminate]. intros H.
    assert (db1 = db <| db_jobs := db_jobs db1 |> <| db_schedule := db_schedule db1 |> <| db_events := db_events db1 |>
           <| db_event_seq := db_event_seq db1 |> ∧ sched_owned db db1) as [F1 S1].
    { unfold interrupt_one in E. set (db2 := RecordAlertEvent _ _ _ _ _ _) in E.
      assert (sched_owned db db2) as S2 by (intros s Hs; eauto).
      destruct (j_ProjectID j) as [p|]; [destruct (_ && _)|]; [|injection E as <-; by split..].
      split; [by rewrite (recordOutcome_frame _ _ _ _ _ _ E)|]. by apply recordOutcome_owned in E. }
    destruct (IH _ H) as [F2 S2]. split; [by rewrite F2, F1|].
    intros s Hs. destruct (S2 s Hs) as [(s1 & Hs1 & ->)|Hp]; [by apply S1|]. right. rewrite F1 in Hp. exact Hp.
Qed.

(** *** Preservation of the queue invariant *)

Lemma in_state_false s s' j : j_State j = s → s ≠ s' → in_state s' j = false.
Proof. intros <- H. by apply bool_decide_eq_false. Qed.

Lemma finish_inactive ok stage e r now j : active_job (finish_row (terminal ok) stage e r now j) = false.
Proof. by destruct ok. Qed.

Lemma FinishJob_queue id ok stage e r now db :
  queue_inv (db_jobs db) → queue_inv (db_jobs (FinishJob id (terminal ok) stage e r now db)).
Proof.
  intros H. cbn. apply queue_inv_update; [done| |done]. intros j _. rewrite finish_inactive. split; [discriminate|auto].
Qed.

Lemma ClaimJob_queue now db : queue_inv (db_jobs db) → queue_inv (db_jobs (ClaimJob now db).2).
Proof.
  intros H. unfold ClaimJob. destruct (sql_order _ _) as [|j l] eqn:E; [done|]. destruct (maintenance db); [done|]. cbn.
  apply (sql_order_head job_age oldest_first) in E as [Hj _]. apply in_sql_select in Hj as [Hj Hq].
  (* only the claimed row has its id, and it was active already *)
  assert (sql_update (has_id (j_ID j)) (λ r, r <| j_State := "running" |> <| j_Stage := "starting" |>
      <| j_StartedAt := unix now |> <| j_StageAt := unix now |>) (db_jobs db) =
    sql_update (λ r, has_id (j_ID j) r && active_job r) (λ r, r <| j_State := "running" |> <| j_Stage := "starting" |>
      <| j_StartedAt := unix now |> <| j_StageAt := unix now |>) (db_jobs db)) as ->.
  { unfold sql_update. apply map_ext_in. intros r Hr. destruct (has_id (j_ID j) r) eqn:Ei; [|done].
    apply has_id_true in Ei. assert (r = j) as -> by (eapply NoDup_map_inj; [apply H|..]; done).
    unfold active_job. by rewrite Hq. }
  apply queue_inv_update; [done| |done]. intros r Hr. bool_simpl. auto.
Qed.

Lemma insertDeleteJob_ok id p input now db db' :
  insertDeleteJob id p input now db = Ok db' →
  db' = db <| db_jobs := db_jobs db ++ [new_job id "delete" (Some p) input (unix now) false] |> ∧
  project_exists db p = true ∧ ∀ x, In x (db_jobs db) → j_ID x ≠ id.
Proof.
  unfold insertDeleteJob. destruct (sql_insert _ _ _ _) eqn:E; [|discriminate]. intros [= <-].
  apply sql_insert_ok in E as (-> & Hr & Hf). split; [done|]. split; [done|].
  intros x Hx Ex. specialize (Hf x Hx). by apply bool_decide_eq_false in Hf.
Qed.

Lemma insertDeleteJob_queue id p input now db db' :
  insertDeleteJob id p input now db = Ok db' → (∀ x, In x (db_jobs db) → active_delete p x = false) →
  queue_inv (db_jobs db) → queue_inv (db_jobs db').
Proof.
  intros (-> & _ & Hid)%insertDeleteJob_ok Hn H. cbn. by apply (queue_inv_delete_snoc _ _ p).
Qed.

(** *** Ownership of rows *)

Section owned.
Context {Row : Type} (key : Row → string) (keyo : Row → option string) (I : list string).

Lemma owned_update p f t : (∀ r, key (f r) = key r) → owned key I t → owned key I (sql_update p f t).
Proof. intros Hf H r (r0 & Hr & ->)%in_sql_update. destruct (p r0); rewrite ?Hf; auto. Qed.
Lemma owned_delete p t : owned key I t → owned key I (sql_delete p t).
Proof. intros H r [Hr _]%in_sql_delete. auto. Qed.
Lemma owned_snoc r t : In (key r) I → owned key I t → owned key I (t ++ [r]).
Proof. intros Hr H x [Hx|[<-|[]]]%in_app_iff; auto. Qed.
Lemma owned_mono J t : (∀ x, In x I → In x J) → owned key I t → owned key J t.
Proof. unfold owned. auto. Qed.
Lemma owned_opt_update p f t :
  (∀ r, keyo (f r) = keyo r ∨ keyo (f r) = None) → owned_opt keyo I t → owned_opt keyo I (sql_update p f t).
Proof.
  intros Hf H r q (r0 & Hr & ->)%in_sql_update. destruct (p r0); [|eauto].
  destruct (Hf r0) as [->| ->]; [eauto|discriminate].
Qed.
Lemma owned_opt_delete p t : owned_opt keyo I t → owned_opt keyo I (sql_delete p t).
Proof. intros H r q [Hr _]%in_sql_delete. eauto. Qed.
Lemma owned_opt_snoc r t : (∀ p, keyo r = Some p → In p I) → owned_opt keyo I t → owned_opt keyo I (t ++ [r]).
Proof. intros Hr H x q [Hx|[<-|[]]]%in_app_iff; eauto. Qed.
Lemma owned_opt_mono J t : (∀ x, In x I → In x J) → owned_opt keyo I t → owned_opt keyo J t.
Proof. unfold owned_opt. eauto. Qed.
End owned.

Lemma sched_owned_rows db db' :
  sched_owned db db' → owned bs_ProjectID (ids db) (db_schedule db) → owned bs_ProjectID (ids db) (db_schedule db').
Proof. intros H Ho s Hs. destruct (H s Hs) as [(s0 & Hs0 & ->)|Hp]; [auto|by apply project_exists_ids]. Qed.

#[local] Hint Resolve owned_update owned_delete owned_snoc owned_opt_update owned_opt_delete owned_opt_snoc : pgfy.

(** Split a row invariant field by field; the fields of untouched tables are
    the hypotheses. *)
Ltac rows_tac :=
  match goal with
  | H : rows_inv_on _ _ |- rows_inv_on _ _ =>
      destruct H; split; first [assumption | auto with pgfy | idtac]
  end.

(** Updates of projects keep the ids and the tombstones. *)
Lemma ids_update p f db : (∀ r, p_ID (f r) = p_ID r) → map p_ID (sql_update p f (db_projects db)) = ids db.
Proof. intros. by apply map_sql_update. Qed.

Lemma tomb_update p f db :
  (∀ r, p_ID (f r) = p_ID r) → (∀ r, p r = true → p_Stage r = "deleting" → p_Stage (f r) = "deleting") →
  tomb_inv db → tomb_inv (db <| db_projects := sql_update p f (db_projects db) |>).
Proof.
  intros Hid Hf H j q Hj Ha. destruct (H j q Hj Ha) as (r & Hr & Hq & Hs).
  exists (if p r then f r else r). split; [apply in_sql_update; eauto|].
  destruct (p r) eqn:E; rewrite ?Hid; auto.
Qed.

Lemma projects_update_inv p f db :
  (∀ r, p_ID (f r) = p_ID r) → (∀ r, p r = true → p_Stage r = "deleting" → p_Stage (f r) = "deleting") →
  store_inv db → store_inv (db <| db_projects := sql_update p f (db_projects db) |>).
Proof.
  intros Hid Hf [H1 H2 H3 H4].
  assert (ids (db <| db_projects := sql_update p f (db_projects db) |>) = ids db) as E by (by apply ids_update).
  split; rewrite ?E; [done| |done|by apply tomb_update]. rows_tac.
Qed.

(** Updates of jobs. *)
Lemma jobs_update_inv p f db :
  (∀ j, j_ID (f j) = j_ID j) →
  (∀ j, p j = true → (active_job (f j) = true → active_job j = true) ∧
     j_Kind (f j) = j_Kind j ∧ j_ProjectID (f j) = j_ProjectID j) →
  store_inv db → store_inv (db <| db_jobs := sql_update p f (db_jobs db) |>).
Proof.
  intros Hid Hf [H1 H2 H3 H4]. split; [done|rows_tac|..].
  - intros j q (j0 & Hj & ->)%in_sql_update. destruct (p j0) eqn:E; [|eauto]. destruct (Hf j0 E) as (_ & _ & ->). eauto.
  - cbn. apply queue_inv_update; [done| |done]. intros j Hp. destruct (Hf j Hp) as (? & ? & ?). auto.
  - intros j q (j0 & Hj & ->)%in_sql_update. destruct (p j0) eqn:E; [|by apply H4].
    destruct (Hf j0 E) as (Ha & Hk & Hp). unfold active_delete, delete_job_of, of_project, of_kind. rewrite Hk, Hp.
    intros ?. bool_simpl. apply (H4 j0); [done|]. unfold active_delete, delete_job_of, of_project, of_kind.
    rewrite !bool_decide_eq_true_2 by done. auto.
Qed.

(** A job added for an existing project. *)
Lemma jobs_snoc_inv db j :
  (∀ p, j_ProjectID j = Some p → project_exists db p = true) →
  (∀ p, active_delete p j = true → ∃ q, In q (db_projects db) ∧ p_ID q = p ∧ p_Stage q = "deleting") →
  queue_inv (db_jobs db ++ [j]) →
  store_inv db → store_inv (db <| db_jobs := db_jobs db ++ [j] |>).
Proof.
  intros Hp Ht Hq [H1 H2 H3 H4]. split; [done|rows_tac|done|].
  - apply owned_opt_snoc; [|done]. intros p E. exact (proj1 (project_exists_ids db p) (Hp p E)).
  - intros x p [Hx|[<-|[]]]%in_app_iff; eauto.
Qed.

(** Tables that carry no project and no job. *)
Lemma events_inv db evs seq : store_inv db → store_inv (db <| db_event_seq := seq |> <| db_events := evs |>).
Proof. intros [H1 H2 H3 H4]. by split; [|rows_tac|..]. Qed.
Lemma audit_inv entry db : store_inv db → store_inv (audit entry db).
Proof. intros [H1 H2 H3 H4]. by split; [|rows_tac|..]. Qed.
Lemma conditions_inv cs db : store_inv db → store_inv (db <| db_conditions := cs |>).
Proof. intros [H1 H2 H3 H4]. by split; [|rows_tac|..]. Qed.

Lemma schedule_inv sch db :
  owned bs_ProjectID (ids db) sch → store_inv db → store_inv (db <| db_schedule := sch |>).
Proof. intros Hs [H1 H2 H3 H4]. by split; [|rows_tac|..]. Qed.

Lemma backups_inv bs db : owned_opt b_ProjectID (ids db) bs → store_inv db → store_inv (db <| db_backups := bs |>).
Proof. intros Hs [H1 H2 H3 H4]. by split; [|rows_tac|..]. Qed.

Lemma enqueue_inv id kind projectID input scheduled now db :
  kind ≠ "delete" → store_inv db → store_inv (enqueue id kind projectID input scheduled now db).2.
Proof.
  intros Hk H. destruct (enqueue_shape id kind projectID input scheduled now db) as [E|(E & Hidle & Hid & Hp & Hs)];
    [by rewrite E|].
  rewrite E. set (job := new_job _ _ _ _ _ _) in *.
  apply schedule_inv; [exact (sched_owned_rows _ _ Hs (inv_schedule _ _ (si_rows _ H)))|].
  apply jobs_snoc_inv; [done| |apply queue_inv_idle_snoc; [done|done|apply H]|done].
  intros p Ha. unfold active_delete, delete_job_of, of_kind in Ha. bool_simpl. done.
Qed.

Lemma finish_inv id ok stage e r now db :
  store_inv db → store_inv (FinishJob id (terminal ok) stage e r now db).
Proof.
  apply jobs_update_inv; [done|]. intros j _. rewrite finish_inactive. split; [discriminate|auto].
Qed.

Lemma ClaimJob_inv now db : store_inv db → store_inv (ClaimJob now db).2.
Proof.
  intros H. pose proof (ClaimJob_queue now db (si_queue _ H)) as Hq. revert Hq. unfold ClaimJob.
  destruct (sql_order _ _) as [|j l] eqn:E; [done|]. destruct (maintenance db); [done|]. cbn [snd]. intros Hq.
  apply (sql_order_head job_age oldest_first) in E as [Hj _]. apply in_sql_select in Hj as [Hj Hst].
  destruct H as [H1 H2 H3 H4]. split; [done|rows_tac|done|].
  - apply owned_opt_update; auto.
  - intros x p Hx Ha. apply (in_update_by_id _ _ _ j) in Hx; [|apply H3|done|done].
    destruct Hx as [->|[Hx _]]; [|by apply (H4 x)]. apply (H4 j); [done|].
    unfold active_delete, active_job in *. rewrite Hst. apply andb_true_iff in Ha as [Ha _].
    apply andb_true_iff. by split.
Qed.

Lemma recordOutcome_inv p ok now interval db db' :
  recordOutcome p ok now interval db = Ok db' → store_inv db → store_inv db'.
Proof.
  intros E H. rewrite (recordOutcome_frame _ _ _ _ _ _ E). apply schedule_inv; [|done].
  apply (sched_owned_rows db db'); [by apply recordOutcome_owned in E|apply (si_rows _ H)].
Qed.

Lemma InterruptRunningJobs_inv now interval db : store_inv db → store_inv (InterruptRunningJobs now interval db).2.
Proof.
  unfold InterruptRunningJobs, atomically. destruct (interrupt_all _ _ _ _) as [db'|] eqn:E; cbn [rbind snd]; [|done].
  intros H. destruct (interrupt_all_owned _ _ _ _ _ E) as [F S]. apply interrupt_all_spec in E as (Hj & _).
  rewrite F, Hj. apply (events_inv (db <| db_jobs := _ |> <| db_schedule := _ |>)).
  apply schedule_inv; [exact (sched_owned_rows _ _ S (inv_schedule _ _ (si_rows _ H)))|].
  apply jobs_update_inv; [done| |done]. intros j _. split; [discriminate|auto].
Qed.

Lemma insert_backup_inv b db db' : insert_backup b db = Ok db' → store_inv db → store_inv db'.
Proof.
  unfold insert_backup. destruct (sql_insert _ _ _ _) eqn:E; [|discriminate]. intros [= <-] H.
  apply sql_insert_ok in E as (-> & Hp & _). apply backups_inv; [|done].
  apply owned_opt_snoc; [|apply (si_rows _ H)]. intros p Eb. rewrite Eb in Hp. by apply project_exists_ids.
Qed.

Lemma CompleteBackupJob_inv id projectID ok stage e r backup scheduled now interval db :
  store_inv db →
  store_inv (CompleteBackupJob id projectID (terminal ok) stage e r backup scheduled now interval db).2.
Proof.
  intros H. unfold CompleteBackupJob, atomically.
  pose proof (finish_inv id ok stage e r now db H) as H1.
  destruct (match backup with Some b => _ | None => _ end) as [db2|] eqn:E2; cbn [rbind]; [|done].
  assert (store_inv db2) as H2 by (destruct backup; [by eapply insert_backup_inv|by injection E2 as <-]).
  destruct (_ && _); cbn [rbind]; [|done].
  destruct (recordOutcome _ _ _ _ _) eqn:E3; cbn [rbind]; [|done]. by eapply recordOutcome_inv.
Qed.

Lemma PruneJobs_inv before db : store_inv db → store_inv (PruneJobs before db).2.
Proof.
  intros [H1 H2 H3 H4]. split; [done|rows_tac|by apply queue_inv_delete|].
  - by apply owned_opt_delete.
  - intros j p [Hj _]%in_sql_delete. by apply H4.
Qed.

Lemma CreateProject_inv p k sealed now db : store_inv db → store_inv (CreateProject p k sealed now db).2.
Proof.
  intros H. unfold CreateProject. destruct (sql_insert _ _ _ (db_projects db)) as [ps|] eqn:Ep;
    [|by destruct (projectBy _ _)].
  apply sql_insert_ok in Ep as (-> & _ & Hf). unfold atomically.
  destruct (sql_insert _ _ _ (db_secrets db)) as [ss|] eqn:E1; cbn [rbind]; [|done].
  destruct (sql_insert _ _ _ (db_policy_state db)) as [pp|] eqn:E2; cbn [rbind]; [|done].
  destruct (sql_insert _ _ _ (db_limits db)) as [ll|] eqn:E3; cbn [rbind snd]; [|done].
  apply sql_insert_ok in E1 as (-> & _), E2 as (-> & _), E3 as (-> & _).
  destruct H as [H1 H2 H3 H4]. split; unfold ids; cbn [db_projects upd].
  - apply NoDup_map_snoc; [done|]. intros x Hx E. specialize (Hf x Hx).
    unfold project_clash, project_id in Hf. bool_simpl. done.
  - rewrite map_app. destruct H2; split;
      try (apply owned_snoc; [apply in_app_iff; right; left; done|]);
      first [eapply owned_mono | eapply owned_opt_mono]; try eassumption; intros x Hx; apply in_app_iff; by left.
  - done.
  - intros j q Hj Ha. destruct (H4 j q Hj Ha) as (r & Hr & ?). exists r. split; [apply in_app_iff; by left|done].
Qed.

(** *** Deletion *)

Lemma mark_deleting_inv id entry now db : store_inv db → store_inv (mark_deleting id entry now db).
Proof.
  intros H. unfold mark_deleting. apply conditions_inv, audit_inv.
  set (db1 := db <| db_projects := _ |>).
  assert (store_inv db1) as H1 by (by apply projects_update_inv).
  apply jobs_update_inv; [done| |done]. intros j _. split; [discriminate|auto].
Qed.

Lemma mark_deleting_tomb id entry now db p :
  In p (db_projects db) → p_ID p = id →
  ∃ q, In q (db_projects (mark_deleting id entry now db)) ∧ p_ID q = id ∧ p_Stage q = "deleting".
Proof.
  intros Hp Hid. eexists. split; [apply in_sql_update; exists p; split; [exact Hp|reflexivity]|].
  unfold project_id. by rewrite bool_decide_eq_true_2.
Qed.

(** No delete job is active for a project that carries no tombstone. *)
Lemma tomb_none db p : store_inv db → In p (db_projects db) → p_Stage p ≠ "deleting" →
  ∀ j, In j (db_jobs db) → active_delete (p_ID p) j = false.
Proof.
  intros [H1 _ _ H4] Hp Hs j Hj. apply not_true_iff_false. intros Ha. destruct (H4 j _ Hj Ha) as (q & Hq & Hid & Hst).
  assert (q = p) as -> by (by eapply (NoDup_map_inj p_ID)). done.
Qed.

Lemma insertDeleteJob_inv id p input now db db' :
  insertDeleteJob id p input now db = Ok db' →
  (∀ x, In x (db_jobs db) → active_delete p x = false) →
  (∃ q, In q (db_projects db) ∧ p_ID q = p ∧ p_Stage q = "deleting") →
  store_inv db → store_inv db'.
Proof.
  intros E Hn Hq H. pose proof (insertDeleteJob_queue _ _ _ _ _ _ E Hn (si_queue _ H)) as Hqueue.
  apply insertDeleteJob_ok in E as (-> & Hp & _). apply jobs_snoc_inv; [|..|exact Hqueue|exact H].
  - by intros q [= <-].
  - intros q Ha. unfold active_delete, delete_job_of, of_project in Ha. cbn in Ha. bool_simpl. by injection H0 as <-.
Qed.

(** Where [BeginProjectDeletion] can end. *)
Lemma BeginProjectDeletion_shape id newJob entry now db :
  let db' := (BeginProjectDeletion id newJob entry now db).2 in
  db' = db ∨
  ∃ p db1, In p (db_projects db) ∧ p_ID p = id ∧
    insertDeleteJob (newJob p).1 id (newJob p).2 now db1 = Ok db' ∧
    (p_Stage p = "deleting" ∧ db1 = audit (entry <| au_Action := "project.delete.retry" |>) db ∧
       (∀ j, In j (db_jobs db) → active_delete id j = false) ∨
     p_Stage p ≠ "deleting" ∧ db1 = mark_deleting id entry now db).
Proof.
  cbv zeta. unfold BeginProjectDeletion, atomically. destruct (maintenance db); cbn [negb]; [by left|].
  unfold ProjectByID, projectBy. destruct (sql_find _ _) as [p|] eqn:Ep; cbn [rbind]; [|by left].
  apply sql_find_some in Ep as [Hp Hid]. unfold project_id in Hid. bool_simpl.
  destruct (newJob p) as [jid input] eqn:Ej. destruct (in_stage "deleting" p) eqn:Es; unfold in_stage in Es; bool_simpl.
  - destruct (sql_order _ _) as [|a l] eqn:Eo; [|by left].
    destruct (insertDeleteJob _ _ _ _ _) as [db2|] eqn:Ei; cbn [rbind snd]; [|by left]. right.
    exists p, (audit (entry <| au_Action := "project.delete.retry" |>) db). rewrite Ej. do 3 (split; [done|]).
    left. do 2 (split; [done|]). apply (proj1 (sql_order_nil j_CreatedAt Z.leb _)) in Eo.
    intros j Hj. apply not_true_iff_false. intros Ha.
    assert (In j (sql_select (active_delete id) (db_jobs db))) as Hin by (by apply in_sql_select). by rewrite Eo in Hin.
  - destruct (_ || _); [|by left]. destruct (_ =? 0); [|by left].
    destruct (insertDeleteJob _ _ _ _ _) as [db2|] eqn:Ei; cbn [rbind snd]; [|by left]. right.
    exists p, (mark_deleting id entry now db). rewrite Ej. do 3 (split; [done|]). by right.
Qed.

Lemma mark_deleting_active id entry now db q :
  (∀ j, In j (db_jobs db) → active_delete q j = false) →
  ∀ j, In j (db_jobs (mark_deleting id entry now db)) → active_delete q j = false.
Proof.
  intros H j (j0 & Hj & ->)%in_sql_update. destruct (_ && _); [|auto]. unfold active_delete. apply andb_false_r.
Qed.

Lemma BeginProjectDeletion_inv id newJob entry now db :
  store_inv db → store_inv (BeginProjectDeletion id newJob entry now db).2.
Proof.
  intros H. destruct (BeginProjectDeletion_shape id newJob entry now db) as [->|(p & db1 & Hp & Hid & Ei & Hcase)]; [done|].
  destruct Hcase as [(Hs & -> & Hn)|(Hs & ->)]; (eapply insertDeleteJob_inv; [exact Ei|..]).
  - exact Hn.
  - exists p. done.
  - by apply audit_inv.
  - apply mark_deleting_active. subst id. by apply tomb_none.
  - by eapply mark_deleting_tomb.
  - by apply mark_deleting_inv.
Qed.

Lemma queue_deletions_inv newJob now pending db db' :
  queue_deletions newJob now pending db = Ok db' →
  NoDup (map p_ID pending) →
  (∀ p, In p pending → In p (db_projects db) ∧ p_Stage p = "deleting" ∧
     ∀ j, In j (db_jobs db) → active_delete (p_ID p) j = false) →
  store_inv db → store_inv db'.
Proof.
  revert db. induction pending as [|p ps IH]; intros db; simpl; [by intros [= <-]|].
  destruct (newJob p) as [jid input]. destruct (insertDeleteJob _ _ _ _ _) as [db1|] eqn:Ei; cbn [rbind]; [|discriminate].
  intros E HN Hall H. apply NoDup_cons in HN as [Hnp HN].
  destruct (Hall p) as (Hp & Hs & Hna); [by left|].
  assert (store_inv db1) as H1 by (eapply insertDeleteJob_inv; [exact Ei|done|by exists p|done]).
  apply insertDeleteJob_ok in Ei as (-> & _ & _). eapply IH; [exact E|done| |done].
  intros q Hq. destruct (Hall q) as (Hq1 & Hq2 & Hq3); [by right|]. split; [done|]. split; [done|].
  intros j [Hj|[<-|[]]]%in_app_iff; [by apply Hq3|]. unfold active_delete, delete_job_of, of_project. cbn.
  rewrite bool_decide_eq_false_2; [done|]. intros [= Eq]. apply Hnp. rewrite Eq. by apply list_elem_of_In, in_map.
Qed.

Lemma ResumeDeletions_inv newJob now db : store_inv db → store_inv (ResumeDeletions newJob now db).2.
Proof.
  intros H. unfold ResumeDeletions. destruct (maintenance db); [done|]. unfold atomically.
  destruct (queue_deletions _ _ _ _) as [db'|] eqn:E; cbn [rbind snd]; [|done].
  eapply queue_deletions_inv; [exact E|..]; [| |done].
  - unfold pending_deletions. rewrite (Permutation_map p_ID (sql_order_perm deletion_age oldest_first _)).
    pose proof (NoDup_map_sql_delete p_ID
      (λ p, negb (in_stage "deleting" p && negb (sql_exists (active_delete (p_ID p)) (db_jobs db)))) _ (si_ids _ H)) as HN.
    unfold sql_delete in HN. rewrite (filter_ext _ (λ p, in_stage "deleting" p &&
      negb (sql_exists (active_delete (p_ID p)) (db_jobs db)))) in HN; [exact HN|].
    intros p. apply negb_involutive.
  - intros p. unfold pending_deletions. rewrite in_sql_order, in_sql_select. intros [Hp Hc]. unfold in_stage in Hc.
    bool_simpl. split; [done|]. split; [done|]. by apply sql_exists_false.
Qed.

Lemma owned_remove {Row} (key : Row → string) (I : list string) (p : Row → bool) id t :
  (∀ r, p r = bool_decide (key r = id)) → owned key I t →
  owned key (List.filter (λ x, negb (bool_decide (x = id))) I) (sql_delete p t).
Proof.
  intros Hp H r [Hr E]%in_sql_delete. apply filter_In. split; [auto|]. by rewrite <- Hp, E.
Qed.

Lemma owned_opt_remove {Row} (key : Row → option string) (I : list string) f id t :
  (∀ r, key (f r) = None) → owned_opt key I t →
  owned_opt key (List.filter (λ x, negb (bool_decide (x = id))) I) (sql_update (λ r, bool_decide (key r = Some id)) f t).
Proof.
  intros Hf H r q (r0 & Hr & ->)%in_sql_update. case_bool_decide as E; [by rewrite Hf|]. intros Ek.
  apply filter_In. split; [eauto|]. apply negb_true_iff, bool_decide_eq_false. congruence.
Qed.

Lemma ids_remove id db :
  ids (remove_project id db) = List.filter (λ x, negb (bool_decide (x = id))) (ids db).
Proof.
  unfold ids. change (db_projects (remove_project id db)) with (sql_delete (project_id id) (db_projects db)).
  unfold sql_delete, project_id. induction (db_projects db) as [|p ps IH]; [done|]. simpl.
  destruct (negb _); simpl; by rewrite IH.
Qed.

Lemma remove_project_inv id db : store_inv db → store_inv (remove_project id db).
Proof.
  intros [H1 H2 H3 H4]. split; rewrite ?ids_remove.
  - rewrite <- ids_remove. by apply (NoDup_map_sql_delete p_ID).
  - destruct H2; split; (by apply owned_remove) || by apply owned_opt_remove.
  - cbn. apply queue_inv_update; [done| |done]. intros j _. auto.
  - intros j p (j0 & Hj & ->)%in_sql_update Ha. unfold of_project in Ha. case_bool_decide as E.
    + unfold active_delete, delete_job_of, of_project in Ha. cbn in Ha. bool_simpl. discriminate.
    + destruct (H4 j0 p Hj Ha) as (q & Hq & Hid & Hs). exists q. split; [|done].
      apply in_sql_delete. split; [done|]. unfold project_id. apply bool_decide_eq_false. intros <-.
      apply E. unfold active_delete, delete_job_of, of_project in Ha. bool_simpl. congruence.
Qed.

Lemma CompleteProjectDeletion_inv jobID p result now db :
  store_inv db → store_inv (CompleteProjectDeletion jobID p result now db).2.
Proof.
  intros H. unfold CompleteProjectDeletion, atomically. destruct (sql_find _ _) as [q|]; [|done].
  destruct (in_stage _ q); [|done].
  apply events_inv. by apply (finish_inv jobID true), remove_project_inv.
Qed.

Lemma FailDeleteJob_inv jobID projectID name stage message result now db :
  store_inv db → store_inv (FailDeleteJob jobID projectID name stage message result now db).
Proof.
  intros H. unfold FailDeleteJob. destruct (_ && _); [apply events_inv|]; by apply (finish_inv jobID false).
Qed.

(** *** Every operation *)

Lemma secrets_update_inv p f db :
  (∀ r, sec_ProjectID (f r) = sec_ProjectID r) → store_inv db →
  store_inv (db <| db_secrets := sql_update p f (db_secrets db) |>).
Proof. intros Hf [H1 H2 H3 H4]. split; [done|rows_tac|done|done]. by apply owned_update. Qed.
Lemma policy_update_inv p f db :
  (∀ r, ps_ProjectID (f r) = ps_ProjectID r) → store_inv db →
  store_inv (db <| db_policy_state := sql_update p f (db_policy_state db) |>).
Proof. intros Hf [H1 H2 H3 H4]. split; [done|rows_tac|done|done]. by apply owned_update. Qed.
Lemma limits_update_inv p f db :
  (∀ r, pl_ProjectID (f r) = pl_ProjectID r) → store_inv db →
  store_inv (db <| db_limits := sql_update p f (db_limits db) |>).
Proof. intros Hf [H1 H2 H3 H4]. split; [done|rows_tac|done|done]. by apply owned_update. Qed.
Lemma checks_update_inv p f db :
  (∀ r, cc_ProjectID (f r) = cc_ProjectID r) → store_inv db →
  store_inv (db <| db_connection_checks := sql_update p f (db_connection_checks db) |>).
Proof. intros Hf [H1 H2 H3 H4]. split; [done|rows_tac|done|done]. by apply owned_update. Qed.

Lemma RecordPolicyRevision_inv id expected addresses now db :
  store_inv db → store_inv (RecordPolicyRevision id expected addresses now db).2.
Proof.
  intros H. unfold RecordPolicyRevision, atomically. destruct (sql_find _ _) as [st|]; cbn [rbind]; [|done].
  destruct (_ =? _); [|done]. destruct (sql_insert _ _ _ _) as [rs|] eqn:E; cbn [rbind snd]; [|done].
  apply sql_insert_ok in E as (-> & Hp & _). 
  match goal with |- store_inv (upd db_policy_state _ ?d) => apply (policy_update_inv _ _ d) end; [done|].
  destruct H as [H1 H2 H3 H4]. split; [done|rows_tac|done|done].
  apply owned_snoc; [|done]. exact (proj1 (project_exists_ids db _) Hp).
Qed.

Lemma NewConnectionCheck_inv id p h f now db db' :
  NewConnectionCheck id p h f now db = Ok db' → store_inv db → store_inv db'.
Proof.
  unfold NewConnectionCheck. destruct (sql_insert _ _ _ _) as [cs|] eqn:E; cbn [rbind]; [|discriminate].
  intros [= <-] [H1 H2 H3 H4]. apply sql_insert_ok in E as (-> & Hp & _). split; [done|rows_tac|done|done].
  apply owned_snoc; [|done]. exact (proj1 (project_exists_ids db _) Hp).
Qed.

Lemma expect_one_snd n db : (expect_one n db).2 = db.
Proof. unfold expect_one. by destruct (n =? 1). Qed.

Lemma run_op_inv o db : store_inv db → store_inv (run_op o db).
Proof.
  intros H. destruct o; cbn [run_op].
  - by apply enqueue_inv.
  - by apply enqueue_inv.
  - apply jobs_update_inv; auto.
  - by apply ClaimJob_inv.
  - apply jobs_update_inv; auto.
  - by apply finish_inv.
  - by apply InterruptRunningJobs_inv.
  - by apply CompleteBackupJob_inv.
  - destruct (RecordBackup b db) eqn:E; [by eapply insert_backup_inv|done].
  - by apply PruneJobs_inv.
  - destruct H as [H1 H2 H3 H4]. unfold SetMaintenance. destruct on; (split; [done|rows_tac|done|done]).
  - by apply CreateProject_inv.
  - unfold SetProjectStage. destruct (bool_decide _); apply projects_update_inv; try done;
      intros r Hr Hs; unfold in_stage in Hr; bool_simpl; done.
  - apply projects_update_inv; auto.
  - unfold RetryProject. rewrite expect_one_snd. apply projects_update_inv; auto.
  - unfold SetProjectFrozen. rewrite expect_one_snd. apply projects_update_inv; auto.
  - by apply RecordPolicyRevision_inv.
  - unfold ApplyPolicyResult. destruct applied; by apply policy_update_inv.
  - destruct (NewConnectionCheck _ _ _ _ _ _) eqn:E; [by eapply NewConnectionCheck_inv|done].
  - by apply checks_update_inv.
  - unfold CompleteConnectionCheck. rewrite expect_one_snd. by apply checks_update_inv.
  - unfold SetProjectLimits. destruct (Limits_Validate l); [|done].
    destruct (_ =? 1); [|destruct (ReadLimits _ _)]; by apply limits_update_inv.
  - by apply limits_update_inv.
  - by apply limits_update_inv.
  - unfold BeginRotation. rewrite expect_one_snd. by apply secrets_update_inv.
  - unfold CompleteRotation. destruct (_ =? 0); [done|]. apply events_inv, audit_inv. by apply secrets_update_inv.
  - by apply BeginProjectDeletion_inv.
  - by apply ResumeDeletions_inv.
  - by apply CompleteProjectDeletion_inv.
  - by apply FailDeleteJob_inv.
Qed.

Lemma store_inv_empty : store_inv empty_db.
Proof.
  split.
  - constructor.
  - split; intros ?; intros; done.
  - split; [constructor|done|done].
  - intros ? ? [].
Qed.

Lemma run_inv ops db : store_inv db → store_inv (run ops db).
Proof. unfold run. revert db. induction ops as [|o ops IH]; simpl; auto using run_op_inv. Qed.

(** ** Invariants of every execution *)

(** C10. After any sequence of store operations from the empty database,
    failed ones included: at most one backup or restore is queued or running
    in the whole installation, each project has at most one delete job
    queued or running, and job ids are unique. *)
Theorem one_heavy_job ops :
  let jobs := db_jobs (run ops empty_db) in
  sql_count (λ j, active_job j && negb (of_kind "delete" j)) jobs ≤ 1 ∧
  (∀ p, sql_count (λ j, of_project p j && of_kind "delete" j && active_job j) jobs ≤ 1) ∧
  NoDup (map j_ID jobs).
Proof. pose proof (run_inv ops empty_db store_inv_empty) as [_ _ [H1 H2 H3] _]. done. Qed.

(** C20. After any sequence of store operations no row outlives its project:
    every sealed password, access policy and its revisions, connection
    check, limit, schedule, and every job and backup history row that names
    a project, names one that exists. *)
Theorem no_orphan_rows ops :
  let db := run ops empty_db in
  let I := map p_ID (db_projects db) in
  owned sec_ProjectID I (db_secrets db) ∧ owned ps_ProjectID I (db_policy_state db) ∧
  owned pr_ProjectID I (db_policy_revisions db) ∧ owned cc_ProjectID I (db_connection_checks db) ∧
  owned pl_ProjectID I (db_limits db) ∧ owned bs_ProjectID I (db_schedule db) ∧
  owned_opt b_ProjectID I (db_backups db) ∧ owned_opt j_ProjectID I (db_jobs db).
Proof. pose proof (run_inv ops empty_db store_inv_empty) as [_ [] _ _]. done. Qed.

(** *** The tombstone *)

Definition stage_of (id : string) (db : DB) : option string := p_Stage <$> sql_find (project_id id) (db_projects db).

(** An update of the project rows that keeps ids and tombstones. *)
Definition keeps_tombs (t t' : list Project) : Prop :=
  ∃ p f, (∀ r, p_ID (f r) = p_ID r) ∧ (∀ r, p r = true → p_Stage r = "deleting" → p_Stage (f r) = "deleting") ∧
    t' = sql_update p f t.

Lemma keeps_tombs_refl t : keeps_tombs t t.
Proof. exists (λ _, false), id. split; [done|]. split; [done|]. symmetry. by apply sql_update_id. Qed.

Lemma keeps_tombs_stage db db' id :
  keeps_tombs (db_projects db) (db_projects db') → stage_of id db = Some "deleting" → stage_of id db' = Some "deleting".
Proof.
  intros (p & f & Hid & Hf & E). unfold stage_of. rewrite E, sql_find_update.
  - destruct (sql_find _ _) as [r|] eqn:Er; simpl; [|done]. intros [= Hs]. destruct (p r) eqn:Ep; [|by rewrite Hs].
    by rewrite Hf.
  - intros r _ _. unfold project_id. by rewrite Hid.
Qed.

Lemma queue_deletions_projects newJob now l db db' :
  queue_deletions newJob now l db = Ok db' → db_projects db' = db_projects db.
Proof.
  revert db. induction l as [|p l IH]; intros db; simpl; [by intros [= <-]|].
  destruct (newJob p). destruct (insertDeleteJob _ _ _ _ _) as [d1|] eqn:Ei; cbn [rbind]; [|discriminate].
  apply insertDeleteJob_ok in Ei as (-> & _). intros E. by rewrite (IH _ E).
Qed.

Lemma run_op_projects o db :
  keeps_tombs (db_projects db) (db_projects (run_op o db)) ∨
  (∃ row, db_projects (run_op o db) = db_projects db ++ [row]) ∨
  (∃ j p r now, o = OpCompleteDeletion j p r now ∧
     db_projects (run_op o db) = sql_delete (project_id (p_ID p)) (db_projects db)).
Proof.
  pose proof (keeps_tombs_refl (db_projects db)) as R.
  destruct o; cbn [run_op]; try (left; exact R).
  - left. destruct (enqueue_shape id "backup" projectID input scheduled now db) as [E|[E _]];
      unfold EnqueueBackupJob; rewrite E; exact R.
  - left. destruct (enqueue_shape id "restore" projectID input false now db) as [E|[E _]];
      unfold EnqueueJob; rewrite E; exact R.
  - left. unfold ClaimJob. destruct (sql_order _ _); [exact R|]. by destruct (maintenance db).
  - left. unfold InterruptRunningJobs, atomically. destruct (interrupt_all _ _ _ _) as [db'|] eqn:E; [|exact R].
    apply interrupt_all_spec in E as (_ & E & _). cbn. rewrite E. exact R.
  - left. unfold CompleteBackupJob, atomically. destruct (match backup with Some b => _ | None => _ end) as [db2|] eqn:E2;
      cbn [rbind]; [|exact R].
    assert (db_projects db2 = db_projects db) as E.
    { destruct backup as [b|]; [|by injection E2 as <-]. unfold insert_backup in E2.
      destruct (sql_insert _ _ _ _); [|discriminate]. by injection E2 as <-. }
    destruct (_ && _); cbn [rbind snd]; [|rewrite E; exact R].
    destruct (recordOutcome _ _ _ _ _) eqn:E3; cbn [rbind snd]; [|exact R].
    rewrite (recordOutcome_frame _ _ _ _ _ _ E3). cbn. rewrite E. exact R.
  - left. unfold RecordBackup, insert_backup. destruct (sql_insert _ _ _ _); exact R.
  - left. destruct on; exact R.
  - unfold CreateProject. destruct (sql_insert _ _ _ (db_projects db)) as [ps|] eqn:Ep.
    + apply sql_insert_ok in Ep as (-> & _). unfold atomically.
      destruct (sql_insert _ _ _ (db_secrets db)); cbn [rbind]; [|left; exact R].
      destruct (sql_insert _ _ _ (db_policy_state db)); cbn [rbind]; [|left; exact R].
      destruct (sql_insert _ _ _ (db_limits db)); cbn [rbind]; [|left; exact R]. right. left. by eexists.
    + left. destruct (projectBy _ _); exact R.
  - left. unfold SetProjectStage. destruct (bool_decide _); (eexists _, _; split; [|split; [|reflexivity]]); try done;
      intros r Hr Hs; unfold in_stage in Hr; bool_simpl; done.
  - left. by eexists _, _; split; [|split; [|reflexivity]].
  - left. unfold RetryProject. rewrite expect_one_snd. by eexists _, _; split; [|split; [|reflexivity]].
  - left. unfold SetProjectFrozen. rewrite expect_one_snd. by eexists _, _; split; [|split; [|reflexivity]].
  - left. unfold RecordPolicyRevision, atomically. destruct (sql_find _ _); cbn [rbind]; [|exact R].
    destruct (_ =? _); [|exact R]. destruct (sql_insert _ _ _ _); exact R.
  - left. destruct applied; exact R.
  - left. unfold NewConnectionCheck. destruct (sql_insert _ _ _ _); exact R.
  - left. unfold CompleteConnectionCheck. rewrite expect_one_snd. exact R.
  - left. unfold SetProjectLimits. destruct (Limits_Validate l); [|exact R].
    destruct (_ =? 1); [|destruct (ReadLimits _ _)]; exact R.
  - left. unfold BeginRotation. rewrite expect_one_snd. exact R.
  - left. unfold CompleteRotation. destruct (_ =? 0); exact R.
  - left. destruct (BeginProjectDeletion_shape id newJob entry now db) as [->|(p & db1 & _ & _ & Ei & Hc)]; [exact R|].
    apply insertDeleteJob_ok in Ei as (-> & _). cbn. destruct Hc as [(_ & -> & _)|(_ & ->)]; [exact R|].
    by eexists _, _; split; [|split; [|reflexivity]].
  - left. unfold ResumeDeletions. destruct (maintenance db); [exact R|]. unfold atomically.
    destruct (queue_deletions _ _ _ _) as [db'|] eqn:E; [|exact R]. cbn [rbind snd].
    rewrite (queue_deletions_projects _ _ _ _ _ E). exact R.
  - unfold CompleteProjectDeletion, atomically. destruct (sql_find _ _) as [q|]; [|left; exact R].
    destruct (in_stage _ q); [|left; exact R]. right. right. eexists _, _, _, _. split; reflexivity.
  - left. unfold FailDeleteJob. destruct (_ && _); exact R.
Qed.

(** C11. A deletion tombstone is final: whatever operation runs next, a project
    marked for deletion stays marked (no provisioning step, retry, failure,
    freeze or second request can revive it), until the one transaction that
    removes it, after which nothing names it. *)
Theorem tombstone_is_final o db id :
  stage_of id db = Some "deleting" →
  stage_of id (run_op o db) = Some "deleting" ∨
  ((∃ j p r now, o = OpCompleteDeletion j p r now ∧ p_ID p = id) ∧ stage_of id (run_op o db) = None).
Proof.
  intros H. destruct (run_op_projects o db) as [K|[[row E]|(j & p & r & now & -> & E)]].
  - left. by eapply keeps_tombs_stage.
  - left. unfold stage_of in *. rewrite E. clear E. unfold sql_find in *.
    induction (db_projects db) as [|x l IH]; simpl in *; [done|]. destruct (project_id id x); auto.
  - destruct (decide (p_ID p = id)) as [<-|Hne].
    + right. split; [by exists j, p, r, now|]. unfold stage_of. rewrite E.
      destruct (sql_find _ _) eqn:Ef; [|done]. apply sql_find_some in Ef as [Hin Hp].
      apply in_sql_delete in Hin as [_ Hin]. congruence.
    + left. unfold stage_of in *. rewrite E, sql_find_delete; [done|].
      unfold project_id. intros x ?. bool_simpl. apply bool_decide_eq_false. congruence.
Qed.

Definition example_tombstoned : DB := example_db <| db_projects := [example_project <| p_Stage := "deleting" |>] |>.
Lemma tombstone_is_final_witness :
  stage_of "p1" example_tombstoned = Some "deleting" ∧
  stage_of "p1" (run_op (OpSetProjectStage "p1" "ready" (of_unix 5)) example_tombstoned) = Some "deleting".
Proof.
  split; [reflexivity|].
  destruct (tombstone_is_final (OpSetProjectStage "p1" "ready" (of_unix 5)) example_tombstoned "p1") as [H|[H _]];
    [reflexivity|exact H|].
  destruct H as (j & p & r & now & H & _). discriminate H.
Defined.

(** *** Resuming *)

Lemma queue_deletions_jobs newJob now l db db' :
  queue_deletions newJob now l db = Ok db' →
  db_jobs db' = db_jobs db ++ map (λ p, new_job (newJob p).1 "delete" (Some (p_ID p)) (newJob p).2 (unix now) false) l.
Proof.
  revert db. induction l as [|p l IH]; intros db; simpl; [intros [= <-]; by rewrite app_nil_r|].
  destruct (newJob p) as [jid input]. destruct (insertDeleteJob _ _ _ _ _) as [d1|] eqn:Ei; cbn [rbind]; [|discriminate].
  apply insertDeleteJob_ok in Ei as (-> & _). intros E. rewrite (IH _ E). cbn. by rewrite <- app_assoc.
Qed.

(** A deletion is never stranded: when [ResumeDeletions] succeeds outside
    maintenance, every project that carries the tombstone has a delete job
    queued or running, and it reports how many it added; during maintenance
    it writes nothing. *)
Theorem ResumeDeletions_covers newJob now db :
  let (r, db') := ResumeDeletions newJob now db in
  match r with
  | Err _ => db' = db
  | Ok n =>
      Z.of_nat (length (db_jobs db')) = Z.of_nat (length (db_jobs db)) + n ∧
      (maintenance db = true → n = 0 ∧ db' = db) ∧
      (maintenance db = false →
       ∀ p, In p (db_projects db) → p_Stage p = "deleting" →
         ∃ j, In j (db_jobs db') ∧ j_ProjectID j = Some (p_ID p) ∧ j_Kind j = "delete" ∧
           (j_State j = "queued" ∨ j_State j = "running"))
  end.
Proof.
  unfold ResumeDeletions. destruct (maintenance db); [repeat split; try done; lia|]. unfold atomically.
  destruct (queue_deletions _ _ _ _) as [db'|] eqn:E; cbn [rbind]; [|done].
  pose proof (queue_deletions_jobs _ _ _ _ _ E) as Hj. split; [|split; [done|]].
  - rewrite Hj, length_app, length_map. lia.
  - intros _ p Hp Hs. destruct (sql_exists (active_delete (p_ID p)) (db_jobs db)) eqn:Ea.
    + apply sql_exists_true in Ea as (j & Hin & Ha). exists j. split; [rewrite Hj; apply in_app_iff; by left|].
      unfold active_delete, delete_job_of, of_project, of_kind, active_job, in_state in Ha.
      apply andb_true_iff in Ha as [Ha Hst]. bool_simpl. apply orb_true_iff in Hst as [Hst|Hst]; bool_simpl; auto.
    + eexists. split; [rewrite Hj; apply in_app_iff; right; apply in_map_iff; exists p; split; [reflexivity|]|by cbn; auto].
      unfold pending_deletions. rewrite in_sql_order, in_sql_select. split; [done|].
      unfold in_stage. by rewrite Ea, bool_decide_eq_true_2.
Qed.
