(* ===== verification/Retention.v ===== *)
(** * Which backups a policy keeps ([selectExpired] of [internal/jobs/retention.go])

    A pure decision on the rows of one database folder, newest first.  A Go
    map used as a set is the list of its keys in insertion order: only
    membership and the number of keys are ever used. *)

From S2P Require Import Prelude GoStrings GoTime Storage Schema JobStore ProjectStore BackupStore.

Definition blockedByForeignContent (backups : list BucketBackup) (installationID : string) : string :=
  (fix go (l : list BucketBackup) : string :=
    match l with
    | [] => ""
    | b :: l =>
        if bool_decide (bb_State b = StateDamaged) then "it contains a backup that cannot be read"
        else if bool_decide (bb_State b = StateComplete) && negb (bool_decide (bb_InstallationID b = installationID))
        then "it contains backups from another installation"
        else go l
    end) backups.

Definition is_complete (b : BucketBackup) : bool := bool_decide (bb_State b = StateComplete).
Definition taken (b : BucketBackup) : time := of_unix (bb_TakenAt b).
Definition day_key (b : BucketBackup) : string := format_day (taken b).
(** [fmt.Sprintf("%d-%02d", year, week)] *)
Definition week_key (b : BucketBackup) : string :=
  let (y, w) := iso_week (taken b) in decimal y +:+ "-" +:+ pad 2 w.

Record selection := mkSelection { sel_days : list string; sel_weeks : list string; sel_keep : list string }.

(** One pass of the loop. *)
Definition select_step (policy : BackupPolicy) (recent : time) (st : selection) (b : BucketBackup) : selection :=
  let keep := if recent <? taken b then sel_keep st ++ [bb_ManifestKey b] else sel_keep st in
  let day := day_key b in
  let weekKey := week_key b in
  if (Z.of_nat (length (sel_days st)) <? bp_RetentionDaily policy) && negb (bool_decide (day ∈ sel_days st)) then
    mkSelection (sel_days st ++ [day]) (sel_weeks st) (keep ++ [bb_ManifestKey b])
  else if bool_decide (day ∈ sel_days st) then mkSelection (sel_days st) (sel_weeks st) keep
  else if (Z.of_nat (length (sel_weeks st)) <? bp_RetentionWeekly policy) && negb (bool_decide (weekKey ∈ sel_weeks st)) then
    mkSelection (sel_days st) (sel_weeks st ++ [weekKey]) (keep ++ [bb_ManifestKey b])
  else mkSelection (sel_days st) (sel_weeks st) keep.

Definition selected (policy : BackupPolicy) (now : time) (complete : list BucketBackup) : selection :=
  fold_left (select_step policy (now - 24 * Hour)) complete
    (mkSelection [] [] (match complete with [] => [] | b :: _ => [bb_ManifestKey b] end)).

Definition selectExpired (backups : list BucketBackup) (policy : BackupPolicy) (now : time) : list BucketBackup :=
  let complete := List.filter is_complete backups in
  match complete with
  | [] => []
  | _ => List.filter (λ b, negb (bool_decide (bb_ManifestKey b ∈ sel_keep (selected policy now complete)))) complete
  end.

(** ** The reference definition

    The distinct values of a key along a list, and the first row of each. *)

Definition add_new (acc : list string) (x : string) : list string := if bool_decide (x ∈ acc) then acc else acc ++ [x].
Definition distinct (l : list string) : list string := fold_left add_new l [].

Definition kept_days (policy : BackupPolicy) (l : list BucketBackup) : list string :=
  take (Z.to_nat (bp_RetentionDaily policy)) (distinct (map day_key l)).
(** The rows the weekly series looks at: those of days the daily series does not keep. *)
Definition beyond_days (policy : BackupPolicy) (l : list BucketBackup) : list BucketBackup :=
  List.filter (λ b, negb (bool_decide (day_key b ∈ kept_days policy l))) l.
Definition kept_weeks (policy : BackupPolicy) (l : list BucketBackup) : list string :=
  take (Z.to_nat (bp_RetentionWeekly policy)) (distinct (map week_key (beyond_days policy l))).

(** [b] is the first row of [l] with its value of [key]. *)
Definition first_of (key : BucketBackup → string) (l : list BucketBackup) (b : BucketBackup) : Prop :=
  ∃ l1 l2, l = l1 ++ b :: l2 ∧ key b ∉ map key l1.

Definition kept (policy : BackupPolicy) (now : time) (l : list BucketBackup) (b : BucketBackup) : Prop :=
  head l = Some b ∨ now - 24 * Hour < taken b ∨
  (first_of day_key l b ∧ day_key b ∈ kept_days policy l) ∨
  (first_of week_key (beyond_days policy l) b ∧ week_key b ∈ kept_weeks policy l).

(** ** Distinct values *)

Lemma distinct_snoc l x : distinct (l ++ [x]) = add_new (distinct l) x.
Proof. unfold distinct. by rewrite fold_left_app. Qed.

Lemma elem_of_distinct l x : x ∈ distinct l ↔ x ∈ l.
Proof.
  revert x. induction l as [|y l IH] using rev_ind; intros x; [done|]. rewrite distinct_snoc. unfold add_new.
  rewrite elem_of_app, list_elem_of_singleton. case_bool_decide; rewrite ?elem_of_app, ?list_elem_of_singleton, ?IH; [|done].
  rewrite IH in H. split; [tauto|]. intros [?| ->]; done.
Qed.

Lemma NoDup_distinct l : NoDup (distinct l).
Proof.
  induction l as [|y l IH] using rev_ind; [constructor|]. rewrite distinct_snoc. unfold add_new.
  case_bool_decide; [done|]. apply NoDup_app. split; [done|]. split; [|apply NoDup_singleton].
  intros z Hz. rewrite list_elem_of_singleton. by intros ->.
Qed.

(** The first [n] distinct values of a longer list. *)
Lemma take_distinct_snoc n l x :
  take n (distinct (l ++ [x])) =
  if bool_decide (x ∈ distinct l) then take n (distinct l)
  else if (length (take n (distinct l)) <? n)%nat then take n (distinct l) ++ [x] else take n (distinct l).
Proof.
  rewrite distinct_snoc. unfold add_new. case_bool_decide; [done|]. rewrite length_take.
  destruct (Nat.ltb_spec (Init.Nat.min n (length (distinct l))) n).
  - rewrite !take_ge; [done|lia|]. rewrite length_app. simpl. lia.
  - rewrite take_app_le; [done|lia].
Qed.

Lemma elem_of_take_distinct n (l : list string) x : x ∈ take n (distinct l) → x ∈ l.
Proof. intros H. apply elem_of_distinct. by apply (subseteq_take n). Qed.

(** Below the bound every value is kept. *)
Lemma take_distinct_all n l : (length (take n (distinct l)) < n)%nat → take n (distinct l) = distinct l.
Proof. rewrite length_take. intros. apply take_ge. lia. Qed.

(** The same, as the loop tests it. *)
Lemma take_distinct_snoc' n l x :
  take n (distinct (l ++ [x])) =
  if (length (take n (distinct l)) <? n)%nat && negb (bool_decide (x ∈ take n (distinct l)))
  then take n (distinct l) ++ [x] else take n (distinct l).
Proof.
  rewrite take_distinct_snoc. destruct (Nat.ltb_spec (length (take n (distinct l))) n) as [Hlt|Hge]; simpl.
  - rewrite (take_distinct_all _ _ Hlt). by case_bool_decide.
  - by case_bool_decide.
Qed.

(** ** The first row of each of the first [n] values *)

Section series.
Context (key : BucketBackup → string) (n : nat).

Definition series (l : list BucketBackup) (b : BucketBackup) : Prop :=
  first_of key l b ∧ key b ∈ take n (distinct (map key l)).

Lemma first_of_snoc l x b : first_of key (l ++ [x]) b ↔ first_of key l b ∨ (b = x ∧ key x ∉ map key l).
Proof.
  split.
  - intros (l1 & l2 & E & Hn). destruct l2 as [|y l2 _] using rev_ind.
    + apply app_inj_tail in E as [<- <-]. by right.
    + rewrite app_comm_cons, app_assoc in E. apply app_inj_tail in E as [-> _]. left. by exists l1, l2.
  - intros [(l1 & l2 & -> & Hn)|[-> Hn]].
    + exists l1, (l2 ++ [x]). by rewrite <- app_assoc.
    + by exists l, [].
Qed.

Lemma first_of_elem l b : first_of key l b → key b ∈ map key l.
Proof. intros (l1 & l2 & -> & _). rewrite map_app, elem_of_app. right. simpl. apply list_elem_of_here. Qed.

Lemma first_of_in l b : first_of key l b → In b l.
Proof. intros (l1 & l2 & -> & _). apply in_app_iff. right. by left. Qed.

Lemma series_snoc l x b :
  let ks := take n (distinct (map key l)) in
  series (l ++ [x]) b ↔ series l b ∨ (b = x ∧ (length ks < n)%nat ∧ key x ∉ ks).
Proof.
  cbv zeta. unfold series. rewrite first_of_snoc, map_app. cbn [map]. rewrite take_distinct_snoc'.
  set (ks := take n (distinct (map key l))).
  assert ((length ks < n)%nat → ∀ y, y ∈ ks ↔ y ∈ map key l) as Hall.
  { intros Hlt y. unfold ks. rewrite (take_distinct_all _ _ Hlt). apply elem_of_distinct. }
  destruct (Nat.ltb_spec (length ks) n) as [Hlt|Hge]; simpl.
  - specialize (Hall Hlt). case_bool_decide as Hx; simpl.
    + split; [|tauto]. intros [[?|[-> Hn]] ?]; [tauto|]. by apply Hall in Hx.
    + rewrite elem_of_app, list_elem_of_singleton. split.
      * intros [[Hf|[-> Hn]] _]; [left|right; done]. split; [done|]. apply Hall. by apply first_of_elem.
      * intros [[Hf Hk]|(-> & _ & _)]; [split; [by left|by left]|]. split; [right|by right].
        split; [done|]. by rewrite <- Hall.
  - split; [|intros [?|(? & ? & _)]; [tauto|lia]]. intros [[?|[-> Hn]] Hk]; [tauto|].
    destruct Hn. by eapply elem_of_take_distinct.
Qed.
End series.

(** ** The loop computes the reference definition *)

Section refinement.
Context (policy : BackupPolicy) (now : time).
Context (Hd : 0 ≤ bp_RetentionDaily policy) (Hw : 0 ≤ bp_RetentionWeekly policy).

Let daily := Z.to_nat (bp_RetentionDaily policy).
Let weekly := Z.to_nat (bp_RetentionWeekly policy).

Lemma kept_days_snoc l b :
  kept_days policy (l ++ [b]) =
  if (length (kept_days policy l) <? daily)%nat && negb (bool_decide (day_key b ∈ kept_days policy l))
  then kept_days policy l ++ [day_key b] else kept_days policy l.
Proof. unfold kept_days. rewrite map_app. apply take_distinct_snoc'. Qed.

(** Once a row falls beyond the kept days, no later day joins them. *)
Lemma beyond_days_snoc l b :
  beyond_days policy (l ++ [b]) =
  if bool_decide (day_key b ∈ kept_days policy l) || (length (kept_days policy l) <? daily)%nat
  then beyond_days policy l else beyond_days policy l ++ [b].
Proof.
  unfold beyond_days at 1. rewrite kept_days_snoc, List.filter_app.
  destruct (Nat.ltb_spec (length (kept_days policy l)) daily) as [Hlt|Hge]; simpl.
  - rewrite orb_true_r.
    assert (∀ x, In x l → day_key x ∈ kept_days policy l) as Hall.
    { intros x Hx. unfold kept_days. rewrite take_distinct_all by done. apply elem_of_distinct, list_elem_of_In.
      by apply in_map. }
    assert (∀ ks : list string, (∀ x, In x l → day_key x ∈ ks) → List.filter (λ b, negb (bool_decide (day_key b ∈ ks))) l = []) as Hnil.
    { intros ks Hks. clear -Hks. induction l as [|x l IH]; [done|]. simpl.
      rewrite bool_decide_eq_true_2 by (apply Hks; simpl; auto). apply IH. intros; apply Hks; simpl; auto. }
    unfold beyond_days. rewrite (Hnil (kept_days policy l)) by done. case_bool_decide as Hb; simpl.
    + rewrite Hnil by done. by rewrite bool_decide_eq_true_2.
    + rewrite Hnil by (intros; rewrite elem_of_app; left; by apply Hall).
      rewrite bool_decide_eq_true_2; [done|]. rewrite elem_of_app, list_elem_of_singleton. by right.
  - rewrite orb_false_r. case_bool_decide; simpl; [by rewrite app_nil_r|done].
Qed.

Lemma kept_weeks_snoc l b :
  kept_weeks policy (l ++ [b]) =
  if bool_decide (day_key b ∈ kept_days policy l) || (length (kept_days policy l) <? daily)%nat
  then kept_weeks policy l
  else if (length (kept_weeks policy l) <? weekly)%nat && negb (bool_decide (week_key b ∈ kept_weeks policy l))
  then kept_weeks policy l ++ [week_key b] else kept_weeks policy l.
Proof.
  unfold kept_weeks. rewrite beyond_days_snoc. destruct (_ || _); [done|]. rewrite map_app. apply take_distinct_snoc'.
Qed.

(** The rows the loop decides to keep, apart from the very first. *)
Definition chosen (l : list BucketBackup) (b : BucketBackup) : Prop :=
  now - 24 * Hour < taken b ∨ series day_key daily l b ∨ series week_key weekly (beyond_days policy l) b.

Lemma ltb_length (n : nat) (z : Z) : 0 ≤ z → (Z.of_nat n <? z) = (n <? Z.to_nat z)%nat.
Proof. intros. apply eq_true_iff_eq. rewrite Z.ltb_lt, Nat.ltb_lt. lia. Qed.

(** What one more row adds to the choice. *)
Definition added (l : list BucketBackup) (x : BucketBackup) : Prop :=
  now - 24 * Hour < taken x ∨
  ((length (kept_days policy l) < daily)%nat ∧ day_key x ∉ kept_days policy l) ∨
  (day_key x ∉ kept_days policy l ∧ (daily ≤ length (kept_days policy l))%nat ∧
   (length (kept_weeks policy l) < weekly)%nat ∧ week_key x ∉ kept_weeks policy l).

Lemma beyond_days_in l b : In b (beyond_days policy l) → In b l.
Proof. unfold beyond_days. by intros [? _]%filter_In. Qed.

Lemma chosen_snoc l x k :
  (∃ b, In b (l ++ [x]) ∧ bb_ManifestKey b = k ∧ chosen (l ++ [x]) b) ↔
  (∃ b, In b l ∧ bb_ManifestKey b = k ∧ chosen l b) ∨ (bb_ManifestKey x = k ∧ added l x).
Proof.
  assert (∀ b, series week_key weekly (beyond_days policy (l ++ [x])) b ↔
    series week_key weekly (beyond_days policy l) b ∨
    (b = x ∧ day_key x ∉ kept_days policy l ∧ (daily ≤ length (kept_days policy l))%nat ∧
     (length (kept_weeks policy l) < weekly)%nat ∧ week_key x ∉ kept_weeks policy l)) as Hweek.
  { intros b. rewrite beyond_days_snoc. case_bool_decide as Hday; simpl; [tauto|].
    destruct (Nat.ltb_spec (length (kept_days policy l)) daily) as [Hlt|Hge]; simpl.
    - split; [tauto|]. intros [?|(_ & _ & ? & _)]; [done|lia].
    - rewrite series_snoc. fold (kept_weeks policy l). tauto. }
  unfold chosen, added. split.
  - intros (b & Hb & Hk & Hc). rewrite series_snoc, Hweek in Hc.
    fold (kept_days policy l) in Hc. apply in_app_iff in Hb.
    destruct Hc as [Hr|[[Hs|(-> & Ha)]|[Hs|(-> & Ha)]]]; [|left|right; tauto|left|right; tauto].
    + destruct Hb as [Hb|[<-|[]]]; [left; exists b; tauto|right; tauto].
    + exists b. split; [by eapply first_of_in, Hs|]. tauto.
    + exists b. split; [by eapply beyond_days_in, first_of_in, Hs|]. tauto.
  - intros [(b & Hb & Hk & Hc)|(Hk & Ha)].
    + exists b. rewrite in_app_iff, series_snoc, Hweek. tauto.
    + exists x. rewrite in_app_iff, series_snoc, Hweek. simpl. fold (kept_days policy l). tauto.
Qed.

Lemma selected_spec keep0 l :
  let st := fold_left (select_step policy (now - 24 * Hour)) l (mkSelection [] [] keep0) in
  sel_days st = kept_days policy l ∧ sel_weeks st = kept_weeks policy l ∧
  ∀ k, k ∈ sel_keep st ↔ k ∈ keep0 ∨ ∃ b, In b l ∧ bb_ManifestKey b = k ∧ chosen l b.
Proof using Hd Hw.
  cbv zeta. induction l as [|x l IH] using rev_ind.
  - simpl. unfold kept_days, kept_weeks, beyond_days, distinct. simpl. rewrite !take_nil. repeat split; try done; [tauto|].
    intros [?|(b & [] & _)]. done.
  - rewrite fold_left_app. cbn [fold_left]. set (st := fold_left _ _ _) in *. destruct IH as (E1 & E2 & E3).
    unfold select_step. rewrite E1, E2, !ltb_length, kept_days_snoc, kept_weeks_snoc by done. fold daily weekly.
    set (keep := if _ <? _ then _ else _).
    assert (∀ k, k ∈ keep ↔ k ∈ sel_keep st ∨ (bb_ManifestKey x = k ∧ now - 24 * Hour < taken x)) as Hkeep.
    { intros k. unfold keep. destruct (Z.ltb_spec (now - 24 * Hour) (taken x)); [|split; [tauto|intros [?|[_ ?]]; [done|lia]]].
      rewrite elem_of_app, list_elem_of_singleton. intuition congruence. }
    setoid_rewrite chosen_snoc. unfold added.
    destruct (Nat.ltb_spec (length (kept_days policy l)) daily) as [Hlt|Hge];
      destruct (decide (day_key x ∈ kept_days policy l)) as [Hday|Hday];
      rewrite ?(bool_decide_eq_true_2 _ Hday), ?(bool_decide_eq_false_2 _ Hday); simpl;
      [| |
       |destruct (Nat.ltb_spec (length (kept_weeks policy l)) weekly);
        destruct (decide (week_key x ∈ kept_weeks policy l)) as [Hwk|Hwk];
        rewrite ?(bool_decide_eq_true_2 _ Hwk), ?(bool_decide_eq_false_2 _ Hwk); simpl];
      (split; [done|]; split; [done|]; intros k; rewrite ?elem_of_app, ?list_elem_of_singleton, Hkeep, E3;
       intuition (congruence || lia)).
Qed.
End refinement.

(** C9. Retention by specification.  For a valid policy and rows with distinct
    keys, [selectExpired] returns exactly the complete backups that are not
    the newest, not from the last 24 hours, not the newest of one of the
    [RetentionDaily] most recent days that have a backup, and not the newest
    beyond those days of one of the [RetentionWeekly] most recent ISO weeks:
    the loop over two counters implements the declarative series. *)
Theorem selectExpired_reference backups policy now :
  Policy_Validate policy = Ok tt → NoDup (map bb_ManifestKey (List.filter is_complete backups)) →
  ∀ b, In b (selectExpired backups policy now) ↔
    In b backups ∧ bb_State b = StateComplete ∧ ¬ kept policy now (List.filter is_complete backups) b.
Proof.
  intros Hv%Policy_Validate_ok HN b. set (l := List.filter is_complete backups) in *.
  assert (In b backups ∧ bb_State b = StateComplete ↔ In b l) as Hl.
  { unfold l, is_complete. by rewrite filter_In, bool_decide_eq_true. }
  assert (In b (selectExpired backups policy now) ↔
    In b l ∧ bb_ManifestKey b ∉ sel_keep (selected policy now l)) as ->.
  { unfold selectExpired. fold l. destruct l eqn:El; [simpl; tauto|].
    by rewrite filter_In, negb_true_iff, bool_decide_eq_false. }
  set (keep := sel_keep (selected policy now l)).
  enough (In b l → (bb_ManifestKey b ∈ keep ↔ kept policy now l b)) by tauto. intros Hb. unfold keep, selected.
  destruct (selected_spec policy now ltac:(lia) ltac:(lia)
    (match l with [] => [] | b :: _ => [bb_ManifestKey b] end) l) as (_ & _ & ->).
  unfold kept. split.
  - intros [H0|(b' & Hb' & Hk & Hc)].
    + left. destruct l as [|x l']; [done|]. apply list_elem_of_singleton in H0. simpl. f_equal.
      symmetry. eapply (NoDup_map_inj bb_ManifestKey); [exact HN|done|by left|done].
    + assert (b' = b) as -> by (eapply (NoDup_map_inj bb_ManifestKey); [exact HN|..]; done). right. exact Hc.
  - intros [H0|Hc].
    + left. destruct l as [|x l']; [done|]. injection H0 as ->. by apply list_elem_of_singleton.
    + right. exists b. split; [done|]. split; [done|]. exact Hc.
Qed.

(** ** Stability *)

Lemma select_step_keep policy recent st x k : k ∈ sel_keep st → k ∈ sel_keep (select_step policy recent st x).
Proof.
  intros H. unfold select_step. set (keep := if _ <? _ then _ else _).
  assert (k ∈ keep) by (unfold keep; destruct (_ <? _); [rewrite elem_of_app; by left|done]).
  destruct (_ && _); [simpl; rewrite elem_of_app; by left|]. destruct (bool_decide _); [done|].
  destruct (_ && _); [simpl; rewrite elem_of_app; by left|done].
Qed.

Lemma select_fold_keep policy recent l st k :
  k ∈ sel_keep st → k ∈ sel_keep (fold_left (select_step policy recent) l st).
Proof. revert st. induction l; simpl; eauto using select_step_keep. Qed.

(** A row that is not kept leaves no trace in the loop's state. *)
Lemma select_step_skip policy recent st x :
  bb_ManifestKey x ∉ sel_keep (select_step policy recent st x) → select_step policy recent st x = st.
Proof.
  unfold select_step. destruct (recent <? taken x); simpl.
  - intros []. destruct (_ && _); [|destruct (bool_decide _); [|destruct (_ && _)]]; simpl;
      rewrite ?elem_of_app, list_elem_of_singleton; auto.
  - destruct (_ && _); simpl; [intros []; rewrite elem_of_app, list_elem_of_singleton; by right|].
    destruct (bool_decide _); [by destruct st|].
    destruct (_ && _); simpl; [intros []; rewrite elem_of_app, list_elem_of_singleton; by right|by destruct st].
Qed.

Lemma select_fold_survivors policy recent (K : list string) l st :
  (∀ k, k ∈ sel_keep (fold_left (select_step policy recent) l st) → k ∈ K) →
  fold_left (select_step policy recent) (List.filter (λ b, bool_decide (bb_ManifestKey b ∈ K)) l) st =
  fold_left (select_step policy recent) l st.
Proof.
  revert st. induction l as [|x l IH]; intros st HK; simpl; [done|]. simpl in HK.
  case_bool_decide as Hx; simpl; [by apply IH|].
  assert (select_step policy recent st x = st) as E.
  { apply select_step_skip. intros Hin. apply Hx, HK. by apply select_fold_keep. }
  rewrite E in *. by apply IH.
Qed.

Lemma selected_head policy now x l : bb_ManifestKey x ∈ sel_keep (selected policy now (x :: l)).
Proof. unfold selected. apply select_fold_keep. apply list_elem_of_here. Qed.

Lemma selected_recent policy now l b :
  In b l → now - 24 * Hour < taken b → bb_ManifestKey b ∈ sel_keep (selected policy now l).
Proof.
  intros Hb Hr. unfold selected. set (st := mkSelection _ _ _). generalize st. clear st.
  induction l as [|x l IH]; intros st; [done|]. simpl. destruct Hb as [->|Hb]; [|by apply IH].
  apply select_fold_keep. unfold select_step. rewrite (proj2 (Z.ltb_lt _ _) Hr).
  destruct (_ && _); [|destruct (bool_decide _); [|destruct (_ && _)]]; simpl;
    rewrite ?elem_of_app, list_elem_of_singleton; auto.
Qed.

Lemma selected_survivors policy now l :
  selected policy now (List.filter (λ b, bool_decide (bb_ManifestKey b ∈ sel_keep (selected policy now l))) l) =
  selected policy now l.
Proof.
  set (K := sel_keep (selected policy now l)). unfold selected at 1.
  replace (match List.filter _ l with [] => [] | b :: _ => [bb_ManifestKey b] end)
    with (match l with [] => [] | b :: _ => [bb_ManifestKey b] end).
  - apply select_fold_survivors. done.
  - unfold K. destruct l as [|x l']; [done|]. simpl. by rewrite bool_decide_eq_true_2 by apply selected_head.
Qed.

(** The rows a retention pass leaves. *)
Definition survivors (backups : list BucketBackup) (policy : BackupPolicy) (now : time) : list BucketBackup :=
  List.filter (λ b, negb (bool_decide (bb_ManifestKey b ∈ map bb_ManifestKey (selectExpired backups policy now)))) backups.

Lemma in_selectExpired backups policy now b :
  In b (selectExpired backups policy now) ↔
  In b (List.filter is_complete backups) ∧
  bb_ManifestKey b ∉ sel_keep (selected policy now (List.filter is_complete backups)).
Proof.
  unfold selectExpired. destruct (List.filter is_complete backups); [simpl; tauto|].
  by rewrite filter_In, negb_true_iff, bool_decide_eq_false.
Qed.

Lemma complete_survivors backups policy now :
  List.filter is_complete (survivors backups policy now) =
  List.filter (λ b, bool_decide (bb_ManifestKey b ∈ sel_keep (selected policy now (List.filter is_complete backups))))
    (List.filter is_complete backups).
Proof.
  unfold survivors. rewrite !filter_filter_and. apply filter_ext_in. intros b Hb. rewrite andb_comm.
  destruct (is_complete b) eqn:Ec; [simpl|done]. rewrite <- bool_decide_not. apply bool_decide_ext.
  assert (In b (List.filter is_complete backups)) as Hin by (by apply filter_In).
  split.
  - intros Hn. destruct (decide (bb_ManifestKey b ∈ sel_keep (selected policy now (List.filter is_complete backups))));
      [done|].
    destruct Hn. apply list_elem_of_In, in_map. by apply in_selectExpired.
  - intros Hk (x & Hx & Hxe)%list_elem_of_In%in_map_iff. apply in_selectExpired in Hxe as [_ Hxe]. by rewrite Hx in Hxe.
Qed.

(** Retention is safe and settles in one pass, whatever the policy and
    the clock: the newest complete backup is never expired, nothing taken in
    the last 24 hours is, only complete backups ever are, and applying the
    same policy to the backups that remain expires nothing more. *)
Theorem selectExpired_safe_and_stable backups policy now :
  (∀ b, In b (selectExpired backups policy now) →
     In b backups ∧ bb_State b = StateComplete ∧ taken b ≤ now - 24 * Hour ∧
     ∀ x l, List.filter is_complete backups = x :: l → bb_ManifestKey b ≠ bb_ManifestKey x) ∧
  selectExpired (survivors backups policy now) policy now = [].
Proof.
  split.
  - intros b [Hb Hk]%in_selectExpired. pose proof Hb as [Hin Hc]%filter_In.
    split; [done|]. split; [by apply bool_decide_eq_true in Hc|]. split.
    + destruct (Z.le_gt_cases (taken b) (now - 24 * Hour)); [done|]. destruct Hk. by apply selected_recent.
    + intros x l E Heq. apply Hk. rewrite E, Heq. apply selected_head.
  - apply elem_of_nil_inv. intros b Hb. apply list_elem_of_In, in_selectExpired in Hb as [Hb Hk].
    rewrite complete_survivors in *. set (l := List.filter is_complete backups) in *. apply Hk. clear Hk.
    apply filter_In in Hb as [_ Hb]. apply bool_decide_eq_true in Hb. by rewrite selected_survivors.
Qed.

Definition kept_row (n : Z) : BucketBackup :=
  foreign_row <| bb_ManifestKey := "m" +:+ decimal n |> <| bb_TakenAt := 1767225600 - n * 86400 |>.

Lemma selectExpired_reference_witness :
  let policy := mkBackupPolicy 24 1 0 (-1) 0 in
  let rows := [kept_row 0; kept_row 2] in
  Policy_Validate policy = Ok tt ∧ In (kept_row 2) (selectExpired rows policy (of_unix 1767225700)).
Proof.
  cbv zeta. split; [reflexivity|].
  assert (NoDup (map bb_ManifestKey (List.filter is_complete [kept_row 0; kept_row 2]))) as HN.
  { apply (bool_decide_unpack _). vm_compute. exact I. }
  refine (proj2 (selectExpired_reference [kept_row 0; kept_row 2] (mkBackupPolicy 24 1 0 (-1) 0) (of_unix 1767225700)
    eq_refl HN (kept_row 2)) _).
  split; [right; left; reflexivity|]. split; [reflexivity|].
  intros [H|[H|[[_ H]|[_ H]]]].
  - apply (f_equal (option_map bb_TakenAt)) in H. vm_compute in H. discriminate H.
  - apply Z.ltb_lt in H. vm_compute in H. discriminate H.
  - apply (bool_decide_eq_true_2 (_ ∈ _)) in H. vm_compute in H. discriminate H.
  - apply (bool_decide_eq_true_2 (_ ∈ _)) in H. vm_compute in H. discriminate H.
Defined.
