(* ===== verification/Cluster.v ===== *)
(** * The PostgreSQL cluster

    What the management connection ([pgfy_mgmt]) can see and change: roles,
    databases, client sessions, and the managed access rule file with the
    rules the server has loaded.  PostgreSQL itself is not part of the
    sources: [effect] is the documented behaviour of each statement they
    issue, and [Server] (in [World]) is the connection that runs it. *)

From S2P Require Import Prelude GoStrings.

Record Role := mkRole {
  ro_Login : bool;
  ro_Super : bool;
  ro_CreateDB : bool;
  ro_CreateRole : bool;
  ro_Member : bool; (* [pg_has_role(current_user, oid, 'MEMBER')] *)
  ro_Password : string;
  ro_ConnectionLimit : Z;
  ro_Settings : gmap string string;
  ro_DatabaseSettings : gmap string (gmap string string);
}.
#[export] Instance eta_Role : Eta Role := λ r,
  mkRole (ro_Login r) (ro_Super r) (ro_CreateDB r) (ro_CreateRole r) (ro_Member r) (ro_Password r)
    (ro_ConnectionLimit r) (ro_Settings r) (ro_DatabaseSettings r).

Record Database := mkDatabase { d_Owner : string; d_Public : bool }.

Record Session := mkSession' { ss_Database : string; ss_Role : string }.

Record Cluster := mkCluster {
  cl_Roles : gmap string Role;
  cl_Databases : gmap string Database;
  cl_Sessions : list Session;
  cl_MaxConnections : Z;
  cl_SuperuserReserved : Z;
  cl_Reserved : Z;
  cl_File : option string; (* [projects.conf] on disk *)
  cl_Temp : option string; (* [projects.conf.tmp] *)
  cl_Rules : option string; (* its content at the last load *)
}.
#[export] Instance eta_Cluster : Eta Cluster := λ r,
  mkCluster (cl_Roles r) (cl_Databases r) (cl_Sessions r) (cl_MaxConnections r) (cl_SuperuserReserved r)
    (cl_Reserved r) (cl_File r) (cl_Temp r) (cl_Rules r).

Definition empty_cluster : Cluster := mkCluster ∅ ∅ [] 100 3 0 None None None.

(** ** Statements *)

Inductive statement :=
| CreateRole (name password : string) (connectionLimit : Z)
| AlterPassword (name password : string)
| AlterSet (name key value : string)
| AlterReset (name key : string)
| AlterConnectionLimit (name : string) (n : Z)
| AlterResetIn (name database key : string)
| AlterNoLogin (name : string)
| CreateDatabase (name owner : string)
| RevokePublic (name : string)
| TerminateRole (role : string)
| TerminateRoleOn (database role : string)
| DropDatabaseForce (name : string)
| DropRole (name : string).

(** [ALTER ROLE] on a role that does not exist is an error. *)
Definition alter (name : string) (f : Role → Role) (c : Cluster) : option Cluster :=
  match cl_Roles c !! name with
  | Some r => Some (c <| cl_Roles := <[name := f r]> (cl_Roles c) |>)
  | None => None
  end.

Definition owns_database (c : Cluster) (role : string) : bool :=
  existsb (λ '(_, d), bool_decide (d_Owner d = role)) (map_to_list (cl_Databases c)).

(** The cluster after a statement; [None] is an error. *)
Definition effect (st : statement) (c : Cluster) : option Cluster :=
  match st with
  | CreateRole name password n =>
      match cl_Roles c !! name with
      | Some _ => None
      | None => Some (c <| cl_Roles := <[name := mkRole true false false false true password n ∅ ∅]> (cl_Roles c) |>)
      end
  | AlterPassword name password => alter name (λ r, r <| ro_Password := password |>) c
  | AlterSet name key value => alter name (λ r, r <| ro_Settings := <[key := value]> (ro_Settings r) |>) c
  | AlterReset name key => alter name (λ r, r <| ro_Settings := delete key (ro_Settings r) |>) c
  | AlterConnectionLimit name n => alter name (λ r, r <| ro_ConnectionLimit := n |>) c
  | AlterResetIn name database key =>
      alter name (λ r, r <| ro_DatabaseSettings := partial_alter (fmap (delete key)) database (ro_DatabaseSettings r) |>) c
  | AlterNoLogin name => alter name (λ r, r <| ro_Login := false |>) c
  | CreateDatabase name owner =>
      match cl_Databases c !! name, cl_Roles c !! owner with
      | None, Some _ => Some (c <| cl_Databases := <[name := mkDatabase owner true]> (cl_Databases c) |>)
      | _, _ => None
      end
  | RevokePublic name =>
      match cl_Databases c !! name with
      | Some d => Some (c <| cl_Databases := <[name := mkDatabase (d_Owner d) false]> (cl_Databases c) |>)
      | None => None
      end
  | TerminateRole role =>
      Some (c <| cl_Sessions := List.filter (λ s, negb (bool_decide (ss_Role s = role))) (cl_Sessions c) |>)
  | TerminateRoleOn database role =>
      Some (c <| cl_Sessions := List.filter
        (λ s, negb (bool_decide (ss_Role s = role) && bool_decide (ss_Database s = database))) (cl_Sessions c) |>)
  | DropDatabaseForce name =>
      match cl_Databases c !! name with
      | Some _ => Some (c <| cl_Databases := delete name (cl_Databases c) |>
          <| cl_Sessions := List.filter (λ s, negb (bool_decide (ss_Database s = name))) (cl_Sessions c) |>)
      | None => None
      end
  | DropRole name =>
      match cl_Roles c !! name with
      | Some _ => if owns_database c name then None else Some (c <| cl_Roles := delete name (cl_Roles c) |>)
      | None => None
      end
  end.

(** A transaction applies all of its statements or none. *)
Fixpoint effects (sts : list statement) (c : Cluster) : option Cluster :=
  match sts with
  | [] => Some c
  | st :: sts => match effect st c with Some c' => effects sts c' | None => None end
  end.

Lemma owns_database_false c role :
  owns_database c role = false ↔ ∀ name d, cl_Databases c !! name = Some d → d_Owner d ≠ role.
Proof.
  unfold owns_database. split.
  - intros H name d Hd Ho. apply not_true_iff_false in H. apply H. apply existsb_exists. exists (name, d).
    split; [by apply list_elem_of_In, elem_of_map_to_list|by apply bool_decide_eq_true].
  - intros H. apply not_true_iff_false. intros ([name d] & Hin & Ho)%existsb_exists. bool_simpl.
    apply list_elem_of_In, elem_of_map_to_list in Hin. by eapply H.
Qed.
