(* ===== verification/World.v ===== *)
(** * The worker's world: management storage, the bucket, faults and the clock

    Worker code runs against two things that can fail at any call: the local
    database and the object store.  A [World] holds both, with a schedule of
    outcomes, one per call: a call works, fails without an effect, or fails
    after its effect took place (a lost answer).  Theorems quantify over
    every schedule, so they also cover a crash at any point: a process that
    stops is one whose remaining calls all fail without an effect.

    [ObjectStore] is the Go interface [objectStore] of
    [internal/jobs/retention.go]; [client] is the S3 client of
    [internal/storage] behind it, on the documented behaviour of an S3
    bucket: a map from keys to objects, listed in key order, in which
    removing a missing key succeeds. *)

From S2P Require Import Prelude GoStrings GoTime Storage Schema Cluster.

(** ** Objects *)

(** What an object holds: an archive (its checksum stands for its bytes), a
    document that decodes as a manifest, or anything else. *)
Inductive content := Archive (sha : string) | Document (m : Manifest) | Other.
Record stored := mkStored { so_Size : Z; so_Content : content }.
Abbreviation bucket := (gmap string stored).

Inductive outcome := Works | Fails | FailsAfter.

Record World := mkWorld {
  w_db : DB;
  w_bucket : bucket;
  w_pg : Cluster;
  w_faults : list outcome;
  w_clock : list time;
  w_stops : list bool;
}.
#[export] Instance eta_World : Eta World := λ r,
  mkWorld (w_db r) (w_bucket r) (w_pg r) (w_faults r) (w_clock r) (w_stops r).

(** ** Computations *)

Inductive werror :=
| Unavailable
| StoreError (e : store_error)
| LayoutError (e : layout_error)
| RoleMismatch
| OwnerMismatch
| Message (text : string)
| Wrapped (what : string) (e : werror). (* [fmt.Errorf("what: %w", e)] *)

Definition M (A : Type) : Type := World → res werror A * World.

#[export] Instance M_ret : MRet M := λ A a w, (Ok a, w).
#[export] Instance M_bind : MBind M := λ A B k m w,
  match m w with
  | (Ok a, w') => k a w'
  | (Err e, w') => (Err e, w')
  end.
Definition throw {A} (e : werror) : M A := λ w, (Err e, w).
(** Go code that looks at the error itself. *)
Definition attempt {A} (m : M A) : M (res werror A) := λ w, let (r, w') := m w in (Ok r, w').
Definition lift {A} (r : res werror A) : M A := λ w, (r, w).

Definition wrap {A} (what : string) (m : M A) : M A := λ w,
  match m w with
  | (Err e, w') => (Err (Wrapped what e), w')
  | x => x
  end.

(** One external call: an effect on the world that the next outcome decides. *)
Definition call {A} (f : World → res werror A * World) : M A := λ w,
  match w_faults w with
  | [] => f w
  | o :: os =>
      let w := w <| w_faults := os |> in
      match o with
      | Works => f w
      | Fails => (Err Unavailable, w)
      | FailsAfter => (Err Unavailable, (f w).2)
      end
  end.

(** [time.Now()]: the clock shows its readings one after the other; the last
    one stays, so time may stand still but the run never outlives its clock. *)
Definition readings (w : World) : list time := match w_clock w with [] => [0] | ts => ts end.
Definition passing (ts : list time) : list time := match ts with [] => [] | [t] => [t] | _ :: ts => ts end.
Definition now_ : M time := λ w, (Ok (hd 0 (readings w)), w <| w_clock := passing (w_clock w) |>).

(** [ctx.Err() != nil], asked each time: any sequence of answers. *)
Definition ctx_done : M bool := λ w,
  match w_stops w with
  | [] => (Ok false, w)
  | b :: bs => (Ok b, w <| w_stops := bs |>)
  end.

(** Store calls. *)
Definition db_read {A} (f : DB → A) : M A := call (λ w, (Ok (f (w_db w)), w)).
Definition db_get {A} (f : DB → res store_error A) : M A :=
  call (λ w, (match f (w_db w) with Ok a => Ok a | Err e => Err (StoreError e) end, w)).
Definition db_write (f : DB → DB) : M unit := call (λ w, (Ok tt, w <| w_db := f (w_db w) |>)).
Definition db_tx {A} (f : DB → res store_error A * DB) : M A :=
  call (λ w, let (r, db') := f (w_db w) in
    (match r with Ok a => Ok a | Err e => Err (StoreError e) end, w <| w_db := db' |>)).

(** [for … { if e := …; e != nil { return e } }] *)
Fixpoint for_each {A} (f : A → M unit) (l : list A) : M unit :=
  match l with
  | [] => mret tt
  | x :: l => f x ≫= λ _, for_each f l
  end.

(** ** The PostgreSQL connection

    [transact] runs statements in one transaction (a lone statement is its
    own), [ask] a query. *)

Class Server := {
  transact : list statement → M unit;
  ask : ∀ {A : Type}, (Cluster → A) → M A;
}.
Definition exec `{!Server} (st : statement) : M unit := transact [st].

#[export] Instance live_server : Server := {|
  transact sts := call (λ w,
    match effects sts (w_pg w) with
    | Some c => (Ok tt, w <| w_pg := c |>)
    | None => (Err (Message "the statement was rejected"), w)
    end);
  ask A q := call (λ w, (Ok (q (w_pg w)), w));
|}.

(** ** The object store *)

Class ObjectStore := {
  os_ListDatabases : M (list string);
  os_ListBackups : string → M (list Entry);
  os_Manifest : string → M Manifest;
  os_Remove : string → M unit;
  os_Protection : M string;
}.

(** The keys of a bucket under a prefix, in key order. *)
Definition keys_under (root : string) (b : bucket) : list string :=
  sql_order (key_leb id String.leb) (List.filter (λ k, has_prefix k root) (map fst (map_to_list b))).
Definition objects_under (root : string) (b : bucket) : list Object :=
  map (λ k, mkObject k (match b !! k with Some o => so_Size o | None => 0 end)) (keys_under root b).

(** A listing that does not recurse gives each direct key, and each folder once. *)
Definition direct_key (root k : string) : string :=
  match split_on slash (trim_prefix k root) with
  | dir :: _ :: _ => root +:+ dir +:+ "/"
  | _ => k
  end.
Definition folders_under (root : string) (b : bucket) : list string :=
  remove_dups (map (direct_key root) (keys_under root b)).

(** [MaxManifestBytes] *)
Definition MaxManifestBytes : Z := 8 * 2 ^ 20.

Definition ReadManifest (s : Settings) (k : string) (b : bucket) : res werror Manifest :=
  match EntryFor s k with
  | Err e => Err (LayoutError e)
  | Ok entry =>
      match b !! k with
      | None => Err Unavailable
      | Some o =>
          if MaxManifestBytes <? so_Size o then Err (Message "the manifest exceeds the size limit for this release")
          else match so_Content o with
               | Document m =>
                   let m := m <| m_ManifestKey := k |> in
                   match CheckManifest m entry with
                   | Ok _ => Ok m
                   | Err _ => Err (Message "the backup's manifest does not match its location and will not be restored")
                   end
               | _ => Err (Message "the manifest is unreadable or from an unsupported version")
               end
      end
  end.

Section client.
Context (s : Settings) (versioning : versioning_answer).

Definition ListDatabases : M (list string) :=
  call (λ w, (Ok (database_names (key s ["backups"] +:+ "/") (folders_under (key s ["backups"] +:+ "/") (w_bucket w))), w)).

Definition ListBackups (dbName : string) : M (list Entry) :=
  if negb (ValidDatabaseSegment dbName) then throw (LayoutError NotADatabaseFolder)
  else call (λ w, (Ok (EntriesFrom (backups_root s dbName) (objects_under (backups_root s dbName) (w_bucket w))), w)).

(** The key is checked before the bucket is asked. *)
Definition ClientManifest (k : string) : M Manifest :=
  match EntryFor s k with
  | Err e => throw (LayoutError e)
  | Ok _ => call (λ w, (ReadManifest s k (w_bucket w), w))
  end.

Definition Remove (k : string) : M unit := call (λ w, (Ok tt, w <| w_bucket := delete k (w_bucket w) |>)).

Definition ClientProtection : M string :=
  call (λ w, (match Protection versioning with Ok p => Ok p | Err _ => Err Unavailable end, w)).

Definition client : ObjectStore :=
  {| os_ListDatabases := ListDatabases; os_ListBackups := ListBackups; os_Manifest := ClientManifest;
     os_Remove := Remove; os_Protection := ClientProtection |}.

(** Uploading and downloading, for backups and restores. *)
Definition UploadFile (k : string) (size : Z) (sha : string) : M unit :=
  call (λ w, (Ok tt, w <| w_bucket := <[k := mkStored size (Archive sha)]> (w_bucket w) |>)).
Definition UploadManifest (k : string) (size : Z) (m : Manifest) : M unit :=
  call (λ w, (Ok tt, w <| w_bucket := <[k := mkStored size (Document m)]> (w_bucket w) |>)).
Definition DownloadFile (k : string) : M (string * Z) :=
  call (λ w, (match w_bucket w !! k with
              | Some o => Ok (match so_Content o with Archive sha => sha | _ => "" end, so_Size o)
              | None => Err Unavailable
              end, w)).
End client.

(** ** What a caller may rely on

    The part of the interface's contract that retention needs, stated once
    and proved for [client]. *)

(** Nothing but the fault schedule and the clock changed. *)
Definition same (w w' : World) : Prop := w_db w' = w_db w ∧ w_bucket w' = w_bucket w.

(** Time has passed at most: what the clock will show and which calls will
    fail was still to come before. *)
Definition later (w w' : World) : Prop := incl (readings w') (readings w) ∧ w_faults w' `suffix_of` w_faults w.
#[export] Instance later_preorder : PreOrder later.
Proof.
  split; [intros w; split; [apply incl_refl|done]|]. intros w1 w2 w3 [H1 F1] [H2 F2]. split; [exact (incl_tran H2 H1)|by etrans].
Qed.
Definition timely {A} (m : M A) : Prop := ∀ w, later w (m w).2.

Lemma readings_shown w : In (hd 0 (readings w)) (readings w).
Proof. unfold readings. destruct (w_clock w); by left. Qed.
Lemma timely_now : timely now_.
Proof.
  intros w. split; [|done]. intros t. unfold now_, readings. cbn.
  destruct (w_clock w) as [|t1 [|t2 ts]]; cbn; [done|done|]. intros H. by right.
Qed.
Lemma timely_call {A} (f : World → res werror A * World) :
  (∀ w, w_clock (f w).2 = w_clock w ∧ w_faults (f w).2 = w_faults w) → timely (call f).
Proof.
  intros Hf w. unfold later, readings, call.
  destruct (w_faults w) as [|[] os] eqn:E; cbn [snd]; rewrite ?(proj1 (Hf _)), ?(proj2 (Hf _)); cbn; rewrite ?E;
    (split; [apply incl_refl|]); first [done|by apply suffix_cons_r].
Qed.

(** A call still to come will fail. *)
Definition failing (w : World) : Prop := ∃ o, In o (w_faults w) ∧ o ≠ Works.
Lemma failing_later w w' : later w w' → failing w' → failing w.
Proof. intros [_ [used H]] (o & Ho & Hne). exists o. split; [|done]. rewrite H. apply in_or_app. by right. Qed.
Lemma call_fails {A} (f : World → res werror A * World) w e w' : (∀ w, (f w).2 = w) → call f w = (Err e, w') →
  failing w ∨ ∃ w0, w_bucket w0 = w_bucket w ∧ f w0 = (Err e, w0).
Proof.
  intros Hf. unfold call, failing. destruct (w_faults w) as [|[] os] eqn:E.
  - intros H. right. exists w. split; [done|]. pose proof (Hf w) as Hw. rewrite H in Hw |- *. cbn in Hw. by subst.
  - intros H. right. exists (w <| w_faults := os |>). split; [done|]. pose proof (Hf (w <| w_faults := os |>)) as Hw. rewrite H in Hw |- *. cbn in Hw. by subst.
  - intros _. left. exists Fails. split; [by left|done].
  - intros _. left. exists FailsAfter. split; [by left|done].
Qed.

Lemma timely_ret {A} (a : A) : timely (mret a).
Proof. intros w. reflexivity. Qed.
Lemma timely_throw {A} e : timely (throw (A := A) e).
Proof. intros w. reflexivity. Qed.
Lemma timely_lift {A} (r : res werror A) : timely (lift r).
Proof. intros w. reflexivity. Qed.
Lemma timely_bind {A B} (m : M A) (k : A → M B) : timely m → (∀ a, timely (k a)) → timely (m ≫= k).
Proof.
  intros Hm Hk w. specialize (Hm w). unfold mbind, M_bind. destruct (m w) as [[a|e] w1]; [|exact Hm]. etrans; [exact Hm|apply Hk].
Qed.
Lemma timely_attempt {A} (m : M A) : timely m → timely (attempt m).
Proof. intros Hm w. specialize (Hm w). unfold attempt. destruct (m w). exact Hm. Qed.
Lemma timely_ctx_done : timely ctx_done.
Proof. intros w. unfold ctx_done. destruct (w_stops w); (split; [apply incl_refl|done]). Qed.
Lemma timely_db_read {A} (f : DB → A) : timely (db_read f).
Proof. by apply timely_call. Qed.
Lemma timely_db_write f : timely (db_write f).
Proof. by apply timely_call. Qed.
Lemma timely_run {A} (m : M A) w r w' : timely m → m w = (r, w') → later w w'.
Proof. intros H E. specialize (H w). rewrite E in H. exact H. Qed.

Create HintDb timely.
#[export] Hint Resolve timely_now timely_ret timely_throw timely_lift timely_bind timely_attempt timely_ctx_done timely_db_read
  timely_db_write : timely.
#[export] Hint Extern 4 (timely (if ?c then _ else _)) => destruct c : timely.
#[export] Hint Extern 4 (timely (match ?x with _ => _ end)) => destruct x : timely.

Class ObjectStoreLaws (c : ObjectStore) (s : Settings) : Prop := {
  listing_databases w r w' : os_ListDatabases w = (r, w') → same w w';
  listing_backups dbName w r w' : os_ListBackups dbName w = (r, w') →
    same w w' ∧ ∀ es, r = Ok es →
      ValidDatabaseSegment dbName = true ∧
      es = EntriesFrom (backups_root s dbName) (objects_under (backups_root s dbName) (w_bucket w));
  reading_manifest k w r w' : os_Manifest k w = (r, w') →
    same w w' ∧ ∀ m, r = Ok m → ReadManifest s k (w_bucket w) = Ok m;
  manifest_fails k w e w' : os_Manifest k w = (Err e, w') → failing w ∨ is_ok (ReadManifest s k (w_bucket w)) = false;
  removing k w r w' : os_Remove k w = (r, w') →
    w_db w' = w_db w ∧ (w_bucket w' = delete k (w_bucket w) ∨ (w_bucket w' = w_bucket w ∧ is_ok r = false));
  asking_protection w r w' : os_Protection w = (r, w') → same w w';
  manifest_leaves_cluster k w : w_pg (os_Manifest k w).2 = w_pg w;
  store_timely : timely os_ListDatabases ∧ (∀ dbName, timely (os_ListBackups dbName)) ∧ (∀ k, timely (os_Manifest k)) ∧
    (∀ k, timely (os_Remove k)) ∧ timely os_Protection;
}.

(** A transaction that reports success happened; one that fails may still
    have happened.  Nothing else is touched. *)
Class ServerLaws (sv : Server) : Prop := {
  transacting sts w r w' : transact sts w = (r, w') →
    same w w' ∧ (effects sts (w_pg w) = Some (w_pg w') ∨ (w_pg w' = w_pg w ∧ is_ok r = false));
  asking A (q : Cluster → A) w r w' : ask q w = (r, w') →
    same w w' ∧ w_pg w' = w_pg w ∧ ∀ a, r = Ok a → a = q (w_pg w);
  server_timely : (∀ sts, timely (transact sts)) ∧ (∀ A (q : Cluster → A), timely (ask q));
}.

#[export] Instance live_server_laws : ServerLaws live_server.
Proof.
  split.
  - intros sts w r w'. unfold transact, live_server, call.
    assert (∀ u r w', (match effects sts (w_pg u) with
      | Some c => (Ok tt, u <| w_pg := c |>)
      | None => (Err (Message "the statement was rejected"), u) end) = (r, w') →
      same u w' ∧ (effects sts (w_pg u) = Some (w_pg w') ∨ (w_pg w' = w_pg u ∧ is_ok r = false))) as H.
    { intros u r0 w0. destruct (effects sts (w_pg u)) eqn:E; intros [= <- <-]; (split; [by split|]); [by left|by right]. }
    destruct (w_faults w) as [|[] os]; [apply H|..].
    + intros E. apply H in E. exact E.
    + intros [= <- <-]. split; [by split|by right].
    + intros [= <- <-]. destruct (H (w <| w_faults := os |>) _ _ (surjective_pairing _)) as [Hs Hc]. split; [exact Hs|].
      destruct Hc as [Hc|[Hc _]]; [by left|by right].
  - intros A q w r w'. unfold ask, live_server, call. destruct (w_faults w) as [|[] os]; intros [= <- <-]; cbn;
      (split; [done|]); (split; [done|]); by intros ? [= <-].
  - split; [intros sts|intros A q]; apply timely_call; intros w; [by destruct (effects sts (w_pg w))|done].
Qed.

Lemma call_same {A} (f : World → res werror A * World) w r w' :
  (∀ w, (f w).2 = w) → call f w = (r, w') → same w w' ∧ ∀ a, r = Ok a → ∃ w0, same w w0 ∧ f w0 = (Ok a, w0).
Proof.
  intros Hf. unfold call. destruct (w_faults w) as [|[] os].
  - intros E. pose proof (Hf w) as H. rewrite E in H. simpl in H. subst. split; [done|]. intros a ->. by exists w.
  - intros E. pose proof (Hf (w <| w_faults := os |>)) as H. rewrite E in H. simpl in H. subst.
    split; [done|]. intros a ->. by exists (w <| w_faults := os |>).
  - intros [= <- <-]. done.
  - rewrite Hf. intros [= <- <-]. done.
Qed.

#[export] Instance client_laws s v : ObjectStoreLaws (client s v) s.
Proof.
  split.
  - intros w r w' H. apply call_same in H as [H _]; done.
  - intros dbName w r w'. cbn. unfold ListBackups. destruct (ValidDatabaseSegment dbName) eqn:Ev; simpl.
    + intros H. apply call_same in H as [H He]; [|done]. split; [done|]. intros es Hes.
      destruct (He es Hes) as (w0 & [_ Hb] & [= <-]). by rewrite Hb.
    + intros [= <- <-]. done.
  - intros k w r w'. cbn. unfold ClientManifest. destruct (EntryFor s k) eqn:Ee.
    + intros H. apply call_same in H as [H He]; [|done]. split; [done|]. intros m Hm.
      destruct (He m Hm) as (w0 & [_ Hb] & [= <-]). by rewrite Hb.
    + intros [= <- <-]. done.
  - intros k w e w'. cbn. unfold ClientManifest. destruct (EntryFor s k) eqn:Ee.
    + intros H. apply call_fails in H as [?|(w0 & Hb & [= H])]; [by left|right|done]. rewrite <- Hb. by rewrite H.
    + intros _. right. unfold ReadManifest. by rewrite Ee.
  - intros k w r w'. cbn. unfold Remove, call. destruct (w_faults w) as [|[] os]; intros [= <- <-]; cbn; auto.
  - intros w r w' H. apply call_same in H as [H _]; done.
  - intros k w. cbn. unfold ClientManifest. destruct (EntryFor s k); [|done]. unfold call. by destruct (w_faults w) as [|[] os].
  - split_and!; cbn.
    + by apply timely_call.
    + intros dbName. unfold ListBackups. destruct (negb _); [intros w; reflexivity|by apply timely_call].
    + intros k. unfold ClientManifest. destruct (EntryFor s k); [by apply timely_call|intros w; reflexivity].
    + intros k. by apply timely_call.
    + by apply timely_call.
Qed.
