(* ===== verification/Wp.v ===== *)
(** * Reasoning about worker code under faults

    [wp m Q d b p]: whatever the fault schedule, the clock and the
    cancellation answers, a run of [m] from database [d], bucket [b] and
    cluster [p] ends in a result and state that satisfy [Q].  One rule per
    external call turns the three outcomes of a call into proof cases;
    [wp_step] picks the rule. *)

From S2P Require Import Prelude GoStrings GoTime Storage Schema Cluster World.

Definition post (A : Type) : Type := res werror A → DB → bucket → Cluster → Prop.

(** What the surroundings may do: the readings the clock may show and the
    outcomes a call may have; anything, unless a context says more. *)
Class Ambient := { is_time : time → Prop; may : outcome → Prop }.
#[export] Instance any_ambient : Ambient | 100 := {| is_time _ := True; may _ := True |}.
(** The readings of [w]'s own clock, with calls that may all fail. *)
Definition readings_of (w : World) : Ambient := {| is_time t := In t (readings w); may _ := True |}.
(** No call fails. *)
Definition smooth : Ambient := {| is_time _ := True; may o := o = Works |}.
Definition within {am : Ambient} (w : World) : Prop :=
  (∀ t, In t (readings w) → is_time t) ∧ ∀ o, In o (w_faults w) → may o.
Lemma within_later {am : Ambient} w w' : later w w' → within w → within w'.
Proof. intros [H [used F]] [Hw Fw]. split; [auto|]. intros o Ho. apply Fw. rewrite F. apply in_or_app. by right. Qed.

Definition wp {am : Ambient} {A} (m : M A) (Q : post A) (d : DB) (b : bucket) (p : Cluster) : Prop :=
  ∀ w, w_db w = d → w_bucket w = b → w_pg w = p → within w →
    let (r, w') := m w in Q r (w_db w') (w_bucket w') (w_pg w') ∧ within w'.

Lemma wp_run {A} (m : M A) Q w r w' :
  wp m Q (w_db w) (w_bucket w) (w_pg w) → m w = (r, w') → Q r (w_db w') (w_bucket w') (w_pg w').
Proof. intros H E. specialize (H w eq_refl eq_refl eq_refl (conj (λ _ _, I) (λ _ _, I))). rewrite E in H. by destruct H. Qed.
(** A run within the readings of its own clock. *)
Lemma wp_run_timed {A} (m : M A) Q w r w' :
  wp (am := readings_of w) m Q (w_db w) (w_bucket w) (w_pg w) → m w = (r, w') → Q r (w_db w') (w_bucket w') (w_pg w').
Proof. intros H E. specialize (H w eq_refl eq_refl eq_refl (conj (λ _ Ht, Ht) (λ _ _, I))). rewrite E in H. by destruct H. Qed.

(** Where anything may happen, any run will do. *)
Lemma wp_plain {A} (m : M A) (Q : post A) d b p :
  (∀ w, w_db w = d → w_bucket w = b → w_pg w = p → let (r, w') := m w in Q r (w_db w') (w_bucket w') (w_pg w')) → wp m Q d b p.
Proof. intros H w Hd Hb Hp _. specialize (H w Hd Hb Hp). by destruct (m w). Qed.

Section rules.
Context {am : Ambient}.
Implicit Types (d : DB) (b : bucket) (p : Cluster).

(** A call whose effect on the rest of the world is known, and that takes no
    reading of the clock that was not to come. *)
Lemma wp_intro {A} (m : M A) (Q : post A) d b p :
  timely m →
  (∀ w, w_db w = d → w_bucket w = b → w_pg w = p → let (r, w') := m w in Q r (w_db w') (w_bucket w') (w_pg w')) →
  wp m Q d b p.
Proof.
  intros Ht H w Hd Hb Hp Hw. specialize (H w Hd Hb Hp). specialize (Ht w). destruct (m w) as [r w'].
  split; [done|]. by eapply within_later.
Qed.

Lemma wp_mono {A} (m : M A) (Q Q' : post A) d b p :
  wp m Q d b p → (∀ r d b p, Q r d b p → Q' r d b p) → wp m Q' d b p.
Proof. intros H HQ w Hd Hb Hp Hw. specialize (H w Hd Hb Hp Hw). destruct (m w). destruct H. auto. Qed.

Lemma wp_and {A} (m : M A) (Q Q' : post A) d b p :
  wp m Q d b p → wp m Q' d b p → wp m (λ r d b p, Q r d b p ∧ Q' r d b p) d b p.
Proof.
  intros H H' w Hd Hb Hp Hw. specialize (H w Hd Hb Hp Hw). specialize (H' w Hd Hb Hp Hw). destruct (m w). destruct H, H'. auto.
Qed.

Lemma wp_ret {A} (a : A) (Q : post A) d b p : Q (Ok a) d b p → wp (mret a) Q d b p.
Proof. by intros H w <- <- <-. Qed.
Lemma wp_throw {A} e (Q : post A) d b p : Q (Err e) d b p → wp (throw e) Q d b p.
Proof. by intros H w <- <- <-. Qed.
Lemma wp_lift {A} (x : res werror A) (Q : post A) d b p : Q x d b p → wp (lift x) Q d b p.
Proof. by intros H w <- <- <-. Qed.

Lemma wp_bind {A B} (m : M A) (k : A → M B) (Q : post B) d b p :
  wp m (λ r d b p, match r with Ok a => wp (k a) Q d b p | Err e => Q (Err e) d b p end) d b p →
  wp (m ≫= k) Q d b p.
Proof.
  intros H w Hd Hb Hp Hw. specialize (H w Hd Hb Hp Hw). unfold mbind, M_bind. destruct (m w) as [[a|e] w']; [|done].
  destruct H as [H Hw']. by apply H.
Qed.

Lemma wp_attempt {A} (m : M A) (Q : post (res werror A)) d b p :
  wp m (λ r d b p, Q (Ok r) d b p) d b p → wp (attempt m) Q d b p.
Proof. intros H w Hd Hb Hp Hw. specialize (H w Hd Hb Hp Hw). unfold attempt. by destruct (m w). Qed.

Lemma wp_wrap {A} what (m : M A) (Q : post A) d b p :
  wp m (λ r d b p, Q (match r with Ok a => Ok a | Err e => Err (Wrapped what e) end) d b p) d b p → wp (wrap what m) Q d b p.
Proof. intros H w Hd Hb Hp Hw. specialize (H w Hd Hb Hp Hw). unfold wrap. by destruct (m w) as [[]]. Qed.

Lemma wp_now_timed (Q : post time) d b p : (∀ t, is_time t → Q (Ok t) d b p) → wp now_ Q d b p.
Proof.
  intros H w <- <- <- Hw. unfold now_. split; [apply H, (proj1 Hw), readings_shown|].
  exact (within_later _ _ (timely_now w) Hw).
Qed.
Lemma wp_now (Q : post time) d b p : (∀ t, Q (Ok t) d b p) → wp now_ Q d b p.
Proof. intros H. apply wp_now_timed. auto. Qed.
Lemma wp_ctx_done (Q : post bool) d b p : (∀ x, Q (Ok x) d b p) → wp ctx_done Q d b p.
Proof. intros H w <- <- <- Hw. unfold ctx_done. destruct (w_stops w); (split; [apply H|exact Hw]). Qed.

(** A call that does not fail. *)
Lemma wp_works {A} (f : World → res werror A * World) (Q : post A) d b p :
  (∀ o, may o → o = Works) → (∀ w, w_clock (f w).2 = w_clock w ∧ w_faults (f w).2 = w_faults w) →
  (∀ w, w_db w = d → w_bucket w = b → w_pg w = p → let (r, w') := f w in Q r (w_db w') (w_bucket w') (w_pg w')) →
  wp (call f) Q d b p.
Proof.
  intros Hm Hf H w Hd Hb Hp Hw. pose proof (within_later _ _ (timely_call f Hf w) Hw) as Hw'.
  assert (∃ u, w_db u = d ∧ w_bucket u = b ∧ w_pg u = p ∧ call f w = f u) as (u & Hd' & Hb' & Hp' & E).
  { unfold call. destruct (w_faults w) as [|o os] eqn:E; [by exists w|].
    rewrite (Hm o) by (apply (proj2 Hw); rewrite E; by left). by exists (w <| w_faults := os |>). }
  rewrite E in *. specialize (H u Hd' Hb' Hp'). destruct (f u). by split.
Qed.

(** A call that only reads. *)
Lemma wp_call_read {A} (f : DB → bucket → Cluster → res werror A) (Q : post A) d b p :
  Q (f d b p) d b p → (∀ e, Q (Err e) d b p) → wp (call (λ w, (f (w_db w) (w_bucket w) (w_pg w), w))) Q d b p.
Proof.
  intros H He. apply wp_intro; [by apply timely_call|]. intros w <- <- <-.
  unfold call. destruct (w_faults w) as [|[] os]; [apply H|apply H|apply He|apply He].
Qed.

Lemma wp_db_read {A} (f : DB → A) (Q : post A) d b p :
  Q (Ok (f d)) d b p → (∀ e, Q (Err e) d b p) → wp (db_read f) Q d b p.
Proof. apply (wp_call_read (λ d _ _, Ok (f d))). Qed.
Lemma wp_db_get {A} (f : DB → res store_error A) (Q : post A) d b p :
  (∀ a, f d = Ok a → Q (Ok a) d b p) → (∀ e, Q (Err e) d b p) → wp (db_get f) Q d b p.
Proof.
  intros H He. apply (wp_call_read (λ d _ _, match f d with Ok a => Ok a | Err e => Err (StoreError e) end)); [|done].
  destruct (f d); [by apply H|apply He].
Qed.

(** A call that writes one part of the world: on failure the write may or may
    not have happened. *)
Lemma wp_db_tx {A} (f : DB → res store_error A * DB) (Q : post A) d b p :
  (∀ a d', f d = (Ok a, d') → Q (Ok a) d' b p) → (∀ e d', d' = d ∨ d' = (f d).2 → Q (Err e) d' b p) →
  wp (db_tx f) Q d b p.
Proof.
  intros H He. apply wp_intro; [apply timely_call; intros w; by destruct (f (w_db w))|]. intros w <- <- <-. unfold db_tx, call.
  assert (∀ u, w_db u = w_db w → w_bucket u = w_bucket w → w_pg u = w_pg w →
    let (r, w') := (let (r, db') := f (w_db u) in
      (match r with Ok a => Ok a | Err e => Err (StoreError e) end, u <| w_db := db' |>)) in
    Q r (w_db w') (w_bucket w') (w_pg w')) as Hf.
  { intros u Hd Hb Hp. rewrite Hd. destruct (f (w_db w)) as [[a|e] d'] eqn:E; cbn; rewrite Hb, Hp; [by apply H|].
    apply He. by right. }
  destruct (w_faults w) as [|[] os].
  - by apply Hf.
  - by apply Hf.
  - apply He. by left.
  - cbn. destruct (f (w_db w)) as [x d'] eqn:E. cbn. apply He. right. done.
Qed.
Lemma wp_db_write (f : DB → DB) (Q : post unit) d b p :
  Q (Ok tt) (f d) b p → (∀ e d', d' = d ∨ d' = f d → Q (Err e) d' b p) → wp (db_write f) Q d b p.
Proof.
  intros H He. apply (wp_db_tx (λ d, (Ok tt, f d))); [by intros a d' [= <- <-]|exact He].
Qed.

Lemma wp_transact {sv : Server} {laws : ServerLaws sv} sts (Q : post unit) d b p :
  (∀ p', effects sts p = Some p' → Q (Ok tt) d b p') →
  (∀ e p', p' = p ∨ effects sts p = Some p' → Q (Err e) d b p') → wp (transact sts) Q d b p.
Proof.
  intros H He. apply wp_intro; [apply server_timely|]. intros w <- <- <-.
  destruct (transact sts w) as [[[]|e] w'] eqn:E; apply transacting in E as [[-> ->] Hp].
  - destruct Hp as [Hp|[_ ?]]; [by apply H|done].
  - apply He. destruct Hp as [Hp|[Hp _]]; auto.
Qed.
Lemma wp_exec {sv : Server} {laws : ServerLaws sv} st (Q : post unit) d b p :
  (∀ p', effect st p = Some p' → Q (Ok tt) d b p') →
  (∀ e p', p' = p ∨ effect st p = Some p' → Q (Err e) d b p') → wp (exec st) Q d b p.
Proof.
  intros H He. assert (effects [st] p = effect st p) as Hs by (simpl; by destruct (effect st p)).
  apply wp_transact; rewrite Hs; auto.
Qed.
Lemma wp_ask {sv : Server} {laws : ServerLaws sv} {A} (q : Cluster → A) (Q : post A) d b p :
  Q (Ok (q p)) d b p → (∀ e, Q (Err e) d b p) → wp (ask q) Q d b p.
Proof.
  intros H He. apply wp_intro; [apply server_timely|]. intros w <- <- <-. destruct (ask q w) as [[a|e] w'] eqn:E; apply asking in E as ([-> ->] & -> & Ha); [|auto].
  by rewrite (Ha a eq_refl).
Qed.

(** A loop keeps an invariant; when it ends without an error every element ran. *)
Lemma wp_for_each {A} (f : A → M unit) (I : DB → bucket → Cluster → Prop) l d b p :
  I d b p → (∀ x d b p, In x l → I d b p → wp (f x) (λ _, I) d b p) → wp (for_each f l) (λ _, I) d b p.
Proof.
  revert d b p. induction l as [|x l IH]; intros d b p HI Hf; simpl; [by apply wp_ret|].
  apply wp_bind. eapply wp_mono; [by apply Hf; [left|]|]. intros [[]|e] d' b' p' HI'; cbn; [|done].
  apply IH; [done|]. intros. apply Hf; [by right|done].
Qed.
End rules.

(** [wp_step] applies the rule for the next call. *)
Ltac wp_call :=
  lazymatch goal with
  | |- wp (mret _) _ _ _ _ => apply wp_ret
  | |- wp (throw _) _ _ _ _ => apply wp_throw
  | |- wp (lift _) _ _ _ _ => apply wp_lift
  | |- wp now_ _ _ _ _ => apply wp_now; intros ?
  | |- wp ctx_done _ _ _ _ => apply wp_ctx_done; intros ?
  | |- wp (db_read _) _ _ _ _ => apply wp_db_read; [|intros ?]
  | |- wp (db_get _) _ _ _ _ => apply wp_db_get; [intros ? ?|intros ?]
  | |- wp (db_write _) _ _ _ _ => apply wp_db_write; [|intros ? ? ?]
  | |- wp (db_tx _) _ _ _ _ => apply wp_db_tx; [intros ? ? ?|intros ? ? ?]
  | |- wp (exec _) _ _ _ _ => apply wp_exec; [intros ? ?|intros ? ? ?]
  | |- wp (transact _) _ _ _ _ => apply wp_transact; [intros ? ?|intros ? ? ?]
  | |- wp (ask _) _ _ _ _ => apply wp_ask; [|intros ?]
  | |- wp (attempt _) _ _ _ _ => apply wp_attempt
  | |- wp (wrap _ _) _ _ _ _ => apply wp_wrap
  | |- wp (_ ≫= _) _ _ _ _ => apply wp_bind
  end.
Ltac wp_step := wp_call; cbn beta iota.

(** ** What a computation may do to the management database

    [respects R m]: whatever happens, the database after [m] is related by
    [R] to the one before. *)

Definition respects {A} (R : DB → DB → Prop) (m : M A) : Prop := ∀ d b p, wp m (λ _ d' _ _, R d d') d b p.

Create HintDb respects discriminated.
#[export] Hint Constants Opaque : respects.

Section respects.
Context (R : DB → DB → Prop) `{!PreOrder R}.

Lemma respects_ret {A} (a : A) : respects R (mret a).
Proof. intros d b p. apply wp_ret. reflexivity. Qed.
Lemma respects_throw {A} e : respects R (throw e : M A).
Proof. intros d b p. apply wp_throw. reflexivity. Qed.
Lemma respects_lift {A} (x : res werror A) : respects R (lift x).
Proof. intros d b p. apply wp_lift. reflexivity. Qed.
Lemma respects_bind {A B} (m : M A) (k : A → M B) : respects R m → (∀ a, respects R (k a)) → respects R (m ≫= k).
Proof.
  intros Hm Hk d b p. apply wp_bind. eapply wp_mono; [apply Hm|]. intros [a|e] d1 b1 p1 H1; [|done].
  eapply wp_mono; [apply Hk|]. intros r d2 b2 p2 H2. cbn in *. by transitivity d1.
Qed.
Lemma respects_attempt {A} (m : M A) : respects R m → respects R (attempt m).
Proof. intros Hm d b p. apply wp_attempt. apply Hm. Qed.
Lemma respects_wrap {A} what (m : M A) : respects R m → respects R (wrap what m).
Proof. intros Hm d b p. apply wp_wrap. apply Hm. Qed.
Lemma respects_now : respects R now_.
Proof. intros d b p. apply wp_now. reflexivity. Qed.
Lemma respects_ctx_done : respects R ctx_done.
Proof. intros d b p. apply wp_ctx_done. reflexivity. Qed.
Lemma respects_db_read {A} (f : DB → A) : respects R (db_read f).
Proof. intros d b p. apply wp_db_read; reflexivity. Qed.
Lemma respects_db_get {A} (f : DB → res store_error A) : respects R (db_get f).
Proof. intros d b p. apply wp_db_get; reflexivity. Qed.
Lemma respects_db_write (f : DB → DB) : (∀ d, R d (f d)) → respects R (db_write f).
Proof. intros Hf d b p. apply wp_db_write; [apply Hf|]. intros e d' [->| ->]; [reflexivity|apply Hf]. Qed.
Lemma respects_db_tx {A} (f : DB → res store_error A * DB) : (∀ d, R d (f d).2) → respects R (db_tx f).
Proof.
  intros Hf d b p. apply wp_db_tx; [|intros e d' [->| ->]; [reflexivity|apply Hf]].
  intros a d' E. specialize (Hf d). by rewrite E in Hf.
Qed.
Lemma respects_for_each {A} (f : A → M unit) l : (∀ x, respects R (f x)) → respects R (for_each f l).
Proof.
  intros Hf. induction l as [|x l IH]; simpl; [apply respects_ret|]. apply respects_bind; [apply Hf|auto].
Qed.
(** A call of another component that leaves the database alone. *)
Lemma respects_same {A} (m : M A) : (∀ w r w', m w = (r, w') → w_db w' = w_db w) → respects R m.
Proof.
  intros Hm d b p w <- <- <- _. destruct (m w) as [r w'] eqn:E. rewrite (Hm _ _ _ E). by split.
Qed.
End respects.
#[export] Hint Resolve respects_ret respects_throw respects_lift respects_bind respects_attempt respects_wrap
  respects_now respects_ctx_done respects_db_read respects_db_get respects_db_write respects_db_tx respects_for_each : respects.
#[export] Hint Extern 4 (respects _ (if ?c then _ else _)) => destruct c : respects.
#[export] Hint Extern 4 (respects _ (match ?x with _ => _ end)) => destruct x : respects.
