(* ===== verification/Reconcile.v ===== *)
(** * Reconciliation and retention against the bucket
    ([internal/jobs/retention.go])

    The worker's functions in the fault monad of [World], over any
    [ObjectStore].  [error_text] is the [Error()] text of a failed call,
    which is only stored and shown. *)

From S2P Require Import Prelude GoStrings GoTime Storage Schema Cluster JobStore ProjectStore BackupStore Retention World Wp.

Section worker.
Context (c : ObjectStore) (InstallationID : string) (error_text : werror → string).

(** ** Deleting *)

Definition finishDelete (target : string) (b : BucketBackup) : M unit :=
  os_Remove (bb_ArchiveKey b) ≫= λ _,
  db_write (ForgetBucketBackup target (bb_ManifestKey b)) ≫= λ _,
  db_write (DeleteLocalBackupRow target (bb_ManifestKey b)).

Definition manifest_entry (b : BucketBackup) : Entry :=
  mkEntry (trim_suffix (bb_ManifestKey b) ("/" +:+ ManifestFile)) (bb_ManifestKey b) (bb_ArchiveKey b) zero_time "" 0.

Definition deleteBackup (target : string) (b : BucketBackup) : M unit :=
  os_Manifest (bb_ManifestKey b) ≫= λ m,
  if negb (is_ok (CheckManifest m (manifest_entry b))) || negb (bool_decide (m_InstallationID m = InstallationID)) ||
     negb (bool_decide (m_ProjectID m = bb_ProjectID b))
  then
    db_write (ForgetBucketBackup target (bb_ManifestKey b)) ≫= λ _,
    throw (Message ("backup " +:+ e_Directory (manifest_entry b) +:+ " changed since it was recorded; it will be read again"))
  else
    now_ ≫= λ t,
    db_write (MarkBackupDeleting target (bb_ManifestKey b) t) ≫= λ _,
    os_Remove (bb_ManifestKey b) ≫= λ _,
    db_write (MarkBackupArchiveOnly target (bb_ManifestKey b)) ≫= λ _,
    finishDelete target b.

Definition half_deleted (b : BucketBackup) : bool :=
  bool_decide (bb_State b = StateArchiveOnly) && (0 <? bb_DeleteStartedAt b).

(** [b.ManifestKey[:len(b.ManifestKey)-len("/"+storage.ManifestFile)]] *)
Definition directory_of (b : BucketBackup) : string :=
  stake (slen (bb_ManifestKey b) - slen ("/" +:+ ManifestFile)) (bb_ManifestKey b).

Definition clean_one (target : string) (cutoff : time) (b : BucketBackup) : M unit :=
  if negb (bool_decide (bb_State b = StateArchiveOnly)) || (0 <? bb_DeleteStartedAt b) || (cutoff <? taken b)
  then mret tt
  else
    db_read (AbandonedUploadKey target (directory_of b) cutoff) ≫= λ ours,
    if (ours : bool) then
      os_Remove (bb_ArchiveKey b) ≫= λ _, db_write (ForgetBucketBackup target (bb_ManifestKey b))
    else mret tt.

Definition cleanAbandonedUploads (target : string) (backups : list BucketBackup) : M unit :=
  now_ ≫= λ t, for_each (clean_one target (t - 24 * Hour)) backups.

Definition retainDatabase (target dbName : string) (policy : BackupPolicy) : M unit :=
  db_read (PrefixBackups target dbName) ≫= λ backups,
  for_each (λ b, if half_deleted b then finishDelete target b else mret tt) backups ≫= λ _,
  if negb (bool_decide (blockedByForeignContent backups InstallationID = "")) then mret tt
  else
    now_ ≫= λ t,
    for_each (deleteBackup target) (selectExpired backups policy t) ≫= λ _,
    cleanAbandonedUploads target backups.

(** ** Retention over every folder *)

Definition default_policy : BackupPolicy := mkBackupPolicy 24 14 8 (-1) 0.
Definition Policy : M BackupPolicy :=
  attempt (db_read ReadBackupPolicy) ≫= λ r,
  mret (match r with Ok p => p | Err _ => default_policy end).

Definition retain (settings : Settings) (databases : list string) : M unit :=
  attempt os_Protection ≫= λ r,
  match r with
  | Err _ => mret tt
  | Ok protection =>
      if bool_decide (protection = VersioningDisabled) then mret tt
      else if bool_decide (protection = VersioningUnsupported) &&
              negb (bool_decide (s_BucketProtection settings = ProtectionAcknowledged)) then mret tt
      else
        Policy ≫= λ policy,
        for_each (λ dbName, attempt (retainDatabase (Target settings) dbName policy) ≫= λ _, mret tt) databases
  end.

Definition pruneHistory : M unit :=
  now_ ≫= λ t,
  attempt (db_tx (λ db, let (n, db') := PruneJobs (t - 90 * 24 * Hour) db in (Ok n, db'))) ≫= λ _, mret tt.

(** ** Reading one folder *)

(** A manifest that cannot be read, or does not fit its place, makes the
    backup damaged. *)
Definition read_entry (b : BucketBackup) (entry : Entry) : M BucketBackup :=
  attempt (os_Manifest (e_ManifestKey entry)) ≫= λ r,
  mret (match r with
        | Ok m =>
            if is_ok (CheckManifest m entry) then
              b <| bb_InstallationID := m_InstallationID m |> <| bb_ProjectID := m_ProjectID m |>
                <| bb_ProjectName := m_ProjectName m |> <| bb_PostgresVersion := m_PostgresVersion m |>
                <| bb_TableCount := Z.of_nat (length (m_Tables m)) |>
            else b <| bb_State := StateDamaged |>
        | Err _ => b <| bb_State := StateDamaged |>
        end).

Definition listed_backup (dbName : string) (entry : Entry) : BucketBackup :=
  mkBucketBackup "" (e_ManifestKey entry) (e_ArchiveKey entry) dbName (unix (e_TakenAt entry)) (e_State entry)
    "" "" "" "" 0 (e_SizeBytes entry) 0 0.

(** What a listed entry is recorded as: what its manifest said when it was
    first read is carried over, a manifest not seen before is read. *)
Definition record_entry (dbName : string) (recorded : list BucketBackup) (entry : Entry) : M BucketBackup :=
  let b := listed_backup dbName entry in
  if bool_decide (e_State entry = StateComplete) || bool_decide (e_State entry = StateManifestOnly) then
    match sql_find (λ r, bool_decide (bb_ManifestKey r = e_ManifestKey entry)) recorded with
    | Some previous =>
        if negb (bool_decide (bb_InstallationID previous = "")) then
          mret (b <| bb_InstallationID := bb_InstallationID previous |> <| bb_ProjectID := bb_ProjectID previous |>
                  <| bb_ProjectName := bb_ProjectName previous |> <| bb_PostgresVersion := bb_PostgresVersion previous |>
                  <| bb_TableCount := bb_TableCount previous |>)
        else read_entry b entry
    | None => read_entry b entry
    end
  else mret b.

Fixpoint record_entries (dbName : string) (recorded : list BucketBackup) (entries : list Entry) : M (list BucketBackup) :=
  match entries with
  | [] => mret []
  | e :: es =>
      record_entry dbName recorded e ≫= λ b,
      record_entries dbName recorded es ≫= λ bs, mret (b :: bs)
  end.

Definition count_state (s : string) (backups : list BucketBackup) : Z :=
  sql_count (λ b, bool_decide (bb_State b = s)) backups.
(** The [default] branch of the switch. *)
Definition count_damaged (backups : list BucketBackup) : Z :=
  sql_count (λ b, negb (bool_decide (bb_State b = StateComplete) || bool_decide (bb_State b = StateManifestOnly) ||
                        bool_decide (bb_State b = StateArchiveOnly))) backups.
Definition owners (backups : list BucketBackup) : list string :=
  remove_dups (map (λ b, bb_InstallationID b +:+ "|" +:+ bb_ProjectID b) (List.filter is_complete backups)).

Definition reconcilePrefix (target dbName : string) : M unit :=
  os_ListBackups dbName ≫= λ entries,
  db_read (PrefixBackups target dbName) ≫= λ recorded,
  record_entries dbName recorded entries ≫= λ backups,
  let state := mkPrefixState target dbName 0 (count_state StateComplete backups) (count_state StateManifestOnly backups)
    (count_state StateArchiveOnly backups) (count_damaged backups) (1 <? length (owners backups))%nat in
  now_ ≫= λ t,
  db_write (ReplacePrefix target state backups t).

(** ** The whole pass *)

Definition WriteTargetReconciled (target : string) (at' : time) (lastError : string) : M unit :=
  db_write (note_target target) ≫= λ _,
  db_write (λ db, db <| db_targets := sql_update (target_is target)
    (λ s, if negb (bool_decide (lastError = "")) then s <| st_LastError := lastError |>
          else s <| st_ReconciledAt := unix at' |> <| st_LastError := "" |>) (db_targets db) |>).

Definition WriteTombstones (target : string) (present : list string) (now : time) : M unit :=
  db_read (λ db, List.filter (λ n, negb (bool_decide (n ∈ present)))
    (map px_DBName (sql_select (λ p, bool_decide (px_Target p = target)) (db_prefixes db)))) ≫= λ gone,
  for_each (λ n, db_write (ReplacePrefix target (empty_prefix n) [] now)) gone.

(** Every folder is tried; the last failure is remembered. *)
Fixpoint reconcile_all (target : string) (databases : list string) (failure : option werror) : M (option werror) :=
  match databases with
  | [] => mret failure
  | name :: rest =>
      attempt (reconcilePrefix target name) ≫= λ r,
      reconcile_all target rest (match r with Ok _ => failure | Err e => Some e end)
  end.

Definition reconcile (settings : Settings) : M unit :=
  let target := Target settings in
  db_write (ActivateStorageTarget
    (mkStorageTarget target (s_Endpoint settings) (s_Bucket settings) (s_Prefix settings) false 0 "")) ≫= λ _,
  attempt os_ListDatabases ≫= λ r,
  match r with
  | Err e =>
      now_ ≫= λ t, attempt (WriteTargetReconciled target t (error_text e)) ≫= λ _, throw e
  | Ok databases =>
      now_ ≫= λ t,
      WriteTombstones target databases t ≫= λ _,
      reconcile_all target databases None ≫= λ failure,
      match failure with
      | Some e => now_ ≫= λ t, attempt (WriteTargetReconciled target t (error_text e)) ≫= λ _, throw e
      | None =>
          now_ ≫= λ t,
          WriteTargetReconciled target t "" ≫= λ _,
          attempt (db_tx (λ db, let (n, db') := ForgetLostLocalBackups target db in (Ok n, db'))) ≫= λ _,
          attempt (db_read maintenance) ≫= λ on,
          match on with
          | Ok false => retain settings databases ≫= λ _, pruneHistory
          | _ => mret tt
          end
      end
  end.
End worker.

(** ** Reasoning about runs *)

(** [R] relates the world before and after every run of [m]. *)
Definition always {A} (m : M A) (R : World → World → Prop) : Prop := ∀ w, R w (m w).2.

Section always.
Context (R : World → World → Prop) `{!Reflexive R, !Transitive R}.

Lemma always_ret {A} (a : A) : always (mret a) R.
Proof. intros w. apply reflexivity. Qed.
Lemma always_throw {A} e : always (throw e : M A) R.
Proof. intros w. apply reflexivity. Qed.
Lemma always_bind {A B} (m : M A) (k : A → M B) : always m R → (∀ a, always (k a) R) → always (m ≫= k) R.
Proof.
  intros Hm Hk w. unfold mbind, M_bind. specialize (Hm w). destruct (m w) as [[a|e] w']; simpl in *; [|done].
  etrans; [exact Hm|apply Hk].
Qed.
Lemma always_attempt {A} (m : M A) : always m R → always (attempt m) R.
Proof. intros Hm w. unfold attempt. specialize (Hm w). by destruct (m w). Qed.
Lemma always_for_each {A} (f : A → M unit) l : (∀ x, In x l → always (f x) R) → always (for_each f l) R.
Proof.
  induction l as [|x l IH]; intros Hf; simpl; [apply always_ret|].
  apply always_bind; [apply Hf; by left|]. intros _. apply IH. intros; apply Hf; by right.
Qed.
End always.

Lemma bind_inv {A B} (m : M A) (k : A → M B) w r w' :
  (m ≫= k) w = (r, w') →
  (∃ a w1, m w = (Ok a, w1) ∧ k a w1 = (r, w')) ∨ (∃ e, m w = (Err e, w') ∧ r = Err e).
Proof.
  unfold mbind, M_bind. destruct (m w) as [[a|e] w1]; [left; eauto|]. intros [= <- <-]. right. eauto.
Qed.

(** The bucket and the job history. *)
Definition jobs_of (w : World) : list Job := db_jobs (w_db w).

Lemma db_write_inv f w r w' : db_write f w = (r, w') →
  w_bucket w' = w_bucket w ∧ (w_db w' = f (w_db w) ∨ (w_db w' = w_db w ∧ is_ok r = false)).
Proof. unfold db_write, call. destruct (w_faults w) as [|[] os]; intros [= <- <-]; cbn; auto. Qed.

Lemma db_read_inv {A} (f : DB → A) w r w' : db_read f w = (r, w') → same w w' ∧ ∀ a, r = Ok a → a = f (w_db w).
Proof.
  intros H. apply call_same in H as [H He]; [|done]. split; [done|]. intros a Ha.
  destruct (He a Ha) as (w0 & [Hd _] & [= <-]). by rewrite Hd.
Qed.

Lemma now_inv w r w' : now_ w = (r, w') → same w w'.
Proof. by intros [= <- <-]. Qed.

Section effects.
Context {c : ObjectStore} {s : Settings} `{!ObjectStoreLaws c s} (InstallationID : string) (error_text : werror → string).

Lemma finishDelete_effect target b w r w' :
  finishDelete c target b w = (r, w') →
  jobs_of w' = jobs_of w ∧
  (w_bucket w' = delete (bb_ArchiveKey b) (w_bucket w) ∨ (w_bucket w' = w_bucket w ∧ is_ok r = false)).
Proof.
  unfold finishDelete, jobs_of. intros [(u & w1 & E1 & H)|(e & E1 & ->)]%bind_inv.
  - apply removing in E1 as [D1 B1]. destruct B1 as [B1|[_ ?]]; [|done].
    apply bind_inv in H as [(u2 & w2 & E2 & H)|(e & E2 & ->)].
    + apply db_write_inv in E2 as [B2 D2]. apply db_write_inv in H as [B3 D3]. split; [|left; congruence].
      destruct D3 as [->|[-> _]], D2 as [->|[-> _]]; cbn; by rewrite D1.
    + apply db_write_inv in E2 as [B2 D2]. split; [|left; congruence]. destruct D2 as [->|[-> _]]; cbn; by rewrite D1.
  - apply removing in E1 as [-> B1]. split; [done|]. destruct B1 as [->|[-> _]]; auto.
Qed.

(** The manifest of [b], read now, says that this installation wrote it for
    the project the cache names. *)
Definition ours (bk : bucket) (b : BucketBackup) : Prop :=
  ∃ m, ReadManifest s (bb_ManifestKey b) bk = Ok m ∧ CheckManifest m (manifest_entry b) = Ok tt ∧
    m_InstallationID m = InstallationID ∧ m_ProjectID m = bb_ProjectID b.

Lemma deleteBackup_effect target b w r w' :
  deleteBackup c InstallationID target b w = (r, w') →
  jobs_of w' = jobs_of w ∧
  ((w_bucket w' = w_bucket w ∧ is_ok r = false) ∨
   (ours (w_bucket w) b ∧
    ((w_bucket w' = delete (bb_ManifestKey b) (w_bucket w) ∧ is_ok r = false) ∨
     w_bucket w' = delete (bb_ArchiveKey b) (delete (bb_ManifestKey b) (w_bucket w))))).
Proof.
  unfold deleteBackup, jobs_of. intros [(m & w1 & E1 & H)|(e & E1 & ->)]%bind_inv.
  2:{ apply reading_manifest in E1 as [[-> ->] _]. auto. }
  apply reading_manifest in E1 as [[D1 B1] Hm]. specialize (Hm m eq_refl).
  destruct (_ || _) eqn:Ec in H.
  { apply bind_inv in H as [(u & w2 & E2 & [= <- <-])|(e & E2 & ->)]; apply db_write_inv in E2 as [B2 D2];
      (split; [destruct D2 as [->|[-> _]]; cbn; by rewrite D1|left; split; [congruence|done]]). }
  apply orb_false_iff in Ec as [Ec Ep]. apply orb_false_iff in Ec as [Ec Ei]. bool_simpl.
  assert (ours (w_bucket w) b) as Hours.
  { exists m. split; [done|]. split; [|done]. destruct (CheckManifest m (manifest_entry b)) as [[]|]; done. }
  apply bind_inv in H as [(t & w2 & E2 & H)|(e & E2 & ->)]; apply now_inv in E2 as [D2 B2].
  2:{ split; [congruence|]. left. split; [congruence|done]. }
  apply bind_inv in H as [(u & w3 & E3 & H)|(e & E3 & ->)]; apply db_write_inv in E3 as [B3 D3].
  2:{ split; [destruct D3 as [->|[-> _]]; cbn; congruence|]. left. split; [congruence|done]. }
  assert (jobs_of w3 = jobs_of w) as J3 by (unfold jobs_of; destruct D3 as [->|[-> _]]; cbn; congruence).
  unfold jobs_of in J3.
  apply bind_inv in H as [(u' & w4 & E4 & H)|(e & E4 & ->)]; apply removing in E4 as [D4 B4].
  2:{ split; [congruence|]. destruct B4 as [B4|[B4 _]]; [right; split; [done|left]; split; [congruence|done]|].
      left. split; [congruence|done]. }
  destruct B4 as [B4|[_ ?]]; [|done].
  apply bind_inv in H as [(u'' & w5 & E5 & H)|(e & E5 & ->)]; apply db_write_inv in E5 as [B5 D5].
  2:{ split; [destruct D5 as [->|[-> _]]; cbn; congruence|]. right. split; [done|]. left. split; [congruence|done]. }
  assert (jobs_of w5 = jobs_of w) as J5 by (unfold jobs_of; destruct D5 as [->|[-> _]]; cbn; congruence).
  apply finishDelete_effect in H as [J6 B6]. split; [unfold jobs_of in *; congruence|]. right. split; [done|].
  assert (w_bucket w5 = delete (bb_ManifestKey b) (w_bucket w)) as Eb by congruence. rewrite Eb in B6.
  destruct B6 as [B6|[B6 ?]]; [by right|by left].
Qed.

Lemma clean_one_effect target cutoff b w r w' :
  clean_one c target cutoff b w = (r, w') →
  jobs_of w' = jobs_of w ∧
  (w_bucket w' = w_bucket w ∨
   (bb_State b = StateArchiveOnly ∧ bb_DeleteStartedAt b ≤ 0 ∧ taken b ≤ cutoff ∧
    AbandonedUploadKey target (directory_of b) cutoff (w_db w) = true ∧
    w_bucket w' = delete (bb_ArchiveKey b) (w_bucket w))).
Proof.
  unfold clean_one, jobs_of. destruct (_ || _) eqn:Ec; [by intros [= <- <-]; auto|].
  apply orb_false_iff in Ec as [Ec Et]. apply orb_false_iff in Ec as [Es Em]. bool_simpl.
  intros [(o & w1 & E1 & H)|(e & E1 & ->)]%bind_inv; apply db_read_inv in E1 as [[D1 B1] Ho].
  2:{ split; [congruence|]. left. congruence. }
  specialize (Ho o eq_refl). destruct o; [|injection H as <- <-; split; [congruence|left; congruence]].
  apply bind_inv in H as [(u & w2 & E2 & H)|(e & E2 & ->)]; apply removing in E2 as [D2 B2].
  - destruct B2 as [B2|[_ ?]]; [|done]. apply db_write_inv in H as [B3 D3].
    split; [destruct D3 as [->|[-> _]]; cbn; congruence|]. right. repeat split; try done; try congruence.
  - split; [congruence|]. destruct B2 as [B2|[B2 _]]; [right|left; congruence]. repeat split; try done; congruence.
Qed.

(** None of these takes a reading of the clock that was not to come. *)
Lemma timely_store : (∀ k, timely (os_Manifest k)) ∧ ∀ k, timely (os_Remove k).
Proof using ObjectStoreLaws0. by destruct (store_timely (c := c) (s := s)) as (_ & _ & ? & ? & _). Qed.
Lemma timely_finishDelete target b : timely (finishDelete c target b).
Proof using ObjectStoreLaws0. destruct timely_store. unfold finishDelete. auto 8 with timely. Qed.
Lemma timely_deleteBackup target b : timely (deleteBackup c InstallationID target b).
Proof using ObjectStoreLaws0.
  destruct timely_store. pose proof timely_finishDelete. unfold deleteBackup. auto 12 with timely.
Qed.
Lemma timely_clean_one target cutoff b : timely (clean_one c target cutoff b).
Proof using ObjectStoreLaws0. destruct timely_store. unfold clean_one. auto 8 with timely. Qed.

(** *** Why an object may go *)

Inductive justified (target dbName : string) (policy : BackupPolicy) (w : World) (k : string) : Prop :=
| just_expired b t :
    In t (readings w) → blockedByForeignContent (PrefixBackups target dbName (w_db w)) InstallationID = "" →
    In b (selectExpired (PrefixBackups target dbName (w_db w)) policy t) →
    ours (w_bucket w) b → k = bb_ManifestKey b ∨ k = bb_ArchiveKey b →
    justified target dbName policy w k
| just_half_deleted b :
    In b (PrefixBackups target dbName (w_db w)) → bb_State b = StateArchiveOnly → 0 < bb_DeleteStartedAt b →
    k = bb_ArchiveKey b → justified target dbName policy w k
| just_abandoned b t :
    In t (readings w) → blockedByForeignContent (PrefixBackups target dbName (w_db w)) InstallationID = "" →
    In b (PrefixBackups target dbName (w_db w)) → bb_State b = StateArchiveOnly → taken b ≤ t - 24 * Hour →
    AbandonedUploadKey target (directory_of b) (t - 24 * Hour) (w_db w) = true →
    k = bb_ArchiveKey b → justified target dbName policy w k.

(** What holds at every point of a run that began in [w0]. *)
Definition only_justified (J : string → Prop) (w0 w : World) : Prop :=
  jobs_of w = jobs_of w0 ∧ ∀ k, w_bucket w !! k = w_bucket w0 !! k ∨ (w_bucket w !! k = None ∧ J k).

Lemma only_justified_delete J w0 w w' k :
  only_justified J w0 w → jobs_of w' = jobs_of w → w_bucket w' = delete k (w_bucket w) → J k → only_justified J w0 w'.
Proof.
  intros [Hj Hb] Hj' Hb' Hk. split; [congruence|]. intros k'. rewrite Hb'. destruct (decide (k = k')) as [<-|Hne].
  - right. by rewrite lookup_delete_eq.
  - rewrite lookup_delete_ne by done. apply Hb.
Qed.

Lemma only_justified_same J w0 w w' :
  only_justified J w0 w → jobs_of w' = jobs_of w → w_bucket w' = w_bucket w → only_justified J w0 w'.
Proof. intros [Hj Hb] Hj' Hb'. split; [congruence|]. by rewrite Hb'. Qed.

(** Ownership seen in a later world was there from the start. *)
Lemma ours_earlier J w0 w b : only_justified J w0 w → ours (w_bucket w) b → ours (w_bucket w0) b.
Proof.
  intros [_ Hb] (m & Hr & Hrest). exists m. split; [|done]. revert Hr. unfold ReadManifest.
  destruct (EntryFor s (bb_ManifestKey b)); [|done].
  destruct (Hb (bb_ManifestKey b)) as [->|[-> _]]; [done|discriminate].
Qed.

Lemma retainDatabase_steps target dbName policy (I : World → Prop) w r w' :
  let backups := PrefixBackups target dbName (w_db w) in
  let unblocked := blockedByForeignContent backups InstallationID = "" in
  (∀ w w', same w w' → I w → I w') →
  (∀ b w r w', In b backups → half_deleted b = true → finishDelete c target b w = (r, w') → I w → I w') →
  (∀ b t w1 r w', In t (readings w) → unblocked → In b (selectExpired backups policy t) →
     deleteBackup c InstallationID target b w1 = (r, w') → I w1 → I w') →
  (∀ b t w1 r w', In t (readings w) → unblocked → In b backups → clean_one c target (t - 24 * Hour) b w1 = (r, w') → I w1 → I w') →
  I w → retainDatabase c InstallationID target dbName policy w = (r, w') → I w'.
Proof.
  cbv zeta. intros Hsame Hhalf Hdel Hclean HI H. set (R := λ w1 w2, I w1 ∧ later w w1 → I w2 ∧ later w w2).
  assert (Reflexive R) by (intros ?; unfold R; auto). assert (Transitive R) by (intros ???; unfold R; auto).
  assert (∀ A (m : M A) w1, timely m → (I w1 → I (m w1).2) → R w1 (m w1).2) as Hstep.
  { intros A m w1 Hm Hi [HI1 L1]. split; [auto|]. etrans; [exact L1|apply Hm]. }
  (* a reading of the clock, then what depends on it *)
  assert (∀ (k : time → M unit), (∀ t, In t (readings w) → always (k t) R) → always (now_ ≫= k) R) as Hnow.
  { intros k Hk w1 [HI1 L1]. apply (Hk (hd 0 (readings w1))); [apply L1, readings_shown|]. split; [|etrans; [exact L1|apply timely_now]].
    eapply Hsame; [|exact HI1]. by eapply now_inv, surjective_pairing. }
  unfold retainDatabase in H. apply bind_inv in H as [(bs & w1 & E1 & H)|(e & E1 & ->)];
    pose proof (timely_run _ _ _ _ (timely_db_read _) E1) as L1; apply db_read_inv in E1 as [S1 Hbs].
  2:{ by eapply Hsame. }
  specialize (Hbs bs eq_refl). subst bs. match type of H with ?m w1 = _ => assert (always m R) as Hm end.
  2:{ specialize (Hm w1). rewrite H in Hm. apply Hm. split; [by eapply Hsame|done]. }
  apply (always_bind R).
  - apply (always_for_each R). intros b Hb w2. destruct (half_deleted b) eqn:Eh; [|apply reflexivity].
    apply Hstep; [apply timely_finishDelete|]. destruct (finishDelete c target b w2) eqn:E. by eapply Hhalf.
  - intros _. case_bool_decide as Eb; cbn [negb]; [|apply (always_ret R)].
    apply Hnow. intros t Ht. apply (always_bind R).
    + apply (always_for_each R). intros b Hb w2. apply Hstep; [apply timely_deleteBackup|].
      destruct (deleteBackup _ _ _ _ w2) eqn:E. by eapply Hdel.
    + intros _. unfold cleanAbandonedUploads. apply Hnow. intros t' Ht'.
      apply (always_for_each R). intros b Hb w2. apply Hstep; [apply timely_clean_one|].
      destruct (clean_one _ _ _ _ w2) eqn:E. by eapply Hclean.
Qed.

Lemma retainDatabase_only_justified target dbName policy w r w' :
  retainDatabase c InstallationID target dbName policy w = (r, w') →
  only_justified (justified target dbName policy w) w w'.
Proof using ObjectStoreLaws0.
  apply (retainDatabase_steps target dbName policy (only_justified (justified target dbName policy w) w)).
  - intros w1 w2 [D B] HI. eapply only_justified_same; [done|unfold jobs_of; by rewrite D|done].
  - intros b w1 r1 w2 Hb Hh E HI. apply finishDelete_effect in E as [Hj Hbk]. unfold half_deleted in Hh. bool_simpl.
    destruct Hbk as [Hbk|[Hbk _]]; [|by eapply only_justified_same].
    eapply only_justified_delete; [done..|]. by eapply just_half_deleted.
  - intros b t w1 r1 w2 Ht Hu Hb E HI. apply deleteBackup_effect in E as [Hj Hbk].
    destruct Hbk as [[Hbk _]|[Ho Hbk]]; [by eapply only_justified_same|]. apply (ours_earlier _ _ _ _ HI) in Ho.
    assert (∀ k, k = bb_ManifestKey b ∨ k = bb_ArchiveKey b → justified target dbName policy w k) as HJ
      by (intros; by eapply just_expired).
    destruct Hbk as [[Hbk _]|Hbk]; [eapply only_justified_delete; [done..|]; by apply HJ; left|].
    set (wm := w1 <| w_bucket := delete (bb_ManifestKey b) (w_bucket w1) |>).
    assert (only_justified (justified target dbName policy w) w wm) as Hm
      by (eapply only_justified_delete; [exact HI|done|reflexivity|by apply HJ; left]).
    apply (only_justified_delete _ _ wm _ (bb_ArchiveKey b)); [done|done|exact Hbk|by apply HJ; right].
  - intros b t w1 r1 w2 Ht Hu Hb E HI. apply clean_one_effect in E as [Hj Hbk].
    destruct Hbk as [Hbk|(Hs & _ & Hold & Ha & Hbk)]; [by eapply only_justified_same|].
    eapply only_justified_delete; [done..|]. eapply just_abandoned; try done.
    unfold AbandonedUploadKey in *. destruct HI as [HI _]. unfold jobs_of in HI. by rewrite <- HI.
  - split; [done|]. intros; by left.
Qed.
End effects.

(** ** Layout of the cached rows *)

Definition row_layout (b : BucketBackup) : Prop :=
  ∃ dir, bb_ManifestKey b = dir +:+ "/" +:+ ManifestFile ∧ bb_ArchiveKey b = dir +:+ "/" +:+ ArchiveFile.

(** The cache as reconciliation leaves it: unique keys, and every row's two
    objects in one directory. *)
Record cache_wf (db : DB) : Prop := {
  cache_keys : bucket_wf (db_bucket db);
  cache_layout b : In b (db_bucket db) → row_layout b;
}.

Lemma dir_file_inj d1 d2 f1 f2 :
  contains_byte slash f1 = false → contains_byte slash f2 = false →
  d1 +:+ "/" +:+ f1 = d2 +:+ "/" +:+ f2 → d1 = d2 ∧ f1 = f2.
Proof.
  intros H1 H2 E. apply (f_equal (split_last slash)) in E.
  change (d1 +:+ "/" +:+ f1) with (d1 +:+ String slash f1) in E. change (d2 +:+ "/" +:+ f2) with (d2 +:+ String slash f2) in E.
  rewrite !split_last_app in E by done. by injection E.
Qed.

Section layout.
Context (target dbName : string) (db : DB) (Hwf : cache_wf db).
Implicit Types x y : BucketBackup.

Lemma in_prefix_rows x : In x (PrefixBackups target dbName db) → In x (db_bucket db) ∧ bb_Target x = target.
Proof.
  unfold PrefixBackups. rewrite in_sql_order, in_sql_select. unfold in_prefix. intros [? ?]. by bool_simpl.
Qed.

Lemma row_key_inj x y :
  In x (PrefixBackups target dbName db) → In y (PrefixBackups target dbName db) →
  bb_ManifestKey x = bb_ManifestKey y → x = y.
Proof using Hwf.
  intros [Hx Tx]%in_prefix_rows [Hy Ty]%in_prefix_rows E.
  eapply (NoDup_map_inj bucket_key); [apply Hwf|done..|]. unfold bucket_key. congruence.
Qed.

Lemma row_archive_inj x y :
  In x (PrefixBackups target dbName db) → In y (PrefixBackups target dbName db) →
  bb_ArchiveKey x = bb_ArchiveKey y → x = y.
Proof using Hwf.
  intros Hx Hy E. apply row_key_inj; [done..|].
  destruct (cache_layout _ Hwf x) as (dx & -> & Ax); [by apply in_prefix_rows in Hx as [? _]|].
  destruct (cache_layout _ Hwf y) as (dy & -> & Ay); [by apply in_prefix_rows in Hy as [? _]|].
  rewrite Ax, Ay in E. by apply dir_file_inj in E as [-> _].
Qed.

Lemma row_manifest_not_archive x y :
  In x (PrefixBackups target dbName db) → In y (PrefixBackups target dbName db) → bb_ManifestKey x ≠ bb_ArchiveKey y.
Proof using Hwf.
  intros Hx Hy E.
  destruct (cache_layout _ Hwf x) as (dx & Mx & _); [by apply in_prefix_rows in Hx as [? _]|].
  destruct (cache_layout _ Hwf y) as (dy & _ & Ay); [by apply in_prefix_rows in Hy as [? _]|].
  rewrite Mx, Ay in E. by apply dir_file_inj in E as [_ ?].
Qed.
End layout.

Lemma expired_in_rows backups policy t b : In b (selectExpired backups policy t) → In b backups ∧ bb_State b = StateComplete.
Proof.
  intros [Hb _]%in_selectExpired. apply filter_In in Hb as [? Hc]. by apply bool_decide_eq_true in Hc.
Qed.

(** C3. Whatever fails and whenever the process stops, retention of a folder
    removes an object only with proof that it may: either the folder holds
    nothing foreign or damaged, the policy expired that backup at a time the
    clock showed during the pass, and its manifest, read again from the
    bucket, names this installation and the recorded project; or the archive's
    deletion was begun and recorded before; or a backup job of this
    installation that failed or was interrupted, more than a day before a time
    the clock showed, claims exactly that directory of that store, whose
    upload is as old and left no manifest.  Nothing is ever added or
    altered. *)
Theorem retention_removes_only_justified s v InstallationID target dbName policy w :
  let w' := (retainDatabase (client s v) InstallationID target dbName policy w).2 in
  ∀ k, w_bucket w' !! k ≠ w_bucket w !! k →
    w_bucket w' !! k = None ∧ justified (s:=s) InstallationID target dbName policy w k.
Proof.
  cbv zeta. intros k Hk. destruct (retainDatabase _ _ _ _ _ w) as [r w'] eqn:E. cbn in *.
  apply (retainDatabase_only_justified (s:=s)) in E as [_ H]. destruct (H k) as [?|[? ?]]; [done|by split].
Qed.

(** C4. Whatever fails and whenever the process stops, retention leaves the
    newest complete backup of every folder whole: both its objects are in
    the bucket afterwards exactly as before. *)
Theorem retention_keeps_newest s v InstallationID target dbName policy w x l :
  cache_wf (w_db w) → List.filter is_complete (PrefixBackups target dbName (w_db w)) = x :: l →
  let w' := (retainDatabase (client s v) InstallationID target dbName policy w).2 in
  w_bucket w' !! bb_ManifestKey x = w_bucket w !! bb_ManifestKey x ∧
  w_bucket w' !! bb_ArchiveKey x = w_bucket w !! bb_ArchiveKey x.
Proof.
  intros Hwf Hx. cbv zeta. destruct (retainDatabase _ _ _ _ _ w) as [r w'] eqn:E. cbn.
  apply (retainDatabase_only_justified (s:=s)) in E as [_ H]. set (rows := PrefixBackups target dbName (w_db w)) in *.
  assert (In x rows ∧ bb_State x = StateComplete) as [Hin Hst].
  { assert (In x (List.filter is_complete rows)) as [? Hc]%filter_In by (rewrite Hx; by left).
    by apply bool_decide_eq_true in Hc. }
  assert (∀ b t, In b (selectExpired rows policy t) → bb_ManifestKey b ≠ bb_ManifestKey x) as Hnew.
  { intros b t [_ Hk]%in_selectExpired Ek. apply Hk. rewrite Hx, Ek. apply selected_head. }
  assert (∀ b, In b rows → bb_State b = StateArchiveOnly → bb_ArchiveKey b ≠ bb_ArchiveKey x) as Hao.
  { intros b Hb Hs Ek. apply (row_archive_inj target dbName _ Hwf) in Ek; [|done..]. subst b. by rewrite Hst in Hs. }
  split; (destruct (H (bb_ManifestKey x)) as [?|[_ Hm]]; destruct (H (bb_ArchiveKey x)) as [?|[_ Ha]]; try done; exfalso).
  all: try (destruct Hm as [b t _ _ Hb _ [Ek|Ek]|b Hb Hs _ Ek|b t _ _ Hb Hs _ _ Ek];
    [by eapply Hnew| |..]; eapply (row_manifest_not_archive target dbName _ Hwf x b); try done;
    by apply expired_in_rows in Hb as [? _]).
  all: destruct Ha as [b t _ _ Hb _ [Ek|Ek]|b Hb Hs _ Ek|b t _ _ Hb Hs _ _ Ek]; [..|by eapply Hao|by eapply Hao].
  all: pose proof Hb as [Hbr _]%expired_in_rows.
  - by eapply (row_manifest_not_archive target dbName _ Hwf b x).
  - eapply (Hnew b t); [done|]. f_equal. by apply (row_archive_inj target dbName _ Hwf).
Qed.

(** *** The order of removals *)

Section order.
Context (s : Settings) (v : versioning_answer) (InstallationID target dbName : string) (policy : BackupPolicy) (w0 : World).
Let rows := PrefixBackups target dbName (w_db w0).
Context (Hwf : cache_wf (w_db w0)).
Context (Hao : ∀ b, In b rows → bb_State b = StateArchiveOnly → w_bucket w0 !! bb_ManifestKey b = None).

(** A manifest that is still there has its archive as it was. *)
Definition not_stranded (w : World) : Prop :=
  (∀ k, w_bucket w !! k = w_bucket w0 !! k ∨ w_bucket w !! k = None) ∧
  ∀ x, In x rows → w_bucket w !! bb_ManifestKey x ≠ None → w_bucket w !! bb_ArchiveKey x = w_bucket w0 !! bb_ArchiveKey x.

Lemma not_stranded_same w w' : not_stranded w → w_bucket w' = w_bucket w → not_stranded w'.
Proof. intros H E. unfold not_stranded. by rewrite E. Qed.

Lemma shrunk_delete (b0 b1 : bucket) k :
  (∀ k, b1 !! k = b0 !! k ∨ b1 !! k = None) → ∀ k', delete k b1 !! k' = b0 !! k' ∨ delete k b1 !! k' = None.
Proof.
  intros H k'. destruct (decide (k = k')) as [<-|Hne]; [right; apply lookup_delete_eq|].
  rewrite lookup_delete_ne by done. apply H.
Qed.

(** Removing an archive whose manifest is gone. *)
Lemma not_stranded_archive w w' b :
  In b rows → w_bucket w !! bb_ManifestKey b = None → w_bucket w' = delete (bb_ArchiveKey b) (w_bucket w) →
  not_stranded w → not_stranded w'.
Proof using Hwf.
  intros Hb Hm E [H1 H2]. split; rewrite E; [by apply shrunk_delete|]. intros x Hx.
  assert (bb_ManifestKey x ≠ bb_ArchiveKey b) by (by apply (row_manifest_not_archive target dbName _ Hwf)).
  rewrite lookup_delete_ne by done. intros Hp.
  destruct (decide (bb_ArchiveKey b = bb_ArchiveKey x)) as [Ek|Hne]; [|rewrite lookup_delete_ne by done; by apply H2].
  apply (row_archive_inj target dbName _ Hwf) in Ek; [|done..]. by subst x.
Qed.

Lemma not_stranded_manifest w w' b :
  In b rows → w_bucket w' = delete (bb_ManifestKey b) (w_bucket w) → not_stranded w → not_stranded w'.
Proof using Hwf.
  intros Hb E [H1 H2]. split; rewrite E; [by apply shrunk_delete|]. intros x Hx Hp.
  assert (bb_ManifestKey b ≠ bb_ArchiveKey x) by (by apply (row_manifest_not_archive target dbName _ Hwf)).
  rewrite lookup_delete_ne by done. apply H2; [done|].
  destruct (decide (bb_ManifestKey b = bb_ManifestKey x)) as [Ek|Hne]; [rewrite Ek, lookup_delete_eq in Hp; done|].
  by rewrite lookup_delete_ne in Hp.
Qed.

Lemma archive_only_stays b w : In b rows → bb_State b = StateArchiveOnly → not_stranded w → w_bucket w !! bb_ManifestKey b = None.
Proof using Hao. intros Hb Hs [H _]. destruct (H (bb_ManifestKey b)) as [->|?]; [by apply Hao|done]. Qed.

Lemma retainDatabase_not_stranded r w' :
  retainDatabase (client s v) InstallationID target dbName policy w0 = (r, w') → not_stranded w'.
Proof using Hwf Hao.
  apply (retainDatabase_steps InstallationID target dbName policy not_stranded).
  - intros w1 w2 [_ E] H. by eapply not_stranded_same.
  - intros b w1 r1 w2 Hb Hh E H. apply (finishDelete_effect (s:=s)) in E as [_ [E|[E _]]]; [|by eapply not_stranded_same].
    unfold half_deleted in Hh. bool_simpl. eapply not_stranded_archive; [done|by apply archive_only_stays|done..].
  - intros b t w1 r1 w2 _ _ Hb E H. apply expired_in_rows in Hb as [Hb _].
    apply (deleteBackup_effect (s:=s)) in E as [_ [[E _]|[_ E]]]; [by eapply not_stranded_same|].
    destruct E as [[E _]|E]; [by eapply not_stranded_manifest|].
    set (wm := w1 <| w_bucket := delete (bb_ManifestKey b) (w_bucket w1) |>).
    assert (not_stranded wm) as Hm by (by eapply (not_stranded_manifest w1)).
    apply (not_stranded_archive wm w2 b); [done|apply lookup_delete_eq|exact E|done].
  - intros b t w1 r1 w2 _ _ Hb E H. apply (clean_one_effect (s:=s)) in E as [_ [E|(Hs & _ & _ & _ & E)]];
      [by eapply not_stranded_same|].
    eapply not_stranded_archive; [done|by apply archive_only_stays|done..].
  - split; [by left|done].
Qed.
End order.

(** C5. Deletion mirrors publication: whatever fails and whenever the process
    stops, a manifest that retention leaves in the bucket still has its
    archive beside it.  A half-deleted backup is never offered for restore. *)
Theorem retention_never_strands_a_manifest s v InstallationID target dbName policy w :
  cache_wf (w_db w) →
  (∀ b, In b (PrefixBackups target dbName (w_db w)) → bb_State b = StateArchiveOnly →
     w_bucket w !! bb_ManifestKey b = None) →
  let w' := (retainDatabase (client s v) InstallationID target dbName policy w).2 in
  ∀ x, In x (PrefixBackups target dbName (w_db w)) → w_bucket w' !! bb_ManifestKey x ≠ None →
    w_bucket w' !! bb_ArchiveKey x = w_bucket w !! bb_ArchiveKey x.
Proof.
  intros Hwf Hao. cbv zeta. destruct (retainDatabase _ _ _ _ _ w) as [r w'] eqn:E. cbn.
  by apply (retainDatabase_not_stranded s v InstallationID target dbName policy w Hwf Hao r w') in E as [_ H].
Qed.

(** *** An example: two backups, of which the policy keeps one *)

Definition sample_db : string := "app_0123456789ab".
Definition sample_target : string := "t1".
Definition sample_base (n : Z) : string := BackupKey example_settings sample_db (of_unix (1767225600 - n * 86400)).
Definition sample_manifest (n : Z) : Manifest :=
  mkManifest 1 "inst" "p1" "Shop" sample_db "18.6" (of_unix (1767225600 - n * 86400))
    (sample_base n +:+ "/" +:+ ArchiveFile) "00" 10 [] false None (sample_base n +:+ "/" +:+ ManifestFile).
Definition sample_row (n : Z) : BucketBackup :=
  mkBucketBackup sample_target (sample_base n +:+ "/" +:+ ManifestFile) (sample_base n +:+ "/" +:+ ArchiveFile) sample_db
    (1767225600 - n * 86400) StateComplete "inst" "p1" "Shop" "18.6" 0 10 1767225700 0.
Definition sample_bucket : bucket :=
  <[sample_base 0 +:+ "/" +:+ ArchiveFile := mkStored 10 (Archive "00")]>
  (<[sample_base 0 +:+ "/" +:+ ManifestFile := mkStored 2 (Document (sample_manifest 0))]>
  (<[sample_base 2 +:+ "/" +:+ ArchiveFile := mkStored 10 (Archive "00")]>
  (<[sample_base 2 +:+ "/" +:+ ManifestFile := mkStored 2 (Document (sample_manifest 2))]> ∅))).
Definition sample_world (faults : list outcome) : World :=
  mkWorld (empty_db <| db_bucket := [sample_row 0; sample_row 2] |>) sample_bucket empty_cluster faults
    [of_unix 1767225800; of_unix 1767225801; of_unix 1767225802] [].
Definition sample_policy : BackupPolicy := mkBackupPolicy 24 1 0 (-1) 0.
Definition sample_run (faults : list outcome) : World :=
  (retainDatabase (client example_settings (VersioningConfig true)) "inst" sample_target sample_db sample_policy
    (sample_world faults)).2.

(** With no faults the older backup goes, the newer stays; when the archive's
    removal fails, its manifest is gone and the deletion is on record. *)
Example sample_run_clean :
  map fst (map_to_list (w_bucket (sample_run []))) =
  [sample_base 0 +:+ "/" +:+ ArchiveFile; sample_base 0 +:+ "/" +:+ ManifestFile] ∨
  map fst (map_to_list (w_bucket (sample_run []))) =
  [sample_base 0 +:+ "/" +:+ ManifestFile; sample_base 0 +:+ "/" +:+ ArchiveFile].
Proof. vm_compute. auto. Qed.
Example sample_run_interrupted :
  w_bucket (sample_run [Works; Works; Works; Works; Works; Fails]) !! (sample_base 2 +:+ "/" +:+ ManifestFile) = None ∧
  is_Some (w_bucket (sample_run [Works; Works; Works; Works; Works; Fails]) !! (sample_base 2 +:+ "/" +:+ ArchiveFile)) ∧
  map bb_DeleteStartedAt (db_bucket (w_db (sample_run [Works; Works; Works; Works; Works; Fails]))) = [0; 1767225801].
Proof. vm_compute. split; [done|]. split; [by eexists|done]. Qed.

Lemma sample_cache_wf faults : cache_wf (w_db (sample_world faults)).
Proof.
  split.
  - apply (bool_decide_unpack (NoDup (map bucket_key [sample_row 0; sample_row 2]))). vm_compute. exact I.
  - intros b [<-|[<-|[]]]; [exists (sample_base 0)|exists (sample_base 2)]; split; reflexivity.
Defined.

Lemma retention_removes_only_justified_witness :
  w_bucket (sample_run []) !! bb_ManifestKey (sample_row 2) = None ∧
  justified (s:=example_settings) "inst" sample_target sample_db sample_policy (sample_world []) (bb_ManifestKey (sample_row 2)).
Proof.
  unfold sample_run.
  apply (retention_removes_only_justified example_settings (VersioningConfig true) "inst" sample_target sample_db sample_policy
    (sample_world []) (bb_ManifestKey (sample_row 2))).
  vm_compute. discriminate.
Defined.

Lemma retention_keeps_newest_witness :
  is_Some (w_bucket (sample_run [Works; Works; FailsAfter]) !! bb_ArchiveKey (sample_row 0)).
Proof.
  unfold sample_run.
  rewrite (proj2 (retention_keeps_newest example_settings (VersioningConfig true) "inst" sample_target sample_db sample_policy
    (sample_world [Works; Works; FailsAfter]) (sample_row 0) [sample_row 2] (sample_cache_wf _)
    ltac:(vm_compute; reflexivity))).
  vm_compute. by eexists.
Defined.

Lemma retention_never_strands_a_manifest_witness :
  w_bucket (sample_run [Works; Works; FailsAfter]) !! bb_ArchiveKey (sample_row 0) =
  w_bucket (sample_world [Works; Works; FailsAfter]) !! bb_ArchiveKey (sample_row 0).
Proof.
  unfold sample_run.
  apply (retention_never_strands_a_manifest example_settings (VersioningConfig true) "inst" sample_target sample_db
    sample_policy (sample_world [Works; Works; FailsAfter]) (sample_cache_wf _)).
  - intros b Hb Hs. assert (In b [sample_row 0; sample_row 2]) as [<-|[<-|[]]];
      [by apply in_prefix_rows in Hb as [? _]|discriminate Hs..].
  - unfold PrefixBackups. rewrite in_sql_order, in_sql_select. split; [left; reflexivity|vm_compute; reflexivity].
  - vm_compute. discriminate.
Defined.

(** ** When nothing may be removed *)

(** The bucket and the maintenance flag stay as they are. *)
Definition quiet (w w' : World) : Prop :=
  w_bucket w' = w_bucket w ∧ maintenance (w_db w') = maintenance (w_db w).
#[export] Instance quiet_refl : Reflexive quiet.
Proof. done. Qed.
#[export] Instance quiet_trans : Transitive quiet.
Proof. intros w1 w2 w3 [? ?] [? ?]. split; congruence. Qed.

#[export] Instance same_refl : Reflexive same.
Proof. done. Qed.
#[export] Instance same_trans : Transitive same.
Proof. intros w1 w2 w3 [? ?] [? ?]. split; congruence. Qed.
Lemma same_quiet w w' : same w w' → quiet w w'.
Proof. intros [Hd Hb]. split; [done|by rewrite Hd]. Qed.

Lemma quiet_write f : (∀ db, db_metadata (f db) = db_metadata db) → always (db_write f) quiet.
Proof.
  intros Hf w. destruct (db_write f w) as [r w'] eqn:E. apply db_write_inv in E as [Hb Hd]. split; [done|]. cbn.
  unfold maintenance. destruct Hd as [->|[-> _]]; by rewrite ?Hf.
Qed.
Lemma quiet_read {A} (f : DB → A) : always (db_read f) quiet.
Proof. intros w. destruct (db_read f w) as [r w'] eqn:E. apply db_read_inv in E as [[Hd Hb] _]. split; cbn; congruence. Qed.
Lemma quiet_now : always now_ quiet.
Proof. intros w. destruct (now_ w) as [r w'] eqn:E. apply now_inv in E as [Hd Hb]. split; cbn; congruence. Qed.
Lemma quiet_tx {A} (f : DB → res store_error A * DB) :
  (∀ db, db_metadata (f db).2 = db_metadata db) → always (db_tx f) quiet.
Proof.
  intros Hf w. unfold db_tx, call.
  assert (∀ u, quiet u (let (r, db') := f (w_db u) in
    (match r with Ok a => Ok a | Err e => Err (StoreError e) end : res werror A, u <| w_db := db' |>)).2) as H.
  { intros u. specialize (Hf (w_db u)). destruct (f (w_db u)) as [r db']. split; [done|]. cbn in *.
    unfold maintenance. by rewrite Hf. }
  destruct (w_faults w) as [|[] os]; [apply H|..].
  - exact (H (mkWorld (w_db w) (w_bucket w) (w_pg w) os (w_clock w) (w_stops w))).
  - done.
  - exact (H (mkWorld (w_db w) (w_bucket w) (w_pg w) os (w_clock w) (w_stops w))).
Qed.

Section quiet.
Context {c : ObjectStore} {s : Settings} `{!ObjectStoreLaws c s} (InstallationID : string) (error_text : werror → string).

Lemma same_manifest k : always (os_Manifest k) same.
Proof using ObjectStoreLaws0.
  intros w. destruct (os_Manifest k w) as [r w'] eqn:E. by apply reading_manifest in E as [? _].
Qed.

Lemma same_record_entry dbName recorded e : always (record_entry c dbName recorded e) same.
Proof using ObjectStoreLaws0.
  assert (∀ b e, always (read_entry c b e) same) as Hr.
  { intros b e'. apply (always_bind same); [apply always_attempt, same_manifest|]. intros a. apply (always_ret same). }
  unfold record_entry. destruct (_ || _); [|apply (always_ret same)].
  destruct (sql_find _ _); [destruct (negb _); [apply (always_ret same)|]|]; apply Hr.
Qed.

Lemma same_record dbName recorded es : always (record_entries c dbName recorded es) same.
Proof using ObjectStoreLaws0.
  induction es as [|e es IH]; simpl; [apply (always_ret same)|]. apply (always_bind same); [apply same_record_entry|].
  intros b. apply (always_bind same); [apply IH|]. intros bs. apply (always_ret same).
Qed.

Lemma quiet_record dbName recorded es : always (record_entries c dbName recorded es) quiet.
Proof using ObjectStoreLaws0. intros w. apply same_quiet, same_record. Qed.

Lemma quiet_prefix target dbName : always (reconcilePrefix c target dbName) quiet.
Proof using ObjectStoreLaws0.
  apply (always_bind quiet).
  { intros w. destruct (os_ListBackups dbName w) as [r w'] eqn:E. apply listing_backups in E as [[Hd Hb] _]. split; cbn; congruence. }
  intros es. apply (always_bind quiet); [apply quiet_read|]. intros rec. apply (always_bind quiet); [apply quiet_record|].
  intros bs. apply (always_bind quiet); [apply quiet_now|]. intros t. by apply quiet_write.
Qed.

Lemma quiet_all target dbs f : always (reconcile_all c target dbs f) quiet.
Proof using ObjectStoreLaws0.
  revert f. induction dbs as [|d dbs IH]; intros f; simpl; [apply (always_ret quiet)|].
  apply (always_bind quiet); [apply always_attempt, quiet_prefix|]. intros r. apply IH.
Qed.

Lemma quiet_target target t e : always (WriteTargetReconciled target t e) quiet.
Proof. apply (always_bind quiet); [by apply quiet_write|]. intros _. by apply quiet_write. Qed.

Lemma quiet_prune : always pruneHistory quiet.
Proof.
  apply (always_bind quiet); [apply quiet_now|]. intros t. apply (always_bind quiet); [|intros; apply (always_ret quiet)].
  apply always_attempt. by apply quiet_tx.
Qed.

(** Everything of a pass up to retention only reads the bucket. *)
Lemma reconcile_quiet settings (R : World → World → Prop) `{!Reflexive R, !Transitive R} w :
  (∀ w w', quiet w w' → R w w') →
  (maintenance (w_db w) = false → ∀ dbs, always (retain c InstallationID settings dbs) R) →
  R w (reconcile c InstallationID error_text settings w).2.
Proof using ObjectStoreLaws0.
  intros HR Hret.
  assert (∀ A (m : M A), always m quiet → always m R) as HQ by (intros A m Hm w1; apply HR, Hm).
  (* each step keeps the flag as it was at the start *)
  assert (∀ A (m : M A) (k : A → M unit) w1, always m quiet → maintenance (w_db w1) = maintenance (w_db w) →
    (∀ a w2, maintenance (w_db w2) = maintenance (w_db w) → R w2 (k a w2).2) → R w1 ((m ≫= k) w1).2) as Hbind.
  { intros A m k w1 Hm Hf Hk. specialize (Hm w1). unfold mbind, M_bind. destruct (m w1) as [[a|e] w2]; cbn in *;
      [|by apply HR]. etrans; [by apply HR|]. apply Hk. destruct Hm as [_ ->]. done. }
  unfold reconcile. apply Hbind; [by apply quiet_write|done|]. intros _ w1 F1.
  apply Hbind; [|done|].
  { apply always_attempt. intros w2. destruct (os_ListDatabases w2) as [r w3] eqn:E. apply listing_databases in E as [Hd Hb].
    split; cbn; congruence. }
  intros [dbs|e] w2 F2.
  - apply Hbind; [apply quiet_now|done|]. intros t w3 F3. apply Hbind; [|done|].
    { apply (always_bind quiet); [apply quiet_read|]. intros gone. apply (always_for_each quiet). intros n _. by apply quiet_write. }
    intros _ w4 F4. apply Hbind; [apply quiet_all|done|]. intros [e|] w5 F5.
    + apply HQ. apply (always_bind quiet); [apply quiet_now|]. intros t'. apply (always_bind quiet);
        [apply always_attempt, quiet_target|]. intros _. apply (always_throw quiet).
    + apply Hbind; [apply quiet_now|done|]. intros t' w6 F6. apply Hbind; [apply quiet_target|done|]. intros _ w7 F7.
      apply Hbind; [apply always_attempt; by apply quiet_tx|done|]. intros _ w8 F8.
      unfold mbind at 1, M_bind at 1, attempt at 1. destruct (db_read maintenance w8) as [on w9] eqn:E9.
      apply db_read_inv in E9 as [[D9 B9] H9].
      assert (R w8 w9) as R89 by (apply HR; split; cbn; congruence).
      destruct on as [[|]|]; [done| |done]. specialize (H9 false eq_refl). etrans; [exact R89|].
      apply (always_bind R); [|intros _; apply HQ, quiet_prune]. apply Hret. congruence.
  - apply HQ. apply (always_bind quiet); [apply quiet_now|]. intros t'. apply (always_bind quiet);
      [apply always_attempt, quiet_target|]. intros _. apply (always_throw quiet).
Qed.
End quiet.

(** C22. A pass fails closed: during an update, when the bucket does not keep
    deleted versions, when the provider's answer is an error, or when it
    cannot answer and the operator has not accepted that, no object is
    removed, whatever else happens in the pass. *)
Theorem reconcile_fails_closed s v InstallationID error_text w :
  (maintenance (w_db w) = true ∨ is_ok (Protection v) = false ∨ Protection v = Ok VersioningDisabled ∨
   (Protection v = Ok VersioningUnsupported ∧ s_BucketProtection s ≠ ProtectionAcknowledged)) →
  w_bucket (reconcile (client s v) InstallationID error_text s w).2 = w_bucket w.
Proof.
  intros Hclosed. set (R := λ w w' : World, w_bucket w' = w_bucket w).
  assert (Reflexive R) by (intros ?; done). assert (Transitive R) by (intros ???; unfold R; congruence).
  apply (reconcile_quiet (s:=s) InstallationID error_text s R w); [by intros ?? [? _]|].
  intros Hm dbs w2. destruct Hclosed as [?|Hclosed]; [congruence|]. unfold retain.
  unfold mbind, M_bind, attempt, os_Protection, client. destruct (ClientProtection v w2) as [r w3] eqn:E.
  unfold ClientProtection in E. apply call_same in E as [[_ Hb] Hr]; [|done].
  destruct r as [p|]; [|done]. destruct (Hr p eq_refl) as (w4 & _ & [= Hp]).
  destruct Hclosed as [Hc|[Hc|[Hc Ha]]].
  - by destruct (Protection v).
  - rewrite Hc in Hp. injection Hp as <-. by rewrite bool_decide_eq_true_2.
  - rewrite Hc in Hp. injection Hp as <-. rewrite bool_decide_eq_false_2 by done.
    rewrite bool_decide_eq_true_2, bool_decide_eq_false_2 by done. done.
Qed.

Lemma reconcile_fails_closed_witness :
  w_bucket (reconcile (client example_settings (VersioningConfig false)) "inst" (λ _, "e") example_settings
    (sample_world [])).2 = sample_bucket.
Proof.
  rewrite reconcile_fails_closed; [reflexivity|]. right. right. left. reflexivity.
Defined.

(** ** A recorded folder *)

(** What a listing alone says about an entry. *)
Record described (dbName : string) (e : Entry) (b : BucketBackup) : Prop := {
  de_keys : bb_ManifestKey b = e_ManifestKey e ∧ bb_ArchiveKey b = e_ArchiveKey e ∧ bb_DBName b = dbName;
  de_time : bb_TakenAt b = unix (e_TakenAt e);
  de_size : bb_SizeBytes b = e_SizeBytes e;
}.



Section recording.
Context {c : ObjectStore} {s : Settings} `{!ObjectStoreLaws c s}.

Lemma described_listed dbName e : described dbName e (listed_backup dbName e).
Proof. by split. Qed.





End recording.













(** ** What reconciliation does to the jobs table *)

Section reconcile_jobs.
Context {c : ObjectStore} {s : Settings} {laws : ObjectStoreLaws c s} (InstallationID : string) (error_text : werror → string).
Context (R : DB → DB → Prop) {pre : PreOrder R}
  (keep : ∀ d d', db_jobs d' = db_jobs d → R d d') (prune : ∀ t d, R d (PruneJobs t d).2).

Lemma respects_Remove k : respects R (os_Remove k).
Proof using pre laws. apply respects_same; [done|]. intros w r w' E. by apply removing in E as [? _]. Qed.
Lemma respects_Manifest k : respects R (os_Manifest k).
Proof using pre laws. apply respects_same; [done|]. intros w r w' E. by apply reading_manifest in E as [[? _] _]. Qed.
Lemma respects_ListBackups n : respects R (os_ListBackups n).
Proof using pre laws. apply respects_same; [done|]. intros w r w' E. by apply listing_backups in E as [[? _] _]. Qed.
Lemma respects_ListDatabases : respects R os_ListDatabases.
Proof using pre laws. apply respects_same; [done|]. intros w r w' E. by apply listing_databases in E as [? _]. Qed.
Lemma respects_Protection : respects R os_Protection.
Proof using pre laws. apply respects_same; [done|]. intros w r w' E. by apply asking_protection in E as [? _]. Qed.
#[local] Hint Resolve respects_Remove respects_Manifest respects_ListBackups respects_ListDatabases respects_Protection : respects.

(** Follows the shape of a computation. *)
Ltac respect := repeat first [progress intros | solve [auto 6 with respects] | 
  lazymatch goal with
  | |- respects _ (_ ≫= _) => apply respects_bind; [done| |]
  | |- respects _ (attempt _) => apply respects_attempt
  | |- respects _ (for_each _ _) => apply respects_for_each; [done|]
  | |- respects _ (db_write _) => apply respects_db_write; [done|]; intros; apply keep; reflexivity
  | |- respects _ (match ?x with _ => _ end) => destruct x
  end ].

Lemma respects_finishDelete target b : respects R (finishDelete c target b).
Proof using pre keep laws. unfold finishDelete. respect. Qed.
Lemma respects_deleteBackup target b : respects R (deleteBackup c InstallationID target b).
Proof using pre keep laws. unfold deleteBackup. respect; auto using respects_finishDelete. Qed.
Lemma respects_clean_one target cutoff b : respects R (clean_one c target cutoff b).
Proof using pre keep laws. unfold clean_one. respect. Qed.
Lemma respects_retainDatabase target dbName policy : respects R (retainDatabase c InstallationID target dbName policy).
Proof using pre keep laws.
  unfold retainDatabase, cleanAbandonedUploads. respect; auto using respects_finishDelete, respects_deleteBackup, respects_clean_one.
Qed.
Lemma respects_Policy : respects R Policy.
Proof using pre. unfold Policy. respect. Qed.
Lemma respects_retain settings databases : respects R (retain c InstallationID settings databases).
Proof using pre keep laws. unfold retain. respect; auto using respects_Policy, respects_retainDatabase. Qed.
Lemma respects_record_entries dbName recorded entries : respects R (record_entries c dbName recorded entries).
Proof using pre laws.
  induction entries as [|e es IH]; cbn [record_entries]; [respect|]. apply respects_bind; [done| |respect; auto].
  unfold record_entry, read_entry. respect.
Qed.
Lemma respects_reconcilePrefix target dbName : respects R (reconcilePrefix c target dbName).
Proof using pre keep laws. unfold reconcilePrefix. respect; auto using respects_record_entries. Qed.
Lemma respects_reconcile_all target databases failure : respects R (reconcile_all c target databases failure).
Proof using pre keep laws.
  revert failure. induction databases as [|n ns IH]; intros failure; cbn [reconcile_all]; respect; auto using respects_reconcilePrefix.
Qed.
Lemma respects_reconcile settings : respects R (reconcile c InstallationID error_text settings).
Proof using pre keep prune laws.
  unfold reconcile, WriteTombstones, WriteTargetReconciled, pruneHistory.
  assert (∀ t, respects R (db_tx (λ db, let (n, db') := PruneJobs t db in (Ok n, db')))) as Hprune.
  { intros t. apply respects_db_tx; [done|]. intros d. specialize (prune t d). by destruct (PruneJobs t d). }
  assert (∀ target, respects R (db_tx (λ db, let (n, db') := ForgetLostLocalBackups target db in (Ok n, db')))) as Hlost.
  { intros target. apply respects_db_tx; [done|]. intros d. by apply keep. }
  respect; auto using respects_reconcile_all, respects_retain.
Qed.
End reconcile_jobs.
