(* ===== verification/Tools.v ===== *)
(** * Running PostgreSQL's tools and judging a restore
    (the pure parts of [internal/jobs/jobs.go])

    Reading a tool's error stream, the disk and version guards, and
    [verifyRestore], whose queries' answers are its arguments. *)

From S2P Require Import Prelude GoStrings GoTime Storage.

(** ** Reading lines *)

Definition newline : ascii := ascii_of_nat 10.
Definition carriage : ascii := ascii_of_nat 13.

(** The text up to and including the first newline, and what follows it;
    [None] when the stream ends first. *)
Fixpoint cut_line (s : string) : string * option string :=
  match s with
  | "" => ("", None)
  | String a r =>
      if bool_decide (a = newline) then (String a "", Some r)
      else let (l, rest) := cut_line r in (String a l, rest)
  end.

Inductive slice_end := Delimiter | BufferFull | EndOfStream.

(** [bufio.Reader.ReadSlice('\n')] on a buffer of [size] bytes: the chunk,
    what remains in the stream, and why it stopped. *)
Definition ReadSlice (size : nat) (s : string) : string * string * slice_end :=
  let (l, rest) := cut_line s in
  match rest with
  | Some r => if (slen l <=? size)%nat then (l, r, Delimiter) else (stake size s, sdrop size s, BufferFull)
  | None => if (slen l <? size)%nat then (l, "", EndOfStream) else (stake size s, sdrop size s, BufferFull)
  end.

(** [strings.TrimRight(s, "\r\n")] *)
Definition is_break (a : ascii) : bool := bool_decide (a = newline) || bool_decide (a = carriage).
Fixpoint trim_right_if (P : ascii → bool) (s : string) : string :=
  match s with
  | "" => ""
  | String a r =>
      match trim_right_if P r with
      | "" => if P a then "" else String a ""
      | r' => String a r'
      end
  end.

(** The line, whether the stream ended, and what remains. *)
Fixpoint readBoundedLine (fuel size limit : nat) (line s : string) : string * bool * string :=
  match fuel with
  | O => (line, true, s)
  | S fuel =>
      let '(chunk, rest, e) := ReadSlice size s in
      let line := if (slen line <? limit)%nat then line +:+ stake (Nat.min (slen chunk) (limit - slen line)) chunk else line in
      match e with
      | BufferFull => readBoundedLine fuel size limit line rest
      | Delimiter => (trim_right_if is_break line, false, rest)
      | EndOfStream => (trim_right_if is_break line, true, rest)
      end
  end.

(** ** The error stream *)

Record toolRun := mkToolRun {
  tr_Exit : Z;
  tr_Errors : Z;
  tr_Counted : string;
  tr_Excerpt : string;
  tr_LastLine : string;
  tr_Err : option string;
}.
#[export] Instance eta_toolRun : Eta toolRun := λ r,
  mkToolRun (tr_Exit r) (tr_Errors r) (tr_Counted r) (tr_Excerpt r) (tr_LastLine r) (tr_Err r).

Fixpoint take_digits (s : string) : string :=
  match s with
  | String a r => if is_digit a then String a (take_digits r) else ""
  | "" => ""
  end.
Fixpoint digits_value (acc : Z) (s : string) : Z :=
  match s with "" => acc | String a r => digits_value (acc * 10 + digit_value a) r end.
(** [strconv.Atoi] on a string of digits. *)
Definition Atoi (s : string) : option Z := let n := digits_value 0 s in if n <? 2 ^ 63 then Some n else None.

Definition summary_text : string := "errors ignored on restore: ".
(** The leftmost match of [errors ignored on restore: (\d+)]. *)
Fixpoint summary_match (s : string) : option string :=
  let here := if has_prefix s summary_text then
                match take_digits (sdrop (slen summary_text) s) with "" => None | d => Some d end
              else None in
  match here with
  | Some d => Some d
  | None => match s with "" => None | String _ r => summary_match r end
  end.

Definition excerpt_limit : nat := 4096.
Definition limited_write (limit : nat) (b p : string) : string :=
  if (slen b <? limit)%nat then b +:+ stake (limit - slen b) p else b.

(** One line of the loop. *)
Definition tool_line (run : toolRun) (line : string) : toolRun :=
  let run := if negb (bool_decide (TrimSpace line = "")) then run <| tr_LastLine := line |> else run in
  let run := if contains line ": error:" then run <| tr_Errors := tr_Errors run + 1 |> else run in
  let run := match summary_match line with
             | Some d => match Atoi d with
                         | Some n => run <| tr_Errors := n |> <| tr_Counted := "reported by the tool" |>
                         | None => run
                         end
             | None => run
             end in
  run <| tr_Excerpt := limited_write excerpt_limit (tr_Excerpt run) (line +:+ String newline "") |>.

Fixpoint read_lines (fuel size limit : nat) (run : toolRun) (s : string) : toolRun :=
  match fuel with
  | O => run
  | S fuel =>
      let '(line, eof, rest) := readBoundedLine (S (slen s)) size limit "" s in
      if eof && bool_decide (line = "") then run
      else
        let run := tool_line run line in
        if (eof : bool) then run else read_lines fuel size limit run rest
  end.

Definition buffer_size : nat := Z.to_nat (64 * 1024).
Definition line_limit : nat := Z.to_nat (2 ^ 20).

Definition finish_run (run : toolRun) : toolRun :=
  run <| tr_Excerpt := TrimSpace (tr_Excerpt run) |>
      <| tr_LastLine := if (300 <? slen (tr_LastLine run))%nat then stake 300 (tr_LastLine run) else tr_LastLine run |>.

Definition readToolErrors (s : string) : toolRun :=
  finish_run (read_lines (S (slen s)) buffer_size line_limit (mkToolRun 0 0 "counted from the output" "" "" None) s).

(** ** Running a tool *)

(** How a command ended, as [cmd.Wait] reports it; [expired] is whether its
    deadline had passed by then. *)
Inductive wait := Exited (code : Z) (expired : bool) | Signaled (signal : string) | WaitFailed.
Inductive process := NotStarted | Ended (stderr : string) (how : option wait).

Definition run (name : string) (p : process) : toolRun :=
  match p with
  | NotStarted => mkToolRun 0 0 "" "" "" (Some (name +:+ " could not be started"))
  | Ended stderr how =>
      let run := readToolErrors stderr in
      match how with
      | None => run
      | Some (Signaled signal) => run <| tr_Err := Some (name +:+ " was stopped before it finished (" +:+ signal +:+ ")") |>
      | Some (Exited code expired) =>
          if (expired : bool) then run <| tr_Err := Some (name +:+ " did not finish within its time limit") |>
          else run <| tr_Exit := code |>
      | Some WaitFailed => run <| tr_Err := Some (name +:+ " failed: " +:+ tr_LastLine run) |>
      end
  end.

Definition tool (name : string) (p : process) : res string unit :=
  let r := run name p in
  match tr_Err r with
  | Some e => Err e
  | None => guard! tr_Exit r =? 0 else (name +:+ " failed: " +:+ tr_LastLine r) in Ok tt
  end.

(** ** Guards *)

(** [ensureWorkspace], given the free bytes of the workspace. *)
Definition ensureWorkspace (free needed : Z) : res string unit :=
  guard! negb (free <? needed * 2 + Z.shiftl 256 20)
    else ("not enough free disk for this job: " +:+ decimal (Z.shiftr free 20) +:+ " MB free, about " +:+
          decimal (Z.shiftr (needed * 2 + Z.shiftl 256 20) 20) +:+ " MB needed") in
  Ok tt.

(** The text before the first dot or space, if that is not the first byte. *)
Fixpoint cut_any (P : ascii → bool) (s : string) : string :=
  match s with "" => "" | String a r => if P a then "" else String a (cut_any P r) end.
Definition major (version : string) : string :=
  let P a := bool_decide (a = "."%char) || bool_decide (a = " "%char) in
  match cut_any P version with "" => version | v => v end.

(** [scheduleInterval], given the environment variable's text and its parse. *)
Definition scheduleInterval (parsed : option duration) : duration :=
  match parsed with
  | None => 5 * Minute
  | Some d => if d <? Minute then 5 * Minute else if Hour <? d then Hour else d
  end.

(** ** Verifying a restore *)

Record Check := mkCheck { ck_Name : string; ck_OK : bool; ck_Detail : string }.

Definition VerificationVerified : string := "verified".
Definition VerificationPartial : string := "partial".
Definition VerificationFailed : string := "failed".

Definition check_ok (c : Check) : bool := ck_OK c.

Section verify.
(** The answers of the restored database, the row counts in the order of the
    tables; [None] is a failed query. *)
Context (counts : list (option Z)) (restored_objects : option ObjectCounts)
  (foreign : option Z) (can_connect : option bool).

Definition restored_text (restored backup : Z) : string :=
  decimal restored +:+ " restored, " +:+ decimal backup +:+ " in backup".

Definition table_check (t : TableCount) (count : option Z) : Check :=
  let name := "rows in " +:+ tc_Schema t +:+ "." +:+ tc_Name t in
  match count with
  | None => mkCheck name false "table missing after restore"
  | Some n => mkCheck name (n =? tc_Rows t) (restored_text n (tc_Rows t))
  end.

Fixpoint table_checks (tables : list TableCount) (counts : list (option Z)) : list Check :=
  match tables with
  | [] => []
  | t :: ts => table_check t (mjoin (head counts)) :: table_checks ts (tail counts)
  end.

Definition object_check (name : string) (field : ObjectCounts → Z) (backup : ObjectCounts) : Check :=
  match restored_objects with
  | None => mkCheck name false "the count could not be read after restore"
  | Some counts => mkCheck name (field counts =? field backup) (restored_text (field counts) (field backup))
  end.

Definition objects_checks (backup : ObjectCounts) : list Check :=
  [object_check "sequences" oc_Sequences backup; object_check "views" oc_Views backup;
   object_check "functions" oc_Functions backup; object_check "indexes" oc_Indexes backup;
   object_check "constraints" oc_Constraints backup].

Definition owner_check : Check :=
  match foreign with
  | None => mkCheck "ownership" false "ownership could not be checked"
  | Some n =>
      mkCheck "ownership" (n =? 0)
        (if 0 <? n then decimal n +:+ " tables belong to another role" else "all tables belong to the new project user")
  end.

Definition permission_check : Check :=
  match can_connect with
  | Some true => mkCheck "permissions" true "the new project user can connect with its own credentials"
  | _ => mkCheck "permissions" false "the new project user cannot connect"
  end.

Definition verifyRestore (manifest : Manifest) : list Check * string :=
  let tables := table_checks (m_Tables manifest) counts in
  let schema := match m_Tables manifest with
                | [] => [mkCheck "schema" true "the backup contained no user tables"]
                | _ => []
                end in
  let coverage := if m_TablesTruncated manifest then
      [mkCheck "table coverage" true ("row counts cover the first " +:+
         decimal (Z.of_nat (length (m_Tables manifest))) +:+ " tables recorded by this backup")]
    else [] in
  let objects := match m_Objects manifest with
                 | None => [mkCheck "database objects" true
                     "this backup predates object counts, so only tables could be compared"]
                 | Some o => objects_checks o
                 end in
  let checks := tables ++ schema ++ coverage ++ objects ++ [owner_check; permission_check] in
  let full := negb (m_TablesTruncated manifest) && match m_Objects manifest with None => false | Some _ => true end in
  (checks,
   if negb (forallb check_ok checks) then VerificationFailed
   else if negb full then VerificationPartial
   else VerificationVerified).
End verify.

(** ** Chunks are invisible *)

Lemma cut_line_app s : let (l, rest) := cut_line s in s = l +:+ default "" rest.
Proof.
  induction s as [|a s IH]; simpl; [done|]. destruct (bool_decide (a = newline)); [by rewrite app_cons|].
  destruct (cut_line s) as [l rest]. rewrite app_cons. by rewrite <- IH.
Qed.

(** Cutting inside the first line leaves the rest of that line. *)
Lemma cut_line_sdrop n s l rest :
  cut_line s = (l, rest) → (n < slen l)%nat ∨ (rest = None ∧ (n ≤ slen l)%nat) → cut_line (sdrop n s) = (sdrop n l, rest).
Proof.
  revert s l. induction n as [|n IH]; intros s l E Hn; [by destruct s, l; simpl in *|].
  destruct s as [|a s]; simpl in *.
  - by injection E as <- <-.
  - destruct (bool_decide (a = newline)).
    + injection E as <- <-. simpl in Hn. destruct Hn as [?|[? _]]; [lia|done].
    + destruct (cut_line s) as [l0 rest0] eqn:E0. injection E as <- <-. simpl in *. apply (IH s l0); [done|].
      destruct Hn as [?|[? ?]]; [left; lia|right; split; [done|lia]].
Qed.

Lemma slen_stake n s : slen (stake n s) = Nat.min n (slen s).
Proof. revert s. induction n as [|n IH]; intros [|a s]; simpl; [done..|]. by rewrite IH. Qed.

Lemma stake_app_le n s t : (slen s ≤ n)%nat → stake n (s +:+ t) = s +:+ stake (n - slen s) t.
Proof.
  revert n. induction s as [|a s IH]; intros n H; [rewrite !app_nil_l'; simpl; by rewrite Nat.sub_0_r|].
  destruct n; simpl in *; [lia|]. rewrite app_cons. f_equal. apply IH. lia.
Qed.

Lemma stake_ge n s : (slen s ≤ n)%nat → stake n s = s.
Proof. revert s. induction n as [|n IH]; intros [|a s] H; simpl in *; [done|lia|done|]. by rewrite IH by lia. Qed.

Lemma stake_app_short n s t : (n ≤ slen s)%nat → stake n (s +:+ t) = stake n s.
Proof. revert s. induction n as [|n IH]; intros [|a s] H; simpl in *; [done|done|lia|]. f_equal. apply IH. lia. Qed.

Lemma sdrop_app_short n s t : (n ≤ slen s)%nat → sdrop n (s +:+ t) = sdrop n s +:+ t.
Proof. revert s. induction n as [|n IH]; intros [|a s] H; simpl in *; [done|done|lia|]. apply IH. lia. Qed.

(** What one chunk adds to the bounded line. *)
Lemma bounded_append limit line chunk :
  (slen line ≤ limit)%nat →
  (if (slen line <? limit)%nat then line +:+ stake (Nat.min (slen chunk) (limit - slen line)) chunk else line) =
  stake limit (line +:+ chunk).
Proof.
  intros H. destruct (Nat.ltb_spec (slen line) limit).
  - rewrite stake_app_le by done. f_equal.
    destruct (Nat.le_gt_cases (slen chunk) (limit - slen line)).
    + rewrite !stake_ge; [done|lia|lia].
    + by rewrite Nat.min_r by lia.
  - rewrite stake_app_le by done. replace (limit - slen line)%nat with 0%nat by lia. by rewrite app_nil_r'.
Qed.

Lemma stake_stake_app limit s t : stake limit (stake limit s +:+ t) = stake limit (s +:+ t).
Proof.
  destruct (Nat.le_gt_cases (slen s) limit) as [H|H].
  - by rewrite (stake_ge limit s).
  - rewrite !stake_app_short; [|lia|rewrite slen_stake; lia]. apply stake_ge. rewrite slen_stake. lia.
Qed.

(** Reading a line through a buffer of any size gives the first [limit]
    bytes of that line without its line break, and consumes the whole line
    however long it is. *)
Lemma readBoundedLine_spec fuel size limit line s :
  (0 < size)%nat → (slen line ≤ limit)%nat → (slen s < fuel)%nat →
  readBoundedLine fuel size limit line s =
  let (l, rest) := cut_line s in
  (trim_right_if is_break (stake limit (line +:+ l)), match rest with None => true | Some _ => false end, default "" rest).
Proof.
  intros Hsize. revert line s. induction fuel as [|fuel IH]; intros line s Hl Hf; [lia|]. simpl. unfold ReadSlice.
  destruct (cut_line s) as [l rest] eqn:E. pose proof (cut_line_app s) as Happ. rewrite E in Happ.
  assert (∀ chunk r, (chunk, r) = (stake size s, sdrop size s) →
    (size < slen l)%nat ∨ (rest = None ∧ (size ≤ slen l)%nat) →
    readBoundedLine fuel size limit (stake limit (line +:+ chunk)) r =
    (trim_right_if is_break (stake limit (line +:+ l)), match rest with None => true | Some _ => false end, default "" rest)) as Hfull.
  { intros chunk r [= -> ->] Hn. rewrite IH.
    - rewrite (cut_line_sdrop _ _ _ _ E Hn). f_equal. f_equal. f_equal. rewrite stake_stake_app. f_equal.
      rewrite app_assoc'. f_equal. rewrite Happ, stake_app_short by lia. apply stake_sdrop.
    - rewrite slen_stake. lia.
    - rewrite slen_sdrop. assert (slen l ≤ slen s)%nat by (rewrite Happ, slen_app; lia). lia. }
  destruct rest as [r|].
  - destruct (Nat.leb_spec (slen l) size).
    + by rewrite bounded_append.
    + rewrite bounded_append by done. apply Hfull; [done|by left].
  - destruct (Nat.ltb_spec (slen l) size).
    + by rewrite bounded_append.
    + rewrite bounded_append by done. apply Hfull; [done|right; split; [done|lia]].
Qed.

(** ** The whole stream is counted *)

(** The lines of a stream, each cut to the limit; what follows the last line
    break counts only if it is not blank. *)
Fixpoint tool_lines (limit : nat) (segments : list string) : list string :=
  match segments with
  | [] => []
  | [last] => match trim_right_if is_break (stake limit last) with "" => [] | t => [t] end
  | x :: rest => trim_right_if is_break (stake limit (x +:+ String newline "")) :: tool_lines limit rest
  end.

Lemma cut_line_split s :
  match cut_line s with
  | (l, Some r) => ∃ x, l = x +:+ String newline "" ∧ split_on newline s = x :: split_on newline r
  | (l, None) => l = s ∧ split_on newline s = [s]
  end.
Proof.
  induction s as [|a s IH]; simpl; [done|]. case_bool_decide as Ea.
  - subst a. by exists "".
  - destruct (cut_line s) as [l [r|]].
    + destruct IH as (x & -> & ->). exists (String a x). by rewrite app_cons.
    + by destruct IH as [-> ->].
Qed.

Lemma read_lines_fold fuel size limit run s :
  (0 < size)%nat → (slen s < fuel)%nat →
  read_lines fuel size limit run s = fold_left tool_line (tool_lines limit (split_on newline s)) run.
Proof.
  intros Hsize. revert run s. induction fuel as [|fuel IH]; intros run s Hf; [lia|]. cbn [read_lines].
  rewrite readBoundedLine_spec by (simpl; lia). pose proof (cut_line_split s) as Hs. pose proof (cut_line_app s) as Ha.
  destruct (cut_line s) as [l [r|]]; rewrite app_nil_l'.
  - destruct Hs as (x & -> & ->). change (default "" (Some r)) with r in *. cbn [andb]. rewrite IH.
    + pose proof (split_on_not_nil newline r) as Hne. destruct (split_on newline r); [by destruct Hne|]. reflexivity.
    + rewrite Ha, !slen_app in Hf. simpl in Hf. lia.
  - destruct Hs as [-> ->]. cbn [tool_lines]. case_bool_decide as Ht; [by rewrite Ht|].
    by destruct (trim_right_if is_break (stake limit s)).
Qed.

Lemma slen_limited_write limit b p : (slen b ≤ limit)%nat → (slen (limited_write limit b p) ≤ limit)%nat.
Proof.
  intros. unfold limited_write. destruct (Nat.ltb_spec (slen b) limit); [|done]. rewrite slen_app, slen_stake. lia.
Qed.

Lemma fold_excerpt lines run :
  (slen (tr_Excerpt run) ≤ excerpt_limit)%nat → (slen (tr_Excerpt (fold_left tool_line lines run)) ≤ excerpt_limit)%nat.
Proof.
  revert run. induction lines as [|l lines IH]; intros run H; [done|]. cbn [fold_left]. apply IH.
  unfold tool_line. cbn [tr_Excerpt upd]. apply slen_limited_write.
  destruct (negb _), (contains _ _); (destruct (summary_match l) as [d|]; [destruct (Atoi d)|]); exact H.
Qed.


(** The error count of a tool run covers its entire output, while what is
    kept of it is bounded: whatever the buffer and however long the lines,
    the result is that of one pass over the lines of the stream (each cut to
    a megabyte), and the excerpt and last line kept for display never exceed
    4096 and 300 bytes. *)
Theorem readToolErrors_reference s :
  readToolErrors s =
    finish_run (fold_left tool_line (tool_lines line_limit (split_on newline s)) (mkToolRun 0 0 "counted from the output" "" "" None)) ∧
  (slen (tr_Excerpt (readToolErrors s)) ≤ 4096)%nat ∧ (slen (tr_LastLine (readToolErrors s)) ≤ 300)%nat.
Proof.
  assert (readToolErrors s = finish_run (fold_left tool_line (tool_lines line_limit (split_on newline s))
    (mkToolRun 0 0 "counted from the output" "" "" None))) as E.
  { unfold readToolErrors. rewrite read_lines_fold; [done|apply Nat.ltb_lt; vm_compute; reflexivity|lia]. }
  split; [done|]. rewrite E. unfold finish_run. cbn [tr_Excerpt tr_LastLine upd]. split.
  - etrans; [apply slen_TrimSpace|].
    apply (fold_excerpt _ (mkToolRun 0 0 "counted from the output" "" "" None)). simpl. lia.
  - destruct (Nat.ltb_spec 300 (slen (tr_LastLine (fold_left tool_line (tool_lines line_limit (split_on newline s))
      (mkToolRun 0 0 "counted from the output" "" "" None))))); [rewrite slen_stake|]; lia.
Qed.

(** ** The verdict *)

(** What the restored database must show. *)
Definition restore_passes (counts : list (option Z)) (restored_objects : option ObjectCounts)
  (foreign : option Z) (can_connect : option bool) (m : Manifest) : Prop :=
  (∀ i t, m_Tables m !! i = Some t → counts !! i = Some (Some (tc_Rows t))) ∧
  (∀ o, m_Objects m = Some o → restored_objects = Some o) ∧ foreign = Some 0 ∧ can_connect = Some true.

Lemma table_checks_pass tables counts :
  forallb check_ok (table_checks tables counts) = true ↔
  ∀ i t, tables !! i = Some t → counts !! i = Some (Some (tc_Rows t)).
Proof.
  revert counts. induction tables as [|t ts IH]; intros counts; cbn [table_checks forallb]; [split; [by intros _ ? ?|done]|].
  rewrite andb_true_iff, IH. unfold table_check, check_ok. split.
  - intros [Ht Hts] [|i] t'; cbn.
    + intros [= <-]. destruct counts as [|[c|] cs]; cbn in *; try done. bool_simpl. by subst.
    + intros H%Hts. by destruct counts.
  - intros H. split.
    + specialize (H 0%nat t eq_refl). destruct counts as [|c cs]; [done|]. cbn in *. injection H as ->. apply Z.eqb_refl.
    + intros i t' Ht. specialize (H (S i) t' Ht). by destruct counts.
Qed.

(** A restore is called verified exactly when every table the backup
    recorded has its row count back, the recorded numbers of sequences,
    views, functions, indexes and constraints are matched, every table
    belongs to the project's user, that user can connect, and the backup
    carried the full set of baselines; when everything it carried matches
    but the set was not full the verdict is partial, otherwise failed.  A
    failed query never counts as a match. *)
Theorem verifyRestore_verdict counts restored_objects foreign can_connect m :
  let state := (verifyRestore counts restored_objects foreign can_connect m).2 in
  let passes := restore_passes counts restored_objects foreign can_connect m in
  let full := m_TablesTruncated m = false ∧ m_Objects m ≠ None in
  (state = VerificationVerified ↔ passes ∧ full) ∧
  (state = VerificationPartial ↔ passes ∧ ¬ full) ∧
  (state = VerificationFailed ↔ ¬ passes).
Proof.
  cbv zeta. set (full := m_TablesTruncated m = false ∧ m_Objects m ≠ None).
  unfold verifyRestore. cbn [snd]. set (checks := _ ++ _). set (fullb := negb (m_TablesTruncated m) && _).
  assert (fullb = true ↔ full) as Hfull.
  { unfold fullb, full. rewrite andb_true_iff, negb_true_iff. destruct (m_Objects m); intuition congruence. }
  assert (forallb check_ok checks = true ↔ restore_passes counts restored_objects foreign can_connect m) as Hpass.
  { unfold checks, restore_passes. rewrite !forallb_app, !andb_true_iff, table_checks_pass. cbn [forallb].
    assert (forallb check_ok (match m_Objects m with None => _ | Some o => objects_checks restored_objects o end) = true ↔
      ∀ o, m_Objects m = Some o → restored_objects = Some o) as ->.
    { destruct (m_Objects m) as [o|]; [|split; [intros _ ? [=]|intros _; reflexivity]].
      unfold objects_checks, object_check, check_ok. simpl. destruct restored_objects as [c|]; simpl.
      - rewrite !andb_true_iff, !Z.eqb_eq. destruct c, o; simpl. split.
        + intros (-> & -> & -> & -> & -> & _) ? [= <-]. done.
        + intros H. by injection (H _ eq_refl) as -> -> -> -> ->.
      - split; [done|]. intros H. by specialize (H _ eq_refl). }
    unfold check_ok, owner_check, permission_check.
    destruct (m_Tables m), (m_TablesTruncated m); simpl; destruct foreign as [n|]; destruct can_connect as [[|]|]; simpl;
      rewrite ?andb_true_r, ?Z.eqb_eq, ?andb_false_r; intuition congruence. }
  set (passes := restore_passes _ _ _ _ m) in *. clearbody fullb full passes checks.
  assert (VerificationVerified ≠ VerificationPartial ∧ VerificationVerified ≠ VerificationFailed ∧
    VerificationPartial ≠ VerificationFailed) as (N1 & N2 & N3) by done.
  destruct (forallb check_ok checks), fullb; cbn [negb]; intuition congruence.
Qed.
