(* ===== verification/Postgres.v ===== *)
(** * The management connection ([internal/postgres/management.go])

    Creating, limiting, freezing and dropping project roles and databases,
    over any [Server].  Deadlines and the identifier quoting of [pgx] have no
    counterpart: the names passed are checked against [namePattern] first,
    which quoting leaves as they are. *)

From S2P Require Import Prelude GoStrings GoTime Storage Schema Cluster JobStore ProjectStore World Wp.

(** ** Patterns *)

(** [^app_[a-f0-9]{12}$] *)
Definition is_hex (a : ascii) : bool :=
  is_digit a || ((97 <=? nat_of_ascii a)%nat && (nat_of_ascii a <=? 102)%nat).
Definition ValidName (name : string) : bool :=
  has_prefix name "app_" && (slen name =? 16)%nat && sforall is_hex (sdrop 4 name).

(** [^[A-Za-z0-9_-]{32,64}$] *)
Definition is_password_byte (a : ascii) : bool :=
  is_digit a || is_lower a || ((65 <=? nat_of_ascii a)%nat && (nat_of_ascii a <=? 90)%nat) ||
  bool_decide (a = "_"%char) || bool_decide (a = "-"%char).
Definition passwordPattern (p : string) : bool :=
  (32 <=? slen p)%nat && (slen p <=? 64)%nat && sforall is_password_byte p.

(** [^(-1|[0-9]{1,10}(ms|kB))$] *)
Definition settingValue (v : string) : bool :=
  bool_decide (v = "-1") ||
  ((has_suffix v "ms" || has_suffix v "kB") && (3 <=? slen v)%nat && (slen v <=? 12)%nat &&
   sforall is_digit (stake (slen v - 2) v)).

(** ** Limits as role settings *)

Definition limit_keys : list string :=
  ["statement_timeout"; "idle_in_transaction_session_timeout"; "temp_file_limit"; "lock_timeout"].

Definition LimitSettings (statementMS idleMS tempKB lockMS : Z) : gmap string string :=
  list_to_map [("statement_timeout", decimal statementMS +:+ "ms");
               ("idle_in_transaction_session_timeout", decimal idleMS +:+ "ms");
               ("temp_file_limit", if tempKB =? -1 then "-1" else decimal tempKB +:+ "kB");
               ("lock_timeout", decimal lockMS +:+ "ms")].
Definition limit_settings (l : Limits) : gmap string string :=
  LimitSettings (l_StatementTimeoutMS l) (l_IdleInTransactionMS l) (l_TempFileLimitKB l) (l_LockTimeoutMS l).

(** [strings.Cut(item, "=")] *)
Definition cut_setting (item : string) : option (string * string) :=
  match split_on "="%char item with
  | k :: _ :: _ => Some (k, sdrop (slen k + 1) item)
  | _ => None
  end.
Definition settingsMap (config : list string) : gmap string string :=
  fold_left (λ out item, match cut_setting item with Some (k, v) => <[k := v]> out | None => out end) config ∅.

Record RoleState := mkRoleState {
  rs_Settings : gmap string string;
  rs_ConnectionLimit : Z;
  rs_DatabaseSettings : gmap string string;
}.

(** ** Connection budget *)

Record RoleUse := mkRoleUse { ru_Role : string; ru_Limit : Z; ru_Connections : Z }.
Record Budget := mkBudget {
  bu_MaxConnections : Z;
  bu_SuperuserReserved : Z;
  bu_Reserved : Z;
  bu_Available : Z;
  bu_ProjectsUsed : Z;
  bu_ProjectsLimit : Z;
  bu_Roles : list RoleUse;
  bu_System : list RoleUse;
  bu_OtherUsed : Z;
}.
#[export] Instance eta_Budget : Eta Budget := λ b,
  mkBudget (bu_MaxConnections b) (bu_SuperuserReserved b) (bu_Reserved b) (bu_Available b) (bu_ProjectsUsed b)
    (bu_ProjectsLimit b) (bu_Roles b) (bu_System b) (bu_OtherUsed b).

Definition system_role (name : string) : bool := bool_decide (name = "pgfy_mgmt") || bool_decide (name = "pgfy_health").

(** One row of the budget query. *)
Definition budget_row (b : Budget) (u : RoleUse) : Budget :=
  if ValidName (ru_Role u) then
    b <| bu_Roles := bu_Roles b ++ [u] |> <| bu_ProjectsUsed := bu_ProjectsUsed b + ru_Connections u |>
      <| bu_ProjectsLimit := bu_ProjectsLimit b + (if 0 <? ru_Limit u then ru_Limit u else 0) |>
  else b <| bu_System := bu_System b ++ [u] |>.

(** The rows the query reads, [ORDER BY r.rolname]. *)
Definition role_uses (c : Cluster) : list RoleUse :=
  sql_order (key_leb ru_Role String.leb)
    (map (λ '(n, r), mkRoleUse n (ro_ConnectionLimit r) (sql_count (λ s, bool_decide (ss_Role s = n)) (cl_Sessions c)))
       (List.filter (λ '(n, _), ValidName n || system_role n) (map_to_list (cl_Roles c)))).
Definition other_sessions (c : Cluster) : Z :=
  sql_count (λ s, negb (ValidName (ss_Role s)) && negb (system_role (ss_Role s))) (cl_Sessions c).

Definition NearLimit (used limit : Z) : bool := (0 <? limit) && (limit * 4 <=? used * 5).
Definition Warnings (b : Budget) : bool * list string :=
  (NearLimit (bu_ProjectsUsed b) (bu_Available b),
   map ru_Role (List.filter (λ u, NearLimit (ru_Connections u) (ru_Limit u)) (bu_Roles b ++ bu_System b))).

Section management.
Context {sv : Server}.

Abbreviation invalid what := (throw (Message what)).

(** ** Roles *)

Definition EnsureRole (name password : string) (connectionLimit : Z) : M unit :=
  if negb (ValidName name) || negb (passwordPattern password) then invalid "invalid role identity"
  else
    ask (λ c, cl_Roles c !! name) ≫= λ row,
    match row with
    | Some r =>
        if negb (ro_Login r) || ro_Super r || ro_CreateDB r || ro_CreateRole r then throw RoleMismatch
        else exec (AlterPassword name password)
    | None =>
        if (connectionLimit <? 1) || (100 <? connectionLimit) then invalid "invalid connection limit"
        else exec (CreateRole name password connectionLimit)
    end.

Definition SetPassword (role password : string) : M unit :=
  if negb (ValidName role) || negb (passwordPattern password) then invalid "invalid role identity"
  else exec (AlterPassword role password).

(** The statements of [ApplyLimits], or [None] when a value is not one a
    limit may have. *)
Fixpoint limit_statements (role : string) (settings : gmap string string) (keys : list string) : option (list statement) :=
  match keys with
  | [] => Some []
  | k :: ks =>
      match settings !! k with
      | Some v => if settingValue v then cons (AlterSet role k v) <$> limit_statements role settings ks else None
      | None => None
      end
  end.

Definition ApplyLimits (role : string) (settings : gmap string string) (connectionLimit : Z) : M unit :=
  if negb (ValidName role) || (connectionLimit <? 1) || (100 <? connectionLimit) then invalid "invalid role limits"
  else
    match limit_statements role settings limit_keys with
    | None => invalid "invalid role limits"
    | Some sts => transact (sts ++ [AlterConnectionLimit role connectionLimit])
    end.

Fixpoint reset_keys (role database : string) (keys : list string) : M unit :=
  match keys with
  | [] => mret tt
  | k :: ks =>
      match LimitSettings 0 0 (-1) 0 !! k with
      | None => invalid "invalid setting"
      | Some _ => exec (AlterResetIn role database k) ≫= λ _, reset_keys role database ks
      end
  end.
Definition ResetDatabaseLimits (role database : string) (keys : list string) : M unit :=
  if negb (ValidName role) || negb (ValidName database) then invalid "invalid role identity"
  else reset_keys role database keys.

(** The [setconfig] array of a settings map. *)
Definition setconfig (m : gmap string string) : list string := map (λ '(k, v), k +:+ "=" +:+ v) (map_to_list m).
Definition role_rows (c : Cluster) : list (string * Z * list string * list string) :=
  map (λ '(n, r), (n, ro_ConnectionLimit r, setconfig (ro_Settings r),
                   match cl_Databases c !! n with
                   | Some _ => setconfig (default ∅ (ro_DatabaseSettings r !! n))
                   | None => []
                   end))
    (List.filter (λ '(n, _), ValidName n) (map_to_list (cl_Roles c))).
Definition RoleStates : M (gmap string RoleState) :=
  ask role_rows ≫= λ rows,
  mret (list_to_map (map (λ '(n, limit, config, databaseConfig),
    (n, mkRoleState (settingsMap config) limit (settingsMap databaseConfig))) rows)).

Definition ConnectionBudget : M Budget :=
  ask (λ c, (cl_MaxConnections c, cl_SuperuserReserved c, cl_Reserved c)) ≫= λ '(m, su, re),
  let b := mkBudget m su re (m - su - re) 0 0 [] [] 0 in
  ask role_uses ≫= λ rows,
  let b := fold_left budget_row rows b in
  ask other_sessions ≫= λ other, mret (b <| bu_OtherUsed := other |>).

(** ** Databases *)

Definition EnsureDatabase (name owner : string) : M unit :=
  if negb (ValidName name) || negb (ValidName owner) then invalid "invalid database identity"
  else
    ask (λ c, d_Owner <$> cl_Databases c !! name) ≫= λ existing,
    match existing with
    | Some o => if negb (bool_decide (o = owner)) then throw OwnerMismatch else mret tt
    | None => exec (CreateDatabase name owner)
    end ≫= λ _,
    exec (RevokePublic name).

Definition TerminateSessions (database role : string) : M unit := exec (TerminateRoleOn database role).

Definition read_only_key : string := "default_transaction_read_only".
Definition SetWritesFrozen (database role : string) (frozen : bool) : M unit :=
  if negb (ValidName database) || negb (ValidName role) then invalid "invalid project identity"
  else
    exec (if frozen then AlterSet role read_only_key "on" else AlterReset role read_only_key) ≫= λ _,
    TerminateSessions database role.

(** Whether the role, and the database, are this installation's. *)
Definition ours (role database : string) (c : Cluster) : bool * bool :=
  (match cl_Roles c !! role with Some r => ro_Member r | None => false end,
   match cl_Databases c !! database with Some d => bool_decide (d_Owner d = role) | None => false end).

Definition DropProject (database role : string) : M unit :=
  if negb (ValidName database) || negb (ValidName role) then invalid "invalid project identity"
  else
    ask (ours role database) ≫= λ found,
    let (mine, ownedDatabase) := (found : bool * bool) in
    (if mine then wrap "logins could not be disabled" (exec (AlterNoLogin role)) else mret tt) ≫= λ _,
    wrap "sessions could not be ended" (exec (TerminateRole role)) ≫= λ _,
    (if ownedDatabase then wrap "the database could not be dropped" (exec (DropDatabaseForce database)) else mret tt) ≫= λ _,
    (if mine then wrap "the database user could not be dropped" (exec (DropRole role)) else mret tt).
End management.

(** ** Dropping a project touches nothing else *)

Section drop.
Context {sv : Server} {laws : ServerLaws sv} (database role : string).

(** [c] came from [c0] by changes to [role], if it is ours, and to
    [database], if [role] owns it. *)
Definition drop_frame (c0 c : Cluster) : Prop :=
  (∀ n, n ≠ role ∨ (ours role database c0).1 = false → cl_Roles c !! n = cl_Roles c0 !! n) ∧
  (∀ n, n ≠ database ∨ (ours role database c0).2 = false → cl_Databases c !! n = cl_Databases c0 !! n).

Lemma drop_frame_refl c : drop_frame c c.
Proof. by split. Qed.
Lemma drop_frame_nologin c0 c c' :
  drop_frame c0 c → (ours role database c0).1 = true → effect (AlterNoLogin role) c = Some c' →
  drop_frame c0 c' ∧ cl_Databases c' = cl_Databases c ∧ is_Some (cl_Roles c' !! role).
Proof.
  intros [Hr Hd] Ho. simpl. unfold alter. destruct (cl_Roles c !! role) as [x|] eqn:E; [|done]. intros [= <-].
  split; [split; [|exact Hd]|split; [done|]].
  - intros n Hn. cbn. rewrite lookup_insert_ne; [by apply Hr|]. destruct Hn as [Hn|Hn]; congruence.
  - cbn. rewrite lookup_insert_eq. eauto.
Qed.
Lemma drop_frame_database c0 c c' :
  drop_frame c0 c → (ours role database c0).2 = true → effect (DropDatabaseForce database) c = Some c' →
  drop_frame c0 c' ∧ cl_Roles c' = cl_Roles c ∧ cl_Databases c' !! database = None.
Proof.
  intros [Hr Hd] Ho. simpl. destruct (cl_Databases c !! database) as [x|] eqn:E; [|done]. intros [= <-].
  split; [split; [exact Hr|]|split; [done|]].
  - intros n Hn. cbn. rewrite lookup_delete_ne; [by apply Hd|]. destruct Hn as [Hn|Hn]; congruence.
  - cbn. apply lookup_delete_eq.
Qed.
Lemma drop_frame_role c0 c c' :
  drop_frame c0 c → (ours role database c0).1 = true → effect (DropRole role) c = Some c' →
  drop_frame c0 c' ∧ cl_Databases c' = cl_Databases c ∧ cl_Sessions c' = cl_Sessions c ∧ cl_Roles c' !! role = None.
Proof.
  intros [Hr Hd] Ho. simpl. destruct (cl_Roles c !! role) as [x|] eqn:E; [|done].
  destruct (owns_database c role); [done|]. intros [= <-].
  split; [split; [|exact Hd]|split; [done|split; [done|]]].
  - intros n Hn. cbn. rewrite lookup_delete_ne; [by apply Hr|]. destruct Hn as [Hn|Hn]; congruence.
  - cbn. apply lookup_delete_eq.
Qed.

Definition no_sessions (c : Cluster) : Prop := ∀ s, In s (cl_Sessions c) → ss_Role s ≠ role.
Lemma no_sessions_terminated c : no_sessions (c <| cl_Sessions := List.filter (λ s, negb (bool_decide (ss_Role s = role))) (cl_Sessions c) |>).
Proof. intros s. cbn. rewrite filter_In. intros [_ H]. by bool_simpl. Qed.

(** What a completed drop leaves. *)
Definition dropped (c0 c : Cluster) : Prop :=
  drop_frame c0 c ∧ no_sessions c ∧
  ((ours role database c0).1 = true → cl_Roles c !! role = None) ∧
  ((ours role database c0).2 = true → cl_Databases c !! database = None).

(** Afterwards neither is ours. *)
Lemma dropped_ours c0 c : dropped c0 c → ours role database c = (false, false).
Proof.
  intros ([Fr Fd] & _ & Hr & Hd). destruct (ours role database c0) as [mine owned] eqn:Eo. unfold ours in *. cbn in *.
  f_equal.
  - destruct mine; [by rewrite (Hr eq_refl)|]. rewrite (Fr role) by (by right). congruence.
  - destruct owned; [by rewrite (Hd eq_refl)|]. rewrite (Fd database) by (by right). congruence.
Qed.

Lemma DropProject_wp d b p :
  wp (DropProject database role)
    (λ r d' b' p', d' = d ∧ b' = b ∧ drop_frame p p' ∧ (r = Ok tt → dropped p p')) d b p.
Proof using laws.
  unfold DropProject. destruct (_ || _); [wp_step; split_and!; auto using drop_frame_refl; discriminate|].
  wp_step. wp_step; [|split_and!; auto using drop_frame_refl; discriminate]. destruct (ours role database p) as [mine owned] eqn:Eo.
  assert (∀ (e : werror) p', drop_frame p p' → d = d ∧ b = b ∧ drop_frame p p' ∧ (Err e = Ok tt → dropped p p')) as Herr
    by (intros; by split_and!).
  wp_step. eapply (wp_mono _ (λ r d' b' p', d' = d ∧ b' = b ∧ drop_frame p p')).
  { destruct mine; [|wp_step; split_and!; auto using drop_frame_refl; congruence]. wp_step. wp_step.
    - split; [done|]. split; [done|]. eapply drop_frame_nologin; [apply drop_frame_refl|by rewrite Eo|done].
    - split; [done|]. split; [done|]. destruct H as [->|H]; [apply drop_frame_refl|].
      eapply drop_frame_nologin; [apply drop_frame_refl|by rewrite Eo|done]. }
  intros [[]|e] ? ? p1 (-> & -> & F1); [|by apply Herr].
  wp_step. wp_step. wp_step; [injection H as <-|destruct H as [->|H]; [by apply Herr|injection H as <-; by apply Herr]].
  wp_step. eapply (wp_mono _ (λ r d' b' p', d' = d ∧ b' = b ∧ drop_frame p p' ∧ no_sessions p' ∧
    (r = Ok tt → owned = true → cl_Databases p' !! database = None))).
  { pose proof (no_sessions_terminated p1) as Hns.
    set (p2 := p1 <| cl_Sessions := _ |>) in *. assert (drop_frame p p2) as F2 by exact F1.
    destruct owned; [|wp_step; split_and!; auto using drop_frame_refl; congruence]. wp_step.
    assert (∀ p', effect (DropDatabaseForce database) p2 = Some p' →
      drop_frame p p' ∧ no_sessions p' ∧ cl_Databases p' !! database = None) as Hdrop.
    { intros p' H. destruct (drop_frame_database p p2 p' F2 (ltac:(by rewrite Eo)) H) as (F3 & _ & H3).
      split; [done|]. split; [|done]. cbn [effect] in H. destruct (cl_Databases p2 !! database); [|done].
      injection H as <-. intros s. cbn. rewrite filter_In. intros [Hs _]. by apply Hns. }
    wp_step.
    - apply Hdrop in H as (? & ? & ?). by split_and!.
    - destruct H as [->|(? & ? & ?)%Hdrop]; by split_and!. }
  intros [[]|e] ? ? p3 (-> & -> & F3 & N3 & D3); [|by apply Herr].
  assert (dropped p p3 ∨ mine = true) as Hd.
  { destruct mine; [by right|]. left. split; [done|]. split; [done|]. rewrite Eo. split; [done|]. intros ?. by apply D3. }
  destruct mine; [|wp_step; destruct Hd as [Hd|?]; [by split_and!|done]].
  assert (∀ p', effect (DropRole role) p3 = Some p' → dropped p p') as Hrole.
  { intros p' H. destruct (drop_frame_role p p3 p' F3 (ltac:(by rewrite Eo)) H) as (F4 & HD & HS & H4). split; [done|].
    split; [unfold no_sessions; by rewrite HS|]. split; [done|]. rewrite Eo, HD. intros ?. by apply D3. }
  wp_step. wp_step; [apply Hrole in H; split_and!; [done|done|apply H|done]|].
  destruct H as [->|[F4 _]%Hrole]; by apply Herr.
Qed.
End drop.

(** C13. Removing a project from PostgreSQL is exact, under every schedule of
    failures: no other role or database is ever changed, a role this
    installation is not a member of and a database another role owns (a name
    that collided) are left alone, and when it reports success the role, its
    sessions and its database are gone. *)
Theorem DropProject_exact {sv : Server} {laws : ServerLaws sv} database role w :
  let (r, w') := DropProject database role w in
  let (mine, owned) := ours role database (w_pg w) in
  w_db w' = w_db w ∧ w_bucket w' = w_bucket w ∧
  (∀ n, n ≠ role ∨ mine = false → cl_Roles (w_pg w') !! n = cl_Roles (w_pg w) !! n) ∧
  (∀ n, n ≠ database ∨ owned = false → cl_Databases (w_pg w') !! n = cl_Databases (w_pg w) !! n) ∧
  (r = Ok tt →
    (mine = true → cl_Roles (w_pg w') !! role = None) ∧
    (owned = true → cl_Databases (w_pg w') !! database = None) ∧
    ∀ s, In s (cl_Sessions (w_pg w')) → ss_Role s ≠ role).
Proof.
  destruct (DropProject database role w) as [r w'] eqn:E.
  pose proof (wp_run _ _ _ _ _ (DropProject_wp database role (w_db w) (w_bucket w) (w_pg w)) E) as (Hd & Hb & [Fr Fd] & Hok).
  unfold drop_frame in *. destruct (ours role database (w_pg w)) as [mine owned] eqn:Eo.
  split_and!; [done..|]. intros (_ & Hs & Hr & Hdb)%Hok. rewrite Eo in Hr, Hdb. done.
Qed.

Definition shop : string := "app_0123456789ab".
Definition shop_cluster : Cluster :=
  empty_cluster <| cl_Roles := <[shop := mkRole true false false false true "pw" 25 ∅ ∅]> ∅ |>
    <| cl_Databases := <[shop := mkDatabase shop false]> (<["other" := mkDatabase "someone" false]> ∅) |>
    <| cl_Sessions := [mkSession' shop shop; mkSession' "other" "someone"] |>.

Lemma DropProject_exact_witness :
  let w := mkWorld empty_db ∅ shop_cluster [] [] [] in
  let (r, w') := DropProject shop shop w in
  r = Ok tt ∧ cl_Roles (w_pg w') !! shop = None ∧ cl_Databases (w_pg w') !! "other" = Some (mkDatabase "someone" false).
Proof.
  cbv zeta. pose proof (DropProject_exact shop shop (mkWorld empty_db ∅ shop_cluster [] [] [])) as H.
  destruct (DropProject shop shop _) as [r w'] eqn:E. destruct (ours shop shop _) as [mine owned] eqn:Eo.
  vm_compute in Eo. injection Eo as <- <-. destruct H as (_ & _ & _ & Hother & Hok).
  assert (r = Ok tt) as -> by (vm_compute in E; by injection E). split; [done|]. split; [by apply Hok|].
  rewrite Hother by (left; discriminate). vm_compute. reflexivity.
Defined.

(** ** Limits survive the trip through [pg_db_role_setting] *)

Lemma cut_setting_app k v : contains_byte "="%char k = false → cut_setting (k +:+ "=" +:+ v) = Some (k, v).
Proof.
  intros Hk. unfold cut_setting. change ("=" +:+ v) with (String "="%char v). rewrite split_on_app by done.
  pose proof (split_on_not_nil "="%char v) as Hne. destruct (split_on "="%char v); [done|]. do 2 f_equal.
  change (String "="%char v) with ("=" +:+ v). rewrite <- app_assoc'.
  replace (slen k + 1)%nat with (slen (k +:+ "=")); [apply sdrop_app|]. by rewrite slen_app.
Qed.

Lemma fold_insert_lookup (l : list (string * string)) out k :
  NoDup l.*1 →
  fold_left (λ m '(a, v), <[a := v]> m) l out !! k =
    match (list_to_map l : gmap string string) !! k with Some v => Some v | None => (out : gmap string string) !! k end.
Proof.
  revert out. induction l as [|[a v] l IH]; intros out; [done|]. cbn [fold_left list_to_map foldr fmap list_fmap]. intros Hn.
  apply NoDup_cons in Hn as [Ha Hn]. rewrite IH by done. cbn [list_to_map foldr uncurry].
  destruct (decide (a = k)) as [<-|Hne].
  - rewrite (not_elem_of_list_to_map_1 l) by done. cbn. by rewrite !lookup_insert_eq.
  - cbn. by rewrite !lookup_insert_ne.
Qed.

(** A setting's name has no equals sign. *)
Definition plain_names (m : gmap string string) : Prop := ∀ k v, m !! k = Some v → contains_byte "="%char k = false.

Lemma settingsMap_setconfig m k : plain_names m → settingsMap (setconfig m) !! k = m !! k.
Proof.
  intros Hp. unfold settingsMap, setconfig.
  assert (∀ l out, (∀ x, In x l → contains_byte "="%char x.1 = false) →
    fold_left (λ (out : gmap string string) item,
      match cut_setting item with Some (k, v) => <[k := v]> out | None => out end) (map (λ '(k, v), k +:+ "=" +:+ v) l) out =
    fold_left (λ m '(a, v), <[a := v]> m) l out) as Hl.
  { induction l as [|[a v] l IH]; intros out H; [done|]. cbn [map fold_left].
    rewrite cut_setting_app by (apply (H (a, v)); by left). apply IH. intros; apply H; by right. }
  rewrite Hl.
  - rewrite fold_insert_lookup by apply NoDup_fst_map_to_list. rewrite list_to_map_to_list. by destruct (m !! k).
  - intros [a v] H%list_elem_of_In%elem_of_map_to_list. by eapply Hp.
Qed.

(** What setting keys one after another leaves. *)
Definition set_keys (settings : gmap string string) (keys : list string) (m : gmap string string) : gmap string string :=
  fold_left (λ m k, match settings !! k with Some v => <[k := v]> m | None => m end) keys m.

#[global] Arguments set_keys : simpl never.

Lemma set_keys_lookup settings keys m k : (∀ k, In k keys → is_Some (settings !! k)) →
  set_keys settings keys m !! k = if bool_decide (k ∈ keys) then settings !! k else m !! k.
Proof.
  unfold set_keys. revert m. induction keys as [|a keys IH]; intros m Hs; [done|]. cbn [fold_left].
  destruct (Hs a) as [v Hv]; [by left|]. rewrite Hv, IH by (intros; apply Hs; by right).
  repeat case_bool_decide; try done.
  - exfalso. apply H0. by right.
  - destruct (decide (k = a)) as [->|Hne]; [by rewrite lookup_insert_eq|]. exfalso. apply H.
    apply elem_of_cons in H0 as [?|?]; done.
  - rewrite lookup_insert_ne; [done|]. intros ->. apply H0. by left.
Qed.

Definition with_role (role : string) (r : Role) (c : Cluster) : Cluster := c <| cl_Roles := <[role := r]> (cl_Roles c) |>.
Lemma with_role_id role r c : cl_Roles c !! role = Some r → with_role role r c = c.
Proof. intros H. unfold with_role. unfold upd. destruct c. cbn in *. by rewrite insert_id. Qed.

Lemma effects_limits role settings keys sts rest c r :
  limit_statements role settings keys = Some sts → cl_Roles c !! role = Some r →
  effects (sts ++ rest) c = effects rest (with_role role (r <| ro_Settings := set_keys settings keys (ro_Settings r) |>) c).
Proof.
  revert sts c r. induction keys as [|k keys IH]; intros sts c r; cbn [limit_statements].
  - intros [= <-] Hr. cbn. f_equal. symmetry. rewrite with_role_id; [done|]. rewrite Hr. by destruct r.
  - destruct (settings !! k) as [v|] eqn:Ev; [|done]. destruct (settingValue v); [|done].
    destruct (limit_statements role settings keys) as [sts'|] eqn:El; [|done]. intros [= <-] Hr. cbn [app effects effect].
    unfold alter. rewrite Hr. erewrite IH; [|done|cbn; by rewrite lookup_insert_eq].
    f_equal. unfold with_role, set_keys, upd. cbn. rewrite insert_insert_eq. unfold set_keys. cbn. by rewrite Ev.
Qed.
Lemma effects_limits_absent role settings keys sts rest c :
  limit_statements role settings keys = Some sts → sts ≠ [] → cl_Roles c !! role = None → effects (sts ++ rest) c = None.
Proof.
  destruct keys as [|k keys]; cbn [limit_statements]; [by intros [= <-]|].
  destruct (settings !! k) as [v|]; [|done]. destruct (settingValue v); [|done].
  destruct (limit_statements role settings keys); [|done]. intros [= <-] _ Hr. cbn. unfold alter. by rewrite Hr.
Qed.

Lemma limit_statements_keys role settings keys sts :
  limit_statements role settings keys = Some sts → length sts = length keys ∧ ∀ k, In k keys → is_Some (settings !! k).
Proof.
  revert sts. induction keys as [|k keys IH]; intros sts; cbn [limit_statements]; [by intros [= <-]|].
  destruct (settings !! k) as [v|] eqn:Ev; [|done]. destruct (settingValue v); [|done].
  destruct (limit_statements role settings keys) as [sts'|]; [|done]. intros [= <-].
  destruct (IH sts' eq_refl) as [Hl Hk]. split; [by cbn; f_equal|]. intros k' [<-|Hin]; eauto.
Qed.

(** The role after its guardrails were applied. *)
Definition limited (settings : gmap string string) (n : Z) (r : Role) : Role :=
  r <| ro_Settings := set_keys settings limit_keys (ro_Settings r) |> <| ro_ConnectionLimit := n |>.

(** All of the guardrails or none; nothing but the role changes, and of the
    role only the limit keys and the connection limit. *)
Lemma ApplyLimits_wp {sv : Server} {laws : ServerLaws sv} role settings n d b p :
  wp (ApplyLimits role settings n)
    (λ r d' b' p', d' = d ∧ b' = b ∧
       ((∃ r0, cl_Roles p !! role = Some r0 ∧ p' = with_role role (limited settings n r0) p ∧
           (∀ k, In k limit_keys → is_Some (settings !! k))) ∨
        (p' = p ∧ is_ok r = false))) d b p.
Proof.
  unfold ApplyLimits. destruct (_ || _ || _); [wp_step; split_and!; auto|].
  destruct (limit_statements role settings limit_keys) as [sts|] eqn:El; [|wp_step; split_and!; auto].
  pose proof (limit_statements_keys _ _ _ _ El) as [Hlen Hkeys].
  assert (∀ p', effects (sts ++ [AlterConnectionLimit role n]) p = Some p' →
    ∃ r0, cl_Roles p !! role = Some r0 ∧ p' = with_role role (limited settings n r0) p ∧
      (∀ k, In k limit_keys → is_Some (settings !! k))) as Hdone.
  { intros p' He. destruct (cl_Roles p !! role) as [r0|] eqn:Er.
    - exists r0. split; [done|]. split; [|done]. erewrite effects_limits in He by done. cbn in He. unfold alter in He.
      cbn in He. rewrite lookup_insert_eq in He. injection He as <-. unfold with_role, limited, upd. cbn.
      by rewrite insert_insert_eq.
    - erewrite effects_limits_absent in He; [done|done| |done]. by destruct sts. }
  wp_step.
  - split_and!; auto.
  - split_and!; [done|done|]. destruct H as [->|H]; auto.
Qed.

(** Limits an operator may save are accepted by the checks here. *)
Lemma decimal_short n : 0 ≤ n < 10 ^ 10 → (1 ≤ slen (decimal n) ≤ 10)%nat ∧ sforall is_digit (decimal n) = true.
Proof.
  intros Hn. unfold decimal, pad. destruct (Z.ltb_spec n 0); [lia|]. rewrite app_nil_l'. cbn [String.length].
  rewrite sforall_digits, slen_digits. split; [|done].
  assert (∀ fuel m k, 0 ≤ m < 10 ^ Z.of_nat (S k) → (decimal_width fuel m ≤ S k)%nat) as Hw.
  { induction fuel as [|fuel IH]; intros m k Hm; cbn [decimal_width]; [lia|]. destruct (Z.ltb_spec m 10); [lia|].
    destruct k as [|k]; [simpl in Hm; lia|]. apply le_n_S, IH. rewrite Nat2Z.inj_succ, Z.pow_succ_r in Hm by lia.
    split; [apply Z.div_pos; lia|]. apply Z.div_lt_upper_bound; lia. }
  specialize (Hw (Z.to_nat (Z.log2 (Z.abs n)) + 1)%nat (Z.abs n) 9%nat). lia.
Qed.

Lemma settingValue_unit n u : 0 ≤ n < 10 ^ 10 → u = "ms" ∨ u = "kB" → settingValue (decimal n +:+ u) = true.
Proof.
  intros [Hl Hd]%decimal_short Hu. unfold settingValue. apply orb_true_iff. right.
  rewrite slen_app. assert (slen u = 2%nat) as Eu by (by destruct Hu as [->| ->]). rewrite Eu.
  replace (slen (decimal n) + 2 - 2)%nat with (slen (decimal n)) by lia. rewrite stake_app, Hd.
  repeat (apply andb_true_iff; split); try (apply Nat.leb_le; lia); try done.
  apply orb_true_iff. destruct Hu as [->| ->]; [left|right]; apply has_suffix_app.
Qed.

Lemma valid_limits_accepted role l : Limits_Validate l = Ok tt → is_Some (limit_statements role (limit_settings l) limit_keys).
Proof.
  unfold Limits_Validate. rewrite !guard_ok. intros (Hs & Hi & Hl & Ht & _). unfold timeout_ok in *.
  assert (∀ v, (v =? 0) || negb ((v <? 1000) || (86400000 <? v)) = true → settingValue (decimal v +:+ "ms") = true) as Hv.
  { intros v H. apply settingValue_unit; [|by left]. lia. }
  assert (settingValue (if l_TempFileLimitKB l =? -1 then "-1" else decimal (l_TempFileLimitKB l) +:+ "kB") = true) as Hk.
  { destruct (l_TempFileLimitKB l =? -1) eqn:E; [done|]. apply settingValue_unit; [lia|by right]. }
  unfold limit_keys. cbn [limit_statements].
  replace (limit_settings l !! "statement_timeout") with (Some (decimal (l_StatementTimeoutMS l) +:+ "ms")) by reflexivity.
  replace (limit_settings l !! "idle_in_transaction_session_timeout")
    with (Some (decimal (l_IdleInTransactionMS l) +:+ "ms")) by reflexivity.
  replace (limit_settings l !! "temp_file_limit")
    with (Some (if l_TempFileLimitKB l =? -1 then "-1" else decimal (l_TempFileLimitKB l) +:+ "kB")) by reflexivity.
  replace (limit_settings l !! "lock_timeout") with (Some (decimal (l_LockTimeoutMS l) +:+ "ms")) by reflexivity.
  rewrite Hk, !Hv by done. eauto.
Qed.
