(* ===== verification/Netip.v ===== *)
(** * IP addresses and prefixes (Go's [net/netip], as [internal/hba] uses it)

    Parsing, masking and printing of addresses and CIDR prefixes.  An address
    is its value as an integer of 32 or 128 bits. *)

From S2P Require Import Prelude GoStrings.

Inductive Addr := V4 (a : Z) | V6 (a : Z) (zone : string).
Record Prefix := mkPrefix { px_Addr : Addr; px_Bits : Z }.

Definition BitLen (a : Addr) : Z := match a with V4 _ => 32 | V6 _ _ => 128 end.

(** ** IPv4 *)

Fixpoint decimal_value (acc : Z) (s : string) : Z :=
  match s with "" => acc | String c r => decimal_value (acc * 10 + digit_value c) r end.

(** One field: digits only, no leading zero, at most 255. *)
Definition parse_octet (s : string) : option Z :=
  if negb (bool_decide (s = "")) && sforall is_digit s && ((slen s =? 1)%nat || negb (has_prefix s "0")) &&
     (slen s <=? 3)%nat && (decimal_value 0 s <=? 255)
  then Some (decimal_value 0 s) else None.

Definition parseIPv4Fields (s : string) : option (Z * Z * Z * Z) :=
  match split_on "."%char s with
  | [a; b; c; d] =>
      match parse_octet a, parse_octet b, parse_octet c, parse_octet d with
      | Some a, Some b, Some c, Some d => Some (a, b, c, d)
      | _, _, _, _ => None
      end
  | _ => None
  end.
Definition parseIPv4 (s : string) : option Addr :=
  match parseIPv4Fields s with
  | Some (a, b, c, d) => Some (V4 (((a * 256 + b) * 256 + c) * 256 + d))
  | None => None
  end.

(** ** IPv6 *)

Definition hex_value (c : ascii) : option Z :=
  let n := Z.of_nat (nat_of_ascii c) in
  if (48 <=? n) && (n <=? 57) then Some (n - 48)
  else if (97 <=? n) && (n <=? 102) then Some (n - 87)
  else if (65 <=? n) && (n <=? 70) then Some (n - 55)
  else None.

(** The leading hex digits: how many, their value, what follows. *)
Fixpoint hex_prefix (off : nat) (acc : Z) (s : string) : nat * Z * string :=
  match s with
  | String c r => match hex_value c with Some v => hex_prefix (S off) (acc * 16 + v) r | None => (off, acc, s) end
  | "" => (off, acc, s)
  end.

(** The fields read so far, in order; where [::] stood; what is left. *)
Fixpoint parse_groups (room : nat) (s : string) (groups : list Z) (ellipsis : option nat) :
  option (list Z * option nat * string) :=
  match room with
  | O => Some (groups, ellipsis, s)
  | S room =>
      let '(off, acc, rest) := hex_prefix 0 0 s in
      if (4 <? off)%nat || (off =? 0)%nat then None
      else if has_prefix rest "." then
        if match ellipsis with None => negb (length groups =? 6)%nat | Some _ => false end then None
        else if (6 <? length groups)%nat then None
        else match parseIPv4Fields s with
             | Some (a, b, c, d) => Some (groups ++ [a * 256 + b; c * 256 + d], ellipsis, "")
             | None => None
             end
      else
        let groups := groups ++ [acc] in
        match rest with
        | "" => Some (groups, ellipsis, "")
        | String c r =>
            if negb (bool_decide (c = ":"%char)) then None
            else match r with
                 | "" => None
                 | String c' r' =>
                     if bool_decide (c' = ":"%char) then
                       match ellipsis with
                       | Some _ => None
                       | None =>
                           match r' with
                           | "" => Some (groups, Some (length groups), "")
                           | _ => parse_groups room r' groups (Some (length groups))
                           end
                       end
                     else parse_groups room r groups ellipsis
                 end
        end
  end.

Definition groups_value (groups : list Z) : Z := fold_left (λ acc g, acc * 65536 + g) groups 0.

(** [s] without its zone. *)
Definition parse6 (s : string) : option Z :=
  let '(s, ellipsis) := if has_prefix s "::" then (sdrop 2 s, Some 0%nat) else (s, None) in
  if bool_decide (s = "") && match ellipsis with Some _ => true | None => false end then Some 0
  else
    match parse_groups 8 s [] ellipsis with
    | Some (groups, ellipsis, "") =>
        match ellipsis with
        | None => if (length groups <? 8)%nat then None else Some (groups_value groups)
        | Some e =>
            if (length groups <? 8)%nat then
              Some (groups_value (take e groups ++ replicate (8 - length groups) 0 ++ drop e groups))
            else None
        end
    | _ => None
    end.

Definition parseIPv6 (s : string) : option Addr :=
  match split_on "%"%char s with
  | s' :: (_ :: _) =>
      let zone := sdrop (slen s' + 1) s in
      if bool_decide (zone = "") then None else (λ a, V6 a zone) <$> parse6 s'
  | _ => (λ a, V6 a "") <$> parse6 s
  end.

(** The first of [.], [:] and [%] decides the form. *)
Fixpoint first_mark (s : string) : option ascii :=
  match s with
  | "" => None
  | String c r => if bool_decide (c = "."%char) || bool_decide (c = ":"%char) || bool_decide (c = "%"%char)
                  then Some c else first_mark r
  end.
Definition ParseAddr (s : string) : option Addr :=
  match first_mark s with
  | Some c => if bool_decide (c = "."%char) then parseIPv4 s else if bool_decide (c = ":"%char) then parseIPv6 s else None
  | None => None
  end.

(** ** Prefixes *)

(** The bits after the slash: no sign, no leading zero. *)
Definition parse_bits (s : string) (max : Z) : option Z :=
  if negb (bool_decide (s = "")) && sforall is_digit s && ((slen s =? 1)%nat || negb (has_prefix s "0")) &&
     (slen s <=? 3)%nat && (decimal_value 0 s <=? max)
  then Some (decimal_value 0 s) else None.

Definition without_zone (a : Addr) : Addr := match a with V6 a _ => V6 a "" | a => a end.

Definition ParsePrefix (s : string) : option Prefix :=
  match split_last "/"%char s with
  | Some (address, bits) =>
      match ParseAddr address with
      | Some a =>
          if match a with V6 _ zone => negb (bool_decide (zone = "")) | V4 _ => false end then None
          else mkPrefix a <$> parse_bits bits (BitLen a)
      | None => None
      end
  | None => None
  end.
Definition PrefixFrom (a : Addr) (bits : Z) : Prefix := mkPrefix (without_zone a) bits.

Definition mask_bits (width bits a : Z) : Z := Z.shiftl (Z.shiftr a (width - bits)) (width - bits).
Definition Masked (p : Prefix) : Prefix :=
  mkPrefix (match px_Addr p with
            | V4 a => V4 (mask_bits 32 (px_Bits p) a)
            | V6 a z => V6 (mask_bits 128 (px_Bits p) a) z
            end) (px_Bits p).

Definition Is4In6 (a : Addr) : bool := match a with V6 a _ => Z.shiftr a 32 =? 65535 | V4 _ => false end.

(** ** Printing *)

Definition string4 (a : Z) : string :=
  decimal (Z.shiftr a 24 mod 256) +:+ "." +:+ decimal (Z.shiftr a 16 mod 256) +:+ "." +:+
  decimal (Z.shiftr a 8 mod 256) +:+ "." +:+ decimal (a mod 256).

Definition hex_char (n : Z) : ascii := ascii_of_nat (Z.to_nat (if n <? 10 then 48 + n else 87 + n)).
Definition hex16 (g : Z) : string :=
  let d k := String (hex_char (Z.shiftr g k mod 16)) "" in
  if 4096 <=? g then d 12 +:+ d 8 +:+ d 4 +:+ d 0
  else if 256 <=? g then d 8 +:+ d 4 +:+ d 0
  else if 16 <=? g then d 4 +:+ d 0
  else d 0.

Definition groups_of (a : Z) : list Z := map (λ i, Z.shiftr a (16 * (7 - Z.of_nat i)) mod 65536) (seq 0 8).

Fixpoint zeros (groups : list Z) : nat := match groups with g :: gs => if g =? 0 then S (zeros gs) else O | [] => O end.
(** The first of the longest runs of at least two zero groups. *)
Definition zero_run (groups : list Z) : option (nat * nat) :=
  fold_left (λ best i,
    let n := zeros (drop i groups) in
    if (2 <=? n)%nat && (match best with Some (s, e) => e - s | None => 0 end <? n)%nat then Some (i, i + n)%nat else best)
    (seq 0 8) None.
Definition string6 (a : Z) : string :=
  let groups := groups_of a in
  match zero_run groups with
  | None => join ":" (map hex16 groups)
  | Some (s, e) => join ":" (map hex16 (take s groups)) +:+ "::" +:+ join ":" (map hex16 (drop e groups))
  end.

(** An address without its zone; IPv4-mapped ones print their IPv4 part in dots. *)
Definition AddrString (a : Addr) : string :=
  match a with
  | V4 v => string4 v
  | V6 v _ => if Is4In6 a then "::ffff:" +:+ string4 (v mod 2 ^ 32) else string6 v
  end.
(** [Addr.String] *)
Definition AddrStringZone (a : Addr) : string :=
  match a with
  | V6 _ zone => if bool_decide (zone = "") then AddrString a else AddrString a +:+ "%" +:+ zone
  | V4 _ => AddrString a
  end.
(** [Prefix.Contains]: families must agree and an address with a zone is never contained. *)
Definition Contains (p : Prefix) (a : Addr) : bool :=
  match px_Addr p, a with
  | V4 x, V4 y => Z.shiftr (Z.lxor x y) (32 - px_Bits p) =? 0
  | V6 x _, V6 y zone => bool_decide (zone = "") && (Z.shiftr (Z.lxor x y) (128 - px_Bits p) =? 0)
  | _, _ => false
  end.
Definition PrefixString (p : Prefix) : string := AddrString (px_Addr p) +:+ "/" +:+ decimal (px_Bits p).

(** ** Examples of the documented forms *)

Example parse_v4 : ParsePrefix "10.1.2.3/8" = Some (mkPrefix (V4 167838211) 8).
Proof. vm_compute. reflexivity. Qed.
Example reject_v4 : map ParseAddr ["1.2.3"; "1.2.3.4.5"; "01.2.3.4"; "1.2.3.256"; "1..2.3"; "a.b.c.d"; ""; "1.2.3.4 "] = replicate 8 None.
Proof. vm_compute. reflexivity. Qed.
Example print_v6 :
  map (λ s, AddrString <$> ParseAddr s) ["::"; "::1"; "2001:DB8::"; "2001:db8:0:0:1:0:0:1"; "fe80::1%eth0"; "::ffff:1.2.3.4"; "1:2:3:4:5:6:7:8"] =
  [Some "::"; Some "::1"; Some "2001:db8::"; Some "2001:db8::1:0:0:1"; Some "fe80::1"; Some "::ffff:1.2.3.4"; Some "1:2:3:4:5:6:7:8"].
Proof. vm_compute. reflexivity. Qed.
Example reject_v6 : map ParseAddr [":::"; "1::2::3"; "12345::"; "1:2:3:4:5:6:7"; "1:2:3:4:5:6:7:8:9"; "::1%"; "%eth0"; "1:2:3:4:5:6:7::8"; ":1"] = replicate 9 None.
Proof. vm_compute. reflexivity. Qed.
Example masked_prefixes :
  map (λ s, PrefixString ∘ Masked <$> ParsePrefix s) ["10.1.2.3/8"; "0.0.0.0/0"; "2001:db8::1/32"; "1.2.3.4/33"; "1.2.3.4/+8"; "1.2.3.4/08"; "fe80::1%eth0/64"] =
  [Some "10.0.0.0/8"; Some "0.0.0.0/0"; Some "2001:db8::/32"; None; None; None; None].
Proof. vm_compute. reflexivity. Qed.
Example contains_examples :
  map (λ p, match ParsePrefix p.1, ParseAddr p.2 with Some x, Some a => Some (Contains x a) | _, _ => None end)
    [("10.0.0.0/8", "10.255.0.1"); ("10.0.0.0/8", "11.0.0.1"); ("10.0.0.0/8", "::ffff:10.0.0.1"); ("2001:db8::/32", "2001:db8:1::2"); ("0.0.0.0/0", "1.2.3.4")] =
  [Some true; Some false; Some false; Some true; Some true].
Proof. vm_compute. reflexivity. Qed.
