(* ===== verification/IP.v ===== *)
(** * Addresses as the dialler sees them (Go's [net.IP] and [net.IPNet])

    An address is its bytes, four or sixteen of them; [ParseIP] gives sixteen,
    with IPv4 in its mapped form. *)

From S2P Require Import Prelude GoStrings Sha Netip.

Definition IP : Type := list Z.

Definition byte_at (n : nat) (ip : IP) : Z := nth n ip 0.
Definition v4InV6Prefix : IP := replicate 10 0 ++ [255; 255].
Definition is_len (n : nat) (ip : IP) : bool := (length ip =? n)%nat.

Definition To4 (ip : IP) : option IP :=
  if is_len 4 ip then Some ip
  else if is_len 16 ip && bool_decide (take 12 ip = v4InV6Prefix) then Some (drop 12 ip)
  else None.

Definition Equal (ip x : IP) : bool :=
  if (length ip =? length x)%nat then bool_decide (ip = x)
  else if is_len 4 ip && is_len 16 x then bool_decide (x = v4InV6Prefix ++ ip)
  else if is_len 16 ip && is_len 4 x then bool_decide (ip = v4InV6Prefix ++ x)
  else false.

Definition IPv4zero : IP := v4InV6Prefix ++ [0; 0; 0; 0].
Definition IPv6unspecified : IP := replicate 16 0.
Definition IPv6loopback : IP := replicate 15 0 ++ [1].

Definition IsUnspecified (ip : IP) : bool := Equal ip IPv4zero || Equal ip IPv6unspecified.
Definition IsLoopback (ip : IP) : bool :=
  match To4 ip with Some ip4 => byte_at 0 ip4 =? 127 | None => Equal ip IPv6loopback end.
Definition IsPrivate (ip : IP) : bool :=
  match To4 ip with
  | Some ip4 =>
      (byte_at 0 ip4 =? 10) || ((byte_at 0 ip4 =? 172) && (Z.land (byte_at 1 ip4) 0xf0 =? 16)) ||
      ((byte_at 0 ip4 =? 192) && (byte_at 1 ip4 =? 168))
  | None => is_len 16 ip && (Z.land (byte_at 0 ip) 0xfe =? 0xfc)
  end.
Definition IsMulticast (ip : IP) : bool :=
  match To4 ip with
  | Some ip4 => Z.land (byte_at 0 ip4) 0xf0 =? 0xe0
  | None => is_len 16 ip && (byte_at 0 ip =? 0xff)
  end.
Definition IsLinkLocalMulticast (ip : IP) : bool :=
  match To4 ip with
  | Some ip4 => (byte_at 0 ip4 =? 224) && (byte_at 1 ip4 =? 0) && (byte_at 2 ip4 =? 0)
  | None => is_len 16 ip && (byte_at 0 ip =? 0xff) && (Z.land (byte_at 1 ip) 0x0f =? 0x02)
  end.
Definition IsLinkLocalUnicast (ip : IP) : bool :=
  match To4 ip with
  | Some ip4 => (byte_at 0 ip4 =? 169) && (byte_at 1 ip4 =? 254)
  | None => is_len 16 ip && (byte_at 0 ip =? 0xfe) && (Z.land (byte_at 1 ip) 0xc0 =? 0x80)
  end.

(** ** Networks *)

Record IPNet := mkIPNet { n_IP : IP; n_Mask : list Z }.

Definition NetContains (n : IPNet) (ip : IP) : bool :=
  let ip := default ip (To4 ip) in
  (length ip =? length (n_IP n))%nat &&
  forallb (λ p : (Z * Z) * Z, Z.land p.1.1 p.2 =? Z.land p.1.2 p.2) (combine (combine (n_IP n) ip) (n_Mask n)).

(** The bytes of a parsed address and the mask of a prefix length. *)
Definition addr_bytes (a : Addr) : list Z := match a with V4 v => be_bytes 4 v | V6 v _ => be_bytes 16 v end.
Definition ones (width bits : Z) : Z := 2 ^ width - 2 ^ (width - bits).
Definition net_of (p : Prefix) : IPNet :=
  let n := Masked p in
  mkIPNet (addr_bytes (px_Addr n)) (match px_Addr n with V4 _ => be_bytes 4 (ones 32 (px_Bits n)) | V6 _ _ => be_bytes 16 (ones 128 (px_Bits n)) end).

(** [net.ParseIP]: no zone, always sixteen bytes. *)
Definition ParseIP (s : string) : option IP :=
  match ParseAddr s with
  | Some (V4 v) => Some (v4InV6Prefix ++ be_bytes 4 v)
  | Some (V6 v zone) => if bool_decide (zone = "") then Some (be_bytes 16 v) else None
  | None => None
  end.

Example ip_examples :
  map (λ s, match ParseIP s with
            | Some ip => Some [IsUnspecified ip; IsLoopback ip; IsPrivate ip; IsMulticast ip; IsLinkLocalMulticast ip; IsLinkLocalUnicast ip]
            | None => None end)
    ["0.0.0.0"; "127.1.2.3"; "::ffff:10.0.0.1"; "172.31.0.1"; "172.32.0.1"; "224.0.0.7"; "ff02::1"; "169.254.169.254"; "febf::1"; "::1"; "fd00::1"; "::"; "fe80::1%eth0"] =
  let row a b c d e f := Some [a; b; c; d; e; f] in
  [row true false false false false false; row false true false false false false; row false false true false false false;
   row false false true false false false; row false false false false false false; row false false false true true false;
   row false false false true true false; row false false false false false true; row false false false false false true;
   row false true false false false false; row false false true false false false; row true false false false false false; None].
Proof. vm_compute. reflexivity. Qed.

(** ** Host and port *)

(** [net.SplitHostPort], its host. *)
Definition SplitHostPort (s : string) : option string :=
  match split_last ":"%char s with
  | None => None
  | Some (before, port) =>
      if has_prefix before "[" then
        match split_last "]"%char (sdrop 1 before) with
        | Some (host, "") =>
            if contains_byte "["%char (sdrop 1 s) || contains_byte "]"%char (host +:+ port) then None else Some host
        | _ => None
        end
      else if contains_byte ":"%char before || contains_byte "["%char s || contains_byte "]"%char s then None
      else Some before
  end.
(** [host, _, _ := net.SplitHostPort(s)] *)
Definition split_host (s : string) : string := default "" (SplitHostPort s).
Example split_host_examples :
  map SplitHostPort ["10.0.0.1:80"; "[::1]:80"; ":80"; "::1:80"; "10.0.0.1"; "[::1]"; "[a]b:80"; "a[:80"; "[[::1]:80"] =
  [Some "10.0.0.1"; Some "::1"; Some ""; None; None; None; None; None; None].
Proof. vm_compute. reflexivity. Qed.
