(* ===== verification/Hba.v ===== *)
(** * The managed access rules ([internal/hba/hba.go])

    Normalising allowlists, rendering the rule file, and applying it: write,
    let PostgreSQL parse it, reload, and put the previous file back when
    anything is rejected. *)

From S2P Require Import Prelude GoStrings GoTime Storage Schema Cluster World Wp Tools Netip.

Definition MaxAddresses : Z := 32.

Record Rule := mkRule { ru_Database : string; ru_RoleName : string; ru_Addresses : list string }.

(** ** Normalising *)

Definition quoted (s : string) : string := let q := String (ascii_of_nat 34) "" in q +:+ s +:+ q.

(** One non-empty entry as a masked prefix. *)
Definition normalize_one (value : string) : res string Prefix :=
  let! prefix :=
    match ParsePrefix value with
    | Some p => Ok p
    | None =>
        match ParseAddr value with
        | Some a => Ok (PrefixFrom a (BitLen a))
        | None => Err (quoted value +:+ " is not an IP address or CIDR range")
        end
    end in
  let prefix := Masked prefix in
  guard! negb (Is4In6 (px_Addr prefix)) else (quoted value +:+ ": write IPv4 addresses without an IPv6 prefix") in
  Ok prefix.

(** [out] holds the results so far; it is also the set of those seen. *)
Fixpoint normalize_all (addresses out : list string) : res string (list string) :=
  match addresses with
  | [] => Ok out
  | raw :: rest =>
      let value := TrimSpace raw in
      if bool_decide (value = "") then normalize_all rest out
      else
        let! prefix := normalize_one value in
        let text := PrefixString prefix in
        normalize_all rest (if bool_decide (text ∈ out) then out else out ++ [text])
  end.

Definition Normalize (addresses : list string) : res string (list string) :=
  guard! negb (MaxAddresses <? Z.of_nat (length addresses))
    else ("at most " +:+ decimal MaxAddresses +:+ " addresses are allowed") in
  normalize_all addresses [].

(** ** Rendering *)

Definition eol : string := String newline "".
Definition hba_header : string :=
  "# Written by the Pgfy dashboard. Project roles only; system roles are pinned by the host." +:+ eol.
Definition hba_line (kind : string) (r : Rule) (source : string) : string :=
  kind +:+ " " +:+ ru_Database r +:+ " " +:+ ru_RoleName r +:+ " " +:+ source +:+ " scram-sha-256" +:+ eol.
Definition rule_lines (tunnelSource : string) (r : Rule) : list string :=
  (if bool_decide (tunnelSource = "") then [] else [hba_line "host" r tunnelSource]) ++
  map (hba_line "hostssl" r) (ru_Addresses r).
(** [sort.Slice] by database name; the names of rules are distinct. *)
Definition hba_lines (tunnelSource : string) (rules : list Rule) : list string :=
  concat (map (rule_lines tunnelSource) (sql_order (key_leb ru_Database String.leb) rules)).
Definition Render (tunnelSource : string) (rules : list Rule) : string :=
  foldr String.append "" (hba_header :: hba_lines tunnelSource rules).

(** ** Applying *)

(** The Go interface [hba.Postgres]. *)
Class HbaPostgres := { HBAFileErrors : M (list string); Reload : M time }.

(** Parsing the file changes nothing.  A confirmed reload has loaded the file
    on disk; one that reports an error may still have loaded it. *)
Definition same_but_rules (c c' : Cluster) : Prop := c' = c <| cl_File := cl_File c' |> <| cl_Temp := cl_Temp c' |> <| cl_Rules := cl_Rules c' |>.
Class HbaLaws (hp : HbaPostgres) : Prop := {
  parsing w r w' : HBAFileErrors w = (r, w') → same w w' ∧ w_pg w' = w_pg w;
  reloading w r w' : Reload w = (r, w') →
    same w w' ∧ (w_pg w' = (w_pg w) <| cl_Rules := cl_File (w_pg w) |> ∨ (w_pg w' = w_pg w ∧ is_ok r = false));
  hba_timely : timely HBAFileErrors ∧ timely Reload;
}.

Definition set_file (content : option string) (c : Cluster) : Cluster := c <| cl_File := content |>.
Definition set_temp (content : option string) (c : Cluster) : Cluster := c <| cl_Temp := content |>.
(** [os.ReadFile], with a missing file as [None]. *)
Definition read_rules : M (option string) := call (λ w, (Ok (cl_File (w_pg w)), w)).

(** What a write that broke off half way leaves. *)
Definition torn (content : string) : string := stake (Nat.div2 (slen content)) content.
(** [os.WriteFile]: not atomic. *)
Definition WriteFile (set : option string → Cluster → Cluster) (content : string) : M unit := λ w,
  match w_faults w with
  | [] => (Ok tt, w <| w_pg := set (Some content) (w_pg w) |>)
  | o :: os =>
      let w := w <| w_faults := os |> in
      match o with
      | Works => (Ok tt, w <| w_pg := set (Some content) (w_pg w) |>)
      | Fails => (Err Unavailable, w)
      | FailsAfter => (Err Unavailable, w <| w_pg := set (Some (torn content)) (w_pg w) |>)
      end
  end.
(** [os.Rename] of the temporary file over the target. *)
Definition Rename : M unit := call (λ w,
  match cl_Temp (w_pg w) with
  | Some content => (Ok tt, w <| w_pg := (w_pg w) <| cl_File := Some content |> <| cl_Temp := None |> |>)
  | None => (Err Unavailable, w)
  end).

(** Written beside the target, then renamed over it. *)
Definition write (content : string) : M unit := WriteFile set_temp content ≫= λ _, Rename.
Definition remove_rules : M unit := call (λ w, (Ok tt, w <| w_pg := set_file None (w_pg w) |>)).

Section apply.
Context {hp : HbaPostgres} (TunnelSource : string).

Definition restore_rules (previous : option string) : M unit :=
  attempt (match previous with Some content => write content | None => remove_rules end) ≫= λ _, mret tt.

Definition Apply (rules : list Rule) : M time :=
  read_rules ≫= λ previous,
  write (Render TunnelSource rules) ≫= λ _,
  attempt HBAFileErrors ≫= λ problems,
  match problems with
  | Err e => restore_rules previous ≫= λ _, throw (Wrapped "policy could not be validated" e)
  | Ok (p :: ps) =>
      restore_rules previous ≫= λ _, throw (Message ("PostgreSQL rejected the policy: " +:+ join "; " (p :: ps)))
  | Ok [] =>
      attempt Reload ≫= λ loaded,
      match loaded with
      | Err e => restore_rules previous ≫= λ _, throw e
      | Ok t => mret t
      end
  end.
End apply.

(** ** Lemmas *)

Lemma wp_read_rules (Q : post (option string)) d b p :
  Q (Ok (cl_File p)) d b p → (∀ e, Q (Err e) d b p) → wp read_rules Q d b p.
Proof. apply (wp_call_read (λ _ _ p, Ok (cl_File p))). Qed.

(** A call on the directory, whatever a failure leaves of it. *)
Lemma wp_directory {A} (m : M A) (post_ : res werror A → Cluster → Prop) (Q : post A) d b p :
  timely m → (∀ w, w_db (m w).2 = w_db w ∧ w_bucket (m w).2 = w_bucket w) →
  (∀ w, w_pg w = p → post_ (m w).1 (w_pg (m w).2)) → (∀ r p', post_ r p' → Q r d b p') → wp m Q d b p.
Proof.
  intros Ht Hs Hp HQ. apply wp_intro; [done|]. intros w <- <- E. specialize (Hs w). specialize (Hp w E).
  destruct (m w) as [r w']. cbn in *. destruct Hs as [-> ->]. by apply HQ.
Qed.
Lemma timely_WriteFile set content : timely (WriteFile set content).
Proof.
  intros w. unfold later, readings, WriteFile. destruct (w_faults w) as [|[] os] eqn:E; cbn; rewrite ?E;
    (split; [apply incl_refl|]); first [done|by apply suffix_cons_r].
Qed.
Lemma timely_Rename : timely Rename.
Proof. apply timely_call. intros w. by destruct (cl_Temp (w_pg w)). Qed.

(** A write either takes the whole text to the target or leaves the target alone. *)
Definition writes (content : option string) (p : Cluster) (r : res werror unit) (p' : Cluster) : Prop :=
  ∃ temp, p' = p <| cl_File := content |> <| cl_Temp := temp |> ∨ (p' = p <| cl_Temp := temp |> ∧ is_ok r = false).
Lemma wp_write content (Q : post unit) d b p :
  (∀ r p', writes (Some content) p r p' → Q r d b p') → wp (write content) Q d b p.
Proof.
  intros HQ. apply wp_bind.
  apply (wp_directory _ (λ r p', ∃ temp, p' = p <| cl_Temp := temp |> ∧ (r = Ok tt → temp = Some content))).
  - apply timely_WriteFile.
  - intros w. unfold WriteFile. by destruct (w_faults w) as [|[] os].
  - intros w <-. unfold WriteFile. destruct (w_faults w) as [|[] os]; cbn; [by eexists|by eexists| |by eexists].
    exists (cl_Temp (w_pg w)). split; [by destruct (w_pg w)|done].
  - intros [[]|e] p1 (temp & -> & Ht); [|apply HQ; exists temp; by right]. specialize (Ht eq_refl) as ->.
    apply (wp_directory _ (writes (Some content) p)); [apply timely_Rename| | |done].
    + intros w. unfold Rename, call. destruct (w_faults w) as [|[] os]; cbn; try done; by destruct (cl_Temp (w_pg w)).
    + intros w E. unfold Rename, call. destruct (w_faults w) as [|[] os]; cbn; rewrite E; cbn;
        [exists None; by left|exists None; by left|exists (Some content); by right|exists None; by left].
Qed.
Lemma wp_remove_rules (Q : post unit) d b p :
  (∀ r p', writes None p r p' → Q r d b p') → wp remove_rules Q d b p.
Proof.
  intros HQ. apply (wp_directory _ (writes None p)); [by apply timely_call| | |done].
  - intros w. unfold remove_rules, call. by destruct (w_faults w) as [|[] os].
  - intros w <-. unfold remove_rules, call. destruct (w_faults w) as [|[] os]; cbn; exists (cl_Temp (w_pg w)); destruct (w_pg w); cbn; auto.
Qed.

Lemma wp_restore_rules previous (Q : post unit) d b p :
  (∀ temp content, content = previous ∨ content = cl_File p → Q (Ok tt) d b (p <| cl_File := content |> <| cl_Temp := temp |>)) →
  wp (restore_rules previous) Q d b p.
Proof.
  intros H. unfold restore_rules. apply wp_bind, wp_attempt.
  assert (∀ r p', writes previous p r p' → wp (mret tt) Q d b p') as Hend.
  { intros r p' (temp & [->|[-> _]]); apply wp_ret; [apply H; by left|].
    replace (p <| cl_Temp := temp |>) with (p <| cl_File := cl_File p |> <| cl_Temp := temp |>) by by destruct p. apply H. by right. }
  destruct previous as [content|]; [by apply wp_write|by apply wp_remove_rules].
Qed.

(** The last call of a run failed. *)
Definition last_call_failed (w w' : World) : Prop := ∃ used o, w_faults w = used ++ o :: w_faults w' ∧ o ≠ Works.
Lemma last_call_failed_later w w1 w' : later w w1 → last_call_failed w1 w' → last_call_failed w w'.
Proof. intros [_ [used H]] (used' & o & H' & Ho). exists (used ++ used'), o. split; [|done]. by rewrite H, H', <- app_assoc. Qed.

Lemma write_to content w r w' : write content w = (r, w') →
  later w w' ∧ (cl_File (w_pg w') = Some content ∨ last_call_failed w w') ∧
  (cl_File (w_pg w') = cl_File (w_pg w) ∨ r = Ok tt ∨ last_call_failed w w').
Proof.
  unfold write, mbind, M_bind. pose proof (timely_WriteFile set_temp content w) as H1.
  destruct (WriteFile set_temp content w) as [[[]|e] w1] eqn:E1; cbn in H1.
  - assert (cl_Temp (w_pg w1) = Some content) as Ht.
    { revert E1. unfold WriteFile. destruct (w_faults w) as [|[] os]; by intros [= <-]. }
    intros E2. pose proof (timely_Rename w1) as H2. rewrite E2 in H2. split; [by etrans|].
    unfold Rename, call in E2. destruct (w_faults w1) as [|o os] eqn:E; cbn in E2; rewrite ?Ht in E2.
    { injection E2 as <- <-. cbn. auto. }
    destruct o; cbn in E2; rewrite ?Ht in E2; injection E2 as <- <-; cbn; [auto| |];
      (split; right; [|right]; (eapply last_call_failed_later; [exact H1|]); first [by exists [], Fails|by exists [], FailsAfter]).
  - intros [= <- <-]. split; [done|]. assert (last_call_failed w w1) as Hl; [|auto].
    revert E1. unfold WriteFile. destruct (w_faults w) as [|[] os] eqn:E; intros [= <- <-]; first [by exists [], Fails|by exists [], FailsAfter].
Qed.
Lemma restore_puts_back previous w r w' : restore_rules previous w = (r, w') →
  cl_File (w_pg w') = previous ∨ last_call_failed w w'.
Proof.
  unfold restore_rules, mbind, M_bind, attempt. destruct previous as [content|].
  - destruct (write content w) as [r1 w1] eqn:E. apply write_to in E as (_ & H & _). by intros [= <- <-].
  - unfold remove_rules, call. destruct (w_faults w) as [|[] os] eqn:E; intros [= <- <-]; cbn; auto. right. by exists [], Fails.
Qed.

Lemma wp_HBAFileErrors {hp : HbaPostgres} {laws : HbaLaws hp} (Q : post (list string)) d b p :
  (∀ r, Q r d b p) → wp HBAFileErrors Q d b p.
Proof.
  intros H. apply wp_intro; [apply hba_timely|]. intros w <- <- <-. destruct (HBAFileErrors w) as [r w'] eqn:E. apply parsing in E as [[-> ->] ->]. apply H.
Qed.
Lemma wp_Reload {hp : HbaPostgres} {laws : HbaLaws hp} (Q : post time) d b p :
  let p' := p <| cl_Rules := cl_File p |> in
  (∀ t, Q (Ok t) d b p') → (∀ e p'', p'' = p ∨ p'' = p' → Q (Err e) d b p'') → wp Reload Q d b p.
Proof.
  intros p' H He. apply wp_intro; [apply hba_timely|]. intros w <- <- <-. destruct (Reload w) as [[t|e] w'] eqn:E; apply reloading in E as [[-> ->] Hp].
  - destruct Hp as [->|[_ ?]]; [apply H|done].
  - apply He. destruct Hp as [Hp|[Hp _]]; auto.
Qed.

(** What [Apply] may leave, and what it leaves when it succeeds. *)
Lemma Apply_wp {hp : HbaPostgres} {laws : HbaLaws hp} tunnel rules d b p :
  let text := Some (Render tunnel rules) in
  wp (Apply tunnel rules) (λ r d' b' p', d' = d ∧ b' = b ∧ same_but_rules p p' ∧
    (cl_File p' = cl_File p ∨ cl_File p' = text) ∧ (cl_Rules p' = cl_Rules p ∨ cl_Rules p' = text) ∧
    (is_ok r = true → cl_File p' = text ∧ cl_Rules p' = text)) d b p.
Proof.
  intros text. unfold Apply.
  set (Q := λ (r : res werror time) d' b' p', _).
  assert (∀ (e : werror) temp rules' content, (content = cl_File p ∨ content = text) → (rules' = cl_Rules p ∨ rules' = text) →
    Q (Err e) d b (p <| cl_File := content |> <| cl_Temp := temp |> <| cl_Rules := rules' |>)) as Hfail.
  { intros e temp rules' content Hc Hr. unfold Q. split_and!; auto; done. }
  assert (∀ p1 temp rules' (e : werror), p1 = p <| cl_File := text |> <| cl_Temp := temp |> <| cl_Rules := rules' |> →
    (rules' = cl_Rules p ∨ rules' = text) → wp (restore_rules (cl_File p) ≫= λ _, throw e : M time) Q d b p1) as Hrestore.
  { intros p1 temp rules' e -> Hr. apply wp_bind, wp_restore_rules. intros temp' content Hc. apply wp_throw.
    by apply (Hfail e temp' rules' content). }
  apply wp_bind, wp_read_rules.
  2: { intros e. pose proof (Hfail e (cl_Temp p) (cl_Rules p) (cl_File p)) as H. destruct p. by apply H; left. }
  apply wp_bind, wp_write. intros r p1 (temp & [Hp|[Hp Hr]]).
  2: { destruct r as [|e]; [done|]. rewrite Hp. pose proof (Hfail e temp (cl_Rules p) (cl_File p)) as H. destruct p. by apply H; left. }
  destruct r as [[]|e].
  2: { rewrite Hp. pose proof (Hfail e temp (cl_Rules p) text) as H. destruct p. apply H; [by right|by left]. }
  assert (p1 = p <| cl_File := text |> <| cl_Temp := temp |> <| cl_Rules := cl_Rules p |>) as Hp1 by (rewrite Hp; by destruct p).
  apply wp_bind, wp_attempt, wp_HBAFileErrors. intros [[|x xs]|e]; [|by eapply Hrestore; [|left]..].
  apply wp_bind, wp_attempt, wp_Reload.
  - intros t. apply wp_ret. rewrite Hp1. unfold Q. by split_and!; cbn; auto.
  - intros e p2 [->| ->]; [by eapply Hrestore; [|left]|]. eapply Hrestore; [by rewrite Hp1|by right].
Qed.

(** A rejected file does not stay. *)
Lemma Apply_restores {hp : HbaPostgres} {laws : HbaLaws hp} tunnel rules w r w' : Apply tunnel rules w = (r, w') → is_ok r = false →
  cl_File (w_pg w') = cl_File (w_pg w) ∨ last_call_failed w w'.
Proof.
  unfold Apply. intros E Hr. unfold mbind, M_bind in E.
  destruct (read_rules w) as [[previous|e] w1] eqn:E1.
  2: { injection E as <- <-. left. revert E1. unfold read_rules, call. destruct (w_faults w) as [|[] os]; by intros [= <- <-]. }
  assert (previous = cl_File (w_pg w) ∧ w_pg w1 = w_pg w ∧ later w w1) as (-> & Hp1 & L1).
  { pose proof (timely_call (λ w, (Ok (cl_File (w_pg w)) : res werror _, w)) (λ _, conj eq_refl eq_refl) w) as Hl.
    unfold read_rules in E1. rewrite E1 in Hl. split_and!; [..|done]; revert E1; unfold call;
      destruct (w_faults w) as [|[] os]; by intros [= <- <-]. }
  destruct (write _ w1) as [[[]|e] w2] eqn:E2; apply write_to in E2 as (L2 & _ & H2).
  2: { injection E as <- <-. rewrite Hp1 in H2. destruct H2 as [H2|[?|H2]]; [by left|done|]. right. by eapply last_call_failed_later. }
  assert (later w w2) as L by by etrans.
  assert (∀ w3 (e : werror), later w w3 → (restore_rules (cl_File (w_pg w)) ≫= λ _, throw e : M time) w3 = (r, w') →
    cl_File (w_pg w') = cl_File (w_pg w) ∨ last_call_failed w w') as Hend.
  { intros w3 e L3 E3. unfold mbind, M_bind in E3. destruct (restore_rules _ w3) as [[x|x] w4] eqn:E4;
      injection E3 as <- <-; apply restore_puts_back in E4 as [?|?]; [by left|right|by left|right]; by eapply last_call_failed_later. }
  unfold attempt in E. destruct (HBAFileErrors w2) as [x w3] eqn:E3.
  assert (later w w3) as L3 by (etrans; [exact L|]; pose proof (proj1 hba_timely w2) as H; rewrite E3 in H; exact H).
  destruct x as [[|line lines]|e]; [|exact (Hend _ _ L3 E)..].
  destruct (Reload w3) as [x w4] eqn:E4.
  assert (later w w4) as L4 by (etrans; [exact L3|]; pose proof (proj2 hba_timely w3) as H; rewrite E4 in H; exact H).
  destruct x as [t|e]; [by injection E as <- <-|exact (Hend _ _ L4 E)].
Qed.

(** C23. Replacing the access rules is all or nothing, under every schedule of
    failures: roles, databases, records and bucket are untouched; the file on
    disk and the rules in force are each either the previous ones or the
    complete new text, never anything in between, although a write may break
    off half way; success means that both are the new text; and after a
    refusal by PostgreSQL or any other failure the previous file is on disk
    again, unless the very last call of the run, the one that put it back,
    failed itself. *)
Theorem Apply_all_or_previous {hp : HbaPostgres} {laws : HbaLaws hp} tunnel rules w :
  let (r, w') := Apply tunnel rules w in
  let text := Some (Render tunnel rules) in
  w_db w' = w_db w ∧ w_bucket w' = w_bucket w ∧ same_but_rules (w_pg w) (w_pg w') ∧
  (cl_File (w_pg w') = cl_File (w_pg w) ∨ cl_File (w_pg w') = text) ∧
  (cl_Rules (w_pg w') = cl_Rules (w_pg w) ∨ cl_Rules (w_pg w') = text) ∧
  (is_ok r = true → cl_File (w_pg w') = text ∧ cl_Rules (w_pg w') = text) ∧
  (is_ok r = false → cl_File (w_pg w') = cl_File (w_pg w) ∨ last_call_failed w w').
Proof.
  destruct (Apply tunnel rules w) as [r w'] eqn:E.
  pose proof (wp_run _ _ _ _ _ (Apply_wp tunnel rules _ _ _) E) as H. cbv beta zeta in *. split_and!; try apply H.
  by apply (Apply_restores tunnel rules).
Qed.

(** A server that accepts every file, and one that accepts none. *)
Definition accepting : HbaPostgres := {|
  HBAFileErrors := call (λ w, (Ok [], w));
  Reload := call (λ w, (Ok 1, w <| w_pg := (w_pg w) <| cl_Rules := cl_File (w_pg w) |> |>));
|}.
Definition rejecting : HbaPostgres := {|
  HBAFileErrors := call (λ w, (Ok ["line 1: invalid"], w)); Reload := @Reload accepting |}.
#[export] Instance accepting_laws : HbaLaws accepting.
Proof.
  split; [intros w r w'; cbn; unfold call; destruct (w_faults w) as [|[] os]; intros [= <- <-]; cbn; (split; [by split|]); auto..|].
  by split; apply timely_call.
Qed.
#[export] Instance rejecting_laws : HbaLaws rejecting.
Proof.
  split; [intros w r w'; cbn; unfold call; destruct (w_faults w) as [|[] os]; intros [= <- <-]; cbn; (split; [by split|]); auto..|].
  by split; apply timely_call.
Qed.

Definition old_rules : Cluster := empty_cluster <| cl_File := Some "old" |> <| cl_Rules := Some "old" |>.
Abbreviation apply_at hp faults := (@Apply hp "" [] (mkWorld empty_db ∅ old_rules faults [] [])).

Lemma Apply_all_or_previous_witness :
  (let (r, w') := apply_at accepting [] in is_ok r = true ∧ cl_Rules (w_pg w') = Some (Render "" [])) ∧
  (let (r, w') := apply_at rejecting [] in is_ok r = false ∧ cl_File (w_pg w') = Some "old").
Proof.
  split.
  - pose proof (@Apply_all_or_previous accepting _ "" [] (mkWorld empty_db ∅ old_rules [] [] [])) as H.
    assert (is_ok (apply_at accepting []).1 = true) as Hok by (vm_compute; reflexivity).
    destruct (apply_at accepting []) as [r w']. cbn in Hok. destruct H as (_ & _ & _ & _ & _ & H & _). split; [done|]. by apply H.
  - pose proof (@Apply_all_or_previous rejecting _ "" [] (mkWorld empty_db ∅ old_rules [] [] [])) as H.
    assert (is_ok (apply_at rejecting []).1 = false) as Hok by (vm_compute; reflexivity).
    destruct (apply_at rejecting []) as [r w']. cbn in Hok. destruct H as (_ & _ & _ & _ & _ & _ & H). split; [done|].
    destruct (H Hok) as [?|(used & o & Hu & _)]; [done|]. by destruct used.
Defined.

(** When the reload takes effect but its confirmation is lost, the previous
    file is put back without another reload: the attempt is reported as
    failed while the new rules are in force. *)
Example Apply_failed_but_live :
  let (r, w') := @Apply accepting "" [] (mkWorld empty_db ∅ old_rules [Works; Works; Works; Works; FailsAfter] [] []) in
  is_ok r = false ∧ cl_File (w_pg w') = Some "old" ∧ cl_Rules (w_pg w') = Some (Render "" []).
Proof. vm_compute. repeat split. Qed.

(** ** Nothing but rules *)

Definition no_newline (s : string) : Prop := contains_byte newline s = false.

Lemma no_newline_app s t : no_newline s → no_newline t → no_newline (s +:+ t).
Proof. unfold no_newline. rewrite contains_byte_app. by intros -> ->. Qed.
Lemma no_newline_digits s : sforall is_digit s = true → no_newline s.
Proof. by apply sforall_not_contains. Qed.
Lemma no_newline_decimal n : no_newline (decimal n).
Proof.
  unfold decimal, pad. apply no_newline_app; [by destruct (n <? 0)|]. apply no_newline_digits, sforall_digits.
Qed.
Lemma no_newline_hex16 g : no_newline (hex16 g).
Proof.
  assert (∀ k, no_newline (String (hex_char (Z.shiftr g k mod 16)) "")) as Hd.
  { intros k. pose proof (Z.mod_pos_bound (Z.shiftr g k) 16 ltac:(lia)) as Hb. set (x := Z.shiftr g k mod 16) in *. clearbody x.
    assert (x ∈ map Z.of_nat (seq 0 16)) as Hx.
    { apply list_elem_of_In, in_map_iff. exists (Z.to_nat x). split; [lia|]. apply in_seq. lia. }
    assert (Forall (λ x, no_newline (String (hex_char x) "")) (map Z.of_nat (seq 0 16))) as Hall by (vm_compute; repeat constructor).
    exact (proj1 (Forall_forall _ _) Hall x Hx). }
  unfold hex16. repeat case_match; repeat apply no_newline_app; apply Hd.
Qed.
Lemma no_newline_join l : Forall no_newline l → no_newline (join ":" l).
Proof.
  induction l as [|x [|y l] IH]; intros Hl; [done|by apply Forall_inv in Hl|].
  apply Forall_cons_1 in Hl as [Hx Hl]. rewrite join_cons by done. apply no_newline_app; [done|]. apply no_newline_app; [done|by apply IH].
Qed.
Lemma no_newline_prefix p : no_newline (PrefixString p).
Proof.
  unfold PrefixString. apply no_newline_app; [|apply no_newline_app; [done|apply no_newline_decimal]].
  assert (∀ gs, no_newline (join ":" (map hex16 gs))) as Hj.
  { intros gs. apply no_newline_join, Forall_forall. intros x Hx. apply list_elem_of_In, in_map_iff in Hx as (g & <- & _). apply no_newline_hex16. }
  assert (∀ a, no_newline (string4 a)) as H4.
  { intros a. unfold string4. do 3 (apply no_newline_app; [apply no_newline_decimal|]; apply no_newline_app; [done|]). apply no_newline_decimal. }
  destruct (px_Addr p) as [a|a z]; cbn [AddrString]; [apply H4|].
  destruct (Is4In6 (V6 a z)).
  - apply no_newline_app; [done|apply H4].
  - unfold string6. destruct (zero_run _) as [[s e]|]; [|apply Hj]. apply no_newline_app; [apply Hj|]. apply no_newline_app; [done|apply Hj].
Qed.

Lemma normalize_all_prefixes addresses out out' :
  normalize_all addresses out = Ok out' → (∀ x, In x out → ∃ p, x = PrefixString p) → ∀ x, In x out' → ∃ p, x = PrefixString p.
Proof.
  revert out. induction addresses as [|a l IH]; intros out; cbn [normalize_all]; [by intros [= <-]|].
  case_bool_decide; [apply IH|]. destruct (normalize_one (TrimSpace a)) as [p|]; cbn [rbind]; [|done].
  intros H1 Hout. apply (IH _ H1). case_bool_decide; [done|]. intros x [Hx|[<-|[]]]%in_app_iff; eauto.
Qed.

(** A whole line ends the first field of a split. *)
Lemma split_line line rest : no_newline line → split_on newline ((line +:+ eol) +:+ rest) = line :: split_on newline rest.
Proof. intros H. rewrite app_assoc'. change (eol +:+ rest) with (String newline rest). by apply split_on_app. Qed.

(** The text of one rule line, without its newline. *)
Definition rule_text (kind : string) (r : Rule) (source : string) : string :=
  kind +:+ " " +:+ ru_Database r +:+ " " +:+ ru_RoleName r +:+ " " +:+ source +:+ " scram-sha-256".
Lemma hba_line_text kind r source : hba_line kind r source = rule_text kind r source +:+ eol.
Proof. unfold hba_line, rule_text. by rewrite !app_assoc'. Qed.

Definition rule_texts (tunnel : string) (r : Rule) : list string :=
  (if bool_decide (tunnel = "") then [] else [rule_text "host" r tunnel]) ++ map (rule_text "hostssl" r) (ru_Addresses r).

Lemma split_lines texts rest : Forall no_newline texts →
  split_on newline (foldr String.append rest (map (λ t, t +:+ eol) texts)) = texts ++ split_on newline rest.
Proof.
  induction texts as [|t ts IH]; intros Hf; [done|]. apply Forall_cons_1 in Hf as [Ht Hts]. cbn [map foldr app].
  rewrite split_line by done. by rewrite IH.
Qed.

Lemma rule_lines_texts tunnel r : rule_lines tunnel r = map (λ t, t +:+ eol) (rule_texts tunnel r).
Proof.
  unfold rule_lines, rule_texts. rewrite map_app, map_map. f_equal; [case_bool_decide; [done|]; cbn; by rewrite hba_line_text|].
  apply map_ext. intros a. apply hba_line_text.
Qed.

(** C24. The managed file grants nothing but the rules it was given: for
    projects with generated names and allowlists that passed [Normalize],
    the lines PostgreSQL reads are the header and, in order of the database
    names, exactly one line per rule and source, [host] only for the tunnel
    and [hostssl] for each allowed range; no input can add a line. *)
Theorem Render_lines_exact tunnel rules (no_tunnel_newline : no_newline tunnel)
  (named : ∀ r, In r rules → ValidDatabaseSegment (ru_Database r) = true ∧ ValidDatabaseSegment (ru_RoleName r) = true)
  (normal : ∀ r, In r rules → ∃ addresses, Normalize addresses = Ok (ru_Addresses r)) :
  let sorted := sql_order (key_leb ru_Database String.leb) rules in
  split_on newline (Render tunnel rules) =
    trim_suffix hba_header eol :: concat (map (rule_texts tunnel) sorted) ++ [""].
Proof.
  cbv zeta. unfold Render, hba_lines. set (sorted := sql_order _ rules).
  assert (∀ r, In r sorted → In r rules) as Hin by (intros r; apply in_sql_order).
  rewrite (map_ext _ _ (rule_lines_texts tunnel)), <- (map_map (rule_texts tunnel) (map (λ t, t +:+ eol))), <- concat_map.
  cbn [foldr]. assert (hba_header = trim_suffix hba_header eol +:+ eol) as Hh by (vm_compute; reflexivity).
  rewrite Hh at 1. rewrite split_line by (vm_compute; reflexivity). f_equal. rewrite split_lines; [done|].
  apply Forall_forall. intros t Ht. apply list_elem_of_In, in_concat in Ht as (ts & (r & <- & Hr)%in_map_iff & Ht).
  apply Hin in Hr. destruct (named r Hr) as [Hd Hn], (normal r Hr) as [addresses Ha].
  assert (∀ s, ValidDatabaseSegment s = true → no_newline s) as Hv.
  { intros [|c s]; [done|]. cbn [ValidDatabaseSegment]. intros [[Hc Hs]%andb_true_iff _]%andb_true_iff.
    apply (sforall_not_contains newline is_name_byte); [done|]. cbn. unfold is_name_byte at 1. by rewrite Hc. }
  assert (∀ kind source, no_newline kind → no_newline source → no_newline (rule_text kind r source)) as Htext.
  { intros. unfold rule_text. repeat (apply no_newline_app; [auto; done|]). done. }
  unfold rule_texts in Ht. apply in_app_iff in Ht as [Ht|(a & <- & Ha')%in_map_iff].
  - case_bool_decide; [done|]. destruct Ht as [<-|[]]. by apply Htext.
  - apply Htext; [done|]. unfold Normalize in Ha. apply guard_ok in Ha as [_ Ha].
    destruct (normalize_all_prefixes _ _ _ Ha ltac:(done) a Ha') as [p ->]. apply no_newline_prefix.
Qed.

Definition sample_rule : Rule := mkRule "app_0123456789ab" "app_0123456789ab" ["0.0.0.0/0"; "::/0"].
Lemma Render_lines_exact_witness :
  split_on newline (Render "172.16.0.0/12" [sample_rule]) =
    [trim_suffix hba_header eol; "host app_0123456789ab app_0123456789ab 172.16.0.0/12 scram-sha-256";
     "hostssl app_0123456789ab app_0123456789ab 0.0.0.0/0 scram-sha-256"; "hostssl app_0123456789ab app_0123456789ab ::/0 scram-sha-256"; ""].
Proof.
  refine (Render_lines_exact "172.16.0.0/12" [sample_rule] _ _ _).
  - vm_compute. reflexivity.
  - intros r [<-|[]]. vm_compute. by split.
  - intros r [<-|[]]. exists ["0.0.0.0/0"; "::/0"]. vm_compute. reflexivity.
Defined.
