(* ===== verification/Inspect.v ===== *)
(** * What the server reports ([Connect], [DatabaseSize], [Connections],
      [HBAFileErrors] and [Reload] of [internal/postgres/management.go])

    The system views these operations read belong to PostgreSQL: [Catalog]
    gives their rows, with the documented behaviour as [CatalogLaws].  The
    operations discharge the contract [HbaPostgres] that applying an access
    policy relies on: a reload that is confirmed has loaded the file. *)

From S2P Require Import Prelude GoStrings GoTime Schema Cluster World Wp Postgres Hba.

(** ** System views *)

(** [pg_stat_activity], [pg_stat_ssl] and [pg_hba_file_rules]; [None] is NULL. *)
Record Activity := mkActivity {
  ac_pid : Z; ac_datname : option string; ac_usename : option string; ac_backend_type : string;
  ac_client_addr : option string; ac_application_name : string; ac_backend_start : time }.
Record Ssl := mkSsl { sl_pid : Z; sl_ssl : bool }.
Record HbaFileRule := mkHbaFileRule { hr_file_name : option string; hr_line_number : option Z; hr_error : option string }.

Class Catalog := {
  stat_activity : M (list Activity * list Ssl);
  hba_file_rules : M (list HbaFileRule);
  database_size : string → M (option Z); (* [None]: no row *)
  pg_conf_load_time : M time;
  pg_reload_conf : M unit;
  pgx_connect : string → M unit; (* [pgx.ConnectConfig] to a database *)
}.

(** Views only read.  [pg_reload_conf] asks the postmaster, which loads the
    files at some point from then on; the load time it reports changes exactly
    when it does. *)
Definition loads (loaded_at : World → time) (w w' : World) : Prop :=
  same w w' ∧ (w_pg w' = (w_pg w) <| cl_Rules := cl_File (w_pg w) |> ∨ (w_pg w' = w_pg w ∧ loaded_at w' = loaded_at w)).
Class CatalogLaws (ct : Catalog) (loaded_at : World → time) : Prop := {
  activity_quiet w r w' : stat_activity w = (r, w') → same w w' ∧ w_pg w' = w_pg w;
  rules_quiet w r w' : hba_file_rules w = (r, w') → same w w' ∧ w_pg w' = w_pg w;
  size_quiet_ database w r w' : database_size database w = (r, w') → same w w' ∧ w_pg w' = w_pg w;
  reload_loads w r w' : pg_reload_conf w = (r, w') → loads loaded_at w w';
  load_time_loads w r w' : pg_conf_load_time w = (r, w') → loads loaded_at w w' ∧ ∀ t, r = Ok t → t = loaded_at w';
  clock_keeps w w' : w_pg w' = w_pg w → same w w' → w_faults w' = w_faults w → loaded_at w' = loaded_at w;
  catalog_timely : timely hba_file_rules ∧ timely pg_conf_load_time ∧ timely pg_reload_conf ∧ (∀ database, timely (database_size database)) ∧
    timely stat_activity;
}.

Section inspect.
Context {ct : Catalog}.

Definition Connect (database : string) : M unit :=
  if negb (ValidName database) then throw (Message "invalid database name") else pgx_connect database.

Definition DatabaseSize (database : string) : M Z :=
  database_size database ≫= λ row, match row with Some size => mret size | None => throw (StoreError ErrNoRows) end.

(** ** Live sessions *)

Record Connection := mkConnection { cn_ClientAddr : string; cn_TLS : bool; cn_ApplicationName : string; cn_Since : time }.

(** [LEFT JOIN … ON s.pid = a.pid] *)
Definition left_join (ssl : list Ssl) (a : Activity) : list (Activity * option bool) :=
  match List.filter (λ s, sl_pid s =? ac_pid a) ssl with
  | [] => [(a, None)]
  | l => map (λ s, (a, Some (sl_ssl s))) l
  end.
Definition session_of (database role : string) (a : Activity) : bool :=
  bool_decide (ac_datname a = Some database) && bool_decide (ac_usename a = Some role) && bool_decide (ac_backend_type a = "client backend").
Definition connection_rows (database role : string) (activity : list Activity) (ssl : list Ssl) : list Connection :=
  map (λ '(a, tls), mkConnection (default "" (ac_client_addr a)) (default false tls) (ac_application_name a) (ac_backend_start a))
    (sql_order (key_leb (λ r : Activity * option bool, ac_backend_start r.1) Z.leb)
       (List.flat_map (left_join ssl) (List.filter (session_of database role) activity))).
Definition Connections (database role : string) : M (list Connection) :=
  stat_activity ≫= λ '(activity, ssl), mret (connection_rows database role activity ssl).

(** ** The policy on disk *)

Definition rule_problem (r : HbaFileRule) : list string :=
  match hr_error r with
  | None => []
  | Some problem => [default "" (hr_file_name r) +:+ " line " +:+ decimal (default 0 (hr_line_number r)) +:+ ": " +:+ problem]
  end.
Definition FileErrors : M (list string) := hba_file_rules ≫= λ rows, mret (List.flat_map rule_problem rows).

(** ** Reload

    The wait before the request and the pauses between questions only move
    the clock.  The deadline of ten seconds leaves room for fifty pauses of
    200 ms, so [polls] questions after the first are enough for [51]. *)

Fixpoint confirm (polls : nat) (before : time) : M time :=
  pg_conf_load_time ≫= λ after,
  if before <? after then mret after
  else
    ctx_done ≫= λ over : bool,
    match polls with
    | S polls => if over then throw (Message "PostgreSQL did not confirm the configuration reload") else confirm polls before
    | O => throw (Message "PostgreSQL did not confirm the configuration reload")
    end.
Definition reload_polls : nat := 51.
Definition ConfReload : M time :=
  pg_conf_load_time ≫= λ before,
  now_ ≫= λ _,
  pg_reload_conf ≫= λ _,
  confirm reload_polls before.

Definition management_hba : HbaPostgres := {| HBAFileErrors := FileErrors; Reload := ConfReload |}.
End inspect.

(** ** The contract *)

Section contract.
Context {ct : Catalog} {loaded_at : World → time} `{!CatalogLaws ct loaded_at}.

Lemma loads_refl w w' : w_pg w' = w_pg w → same w w' → w_faults w' = w_faults w → loads loaded_at w w'.
Proof. intros Hp Hs Hf. split; [done|]. right. split; [done|]. by apply clock_keeps. Qed.
Lemma same_trans w w1 w2 : same w w1 → same w1 w2 → same w w2.
Proof. intros [? ?] [? ?]. split; congruence. Qed.
Lemma loads_trans w w1 w2 : loads loaded_at w w1 → loads loaded_at w1 w2 → loads loaded_at w w2.
Proof.
  intros [Hs H] [Hs' H']. split; [by eapply same_trans|]. destruct H as [H|[H E]], H' as [H'|[H' E']].
  - left. rewrite H', H. reflexivity.
  - left. by rewrite H', H.
  - left. by rewrite H', H.
  - right. split; congruence.
Qed.
Lemma now_loads w r w' : now_ w = (r, w') → loads loaded_at w w'.
Proof. intros [= <- <-]. by apply loads_refl. Qed.
Lemma ctx_done_loads w r w' : ctx_done w = (r, w') → loads loaded_at w w'.
Proof. unfold ctx_done. destruct (w_stops w); intros [= <- <-]; by apply loads_refl. Qed.

(** Confirmation is a later load time than the one before. *)
Lemma confirm_loads polls before w r w' : confirm polls before w = (r, w') →
  loads loaded_at w w' ∧ ∀ t, r = Ok t → t = loaded_at w' ∧ before < t.
Proof.
  revert w. induction polls as [|polls IH]; intros w; cbn [confirm]; unfold mbind, M_bind;
    (destruct (pg_conf_load_time w) as [[after|e] w1] eqn:E1; apply load_time_loads in E1 as [L1 E1];
       [|intros [= <- <-]; by split; [|intros]]);
    (destruct (before <? after) eqn:Elt; [intros [= <- <-]; split; [done|]; intros t [= <-]; split; [by apply E1|by apply Z.ltb_lt]|]);
    destruct (ctx_done w1) as [[over|e] w2] eqn:E2; apply ctx_done_loads in E2; pose proof (loads_trans _ _ _ L1 E2) as L2;
    try (intros [= <- <-]; by split; [|intros]).
  destruct over; [intros [= <- <-]; by split; [|intros]|]. intros H. apply IH in H as [L3 H]. split; [by eapply loads_trans|exact H].
Qed.

#[export] Instance management_hba_laws : HbaLaws management_hba.
Proof.
  split; cbn.
  - intros w r w'. unfold FileErrors, mbind, M_bind. destruct (hba_file_rules w) as [[rows|e] w1] eqn:E; apply rules_quiet in E; by intros [= <- <-].
  - intros w r w'. unfold ConfReload, mbind, M_bind.
    destruct (pg_conf_load_time w) as [[before|e] w1] eqn:E1; apply load_time_loads in E1 as [[S1 L1] T1].
    2: { intros [= <- <-]. split; [done|]. destruct L1 as [L1|[L1 _]]; [by left|by right]. }
    destruct (now_ w1) as [[t|e] w2] eqn:E2; pose proof (now_loads _ _ _ E2) as L2; [|done].
    destruct (pg_reload_conf w2) as [[[]|e] w3] eqn:E3; apply reload_loads in E3; pose proof (loads_trans _ _ _ L2 E3) as L3.
    + intros E4. apply confirm_loads in E4 as [L4 H4]. pose proof (loads_trans _ _ _ L3 L4) as [S4 L]. split; [by eapply same_trans|].
      assert (is_ok r = true → w_pg w' = (w_pg w1) <| cl_Rules := cl_File (w_pg w1) |>) as Hok.
      { destruct r as [after|]; [|done]. intros _. destruct (H4 after eq_refl) as [H5 H6]. rewrite (T1 before eq_refl) in H6.
        destruct L as [L|[_ L]]; [exact L|]. lia. }
      destruct L1 as [L1|[L1 _]]; rewrite L1 in *.
      * left. destruct L as [L|[L _]]; rewrite L; reflexivity.
      * destruct L as [L|[L _]]; [by left|]. destruct (is_ok r) eqn:Er; [left; by apply Hok|by right].
    + intros [= <- <-]. pose proof L3 as [S3 L]. split; [by eapply same_trans|].
      destruct L1 as [L1|[L1 _]]; rewrite L1 in L; destruct L as [L|[L _]]; rewrite L; auto.
  - destruct (catalog_timely (CatalogLaws := CatalogLaws0)) as (Hr & Ht & Hl & _).
    assert (∀ n before, timely (confirm n before)) as Hc.
    { intros n. induction n as [|n IH]; intros before; cbn [confirm]; auto 10 with timely. }
    unfold FileErrors, ConfReload. split; auto 10 with timely.
Qed.
End contract.

(** A server that loads at once and whose load time tells whether the file on
    disk is the one it runs with. *)
Definition small_loaded_at (w : World) : time := if bool_decide (cl_Rules (w_pg w) = cl_File (w_pg w)) then 2 else 1.
Definition small_catalog : Catalog := {|
  stat_activity := mret ([mkActivity 7 (Some "app_0123456789ab") (Some "app_0123456789ab") "client backend" (Some "10.0.0.9") "psql" 5;
                          mkActivity 8 (Some "app_0123456789ab") (Some "app_0123456789ab") "client backend" None "worker" 3;
                          mkActivity 9 (Some "app_ffffffffffff") (Some "app_ffffffffffff") "client backend" None "" 1], [mkSsl 7 true]);
  hba_file_rules := mret [];
  database_size _ := mret (Some 8192);
  pg_conf_load_time := λ w, (Ok (small_loaded_at w), w);
  pg_reload_conf := call (λ w, (Ok tt, w <| w_pg := (w_pg w) <| cl_Rules := cl_File (w_pg w) |> |>));
  pgx_connect _ := mret tt;
|}.
#[export] Instance small_catalog_laws : CatalogLaws small_catalog small_loaded_at.
Proof.
  split; cbn.
  - by intros w r w' [= <- <-].
  - by intros w r w' [= <- <-].
  - by intros _ w r w' [= <- <-].
  - intros w r w'. unfold call, loads. destruct (w_faults w) as [|[] os]; intros [= <- <-]; cbn; (split; [by split|]); auto.
  - intros w r w' [= <- <-]. split; [split; [by split|by right]|]. by intros t [= <-].
  - intros w w' E _ _. unfold small_loaded_at. by rewrite E.
  - split_and!; try (intros; intros w; reflexivity). by apply timely_call.
Qed.

(** The access policy applied through the real operations. *)
Example apply_through_management :
  let w := mkWorld empty_db ∅ old_rules [] [] [] in
  let (r, w') := Apply (hp := management_hba (ct := small_catalog)) "" [mkRule "app_0123456789ab" "app_0123456789ab" ["0.0.0.0/0"]] w in
  r = Ok 2 ∧ cl_Rules (w_pg w') = cl_File (w_pg w') ∧ cl_File (w_pg w') ≠ Some "old".
Proof. vm_compute. repeat split. discriminate. Qed.
Example live_sessions :
  (Connections (ct := small_catalog) "app_0123456789ab" "app_0123456789ab" (mkWorld empty_db ∅ old_rules [] [] [])).1 =
  Ok [mkConnection "" false "worker" 3; mkConnection "10.0.0.9" true "psql" 5].
Proof. vm_compute. reflexivity. Qed.
