(* ===== verification/Worker.v ===== *)
(** * The worker ([internal/jobs/jobs.go], [internal/jobs/delete.go])

    The goroutine that runs backups, restores and deletions, in the fault
    monad of [World].  What it needs from outside comes through interfaces:
    [ObjectStore] (the bucket), [Host] (PostgreSQL queries, tools and files of
    the job's workspace), [Provisioner] (roles, databases and the access
    policy), and the sealing and JSON functions of [Codec].

    A Go function that returns a partial result next to its error returns
    both here: [try_] leaves with the result so far. *)

From S2P Require Import Prelude GoStrings GoTime Storage Schema Cluster JobStore ProjectStore BackupStore Retention World.
From S2P Require Import Wp Reconcile Tools Postgres Netip IP.

(** ** Interfaces *)

(** A file of the workspace: what [FileSHA256] reads from it. *)
Record file := mkFile { f_SHA256 : string; f_Size : Z }.

Inductive request : Type → Type :=
| DatabaseSize (database : string) : request Z
| FreeBytes : request Z (* [Statfs]: blocks available times their size *)
| MkdirTemp (pattern : string) : request string
| Passfile : request unit
| Connect (database : string) : request unit
| BeginTx : request unit
| ExportSnapshot : request (string * string)
| TableNames (limit : Z) : request (list (string * string))
| CountRows (schema name : string) : request Z
| CountObjects : request ObjectCounts
| Commit : request unit
| PgDump (args : list string) : request (process * file)
| PgRestore (args : list string) : request process
| ReadFile (f : file) : request (string * Z)
| ServerVersion : request string
| ForeignTables (role : string) : request Z
| HasConnect (role : string) : request bool
| CleanWorkspace : request unit.

Class Host := host : ∀ {A : Type}, request A → M A.

(** No request of the worker changes the management database, the bucket, or
    roles and databases; reading a file back gives what it holds. *)
Class HostLaws (h : Host) : Prop := {
  host_quiet A (q : request A) w r w' : host q w = (r, w') → same w w' ∧ w_pg w' = w_pg w;
  host_file f w sum n w' : host (ReadFile f) w = (Ok (sum, n), w') → sum = f_SHA256 f ∧ n = f_Size f;
}.

Class Provisioner := {
  ProvisionNow : string → M unit;
  DropProject : string → string → M unit;
  SyncPolicy : M unit;
}.

(** What the worker relies on: dropping a project leaves the records and the
    bucket alone and, when it succeeds, neither role nor database of ours;
    the access policy touches no role, database, project or job; creating a
    project touches no job. *)
Class ProvisionerLaws (pv : Provisioner) : Prop := {
  drop_law database role d b p :
    wp (DropProject database role) (λ r d' b' p', d' = d ∧ b' = b ∧ (r = Ok tt → ours role database p' = (false, false))) d b p;
  sync_law d b p :
    wp SyncPolicy (λ r d' b' p', b' = b ∧ db_projects d' = db_projects d ∧ db_jobs d' = db_jobs d ∧
      cl_Roles p' = cl_Roles p ∧ cl_Databases p' = cl_Databases p) d b p;
  provision_law id d b p : wp (ProvisionNow id) (λ r d' b' p', b' = b ∧ db_jobs d' = db_jobs d) d b p;
}.

Record BackupResult := mkBackupResult {
  br_BackupID : string;
  br_ObjectKey : string;
  br_SizeBytes : Z;
  br_SHA256 : string;
  br_Tables : list TableCount;
  br_TablesTruncated : bool;
  br_Objects : option ObjectCounts;
}.
#[export] Instance eta_BackupResult : Eta BackupResult := λ r,
  mkBackupResult (br_BackupID r) (br_ObjectKey r) (br_SizeBytes r) (br_SHA256 r) (br_Tables r)
    (br_TablesTruncated r) (br_Objects r).

Record RestoreResult := mkRestoreResult {
  rr_ProjectID : string;
  rr_Verification : string;
  rr_Verified : bool;
  rr_Summary : string;
  rr_RestoreErrors : Z;
  rr_Stderr : string;
  rr_Checks : list Check;
}.
#[export] Instance eta_RestoreResult : Eta RestoreResult := λ r,
  mkRestoreResult (rr_ProjectID r) (rr_Verification r) (rr_Verified r) (rr_Summary r) (rr_RestoreErrors r)
    (rr_Stderr r) (rr_Checks r).

Record restoreInput := mkRestoreInput { ri_ManifestKey : string; ri_Name : string; ri_ProjectID : string }.
Record deleteInput := mkDeleteInput { di_ProjectID : string; di_Name : string; di_DBName : string; di_RoleName : string }.
Record DeleteResult := mkDeleteResult { dr_ProjectID : string; dr_Name : string; dr_DBName : string }.

(** Encoding of job results, decoding of job inputs, and sealed settings. *)
Class Codec := {
  vault_Open : string → string → option string;
  vault_Seal : string → string → string;
  unmarshal_Settings : string → res werror Settings;
  marshal_Settings : Settings → string;
  marshal_Manifest : Manifest → string;
  marshal_BackupResult : BackupResult → string;
  marshal_RestoreResult : RestoreResult → string;
  marshal_DeleteResult : DeleteResult → string;
  marshal_deleteInput : deleteInput → string;
  unmarshal_restoreInput : string → res werror restoreInput;
  unmarshal_deleteInput : string → res werror deleteInput;
  error_text : werror → string;
}.

(** [url.Parse], name resolution and the S3 library's constructor. *)
Record URL := mkURL { u_Scheme : string; u_Host : string; u_Hostname : string; u_Path : string; u_RawQuery : string; u_User : bool; u_Fragment : string }.
Class Network := {
  url_Parse : string → option URL;
  LookupIP : string → option (list IP);
  minio_New : Settings → res werror unit;
}.

(** ** Leaving with a partial result *)

Definition try_ {A R B} (result : R) (m : M A) (k : A → M (R * res werror B)) : M (R * res werror B) :=
  attempt m ≫= λ r, match r with Ok a => k a | Err e => mret (result, Err e) end.
Notation "'try!' x ':=' m 'or' result 'in' k" := (try_ result m (λ x, k))
  (at level 10, x binder, m at level 100, result at level 100, k at level 200) : pgfy_scope.

(** The error is replaced by one of the caller's own. *)
Definition instead {A} (text : string) (m : M A) : M A := λ w,
  match m w with
  | (Err _, w') => (Err (Message text), w')
  | x => x
  end.
Definition of_text {A} (r : res string A) : res werror A := match r with Ok a => Ok a | Err e => Err (Message e) end.

(** ** Settings *)

Section settings.
Context {network : Network}.

Definition privateAddress (ip : IP) : bool := IsLoopback ip || IsPrivate ip || IsLinkLocalUnicast ip.
(** Every address the name resolves to must be on this machine or a private network. *)
Definition privateHost (host : string) : res werror unit :=
  match LookupIP host with
  | None | Some [] => Err (Message "the private endpoint's address could not be resolved")
  | Some addresses =>
      if forallb privateAddress addresses then Ok tt
      else Err (Message "a private endpoint must be a loopback or private network address")
  end.
(** The address that is actually dialled is checked again. *)
Definition private_control (address : string) : res werror unit :=
  match SplitHostPort address with
  | None => Err (Message "the private endpoint address could not be read")
  | Some host =>
      if match ParseIP host with Some ip => privateAddress ip | None => false end then Ok tt
      else Err (Message "the private endpoint resolved to a public address and was not contacted")
  end.

Definition Settings_Validate (s : Settings) : res werror unit :=
  let bad := Err (Message "endpoint must be an https:// URL without a path, for example https://s3.us-east-1.amazonaws.com") in
  match url_Parse (s_Endpoint s) with
  | None => bad
  | Some u =>
      if (negb (bool_decide (u_Scheme u = "https")) && negb (bool_decide (u_Scheme u = "http"))) ||
         bool_decide (u_Host u = "") || (negb (bool_decide (u_Path u = "")) && negb (bool_decide (u_Path u = "/")))
      then bad
      else
        let! _ :=
          if negb (bool_decide (u_Scheme u = "https")) then
            guard! s_PrivateEndpoint s
              else (Message "the endpoint must use https:// unless it is a private endpoint on this network") in
            privateHost (u_Hostname u)
          else Ok tt in
        guard! bool_decide (s_BucketProtection s = ProtectionVersioning) ||
               bool_decide (s_BucketProtection s = ProtectionAcknowledged)
          else (Message "choose how this bucket is protected against deletion") in
        guard! negb (bool_decide (s_Bucket s = "") ||
                     sexists (λ a, bool_decide (a = slash) || bool_decide (a = " "%char)) (s_Bucket s))
          else (Message "bucket name is required") in
        guard! negb (bool_decide (s_AccessKey s = "") || bool_decide (s_SecretKey s = ""))
          else (Message "access key and secret key are required") in
        guard! negb (has_prefix (s_Prefix s) "/" || contains (s_Prefix s) "..")
          else (Message "prefix must be a relative path such as pgfy/production") in
        Ok tt
  end.

(** [storage.New] *)
Definition New (s : Settings) : res werror Settings :=
  let! _ := Settings_Validate s in
  let! _ := minio_New s in
  Ok s.
End settings.

Section worker.
Context {network : Network} {codec : Codec} {h : Host} (pv : option Provisioner)
  (bucket_of : Settings → ObjectStore) (random : World → string) (InstallationID : string).

Definition StorageSetting : string := "storage".
Definition MaxArchiveBytes : Z := Z.shiftl 2 30.
Definition MaxTables : Z := 5000.

(** [security.Token()[:16]]: any string may come out. *)
Definition Token16 : M string := λ w, (Ok (random w), w).

Definition StorageSettings : M Settings :=
  db_read (Setting StorageSetting) ≫= λ sealed,
  if bool_decide (sealed = "") then throw (Message "backup storage is not configured")
  else
    match vault_Open ("setting:" +:+ StorageSetting) sealed with
    | None => throw (Message "stored storage settings cannot be decrypted with this installation key")
    | Some plain => lift (unmarshal_Settings plain)
    end.

Definition SaveStorageSettings (s : Settings) : M unit :=
  lift (Settings_Validate s) ≫= λ _,
  now_ ≫= λ t,
  db_write (SetSetting StorageSetting (vault_Seal ("setting:" +:+ StorageSetting) (marshal_Settings s)) t).

Definition StorageClient : M Settings := StorageSettings ≫= λ s, lift (New s).

(** ** Reading the bucket *)

Definition Reconcile : M unit :=
  attempt StorageSettings ≫= λ r,
  match r with
  | Err _ => mret tt
  | Ok settings =>
      match New settings with
      | Err _ => mret tt
      | Ok c => attempt (reconcile (bucket_of c) InstallationID error_text settings) ≫= λ _, mret tt
      end
  end.

Definition reconcileIfUnknown : M bool :=
  attempt StorageSettings ≫= λ r,
  match r with
  | Err _ => mret false
  | Ok settings =>
      attempt (db_read (ReadStorageTarget (Target settings))) ≫= λ st,
      match st with
      | Err _ => mret false
      | Ok state =>
          if 0 <? st_ReconciledAt state then mret false
          else
            Reconcile ≫= λ _,
            attempt (db_read (ReadStorageTarget (Target settings))) ≫= λ st,
            mret (match st with Ok state => 0 <? st_ReconciledAt state | Err _ => false end)
      end
  end.

(** ** Scheduling *)

Definition quote : string := String (ascii_of_nat 34) "".
(** [{"scheduled":true}] *)
Definition scheduled_input : string := "{" +:+ quote +:+ "scheduled" +:+ quote +:+ ":true}".

Definition scheduleBackups : M unit :=
  attempt (db_read maintenance) ≫= λ on,
  match on with
  | Ok false =>
      attempt StorageSettings ≫= λ r,
      match r with
      | Err _ => mret tt
      | Ok settings =>
          let target := Target settings in
          attempt (db_read (ReadStorageTarget target)) ≫= λ st,
          match st with
          | Err _ => mret tt
          | Ok state =>
              if st_ReconciledAt state =? 0 then mret tt
              else
                now_ ≫= λ now,
                Policy ≫= λ policy,
                attempt (db_read (BackupCandidates target InstallationID now (DueBefore policy now))) ≫= λ candidates,
                match candidates with
                | Ok (p :: _) =>
                    Token16 ≫= λ token,
                    attempt (db_tx (EnqueueBackupJob ("job_" +:+ token) (p_ID p) scheduled_input true now)) ≫= λ _, mret tt
                | _ => mret tt
                end
          end
      end
  | _ => mret tt
  end.

Definition stage (job : Job) (name : string) : M unit :=
  now_ ≫= λ t, attempt (db_write (SetJobStage (j_ID job) name t)) ≫= λ _, mret tt.

Definition ensure_workspace (needed : Z) : M unit :=
  instead "the backup workspace is unavailable" (host FreeBytes) ≫= λ free, lift (of_text (ensureWorkspace free needed)).

(** ** Backup *)

Fixpoint count_rows (names : list (string * string)) : M (list TableCount) :=
  match names with
  | [] => mret []
  | (schema, name) :: rest =>
      host (CountRows schema name) ≫= λ n,
      count_rows rest ≫= λ ts, mret (mkTableCount schema name n :: ts)
  end.
Definition countTables : M (list TableCount * bool) :=
  host (TableNames (MaxTables + 1)) ≫= λ names,
  let truncated := MaxTables <? Z.of_nat (length names) in
  let names := if truncated then take (Z.to_nat MaxTables) names else names in
  count_rows names ≫= λ tables, mret (tables, truncated).

Definition EncodeManifest (m : Manifest) : res werror string :=
  let b := marshal_Manifest m in
  guard! negb (MaxManifestBytes <? Z.of_nat (slen b)) else (Message "the manifest exceeds the size limit for this release") in
  Ok b.

Definition truncate_second (t : time) : time := t - t mod Second.

(** The [ProjectID] of a job, [''] for none. *)
Definition job_project (job : Job) : string := default "" (j_ProjectID job).

Definition archive_path (work : string) : string := work +:+ "/" +:+ ArchiveFile.
Definition dump_args (snapshot dbName archive : string) : list string :=
  ["--format=custom"; "--no-owner"; "--no-privileges"; "--snapshot=" +:+ snapshot; "--host=postgres"; "--port=5432";
   "--username=pgfy_mgmt"; "--dbname=" +:+ dbName; "--file=" +:+ archive].

Definition empty_BackupResult : BackupResult := mkBackupResult "" "" 0 "" [] false None.

(** From the dumped archive on: checksum, then the job's claim on the folder,
    then the archive, and the manifest last. *)
Definition publish (job : Job) (project : Project) (client : Settings) (version : string) (archive : file)
  (tables : list TableCount) (truncated : bool) (objects : ObjectCounts) (result : BackupResult) :
  M (BackupResult * res werror Backup) :=
  stage job "checksum" ≫= λ _,
  try! sn := host (ReadFile archive) or result in
  let (sum, n) := sn in
  if MaxArchiveBytes <? n then
    mret (result, Err (Message ("the archive is " +:+ decimal n +:+ " bytes, above the " +:+ decimal MaxArchiveBytes +:+
                                " byte limit of this release")))
  else
    let result := result <| br_SHA256 := sum |> <| br_SizeBytes := n |> in
    now_ ≫= λ t,
    let now := truncate_second t in
    let base := BackupKey client (p_DBName project) now in
    try! _ := db_write (SetJobTarget (j_ID job) (Target client) base) or result in
    let manifest := mkManifest 1 InstallationID (p_ID project) (p_Name project) (p_DBName project) version now
      (base +:+ "/" +:+ ArchiveFile) sum n tables truncated (Some objects) (base +:+ "/" +:+ ManifestFile) in
    try! encoded := lift (EncodeManifest manifest) or result in
    stage job "upload_archive" ≫= λ _,
    try! _ := UploadFile (m_ArchiveKey manifest) n sum or result in
    stage job "upload_manifest" ≫= λ _,
    try! _ := UploadManifest (m_ManifestKey manifest) (Z.of_nat (slen encoded)) manifest or result in
    Token16 ≫= λ token,
    let result := result <| br_BackupID := "bk_" +:+ token |> <| br_ObjectKey := m_ManifestKey manifest |> in
    mret (result, Ok (mkBackup (br_BackupID result) (Some (p_ID project)) (j_ID job) (br_ObjectKey result) encoded n
      (unix now) (Target client))).

Definition runBackup (job : Job) : M (BackupResult * res werror Backup) :=
  let result := empty_BackupResult in
  stage job "preparing" ≫= λ _,
  try! project := instead "the project no longer exists" (db_get (ProjectByID (job_project job))) or result in
  if negb (in_stage "ready" project) || p_Failed project then
    mret (result, Err (Message "the project database is not ready"))
  else
    try! client := StorageClient or result in
    try! size := instead "PostgreSQL is not reachable" (host (DatabaseSize (p_DBName project))) or result in
    try! _ := ensure_workspace size or result in
    try! work := host (MkdirTemp "backup-") or result in
    try! _ := host Passfile or result in
    stage job "snapshot" ≫= λ _,
    try! _ := instead "PostgreSQL is not reachable" (host (Connect (p_DBName project))) or result in
    try! _ := host BeginTx or result in
    try! sv := host ExportSnapshot or result in
    let (snapshot, version) := (sv : string * string) in
    try! tt' := countTables or result in
    let (tables, truncated) := tt' in
    try! objects := host CountObjects or result in
    let result := result <| br_Tables := tables |> <| br_TablesTruncated := truncated |> <| br_Objects := Some objects |> in
    stage job "dump" ≫= λ _,
    try! pf := host (PgDump (dump_args snapshot (p_DBName project) (archive_path work))) or result in
    let (p, archive) := (pf : process * file) in
    try! _ := lift (of_text (tool "pg_dump" p)) or result in
    attempt (host Commit) ≫= λ _,
    publish job project client version archive tables truncated objects result.

(** ** Restore *)

Definition empty_RestoreResult : RestoreResult := mkRestoreResult "" "" false "" 0 "" [].

(** Answers of queries whose failures are results. *)
Definition answer {A} (m : M A) : M (option A) :=
  attempt m ≫= λ r, mret (match r with Ok a => Some a | Err _ => None end).
Fixpoint row_counts (tables : list TableCount) : M (list (option Z)) :=
  match tables with
  | [] => mret []
  | t :: ts => answer (host (CountRows (tc_Schema t) (tc_Name t))) ≫= λ c, row_counts ts ≫= λ cs, mret (c :: cs)
  end.

Definition verify_restore (manifest : Manifest) (role : string) : M (list Check * string) :=
  row_counts (m_Tables manifest) ≫= λ counts,
  (match m_Objects manifest with None => mret None | Some _ => answer (host CountObjects) end) ≫= λ objects,
  answer (host (ForeignTables role)) ≫= λ foreign,
  answer (host (HasConnect role)) ≫= λ can_connect,
  mret (verifyRestore counts objects foreign can_connect manifest).

Definition restore_summary (run : toolRun) (reported : bool) (state : string) : string :=
  if reported then
    "Completed with " +:+ decimal (tr_Errors run) +:+ " restore errors (" +:+ tr_Counted run +:+
    "). The database exists and can be inspected, but it is not verified."
  else if bool_decide (state = VerificationPartial) then
    "Restored. Every check that this backup supports passed, but it does not carry the full set of baselines."
  else if bool_decide (state = VerificationFailed) then
    "Restored, but verification found differences. Review the checks before relying on this database."
  else "Restored and verified against the baselines recorded at backup time.".

Definition restore_args (role dbName archive : string) : list string :=
  ["--no-owner"; "--no-privileges"; "--role=" +:+ role; "--host=postgres"; "--port=5432"; "--username=pgfy_mgmt";
   "--dbname=" +:+ dbName; archive].

(** A panic ends the process: nothing of the job is recorded, and the queue
    is not looked at again, as when [ctx] is over. *)
Definition panic {A} (message : string) : M A := λ w, (Err (Message message), w <| w_stops := [true; true] |>).
(** [w.Provisioner] is a nil pointer only when PostgreSQL management is not
    configured, and the worker does not run then; the call would panic. *)
Definition provision_now (projectID : string) : M unit :=
  match pv with
  | Some p => @ProvisionNow p projectID
  | None => panic "nil pointer dereference"
  end.

(** Into the created project: [pg_restore], then the checks. *)
Definition restore_into (job : Job) (manifest : Manifest) (project : Project) (work : string) (result : RestoreResult) :
  M (RestoreResult * res werror unit) :=
  stage job "restore" ≫= λ _,
  try! p := host (PgRestore (restore_args (p_RoleName project) (p_DBName project) (archive_path work))) or result in
  let run := run "pg_restore" p in
  match tr_Err run with
  | Some e => mret (result, Err (Message e))
  | None =>
      let result := result <| rr_RestoreErrors := tr_Errors run |> <| rr_Stderr := tr_Excerpt run |> in
      stage job "verify" ≫= λ _,
      try! _ := instead "PostgreSQL is not reachable for verification" (host (Connect (p_DBName project))) or result in
      verify_restore manifest (p_RoleName project) ≫= λ verdict : list Check * string,
      let (checks, state) := verdict in
      let reported := negb (tr_Exit run =? 0) || (0 <? tr_Errors run) in
      let state := if reported then VerificationFailed else state in
      mret (result <| rr_Checks := checks |> <| rr_Verification := state |>
                   <| rr_Verified := bool_decide (state = VerificationVerified) |>
                   <| rr_Summary := restore_summary run reported state |>, Ok tt)
  end.

Definition runRestore (job : Job) : M (RestoreResult * res werror unit) :=
  let result := empty_RestoreResult in
  try! in' := lift (unmarshal_restoreInput (j_Input job)) or result in
  let result := result <| rr_ProjectID := ri_ProjectID in' |> in
  stage job "preparing" ≫= λ _,
  try! client := StorageClient or result in
  try! manifest := @os_Manifest (bucket_of client) (ri_ManifestKey in') or result in
  try! version := instead "PostgreSQL is not reachable" (host ServerVersion) or result in
  if negb (bool_decide (major (m_PostgresVersion manifest) = major version)) then
    mret (result, Err (Message ("the backup was made with PostgreSQL " +:+ m_PostgresVersion manifest +:+
      " and this server runs " +:+ version +:+ "; restoring across major versions is not supported")))
  else if MaxArchiveBytes <? m_SizeBytes manifest then
    mret (result, Err (Message "the archive is above the size limit of this release"))
  else
    try! _ := ensure_workspace (m_SizeBytes manifest) or result in
    try! work := host (MkdirTemp "restore-") or result in
    stage job "download" ≫= λ _,
    try! archive := DownloadFile (m_ArchiveKey manifest) or result in
    stage job "verify_archive" ≫= λ _,
    try! sn := host (ReadFile (mkFile archive.1 archive.2)) or result in
    let (sum, n) := (sn : string * Z) in
    if negb (bool_decide (sum = m_SHA256 manifest)) || negb (n =? m_SizeBytes manifest) then
      mret (result, Err (Message "the downloaded archive does not match the manifest checksum; it will not be restored"))
    else
      stage job "create_project" ≫= λ _,
      try! _ := wrap "the target project could not be created" (provision_now (ri_ProjectID in')) or result in
      try! project := db_get (ProjectByID (ri_ProjectID in')) or result in
      if negb (in_stage "ready" project) then
        mret (result, Err (Message "the target project is not ready; it may have been deleted"))
      else
        try! _ := host Passfile or result in
        restore_into job manifest project work result.

(** ** Deletion *)

Definition NewDeleteJob (token : string) (p : Project) : string * string :=
  ("job_" +:+ token, marshal_deleteInput (mkDeleteInput (p_ID p) (p_Name p) (p_DBName p) (p_RoleName p))).

Definition runDelete (job : Job) : M (DeleteResult * res werror unit) :=
  try! in' := lift (unmarshal_deleteInput (j_Input job)) or mkDeleteResult "" "" "" in
  let result := mkDeleteResult (di_ProjectID in') (di_Name in') (di_DBName in') in
  match pv with
  | None => mret (result, Err (Message "PostgreSQL management is unavailable"))
  | Some p =>
      stage job "preparing" ≫= λ _,
      try! project := instead "the project could not be read" (db_get (ProjectByID (di_ProjectID in'))) or result in
      if negb (in_stage "deleting" project) then
        mret (result, Err (Message "the project is not marked for deletion"))
      else
        stage job "drop_database" ≫= λ _,
        try! _ := @DropProject p (p_DBName project) (p_RoleName project) or result in
        stage job "access_policy" ≫= λ _,
        try! _ := wrap "the access policy could not be applied" (@SyncPolicy p) or result in
        stage job "remove_records" ≫= λ _,
        now_ ≫= λ t,
        try! _ := db_tx (CompleteProjectDeletion (j_ID job) project (marshal_DeleteResult result) t) or result in
        mret (result, Ok tt)
  end.

(** Each queued deletion gets a name of its own: [names] are the tokens. *)
Definition resumeDeletions (names : Project → string) : M unit :=
  now_ ≫= λ t,
  attempt (db_tx (ResumeDeletions (λ p, NewDeleteJob (names p) p) t)) ≫= λ _, mret tt.

(** ** Running a job *)

(** What a run produced: the encoded result, the record of a published
    backup, and the error. *)
Definition outcome_of (job : Job) : M (string * option Backup * option werror) :=
  let err {A} (r : res werror A) := match r with Ok _ => None | Err e => Some e end in
  if of_kind "backup" job then
    runBackup job ≫= λ x : BackupResult * res werror Backup, let (result, r) := x in
    mret (marshal_BackupResult result, match r with Ok b => Some b | Err _ => None end, err r)
  else if of_kind "restore" job then
    runRestore job ≫= λ x : RestoreResult * res werror unit, let (result, r) := x in
    mret (marshal_RestoreResult result, None, err r)
  else if of_kind "delete" job then
    runDelete job ≫= λ x : DeleteResult * res werror unit, let (result, r) := x in
    mret (marshal_DeleteResult result, None, err r)
  else mret ("null", None, Some (Message "unknown job kind")).

Definition execute (job : Job) : M unit :=
  outcome_of job ≫= λ (out : string * option Backup * option werror),
  let '(encoded, record, e) := out in
  ctx_done ≫= λ stop,
  if (stop : bool) then mret tt
  else
    attempt (db_get (JobByID (j_ID job))) ≫= λ current,
    let current_stage := match current with Ok c => j_Stage c | Err _ => "" end in
    let '(state, stage, message, record) :=
      match e with
      | None => ("succeeded", "done", "", record)
      | Some e => ("failed", current_stage, error_text e, None)
      end in
    if of_kind "delete" job then
      match e with
      | None => mret tt
      | Some _ =>
          let in' := match unmarshal_deleteInput (j_Input job) with Ok i => i | Err _ => mkDeleteInput "" "" "" "" end in
          now_ ≫= λ t,
          attempt (db_write (FailDeleteJob (j_ID job) (di_ProjectID in') (di_Name in') stage message encoded t)) ≫= λ _, mret tt
      end
    else if negb (of_kind "backup" job) then
      now_ ≫= λ t, attempt (db_write (FinishJob (j_ID job) state stage message encoded t)) ≫= λ _, mret tt
    else
      Policy ≫= λ policy,
      now_ ≫= λ t,
      attempt (db_tx (CompleteBackupJob (j_ID job) (job_project job) state stage message encoded record (j_Scheduled job) t
        (Interval policy))) ≫= λ r,
      match r with
      | Err _ => mret tt
      | Ok _ => if bool_decide (state = "succeeded") then Reconcile else mret tt
      end.

(** Jobs are claimed and run until none is queued; [fuel] bounds the number
    of jobs. *)
Fixpoint drain (fuel : nat) : M unit :=
  match fuel with
  | O => mret tt
  | S fuel =>
      ctx_done ≫= λ stop,
      if (stop : bool) then mret tt
      else
        now_ ≫= λ t,
        attempt (db_tx (λ db, let (j, db') := ClaimJob t db in (Ok j, db'))) ≫= λ r,
        match r with
        | Ok (Some job) => execute job ≫= λ _, drain fuel
        | _ => mret tt
        end
  end.

(** ** The loop of [Run] *)

Definition startup (names : Project → string) : M unit :=
  Policy ≫= λ policy,
  now_ ≫= λ t,
  attempt (db_tx (InterruptRunningJobs t (Interval policy))) ≫= λ _,
  attempt (host CleanWorkspace) ≫= λ _,
  Reconcile ≫= λ _,
  resumeDeletions names ≫= λ _,
  scheduleBackups.

(** What wakes the loop. *)
Inductive event := Kicked | ReconcileTick | ScheduleTick | MinutePassed.

Definition wake (names : Project → string) (e : event) : M unit :=
  match e with
  | Kicked | MinutePassed =>
      reconcileIfUnknown ≫= λ known, if (known : bool) then scheduleBackups else mret tt
  | ReconcileTick => Reconcile ≫= λ _, resumeDeletions names ≫= λ _, scheduleBackups
  | ScheduleTick => scheduleBackups
  end.

Fixpoint loop (fuel : nat) (names : Project → string) (events : list event) : M unit :=
  drain fuel ≫= λ _,
  match events with
  | [] => mret tt
  | e :: es => wake names e ≫= λ _, loop fuel names es
  end.

Definition Run (fuel : nat) (names : Project → string) (events : list event) : M unit :=
  startup names ≫= λ _, loop fuel names events.
End worker.

(** ** Rules *)

Lemma wp_try {A R B} (result : R) (m : M A) (k : A → M (R * res werror B)) (Q : post (R * res werror B)) d b p :
  wp m (λ r d b p, match r with Ok a => wp (k a) Q d b p | Err e => Q (Ok (result, Err e)) d b p end) d b p →
  wp (try_ result m k) Q d b p.
Proof.
  intros H. unfold try_. apply wp_bind, wp_attempt. eapply wp_mono; [exact H|]. intros [a|e] d' b' p' Ha; [exact Ha|].
  by apply wp_ret.
Qed.

Lemma wp_instead {A} text (m : M A) (Q : post A) d b p :
  wp m (λ r d b p, Q (match r with Ok a => Ok a | Err _ => Err (Message text) end) d b p) d b p → wp (instead text m) Q d b p.
Proof. intros H w Hd Hb Hp Hw. specialize (H w Hd Hb Hp Hw). unfold instead. by destruct (m w) as [[]]. Qed.

(** A computation that changes nothing. *)
Definition silent {A} (m : M A) : Prop := ∀ (Q : post A) d b p, (∀ r, Q r d b p) → wp m Q d b p.

Create HintDb silent.
Lemma silent_ret {A} (a : A) : silent (mret a).
Proof. intros Q d b p H. by apply wp_ret. Qed.
Lemma silent_throw {A} e : silent (throw e : M A).
Proof. intros Q d b p H. by apply wp_throw. Qed.
Lemma silent_lift {A} (x : res werror A) : silent (lift x).
Proof. intros Q d b p H. by apply wp_lift. Qed.
Lemma silent_bind {A B} (m : M A) (k : A → M B) : silent m → (∀ a, silent (k a)) → silent (m ≫= k).
Proof. intros Hm Hk Q d b p H. apply wp_bind, Hm. intros [a|e]; [by apply Hk|done]. Qed.
Lemma silent_attempt {A} (m : M A) : silent m → silent (attempt m).
Proof. intros Hm Q d b p H. apply wp_attempt, Hm. intros r. apply H. Qed.
Lemma silent_instead {A} text (m : M A) : silent m → silent (instead text m).
Proof. intros Hm Q d b p H. apply wp_instead, Hm. intros r. apply H. Qed.
Lemma silent_db_read {A} (f : DB → A) : silent (db_read f).
Proof. intros Q d b p H. apply wp_db_read; auto. Qed.
Lemma silent_db_get {A} (f : DB → res store_error A) : silent (db_get f).
Proof. intros Q d b p H. apply wp_db_get; auto. Qed.
Lemma silent_now : silent now_.
Proof. intros Q d b p H. by apply wp_now. Qed.
Lemma silent_host {h : Host} {laws : HostLaws h} {A} (q : request A) : silent (host q).
Proof.
  intros Q d b p H. apply wp_plain. intros w <- <- <-. destruct (host q w) as [r w'] eqn:E. apply host_quiet in E as [[-> ->] ->]. apply H.
Qed.
(** An answer the outside has given. *)
Definition answered {h : Host} {A} (q : request A) (a : A) : Prop := ∃ w w', host q w = (Ok a, w').
Lemma wp_host {h : Host} {laws : HostLaws h} {A} (q : request A) (Q : post A) d b p :
  (∀ a, answered q a → Q (Ok a) d b p) → (∀ e, Q (Err e) d b p) → wp (host q) Q d b p.
Proof.
  intros H He. apply wp_plain. intros w <- <- <-. destruct (host q w) as [r w'] eqn:E. pose proof E as [[-> ->] ->]%host_quiet.
  destruct r as [a|e]; [|done]. apply H. by exists w, w'.
Qed.
#[export] Hint Resolve silent_ret silent_throw silent_lift silent_bind silent_attempt silent_instead silent_db_read
  silent_db_get silent_now silent_host : silent.

Lemma wp_silent {A} (m : M A) (Q : post A) d b p : silent m → (∀ r, Q r d b p) → wp m Q d b p.
Proof. auto. Qed.

Lemma wp_UploadFile k n sum (Q : post unit) d b p :
  let b' := <[k := mkStored n (Archive sum)]> b in
  Q (Ok tt) d b' p → (∀ e b'', b'' = b ∨ b'' = b' → Q (Err e) d b'' p) → wp (UploadFile k n sum) Q d b p.
Proof.
  intros b' H He. apply wp_plain. intros w <- <- <-. unfold UploadFile, call. destruct (w_faults w) as [|[] os]; cbn; try apply H; apply He; auto.
Qed.
Lemma wp_UploadManifest k n m (Q : post unit) d b p :
  let b' := <[k := mkStored n (Document m)]> b in
  Q (Ok tt) d b' p → (∀ e b'', b'' = b ∨ b'' = b' → Q (Err e) d b'' p) → wp (UploadManifest k n m) Q d b p.
Proof.
  intros b' H He. apply wp_plain. intros w <- <- <-. unfold UploadManifest, call. destruct (w_faults w) as [|[] os]; cbn; try apply H; apply He; auto.
Qed.
Lemma wp_DownloadFile k (Q : post (string * Z)) d b p :
  (∀ o, b !! k = Some o → Q (Ok (match so_Content o with Archive sha => sha | _ => "" end, so_Size o)) d b p) →
  (∀ e, Q (Err e) d b p) → wp (DownloadFile k) Q d b p.
Proof.
  intros H He. apply (wp_call_read (λ _ b _, match b !! k with
    | Some o => Ok (match so_Content o with Archive sha => sha | _ => "" end, so_Size o) | None => Err Unavailable end)); [|done].
  destruct (b !! k) as [o|] eqn:E; [by apply H|apply He].
Qed.

(** *** Stages *)

(** Only the stage of job [id] moved. *)
Inductive staged (id : string) (d : DB) : DB → Prop :=
| staged_refl : staged id d d
| staged_step d' name t : staged id d d' → staged id d (SetJobStage id name t d').

Lemma staged_trans id d1 d2 d3 : staged id d1 d2 → staged id d2 d3 → staged id d1 d3.
Proof. intros H12 H23. induction H23; [done|by constructor]. Qed.

Lemma wp_stage job name (Q : post unit) d b p :
  (∀ d', staged (j_ID job) d d' → Q (Ok tt) d' b p) → wp (stage job name) Q d b p.
Proof.
  intros H. unfold stage. do 2 wp_step. wp_step. wp_step. wp_step.
  - wp_step. apply H. do 2 constructor.
  - wp_step. apply H. destruct H0 as [->| ->]; repeat constructor.
Qed.

(** Everything of a job but its stage. *)
Definition job_core (j : Job) : Job := j <| j_Stage := "" |> <| j_StageAt := 0 |>.

Lemma staged_spec id d d' : staged id d d' →
  d' = d <| db_jobs := db_jobs d' |> ∧ map job_core (db_jobs d') = map job_core (db_jobs d).
Proof.
  induction 1 as [|d' name t H [IH1 IH2]].
  - split; [by destruct d|done].
  - split; [rewrite IH1; unfold upd; by cbn|]. rewrite <- IH2. unfold SetJobStage. unfold upd. cbn.
    unfold sql_update. rewrite map_map. apply map_ext. intros j. by destruct (_ && _).
Qed.

Lemma staged_job id d d' j' : staged id d d' → In j' (db_jobs d') → ∃ j, In j (db_jobs d) ∧ job_core j = job_core j'.
Proof.
  intros [_ H]%staged_spec Hin. apply (in_map job_core) in Hin. rewrite H in Hin.
  apply in_map_iff in Hin as (j & ? & ?). eauto.
Qed.

(** ** Publication *)

Section publication.
Context {network : Network} {codec : Codec} {h : Host} {laws : HostLaws h} (random : World → string) (InstallationID : string).

Lemma wp_Token16 (Q : post string) d b p : (∀ t, Q (Ok t) d b p) → wp (Token16 random) Q d b p.
Proof. intros H. apply wp_plain. intros w <- <- <-. apply H. Qed.
Lemma silent_StorageSettings : silent StorageSettings.
Proof.
  unfold StorageSettings. apply silent_bind; [auto with silent|]. intros sealed. case_bool_decide; [auto with silent|].
  destruct (vault_Open _ _); auto with silent.
Qed.
Lemma silent_StorageClient : silent StorageClient.
Proof. apply silent_bind; [apply silent_StorageSettings|auto with silent]. Qed.
Lemma silent_ensure_workspace n : silent (ensure_workspace n).
Proof. unfold ensure_workspace. eauto using silent_host with silent. Qed.
Lemma silent_countTables : silent countTables.
Proof.
  unfold countTables. apply silent_bind; [apply silent_host|]. intros names. apply silent_bind; [|auto with silent].
  generalize (if MaxTables <? Z.of_nat (length names) then take (Z.to_nat MaxTables) names else names).
  induction l as [|[sc nm] l IH]; cbn [count_rows]; [auto with silent|].
  apply silent_bind; [apply silent_host|]. intros n. apply silent_bind; auto with silent.
Qed.

(** The manifest a backup of [project] at [t] writes. *)
Definition manifest_for (s : Settings) (project : Project) (t : time) (m : Manifest) : Prop :=
  let base := BackupKey s (p_DBName project) t in
  m_Version m = 1 ∧ m_InstallationID m = InstallationID ∧ m_ProjectID m = p_ID project ∧ m_DBName m = p_DBName project ∧
  m_CreatedAt m = t ∧ t mod Second = 0 ∧ m_ArchiveKey m = base +:+ "/" +:+ ArchiveFile ∧
  m_ManifestKey m = base +:+ "/" +:+ ManifestFile ∧ m_SizeBytes m ≤ MaxArchiveBytes.

(** Job [id] is on record as the one that uploads to [base]. *)
Definition claimed (id target base : string) (d : DB) : Prop :=
  ∀ j, In j (db_jobs d) → j_ID j = id → j_TargetStorage j = target ∧ j_TargetKey j = base.

Lemma claimed_staged id target base d d' : staged id (SetJobTarget id target base d) d' → claimed id target base d'.
Proof.
  intros Hs j' Hin Hid. destruct (staged_job _ _ _ _ Hs Hin) as (j & Hj & Hcore).
  assert (j_ID j = j_ID j' ∧ j_TargetStorage j = j_TargetStorage j' ∧ j_TargetKey j = j_TargetKey j') as (E1 & <- & <-).
  { unfold job_core, upd in Hcore. by injection Hcore. }
  cbn in Hj. apply in_sql_update in Hj as (j0 & _ & ->). unfold has_id in *.
  destruct (bool_decide_reflect (j_ID j0 = id)) as [|Hne]; [done|]. congruence.
Qed.

(** The bucket after an upload of [m]'s archive, and of both objects. *)
Definition with_archive (m : Manifest) (b : bucket) : bucket :=
  <[m_ArchiveKey m := mkStored (m_SizeBytes m) (Archive (m_SHA256 m))]> b.
Definition with_backup (m : Manifest) (size : Z) (b : bucket) : bucket :=
  <[m_ManifestKey m := mkStored size (Document m)]> (with_archive m b).

(** How far a backup got. *)
Definition published (job : Job) (s : Settings) (project : Project) (r : res werror Backup) (b : bucket) (d' : DB) (b' : bucket) : Prop :=
  (b' = b ∧ is_ok r = false) ∨
  ∃ t m size, manifest_for s project t m ∧ size ≤ MaxManifestBytes ∧
    claimed (j_ID job) (Target s) (BackupKey s (p_DBName project) t) d' ∧
    (b' = with_archive m b ∧ is_ok r = false ∨
     b' = with_backup m size b) ∧
    ∀ record, r = Ok record → b' = with_backup m size b ∧ b_ObjectKey record = m_ManifestKey m ∧
      b_StorageTarget record = Target s ∧ b_SizeBytes record = m_SizeBytes m ∧ b_CreatedAt record = unix t.

Definition publish_post (job : Job) (s : Settings) (project : Project) (b : bucket) (p : Cluster) : post (BackupResult * res werror Backup) :=
  λ x d' b' p', p' = p ∧ ∃ res r, x = Ok (res, r) ∧ published job s project r b d' b'.

Lemma publish_wp job project s version archive tables truncated objects result d b p :
  wp (publish random InstallationID job project s version archive tables truncated objects result)
    (publish_post job s project b p) d b p.
Proof using laws.
  unfold publish.
  assert (∀ res e d' b', b' = b → publish_post job s project b p (Ok (res, Err e)) d' b' p) as Hstop.
  { intros res e d' b' ->. split; [done|]. eexists _, _. split; [done|]. by left. }
  apply wp_bind, wp_stage. intros d1 S1. apply wp_try, silent_host. intros [[sum n]|e]; [|by apply Hstop].
  destruct (Z.ltb_spec MaxArchiveBytes n); [by apply wp_ret, Hstop|].
  apply wp_bind, wp_now. intros t. set (now := truncate_second t). set (base := BackupKey s (p_DBName project) now).
  apply wp_try, wp_db_write; [|intros e d2 _; by apply Hstop]. set (d2 := SetJobTarget _ _ _ d1).
  set (m := mkManifest 1 _ _ _ _ _ _ _ _ _ _ _ _ _).
  assert (manifest_for s project now m) as Hm.
  { split_and!; try done. unfold now, truncate_second. rewrite Zminus_mod_idemp_r. by rewrite Z.sub_diag. }
  apply wp_try, wp_lift. destruct (EncodeManifest m) as [encoded|e] eqn:Ee; [|by apply Hstop].
  unfold EncodeManifest in Ee. apply guard_ok in Ee as [Hsize [= Hen]]. rewrite Hen in Hsize. bool_simpl.
  apply wp_bind, wp_stage. intros d3 S3.
  assert (∀ res e d' b', staged (j_ID job) d2 d' → b' = b ∨ b' = with_archive m b →
    publish_post job s project b p (Ok (res, Err e)) d' b' p) as Hhalf.
  { intros res e d' b' Hs [->| ->]; [by apply Hstop|]. split; [done|]. eexists _, _. split; [done|]. right.
    exists now, m, 0. split; [done|]. split; [done|]. split; [by eapply claimed_staged|]. split; [by left|done]. }
  apply wp_try, wp_UploadFile; [|by intros e b' Hb; apply Hhalf].
  apply wp_bind, wp_stage. intros d4 S4. assert (staged (j_ID job) d2 d4) as S24 by (by eapply staged_trans).
  apply wp_try, wp_UploadManifest.
  - apply wp_bind, wp_Token16. intros token. apply wp_ret. split; [done|]. eexists _, _. split; [done|]. right.
    exists now, m, (Z.of_nat (slen encoded)). split; [done|]. split; [done|]. split; [by eapply claimed_staged|].
    split; [by right|]. intros record [= <-]. by split_and!.
  - intros e b' [->| ->]; [apply Hhalf; auto|]. split; [done|]. eexists _, _. split; [done|]. right.
    exists now, m, (Z.of_nat (slen encoded)). split; [done|]. split; [done|]. split; [by eapply claimed_staged|].
    split; [by right|done].
Qed.

Lemma runBackup_wp job d b p :
  wp (runBackup random InstallationID job)
    (λ x d' b' p', p' = p ∧ ∃ res r, x = Ok (res, r) ∧
       ((b' = b ∧ is_ok r = false) ∨
        ∃ s project, In project (db_projects d) ∧ p_ID project = job_project job ∧ p_Stage project = "ready" ∧
          published job s project r b d' b')) d b p.
Proof using laws.
  unfold runBackup. set (Q := λ x d' b' p', p' = p ∧ _).
  assert (∀ res e d', Q (Ok (res, Err e)) d' b p) as Hstop.
  { intros. split; [done|]. eexists _, _. split; [done|]. by left. }
  apply wp_bind, wp_stage. intros d1 S1. apply wp_try, wp_instead, wp_db_get; [|intros; apply Hstop].
  intros project Hproject. destruct (_ || _) eqn:Eready; [by apply wp_ret|]. bool_simpl. unfold in_stage in *. bool_simpl.
  assert (In project (db_projects d) ∧ p_ID project = job_project job) as [Hin Hid].
  { unfold ProjectByID, projectBy in Hproject. destruct (sql_find _ _) eqn:Ef; [|done]. injection Hproject as ->.
    apply sql_find_some in Ef as [Hin Hid]. unfold project_id in Hid. bool_simpl. split; [|done].
    apply staged_spec in S1 as [S1 _]. rewrite S1 in Hin. exact Hin. }
  apply wp_try, silent_StorageClient. intros [s|e]; [|apply Hstop].
  apply wp_try, wp_instead, silent_host. intros [size|e]; [|apply Hstop].
  apply wp_try, silent_ensure_workspace. intros [?|e]; [|apply Hstop].
  apply wp_try, silent_host. intros [work|e]; [|apply Hstop].
  apply wp_try, silent_host. intros [?|e]; [|apply Hstop].
  apply wp_bind, wp_stage. intros d2 S2.
  apply wp_try, wp_instead, silent_host. intros [?|e]; [|apply Hstop].
  apply wp_try, silent_host. intros [?|e]; [|apply Hstop].
  apply wp_try, silent_host. intros [[snapshot version]|e]; [|apply Hstop].
  apply wp_try, silent_countTables. intros [[tables truncated]|e]; [|apply Hstop].
  apply wp_try, silent_host. intros [objects|e]; [|apply Hstop].
  apply wp_bind, wp_stage. intros d3 S3.
  apply wp_try, silent_host. intros [[pr archive]|e]; [|apply Hstop].
  apply wp_try, wp_lift. destruct (of_text _) as [?|e]; [|apply Hstop].
  apply wp_bind, wp_attempt, silent_host. intros ?.
  eapply wp_mono; [apply publish_wp|]. intros x d' b' p' (-> & res & r' & -> & Hp). split; [done|].
  eexists _, _. split; [done|]. right. by exists s, project.
Qed.
End publication.

(** A manifest just published is the one a restore reads, beside the archive
    it describes. *)
Lemma published_readable InstallationID s project t m size b :
  manifest_for InstallationID s project t m → size ≤ MaxManifestBytes →
  ValidDatabaseSegment (p_DBName project) = true → printable t →
  ReadManifest s (m_ManifestKey m) (with_backup m size b) = Ok m ∧
  with_backup m size b !! m_ArchiveKey m = Some (mkStored (m_SizeBytes m) (Archive (m_SHA256 m))).
Proof.
  intros (Hv & _ & _ & Hdb & Ht & _ & Hak & Hmk & _) Hsize Hval Hp. split.
  - unfold ReadManifest, with_backup. rewrite Hmk, published_EntryFor, lookup_insert_eq by done. cbn [so_Size so_Content].
    destruct (Z.ltb_spec MaxManifestBytes size); [lia|]. rewrite <- Hmk.
    replace (m <| m_ManifestKey := m_ManifestKey m |>) with m by (by destruct m).
    rewrite (published_CheckManifest s (p_DBName project) t m); try done.
  - unfold with_backup, with_archive. rewrite lookup_insert_ne, lookup_insert_eq; [done|].
    rewrite Hak, Hmk, <- !app_assoc'. intros E. apply (f_equal (λ x, sdrop (slen (BackupKey s (p_DBName project) t +:+ "/")) x)) in E.
    rewrite !sdrop_app in E. discriminate.
Qed.

(** C6. Publication is ordered and claimed, under every schedule of failures:
    a backup job touches no role or database, and leaves the bucket as it
    was, or with its archive alone, or with archive and manifest; whenever
    it uploaded anything, the job's row already names the folder, so an
    archive left behind can be recognised as ours; and a job that reports
    success has published both objects, the manifest naming this
    installation, the project, the folder and the archive's checksum, and
    a restore from the recorded key reads exactly that manifest and finds
    that archive. *)
Theorem backup_publication {network : Network} {codec : Codec} {h : Host} {laws : HostLaws h} random InstallationID job w :
  let (x, w') := runBackup random InstallationID job w in
  w_pg w' = w_pg w ∧
  ∃ result r, x = Ok (result, r) ∧
    ((w_bucket w' = w_bucket w ∧ is_ok r = false) ∨
     ∃ s project t m size,
       In project (db_projects (w_db w)) ∧ p_ID project = job_project job ∧ p_Stage project = "ready" ∧
       manifest_for InstallationID s project t m ∧
       claimed (j_ID job) (Target s) (BackupKey s (p_DBName project) t) (w_db w') ∧
       ((w_bucket w' = with_archive m (w_bucket w) ∧ is_ok r = false) ∨ w_bucket w' = with_backup m size (w_bucket w)) ∧
       ∀ record, r = Ok record →
         w_bucket w' = with_backup m size (w_bucket w) ∧ b_StorageTarget record = Target s ∧
         b_ObjectKey record = m_ManifestKey m ∧
         (ValidDatabaseSegment (p_DBName project) = true → printable t →
            ReadManifest s (b_ObjectKey record) (w_bucket w') = Ok m ∧
            w_bucket w' !! m_ArchiveKey m = Some (mkStored (m_SizeBytes m) (Archive (m_SHA256 m))))).
Proof.
  destruct (runBackup random InstallationID job w) as [x w'] eqn:E.
  pose proof (wp_run _ _ _ _ _ (runBackup_wp random InstallationID job (w_db w) (w_bucket w) (w_pg w)) E)
    as (Hp & result & r & -> & Hr).
  split; [done|]. exists result, r. split; [done|].
  destruct Hr as [Hr|(s & project & Hin & Hid & Hst & [Hr|(t & m & size & Hm & Hsz & Hc & Hb & Hok)])]; [by left..|]. right.
  exists s, project, t, m, size. split_and!; try done. intros record Hrec. destruct (Hok record Hrec) as (Hbk & Hk & Ht & _ & _).
  split_and!; try done. intros Hv Hpr. rewrite Hbk, Hk. by eapply published_readable.
Qed.

(** ** Restore *)

Lemma wp_any {A} (m : M A) (Q : post A) d b p : (∀ r d b p, Q r d b p) → wp m Q d b p.
Proof. intros H. apply wp_plain. intros w _ _ _. destruct (m w). apply H. Qed.

Lemma wp_host_file {h : Host} {laws : HostLaws h} f (Q : post (string * Z)) d b p :
  Q (Ok (f_SHA256 f, f_Size f)) d b p → (∀ e, Q (Err e) d b p) → wp (host (ReadFile f)) Q d b p.
Proof.
  intros H He. apply wp_plain. intros w <- <- <-. destruct (host (ReadFile f) w) as [[[sum n]|e] w'] eqn:E; pose proof E as [[-> ->] ->]%host_quiet; [|done].
  by apply host_file in E as [-> ->].
Qed.

Lemma wp_Manifest {c : ObjectStore} {s : Settings} {laws : ObjectStoreLaws c s} k (Q : post Manifest) d b p :
  (∀ m, ReadManifest s k b = Ok m → Q (Ok m) d b p) → (∀ e, Q (Err e) d b p) → wp (os_Manifest k) Q d b p.
Proof.
  intros H He. apply wp_plain. intros w <- <- <-. pose proof (manifest_leaves_cluster k w) as Hpg. destruct (os_Manifest k w) as [[m|e] w'] eqn:E; cbn in Hpg;
    apply reading_manifest in E as [[-> ->] Hm]; rewrite Hpg; [by apply H, Hm|done].
Qed.

Definition full_baselines (m : Manifest) : Prop := m_TablesTruncated m = false ∧ m_Objects m ≠ None.

Lemma verified_means counts objects foreign can_connect m :
  let (checks, state) := verifyRestore counts objects foreign can_connect m in
  state = VerificationVerified → forallb check_ok checks = true ∧ full_baselines m.
Proof.
  unfold verifyRestore, full_baselines. destruct (forallb check_ok _); cbn [negb]; [|done].
  destruct (m_TablesTruncated m), (m_Objects m); cbn; done.
Qed.

Section restore.
Context {network : Network} {codec : Codec} {h : Host} {laws : HostLaws h} (pv : option Provisioner)
  (bucket_of : Settings → ObjectStore) {slaws : ∀ s, ObjectStoreLaws (bucket_of s) s}.

(** The restored database showed what the backup recorded: every row count,
    every number of objects, no table of another role, and a role that can
    connect. *)
Definition restored_as_recorded (manifest : Manifest) (role : string) : Prop :=
  (∀ t, In t (m_Tables manifest) → answered (CountRows (tc_Schema t) (tc_Name t)) (tc_Rows t)) ∧
  (∀ o, m_Objects manifest = Some o → answered CountObjects o) ∧ answered (ForeignTables role) 0 ∧ answered (HasConnect role) true.

(** A [pg_restore] that ran to its end, exited with zero and reported no error. *)
Definition clean_exit (pr : process) : Prop :=
  ∃ stderr how, pr = Ended stderr how ∧ (how = None ∨ how = Some (Exited 0 false)) ∧ tr_Errors (readToolErrors stderr) ≤ 0.

(** What a verified result rests on. *)
Definition verified_restore (projectID : string) (manifest : Manifest) (result : RestoreResult) : Prop :=
  rr_Verified result = true →
  forallb check_ok (rr_Checks result) = true ∧ full_baselines manifest ∧
  ∃ project archive pr, p_ID project = projectID ∧ in_stage "ready" project = true ∧
    answered (PgRestore (restore_args (p_RoleName project) (p_DBName project) archive)) pr ∧ clean_exit pr ∧
    restored_as_recorded manifest (p_RoleName project).

(** Queries whose failures are results give an answer or none. *)
Definition given {A} (q : request A) (a : option A) : Prop := ∀ x, a = Some x → answered q x.
Lemma wp_answer {A} (q : request A) (Q : post (option A)) d b p : (∀ a, given q a → Q (Ok a) d b p) → wp (answer (host q)) Q d b p.
Proof using laws.
  intros H. unfold answer. apply wp_bind, wp_attempt, wp_host; [intros a Ha|intros e]; apply wp_ret, H; [by intros x [= <-]|done].
Qed.

Definition counts_given (tables : list TableCount) (counts : list (option Z)) : Prop :=
  Forall2 (λ t c, given (CountRows (tc_Schema t) (tc_Name t)) c) tables counts.
Lemma row_counts_wp tables d b p : wp (row_counts tables) (λ x _ _ _, ∃ cs, x = Ok cs ∧ counts_given tables cs) d b p.
Proof using laws.
  induction tables as [|t ts IH] in d, b, p |- *; cbn [row_counts].
  - apply wp_ret. exists []. split; [done|constructor].
  - apply wp_bind, wp_answer. intros c Hc. apply wp_bind. eapply wp_mono; [apply IH|].
    intros ? d' b' p' (cs & -> & Hcs). apply wp_ret. exists (c :: cs). split; [done|by constructor].
Qed.

Lemma verify_restore_wp manifest role d b p :
  wp (verify_restore manifest role)
    (λ x _ _ _, ∃ counts objects foreign can_connect, x = Ok (verifyRestore counts objects foreign can_connect manifest) ∧
       (restore_passes counts objects foreign can_connect manifest → restored_as_recorded manifest role)) d b p.
Proof using laws.
  unfold verify_restore. apply wp_bind. eapply wp_mono; [apply row_counts_wp|].
  intros ? d' b' p' (counts & -> & Hcounts). apply wp_bind.
  eapply (wp_mono _ (λ x d' b' p', ∃ o, x = Ok o ∧ (m_Objects manifest ≠ None → given CountObjects o))).
  { destruct (m_Objects manifest); [apply wp_answer|apply wp_ret]; eauto. exists None. done. }
  intros ? d2 b2 p2 (objects & -> & Hobjects). apply wp_bind, wp_answer. intros foreign Hforeign. apply wp_bind, wp_answer. intros can Hcan.
  apply wp_ret. exists counts, objects, foreign, can. split; [done|]. intros (Ht & Ho & -> & ->). split_and!; [| |by apply Hforeign|by apply Hcan].
  - intros t Hin. apply list_elem_of_In, list_elem_of_lookup in Hin as [i Hi].
    pose proof (Ht i t Hi) as Hc. by eapply (Forall2_lookup_lr _ _ _ i t _ Hcounts Hi Hc).
  - intros o Hm. apply Hobjects; [by rewrite Hm|by apply Ho].
Qed.

Lemma restore_into_wp job manifest project work result d b p :
  rr_Verified result = false → in_stage "ready" project = true →
  wp (restore_into job manifest project work result)
    (λ x _ _ _, ∃ res r, x = Ok (res, r) ∧ verified_restore (p_ID project) manifest res) d b p.
Proof using laws.
  intros Hv Hready. set (Q := λ (x : res werror (RestoreResult * res werror unit)) (_ : DB) (_ : bucket) (_ : Cluster), _).
  assert (∀ res e d b p, rr_Verified res = false → Q (Ok (res, Err e)) d b p) as Hstop.
  { intros res e d' b' p' Hr. eexists _, _. split; [done|]. unfold verified_restore. by rewrite Hr. }
  unfold restore_into. apply wp_bind, wp_stage. intros d1 _. apply wp_try, wp_host; [|intros e; by apply Hstop]. intros pr Hpr.
  set (rn := run "pg_restore" pr). destruct (tr_Err rn) as [e|] eqn:Ee; [by apply wp_ret, Hstop|].
  apply wp_bind, wp_stage. intros d2 _. apply wp_try, wp_instead, silent_host. intros [?|e]; [|by apply Hstop].
  apply wp_bind. eapply wp_mono; [apply verify_restore_wp|]. intros ? d3 b3 p3 (counts & objects & foreign & can & -> & Hrec).
  pose proof (verified_means counts objects foreign can manifest) as Hm.
  pose proof (verifyRestore_verdict counts objects foreign can manifest) as [[Hpass _] _].
  destruct (verifyRestore counts objects foreign can manifest) as [checks state]. cbn [snd] in Hpass.
  apply wp_ret. eexists _, _. split; [done|]. unfold verified_restore. cbn.
  destruct (negb (tr_Exit rn =? 0) || (0 <? tr_Errors rn)) eqn:Er; [by rewrite bool_decide_eq_false_2|].
  bool_simpl. intros Hs. bool_simpl. destruct (Hm Hs) as [Hc Hf]. split; [done|]. split; [done|].
  exists project, (archive_path work), pr. split_and!; [done|done|done| |by apply Hrec, (Hpass Hs)].
  unfold clean_exit, rn in *. destruct pr as [|stderr how]; [done|]. exists stderr, how. cbn in *.
  destruct how as [[code [|]|signal|]|]; cbn in *; try done; split_and!; try done; auto. right. by subst code.
Qed.

(** The manifest a restore works from, and the archive it promises. *)
Definition archive_matches (in' : restoreInput) (b : bucket) (s : Settings) (manifest : Manifest) : Prop :=
  ReadManifest s (ri_ManifestKey in') b = Ok manifest ∧
  ∃ o, b !! m_ArchiveKey manifest = Some o ∧
    match so_Content o with Archive sha => sha | _ => "" end = m_SHA256 manifest ∧ so_Size o = m_SizeBytes manifest.

Definition restore_post (job : Job) (d : DB) (b : bucket) (p : Cluster) : post (RestoreResult * res werror unit) :=
  λ x d' b' p', ∃ result r, x = Ok (result, r) ∧
    ((is_ok r = false ∧ rr_Verified result = false ∧ staged (j_ID job) d d' ∧ b' = b ∧ p' = p) ∨
     ∃ in' s manifest, unmarshal_restoreInput (j_Input job) = Ok in' ∧ archive_matches in' b s manifest ∧
       verified_restore (ri_ProjectID in') manifest result).

Lemma runRestore_wp job d b p :
  wp (runRestore pv bucket_of job) (restore_post job d b p) d b p.
Proof using laws slaws.
  assert (∀ res e d', rr_Verified res = false → staged (j_ID job) d d' → restore_post job d b p (Ok (res, Err e)) d' b p) as Hstop.
  { intros res e d' Hr Hs. eexists _, _. split; [done|]. left. done. }
  unfold runRestore. apply wp_try, wp_lift. destruct (unmarshal_restoreInput _) as [in'|e] eqn:Ein; [|apply Hstop; [done|constructor]].
  apply wp_bind, wp_stage. intros d1 S1. apply wp_try, silent_StorageClient. intros [s|e]; [|by apply Hstop].
  apply wp_try, (wp_Manifest (s := s)); [|by intros; apply Hstop]. intros manifest Hman.
  apply wp_try, wp_instead, silent_host. intros [version|e]; [|by apply Hstop].
  destruct (negb _); [by apply wp_ret, Hstop|]. destruct (_ <? _); [by apply wp_ret, Hstop|].
  apply wp_try, silent_ensure_workspace. intros [?|e]; [|by apply Hstop].
  apply wp_try, silent_host. intros [work|e]; [|by apply Hstop].
  apply wp_bind, wp_stage. intros d2 S2. assert (staged (j_ID job) d d2) as S12 by (by eapply staged_trans).
  apply wp_try, wp_DownloadFile; [|by intros; apply Hstop]. intros o Ho.
  apply wp_bind, wp_stage. intros d3 S3. assert (staged (j_ID job) d d3) as S13 by (by eapply staged_trans).
  apply wp_try, wp_host_file; [|by intros; apply Hstop]. cbn [f_SHA256 f_Size fst snd].
  destruct (_ || _) eqn:Em; [by apply wp_ret, Hstop|]. bool_simpl.
  assert (archive_matches in' b s manifest) as Hmatch by (split; [done|]; by exists o).
  assert (∀ res r d' b' p', verified_restore (ri_ProjectID in') manifest res → restore_post job d b p (Ok (res, r)) d' b' p') as Hgo.
  { intros res r d' b' p' Hv. eexists _, _. split; [done|]. right. by exists in', s, manifest. }
  assert (∀ res e d' b' p', rr_Verified res = false → restore_post job d b p (Ok (res, Err e)) d' b' p') as Hfail.
  { intros res e d' b' p' Hr. apply Hgo. unfold verified_restore. by rewrite Hr. }
  apply wp_bind, wp_stage. intros d4 S4. apply wp_try, wp_any. intros [?|e] d5 b5 p5; [|by apply Hfail].
  apply wp_try, wp_db_get; [|by intros; apply Hfail]. intros project Hproject. apply ProjectByID_id in Hproject as Hid.
  destruct (in_stage "ready" project) eqn:Hready; cbn [negb]; [|by apply wp_ret, Hfail]. apply wp_try, silent_host. intros [?|e]; [|by apply Hfail].
  eapply wp_mono; [by apply restore_into_wp|]. intros ? d7 b7 p7 (res & r & -> & Hv). apply Hgo. by rewrite <- Hid.
Qed.
End restore.


(** ** Deletion *)

Section deletion.
Context {codec : Codec} (pv : Provisioner) {plaws : ProvisionerLaws pv}.

(** Neither the role nor the database of the project is ours any more. *)
Definition gone (project : Project) (p : Cluster) : Prop := ours (p_RoleName project) (p_DBName project) p = (false, false).

Lemma gone_same project p p' : cl_Roles p' = cl_Roles p → cl_Databases p' = cl_Databases p → gone project p → gone project p'.
Proof. unfold gone, ours. by intros -> ->. Qed.

Definition delete_post (job : Job) (d : DB) (b : bucket) : post (DeleteResult * res werror unit) :=
  λ x d' b' p', b' = b ∧ ∃ result r, x = Ok (result, r) ∧
    ((db_projects d' = db_projects d ∧ is_ok r = false) ∨
     ∃ in' project, unmarshal_deleteInput (j_Input job) = Ok in' ∧ In project (db_projects d) ∧
       p_ID project = di_ProjectID in' ∧ p_Stage project = "deleting" ∧ gone project p' ∧
       project_exists d' (p_ID project) = false ∧
       ∀ x, In x (db_projects d') ↔ In x (db_projects d) ∧ p_ID x ≠ p_ID project).

Lemma completed_projects jobID p result now d :
  let (r, d') := CompleteProjectDeletion jobID p result now d in
  (d' = d ∧ is_ok r = false) ∨
  (project_exists d' (p_ID p) = false ∧ ∀ x, In x (db_projects d') ↔ In x (db_projects d) ∧ p_ID x ≠ p_ID p).
Proof.
  unfold CompleteProjectDeletion, atomically. destruct (sql_find _ _) as [q|]; [|by left].
  destruct (in_stage "deleting" q); [|by left]. right.
  assert (∀ x, In x (sql_delete (project_id (p_ID p)) (db_projects d)) ↔ In x (db_projects d) ∧ p_ID x ≠ p_ID p) as D.
  { intros x. unfold project_id. by rewrite in_sql_delete, bool_decide_eq_false. }
  split; [|exact D]. apply sql_exists_false. intros x [_ Hx]%D. by apply bool_decide_eq_false.
Qed.

Lemma staged_projects id d d' : staged id d d' → db_projects d' = db_projects d.
Proof. intros [-> _]%staged_spec. done. Qed.

Lemma runDelete_wp job d b p : wp (runDelete (Some pv) job) (delete_post job d b) d b p.
Proof using plaws.
  assert (∀ res e d' p', db_projects d' = db_projects d → delete_post job d b (Ok (res, Err e)) d' b p') as Hstop.
  { intros res e d' p' Hd. split; [done|]. eexists _, _. split; [done|]. by left. }
  unfold runDelete. apply wp_try, wp_lift. destruct (unmarshal_deleteInput _) as [in'|e] eqn:Ein; [|by apply Hstop].
  apply wp_bind, wp_stage. intros d1 S1%staged_projects. apply wp_try, wp_instead, wp_db_get; [|by intros; apply Hstop].
  intros project Hproject. destruct (negb _) eqn:Es; [by apply wp_ret, Hstop|]. unfold in_stage in Es. bool_simpl.
  assert (In project (db_projects d) ∧ p_ID project = di_ProjectID in') as [Hin Hid].
  { unfold ProjectByID, projectBy in Hproject. destruct (sql_find _ _) eqn:Ef; [|done]. injection Hproject as ->.
    apply sql_find_some in Ef as [Hin Hid]. unfold project_id in Hid. bool_simpl. by rewrite <- S1. }
  apply wp_bind, wp_stage. intros d2 S2%staged_projects.
  apply wp_try. eapply wp_mono; [apply drop_law|]. intros [[]|e] ? ? p3 (-> & -> & Hgone); [|apply Hstop; congruence].
  specialize (Hgone eq_refl). apply wp_bind, wp_stage. intros d4 S4%staged_projects.
  apply wp_try, wp_wrap. eapply wp_mono; [apply sync_law|]. intros [[]|e] d5 ? p5 (-> & P5 & _ & Hr & Hdb); cbn; [|apply Hstop; congruence].
  apply wp_bind, wp_stage. intros d6 S6%staged_projects. apply wp_bind, wp_now. intros t.
  assert (gone project p5) as G5 by (by eapply gone_same).
  pose proof (completed_projects (j_ID job) project (marshal_DeleteResult (mkDeleteResult (di_ProjectID in') (di_Name in') (di_DBName in'))) t d6) as Hc.
  assert (db_projects d6 = db_projects d) as P6 by congruence. rewrite P6 in Hc.
  destruct (CompleteProjectDeletion _ _ _ _ d6) as [r d7] eqn:Ec.
  assert (∀ res r', (r' = Ok tt → is_ok r = true) → ∀ d', d' = d6 ∧ is_ok r' = false ∨ d' = d7 →
    delete_post job d b (Ok (res, r')) d' b p5) as Hend.
  { intros res r' Hr' d' [[-> He]| ->].
    - split; [done|]. eexists _, _. split; [done|]. left. split; [congruence|done].
    - split; [done|]. eexists _, _. split; [done|]. destruct Hc as [[-> He]|[He Hx]].
      + left. split; [done|]. destruct r' as [[]|]; [|done]. by rewrite Hr' in He.
      + right. by exists in', project. }
  apply wp_try, wp_db_tx.
  - intros [] d' E. rewrite Ec in E. injection E as -> ->. apply wp_ret. apply Hend; [done|by right].
  - intros e d' Hd'. rewrite Ec in Hd'. apply Hend; [done|]. cbn in Hd'. destruct Hd' as [->| ->]; auto.
Qed.
End deletion.

(** C12. A project leaves the records last, under every schedule of failures:
    a delete job either leaves every project row in place and reports a
    failure, or the project was marked for deletion, its PostgreSQL role and
    database are gone, and exactly its row was removed.  The bucket, and so
    every backup, is untouched. *)
Theorem deletion_removes_rows_last {codec : Codec} (pv : Provisioner) {plaws : ProvisionerLaws pv} job w :
  let (x, w') := runDelete (Some pv) job w in
  w_bucket w' = w_bucket w ∧
  ∃ result r, x = Ok (result, r) ∧
    ((db_projects (w_db w') = db_projects (w_db w) ∧ is_ok r = false) ∨
     ∃ in' project, unmarshal_deleteInput (j_Input job) = Ok in' ∧ In project (db_projects (w_db w)) ∧
       p_ID project = di_ProjectID in' ∧ p_Stage project = "deleting" ∧ gone project (w_pg w') ∧
       project_exists (w_db w') (p_ID project) = false ∧
       ∀ x, In x (db_projects (w_db w')) ↔ In x (db_projects (w_db w)) ∧ p_ID x ≠ p_ID project).
Proof.
  destruct (runDelete (Some pv) job w) as [x w'] eqn:E.
  exact (wp_run _ _ _ _ _ (runDelete_wp pv job (w_db w) (w_bucket w) (w_pg w)) E).
Qed.

(** ** What a run does to the jobs table *)

Lemma silent_respects {A} (R : DB → DB → Prop) {pre : PreOrder R} (m : M A) : silent m → respects R m.
Proof. intros H d b p. apply H. intros _. reflexivity. Qed.
Lemma respects_instead {A} R text (m : M A) : respects R m → respects R (instead text m).
Proof. intros Hm d b p. apply wp_instead. apply Hm. Qed.
Lemma respects_try {A B C} R {pre : PreOrder R} (result : B) (m : M A) (k : A → M (B * res werror C)) :
  respects R m → (∀ a, respects R (k a)) → respects R (try_ result m k).
Proof.
  intros Hm Hk. unfold try_. apply respects_bind; [done|by apply respects_attempt|]. intros [a|e]; [apply Hk|by apply respects_ret].
Qed.

Section jobs_relation.
Context {network : Network} {codec : Codec} {h : Host} {laws : HostLaws h} (pv : option Provisioner)
  {plaws : ∀ p, pv = Some p → ProvisionerLaws p}
  (bucket_of : Settings → ObjectStore) {slaws : ∀ s, ObjectStoreLaws (bucket_of s) s}
  (random : World → string) (InstallationID : string).
Context (R : DB → DB → Prop) {pre : PreOrder R} (keep : ∀ d d', db_jobs d' = db_jobs d → R d d')
  (stage_ok : ∀ id name t d, R d (SetJobStage id name t d)) (target_ok : ∀ id target k d, R d (SetJobTarget id target k d)).

Lemma respects_stage job name : respects R (stage job name).
Proof using pre stage_ok.
  unfold stage. apply respects_bind; [done|auto with respects|]. intros t. apply respects_bind; [done| |auto with respects].
  apply respects_attempt, respects_db_write; [done|]. intros d. apply stage_ok.
Qed.
Lemma respects_upload (m : M unit) : (∀ w, w_db (m w).2 = w_db w) → respects R m.
Proof using pre. intros Hm. apply respects_same; [done|]. intros w r w' E. specialize (Hm w). by rewrite E in Hm. Qed.

Ltac worker := repeat first [match goal with |- ∀ _, _ => intro end | solve [auto 4 with respects]
  | lazymatch goal with
    | |- respects _ (try_ _ _ _) => apply respects_try; [done| |]
    | |- respects _ (_ ≫= _) => apply respects_bind; [done| |]
    | |- respects _ (stage _ _) => apply respects_stage
    | |- respects _ (instead _ _) => apply respects_instead
    | |- respects _ (attempt _) => apply respects_attempt
    | |- respects _ (wrap _ _) => apply respects_wrap
    | |- respects _ (host _) => apply (silent_respects _), silent_host
    | |- respects _ StorageClient => apply (silent_respects _), silent_StorageClient
    | |- respects _ (ensure_workspace _) => apply (silent_respects _), silent_ensure_workspace
    | |- respects _ countTables => apply (silent_respects _), silent_countTables
    | |- respects _ (Token16 _) => apply respects_same; [done|]; by intros ? ? ? [= _ <-]
    | |- respects _ (match ?x with _ => _ end) => destruct x
    end ].

Lemma respects_runBackup job : respects R (runBackup random InstallationID job).
Proof using pre keep stage_ok target_ok laws.
  unfold runBackup, publish. worker.
  - apply respects_upload. intros w. unfold UploadFile, call. by destruct (w_faults w) as [|[] os].
  - apply respects_upload. intros w. unfold UploadManifest, call. by destruct (w_faults w) as [|[] os].
Qed.

Lemma respects_answer {A} (m : M A) : respects R m → respects R (answer m).
Proof using pre. intros. unfold answer. worker. Qed.
Lemma respects_row_counts tables : respects R (row_counts tables).
Proof using pre laws. induction tables; cbn [row_counts]; worker. apply respects_answer; worker. Qed.

Lemma respects_provision_now id : respects R (provision_now pv id).
Proof using pre keep plaws.
  unfold provision_now. destruct pv as [p|] eqn:Ep; [|apply respects_same; [done|]; by intros ??? [= _ <-]].
  intros d b q. eapply wp_mono; [apply (@provision_law p), plaws; done|]. intros ? d' b' p' [_ Hj]. by apply keep.
Qed.

Lemma respects_runRestore job : respects R (runRestore pv bucket_of job).
Proof using pre keep stage_ok laws plaws slaws.
  unfold runRestore, restore_into, verify_restore. worker;
    try apply respects_row_counts; try (apply respects_answer; worker).
  - apply respects_same; [done|]. intros w r w' E. by apply reading_manifest in E as [[? _] _].
  - apply respects_same; [done|]. intros w r w' E. unfold DownloadFile, call in E.
    destruct (w_faults w) as [|[] os]; by injection E as _ <-.
  - apply respects_provision_now.
Qed.

Lemma respects_runDelete job :
  (∀ id p result t d, R d (CompleteProjectDeletion id p result t d).2) → respects R (runDelete pv job).
Proof using pre keep stage_ok plaws.
  intros Hcomplete. unfold runDelete. destruct pv as [p|] eqn:Ep; worker.
  - intros d b q. eapply wp_mono; [apply (@drop_law p), plaws; done|]. intros ? d' b' p' (-> & _). reflexivity.
  - intros d b q. eapply wp_mono; [apply (@sync_law p), plaws; done|]. intros ? d' b' p' (_ & _ & Hj & _). by apply keep.
Qed.

Lemma respects_Reconcile :
  (∀ t d, R d (PruneJobs t d).2) → respects R (Reconcile bucket_of InstallationID).
Proof using pre keep slaws.
  intros Hprune. unfold Reconcile. apply respects_bind; [done| |].
  - apply respects_attempt, (silent_respects _), silent_StorageSettings.
  - worker. by eapply respects_reconcile.
Qed.
End jobs_relation.

(** ** The queue only shrinks *)

Definition queued (d : DB) : nat := length (sql_select (in_state "queued") (db_jobs d)).
Definition shrinks (d d' : DB) : Prop := (queued d' ≤ queued d)%nat.
#[export] Instance shrinks_preorder : PreOrder shrinks.
Proof. split; intros d; unfold shrinks; [done|intros; lia]. Qed.

Lemma select_update_le {Row} (q p : Row → bool) f t :
  (∀ r, p r = true → q (f r) = true → q r = true) → (length (sql_select q (sql_update p f t)) ≤ length (sql_select q t))%nat.
Proof.
  intros Hf. unfold sql_select, sql_update. induction t as [|r t IH]; [done|]. cbn [map List.filter].
  specialize (Hf r). destruct (p r); [|destruct (q r); cbn; lia].
  destruct (q (f r)); [rewrite Hf by done; cbn; lia|]. destruct (q r); cbn; lia.
Qed.

(** Updates that never put a job into the queue. *)
Lemma shrinks_update p f d d' :
  db_jobs d' = sql_update p f (db_jobs d) → (∀ j, p j = true → in_state "queued" (f j) = true → in_state "queued" j = true) → shrinks d d'.
Proof. intros Hj Hf. unfold shrinks, queued. rewrite Hj. by apply select_update_le. Qed.

Lemma shrinks_keep d d' : db_jobs d' = db_jobs d → shrinks d d'.
Proof. unfold shrinks, queued. by intros ->. Qed.
Lemma shrinks_SetJobStage id name t d : shrinks d (SetJobStage id name t d).
Proof. by eapply shrinks_update. Qed.
Lemma shrinks_SetJobTarget id target k d : shrinks d (SetJobTarget id target k d).
Proof. by eapply shrinks_update. Qed.
Lemma shrinks_FinishJob id state stage message result t d : state ≠ "queued" → shrinks d (FinishJob id state stage message result t d).
Proof. intros Hs. eapply shrinks_update; [done|]. intros j _ H. unfold in_state in H. cbn in H. by bool_simpl. Qed.
Lemma shrinks_PruneJobs t d : shrinks d (PruneJobs t d).2.
Proof.
  unfold shrinks, queued, PruneJobs. cbn. unfold sql_select, sql_delete. induction (db_jobs d) as [|j js IH]; [done|]. cbn.
  destruct (prunable t d j), (in_state "queued" j) eqn:E; cbn; rewrite ?E; cbn; lia.
Qed.
Lemma shrinks_CompleteProjectDeletion id p result t d : shrinks d (CompleteProjectDeletion id p result t d).2.
Proof.
  unfold CompleteProjectDeletion, atomically. destruct (sql_find _ _) as [q|]; [|done]. destruct (in_stage "deleting" q); [|done].
  cbn [snd]. etrans; [|apply shrinks_keep; reflexivity].
  transitivity (remove_project (p_ID p) d); [by eapply shrinks_update|by apply shrinks_FinishJob].
Qed.
Lemma shrinks_FailDeleteJob id pid name stage message result t d : shrinks d (FailDeleteJob id pid name stage message result t d).
Proof.
  unfold FailDeleteJob. destruct (_ && _); [|by apply shrinks_FinishJob].
  etrans; [by apply (shrinks_FinishJob id "failed" stage message result t)|by apply shrinks_keep].
Qed.

(** The end of a backup job changes the jobs table as [FinishJob] does. *)
Lemma CompleteBackupJob_jobs id pid state stage message result record scheduled t interval d :
  let d' := (CompleteBackupJob id pid state stage message result record scheduled t interval d).2 in
  d' = d ∨ db_jobs d' = db_jobs (FinishJob id state stage message result t d).
Proof.
  unfold CompleteBackupJob, atomically. cbv zeta.
  destruct (match record with Some b => _ | None => _ end) as [d2|e] eqn:E2; cbn [rbind]; [|by left].
  assert (db_jobs d2 = db_jobs (FinishJob id state stage message result t d)) as H2.
  { destruct record as [b|]; [|by injection E2 as <-]. unfold insert_backup in E2.
    destruct (sql_insert _ _ _ _); [|done]. by injection E2 as <-. }
  destruct (_ && _); [|by right]. unfold recordOutcome, upsert_schedule.
  repeat first [case_match; cbn [rbind snd]; try (by left) | progress cbn [rbind snd]]; right; simplify_eq/=; done.
Qed.
Lemma shrinks_CompleteBackupJob id pid state stage message result record scheduled t interval d : state ≠ "queued" →
  shrinks d (CompleteBackupJob id pid state stage message result record scheduled t interval d).2.
Proof.
  intros Hs. destruct (CompleteBackupJob_jobs id pid state stage message result record scheduled t interval d) as [-> | H]; [done|].
  etrans; [by apply (shrinks_FinishJob id state stage message result t)|by apply shrinks_keep].
Qed.

Lemma ClaimJob_shrinks t d job d' : ClaimJob t d = (Some job, d') → (queued d' < queued d)%nat.
Proof.
  unfold ClaimJob. destruct (sql_order _ _) as [|j js] eqn:E; [done|]. destruct (maintenance d); [done|]. intros [= _ <-].
  assert (In j (sql_select (in_state "queued") (db_jobs d))) as Hin.
  { eapply in_sql_order. rewrite E. by left. }
  unfold queued. cbn. unfold sql_select in *. apply filter_In in Hin as [Hin Hq].
  set (f := λ r, r <| j_State := "running" |> <| j_Stage := "starting" |> <| j_StartedAt := unix t |> <| j_StageAt := unix t |>).
  assert (∀ r, in_state "queued" (f r) = false) as Hf by done.
  clear E.   induction (db_jobs d) as [|r rs IH]; [done|]. cbn [sql_update map List.filter].
  pose proof (select_update_le (in_state "queued") (has_id (j_ID j)) f rs) as Hle. unfold sql_select in Hle.
  destruct Hin as [->|Hin].
  - unfold has_id at 1. rewrite bool_decide_eq_true_2, Hf, Hq by done. cbn. unfold sql_update in *.
    assert (∀ r, has_id (j_ID j) r = true → in_state "queued" (f r) = true → in_state "queued" r = true) as Hx by done.
    specialize (Hle Hx). unfold f in *. lia.
  - specialize (IH Hin). unfold sql_update in *. destruct (has_id (j_ID j) r); [rewrite Hf|]; destruct (in_state "queued" r); cbn; lia.
Qed.

Section running.
Context {network : Network} {codec : Codec} {h : Host} {laws : HostLaws h} (pv : option Provisioner)
  {plaws : ∀ p, pv = Some p → ProvisionerLaws p}
  (bucket_of : Settings → ObjectStore) {slaws : ∀ s, ObjectStoreLaws (bucket_of s) s}
  (random : World → string) (InstallationID : string).

Abbreviation execute' := (execute pv bucket_of random InstallationID).
Abbreviation outcome' := (outcome_of pv bucket_of random InstallationID).

(** A run always produces an outcome. *)
Lemma outcome_ok job d b p : wp (outcome' job) (λ x _ _ _, ∃ o, x = Ok o) d b p.
Proof using laws plaws slaws.
  unfold outcome_of. destruct (of_kind "backup" job).
  { apply wp_bind. eapply wp_mono; [apply runBackup_wp|]. intros ? d' b' p' (_ & res & r & -> & _). apply wp_ret. eauto. }
  destruct (of_kind "restore" job).
  { apply wp_bind. eapply wp_mono; [apply (runRestore_wp pv bucket_of (slaws := slaws))|]. intros ? d' b' p' (res & r & -> & _). apply wp_ret. eauto. }
  destruct (of_kind "delete" job); [|apply wp_ret; eauto]. apply wp_bind. destruct pv as [q|] eqn:Eq.
  - pose proof (plaws q eq_refl) as Hq. eapply wp_mono; [apply (runDelete_wp q (plaws := Hq))|]. intros ? d' b' p' (_ & res & r & -> & _). apply wp_ret. eauto.
  - unfold runDelete. apply wp_try, wp_lift. destruct (unmarshal_deleteInput _); repeat apply wp_ret; eauto.
Qed.

Lemma respects_outcome job : respects shrinks (outcome' job).
Proof using laws plaws slaws.
  pose proof shrinks_preorder as pre. unfold outcome_of.
  destruct (of_kind "backup" job); [|destruct (of_kind "restore" job); [|destruct (of_kind "delete" job)]];
    try (apply respects_bind; [done| |intros [? ?]; by apply respects_ret]).
  - apply respects_runBackup; auto using shrinks_keep, shrinks_SetJobStage, shrinks_SetJobTarget.
  - eapply respects_runRestore; auto using shrinks_keep, shrinks_SetJobStage.
  - eapply respects_runDelete; auto using shrinks_keep, shrinks_SetJobStage, shrinks_CompleteProjectDeletion.
  - by apply respects_ret.
Qed.

Lemma respects_execute job : respects shrinks (execute' job).
Proof using laws plaws slaws.
  pose proof shrinks_preorder as pre. unfold execute. apply respects_bind; [done|apply respects_outcome|]. intros [[encoded record] e].
  apply respects_bind; [done|auto with respects|]. intros [|]; [auto with respects|].
  apply respects_bind; [done|auto with respects|]. intros current.
  set (x := match e with None => _ | Some _ => _ end).
  assert (∃ st sg ms rc, x = (st, sg, ms, rc) ∧ st ≠ "queued") as (st & sg & ms & rc & -> & Hst).
  { unfold x. destruct e; by eexists _, _, _, _. }
  case_match; [destruct e; auto with respects|].
  - apply respects_bind; [done|auto with respects|]. intros t. apply respects_bind; [done| |auto with respects].
    apply respects_attempt, respects_db_write; [done|]. intros d. apply shrinks_FailDeleteJob.
  - case_match.
    + apply respects_bind; [done|auto with respects|]. intros t. apply respects_bind; [done| |auto with respects].
      apply respects_attempt, respects_db_write; [done|]. intros d. by apply shrinks_FinishJob.
    + apply respects_bind; [done|by apply respects_Policy|]. intros policy.
      apply respects_bind; [done|auto with respects|]. intros t. apply respects_bind; [done| |].
      * apply respects_attempt, respects_db_tx; [done|]. intros d. by apply shrinks_CompleteBackupJob.
      * intros [?|?]; [|auto with respects]. case_bool_decide; [|auto with respects].
        apply respects_Reconcile; auto using shrinks_keep, shrinks_PruneJobs.
Qed.

Lemma wp_ok_bind {A B} (m : M A) (k : A → M B) d b p :
  wp m (λ x _ _ _, ∃ a, x = Ok a) d b p → (∀ a d b p, wp (k a) (λ x _ _ _, ∃ c, x = Ok c) d b p) →
  wp (m ≫= k) (λ x _ _ _, ∃ c, x = Ok c) d b p.
Proof. intros Hm Hk. apply wp_bind. eapply wp_mono; [exact Hm|]. intros ? d' b' p' [a ->]. apply Hk. Qed.
Lemma wp_ok_attempt {A} (m : M A) d b p : wp (attempt m) (λ x _ _ _, ∃ c, x = Ok c) d b p.
Proof. apply wp_plain. intros w _ _ _. unfold attempt. destruct (m w). eauto. Qed.

Lemma Reconcile_ok d b p : wp (Reconcile bucket_of InstallationID) (λ x _ _ _, ∃ c, x = Ok c) d b p.
Proof.
  unfold Reconcile. apply wp_ok_bind; [apply wp_ok_attempt|]. intros [s|e] d1 b1 p1; [|apply wp_ret; eauto].
  destruct (New s); [|apply wp_ret; eauto]. apply wp_ok_bind; [apply wp_ok_attempt|]. intros. apply wp_ret; eauto.
Qed.

Ltac ok := first [apply wp_ok_attempt | apply wp_now; eauto | apply wp_ctx_done; eauto | apply wp_ret; eauto].
Lemma execute_ok job d b p : wp (execute' job) (λ x _ _ _, ∃ c, x = Ok c) d b p.
Proof using laws plaws slaws.
  unfold execute. apply wp_ok_bind; [apply outcome_ok|]. intros [[encoded record] e] d1 b1 p1.
  apply wp_ok_bind; [ok|]. intros [|] d2 b2 p2; [ok|]. apply wp_ok_bind; [ok|]. intros current d3 b3 p3.
  destruct (match e with None => _ | Some _ => _ end) as [[[st sg] ms] rc].
  case_match; [destruct e; [|ok]|case_match].
  - apply wp_ok_bind; [ok|]. intros. apply wp_ok_bind; [ok|]. intros. ok.
  - apply wp_ok_bind; [ok|]. intros. apply wp_ok_bind; [ok|]. intros. ok.
  - apply wp_ok_bind; [unfold Policy; apply wp_ok_bind; [ok|]; intros; ok|]. intros. apply wp_ok_bind; [ok|]. intros.
    apply wp_ok_bind; [ok|]. intros [?|?] ? ? ?; [|ok]. case_bool_decide; [apply Reconcile_ok|ok].
Qed.

Abbreviation drain' := (drain pv bucket_of random InstallationID).

(** One turn of the loop: either it ends here whatever the fuel, or one
    queued job less is left. *)
Lemma drain_turn w :
  (∃ w', ∀ n, drain' (S n) w = (Ok tt, w')) ∨
  (∃ w', (queued (w_db w') < queued (w_db w))%nat ∧ ∀ n, drain' (S n) w = drain' n w').
Proof using laws plaws slaws.
  cbn [drain]. unfold mbind, M_bind.
  destruct (ctx_done w) as [x1 w1] eqn:E1.
  assert (w_db w1 = w_db w ∧ ∃ s, x1 = Ok s) as [D1 [stop ->]]
    by (unfold ctx_done in E1; destruct (w_stops w); injection E1 as <- <-; eauto).
  destruct stop; [left; by exists w1|].
  destruct (now_ w1) as [x2 w2] eqn:E2.
  assert (w_db w2 = w_db w1 ∧ ∃ s, x2 = Ok s) as [D2 [t ->]]
    by (injection E2 as <- <-; eauto).
  set (claim := db_tx (λ db, let (j, db') := ClaimJob t db in (Ok j, db'))).
  unfold attempt. destruct (claim w2) as [x3 w3] eqn:E3.
  assert (wp claim (λ x d' _ _, ∀ job, x = Ok (Some job) → (queued d' < queued (w_db w2))%nat) (w_db w2) (w_bucket w2) (w_pg w2)) as H3.
  { apply wp_db_tx; [|done]. intros a d' H job [= ->]. destruct (ClaimJob t (w_db w2)) as [j d''] eqn:Ec. injection H as -> ->.
    by eapply ClaimJob_shrinks. }
  pose proof (wp_run _ _ _ _ _ H3 E3) as C3. cbn in C3. destruct x3 as [[job|]|e]; [|left; by exists w3..].
  specialize (C3 job eq_refl). right.
  destruct (execute' job w3) as [x4 w4] eqn:E4.
  pose proof (wp_run _ _ _ _ _ (execute_ok job _ _ _) E4) as [[] ->]. cbn in E4.
  pose proof (wp_run _ _ _ _ _ (respects_execute job _ _ _) E4) as H4. unfold shrinks in H4.
  exists w4. split; [rewrite D2, D1 in C3; lia|done].
Qed.

Lemma drain_fuel n k w : (queued (w_db w) < n)%nat → drain' (n + k) w = drain' n w ∧ is_ok (drain' n w).1 = true.
Proof using laws plaws slaws.
  revert w. induction n as [|n IH]; intros w Hq; [lia|]. destruct (drain_turn w) as [[w' Hw]|(w' & Hlt & Hw)].
  - cbn [Nat.add]. by rewrite !Hw.
  - cbn [Nat.add]. rewrite !Hw. apply IH. lia.
Qed.
End running.

(** C30. The worker's queue loop terminates: from any state, and under every
    schedule of failures, clock and cancellations, one turn more than the
    number of queued jobs is all it can take; a longer bound changes
    nothing, and the loop itself never fails. *)
Theorem drain_terminates {network : Network} {codec : Codec} {h : Host} {laws : HostLaws h} pv
  (plaws : ∀ p, pv = Some p → ProvisionerLaws p) bucket_of (slaws : ∀ s, ObjectStoreLaws (bucket_of s) s)
  random InstallationID w :
  let turns := S (queued (w_db w)) in
  is_ok (drain pv bucket_of random InstallationID turns w).1 = true ∧
  ∀ more, drain pv bucket_of random InstallationID (turns + more) w = drain pv bucket_of random InstallationID turns w.
Proof.
  cbv zeta. assert (∀ more, drain pv bucket_of random InstallationID (S (queued (w_db w)) + more) w =
    drain pv bucket_of random InstallationID (S (queued (w_db w))) w ∧
    is_ok (drain pv bucket_of random InstallationID (S (queued (w_db w))) w).1 = true) as H.
  { intros more. apply drain_fuel; [done..|]. apply Nat.lt_succ_diag_r. }
  split; [exact (proj2 (H 0%nat))|]. intros more. exact (proj1 (H more)).
Qed.

(** ** Success is earned *)

Definition job_states (d : DB) : list (string * string) := map (λ j, (j_ID j, j_State j)) (db_jobs d).
Definition same_states (d d' : DB) : Prop := job_states d' = job_states d.
#[export] Instance same_states_preorder : PreOrder same_states.
Proof. split; unfold same_states; intros d; [done|congruence]. Qed.

Lemma same_states_update p f d d' : db_jobs d' = sql_update p f (db_jobs d) →
  (∀ j, j_ID (f j) = j_ID j ∧ j_State (f j) = j_State j) → same_states d d'.
Proof.
  intros Hj Hf. unfold same_states, job_states. rewrite Hj. unfold sql_update. rewrite map_map. apply map_ext. intros j.
  destruct (p j); [|done]. by destruct (Hf j) as [-> ->].
Qed.

(** No row of job [id] says it succeeded. *)
Definition unfinished (id : string) (d : DB) : Prop := ∀ j, In j (db_jobs d) → j_ID j = id → j_State j ≠ "succeeded".

Lemma unfinished_states id d d' : same_states d d' → unfinished id d → unfinished id d'.
Proof.
  unfold same_states, job_states. intros Hs Hu j Hin Hid Hst. apply (in_map (λ j, (j_ID j, j_State j))) in Hin.
  rewrite Hs in Hin. apply in_map_iff in Hin as (j0 & [= E1 E2] & Hin). by apply (Hu j0); congruence.
Qed.
Lemma unfinished_failed id stage message result t d : unfinished id d → unfinished id (FinishJob id "failed" stage message result t d).
Proof.
  intros Hu j (j0 & Hin & ->)%in_sql_update Hid. destruct (has_id id j0); [done|]. by apply Hu.
Qed.

Section earned.
Context {network : Network} {codec : Codec} {h : Host} {laws : HostLaws h} (pv : option Provisioner)
  {plaws : ∀ p, pv = Some p → ProvisionerLaws p}
  (bucket_of : Settings → ObjectStore) {slaws : ∀ s, ObjectStoreLaws (bucket_of s) s}
  (random : World → string) (InstallationID : string) (job : Job) (not_delete : of_kind "delete" job = false).

Lemma outcome_keeps_states : respects same_states (outcome_of pv bucket_of random InstallationID job).
Proof using laws plaws slaws not_delete.
  pose proof same_states_preorder as pre. unfold outcome_of. rewrite not_delete.
  assert (∀ d d', db_jobs d' = db_jobs d → same_states d d') as Hkeep by (intros d d' E; unfold same_states, job_states; by rewrite E).
  assert (∀ id name t d, same_states d (SetJobStage id name t d)) as Hstage by (intros; by eapply same_states_update).
  assert (∀ id target k d, same_states d (SetJobTarget id target k d)) as Htarget by (intros; by eapply same_states_update).
  destruct (of_kind "backup" job); [|destruct (of_kind "restore" job)];
    try (apply respects_bind; [done| |intros [? ?]; by apply respects_ret]).
  - by apply respects_runBackup.
  - by eapply respects_runRestore.
  - by apply respects_ret.
Qed.

(** What an outcome without an error stands for. *)
Definition earned (w : World) (record : option Backup) (w1 : World) : Prop :=
  if of_kind "backup" job then
    ∃ s project t m size b, record = Some b ∧ manifest_for InstallationID s project t m ∧
      b_ObjectKey b = m_ManifestKey m ∧ w_bucket w1 = with_backup m size (w_bucket w)
  else
    of_kind "restore" job = true ∧
    ∃ in' s manifest, unmarshal_restoreInput (j_Input job) = Ok in' ∧ archive_matches in' (w_bucket w) s manifest.

Lemma outcome_earned w encoded record w1 :
  outcome_of pv bucket_of random InstallationID job w = (Ok (encoded, record, None), w1) → earned w record w1.
Proof using laws plaws slaws not_delete.
  unfold outcome_of, earned. rewrite not_delete. destruct (of_kind "backup" job).
  { intros [([res r] & w2 & E & H)|(e & _ & ?)]%bind_inv; [|done]. injection H as _ Hr He <-. destruct r as [b|]; [|done].
    apply (wp_run _ _ _ _ _ (runBackup_wp random InstallationID job _ _ _)) in E as (_ & ? & ? & [= <- <-] & Hp).
    destruct Hp as [[_ ?]|(s & project & _ & _ & _ & [[_ ?]|(t & m & size & Hm & _ & _ & _ & Hok)])]; [done..|].
    destruct (Hok b eq_refl) as (Hb & Hk & _). by exists s, project, t, m, size, b. }
  destruct (of_kind "restore" job); [|by intros [= _ _ ? _]].
  intros [([res r] & w2 & E & H)|(e & _ & ?)]%bind_inv; [|done]. injection H as _ _ He <-. destruct r as [[]|]; [|done].
  apply (wp_run _ _ _ _ _ (runRestore_wp pv bucket_of job _ _ _)) in E as (? & ? & [= <- <-] & Hp).
  destruct Hp as [[? _]|(in' & s & manifest & Hi & Hm & _)]; [done|]. split; [done|]. by exists in', s, manifest.
Qed.
End earned.

(** C7. A job is never called done when it is not, under every schedule of
    failures: if the row of a claimed backup or restore says it succeeded
    after the worker ran it, the run itself returned no error.  For a backup
    both objects were then in the bucket, the manifest naming this
    installation and the record naming the manifest; for a restore the
    archive had the checksum and size of its manifest. *)
Theorem success_is_earned {network : Network} {codec : Codec} {h : Host} {laws : HostLaws h} pv
  (plaws : ∀ p, pv = Some p → ProvisionerLaws p) bucket_of (slaws : ∀ s, ObjectStoreLaws (bucket_of s) s)
  random InstallationID job w
  (not_delete : of_kind "delete" job = false)
  (running : ∀ j, In j (db_jobs (w_db w)) → j_ID j = j_ID job → j_State j = "running") :
  let w' := (execute pv bucket_of random InstallationID job w).2 in
  (∃ j, In j (db_jobs (w_db w')) ∧ j_ID j = j_ID job ∧ j_State j = "succeeded") →
  ∃ encoded record w1,
    outcome_of pv bucket_of random InstallationID job w = (Ok (encoded, record, None), w1) ∧
    earned InstallationID job w record w1.
Proof.
  cbv zeta. intros (j & Hj & Hid & Hst). destruct (execute _ _ _ _ job w) as [x w'] eqn:E. cbn in Hj.
  assert (unfinished (j_ID job) (w_db w)) as Hu by (intros j0 Hj0 H0; by rewrite (running j0 Hj0 H0)).
  unfold execute in E. apply bind_inv in E as [([[encoded record] e] & w1 & E1 & E)|(e & E1 & _)].
  2:{ pose proof (wp_run _ _ _ _ _ (outcome_ok pv bucket_of random InstallationID job _ _ _) E1) as [? ?]. done. }
  destruct e as [e|]; [|exists encoded, record, w1; split; [done|]; by eapply outcome_earned]. exfalso.
  assert (unfinished (j_ID job) (w_db w1)) as H1.
  { eapply unfinished_states; [|exact Hu]. exact (wp_run _ _ _ _ _ (outcome_keeps_states pv bucket_of random InstallationID job not_delete _ _ _) E1). }
  clear E1. revert E. match goal with |- ?m w1 = _ → _ => assert (wp m (λ _ d' _ _, unfinished (j_ID job) d') (w_db w1) (w_bucket w1) (w_pg w1)) as Hw end.
  2:{ intros E. by apply (wp_run _ _ _ _ _ Hw E j). }
  apply wp_bind, wp_ctx_done. intros [|]; [by apply wp_ret|]. apply wp_bind, wp_attempt, silent_db_get. intros current.
  rewrite not_delete. case_match.
  - apply wp_bind, wp_now. intros t. apply wp_bind, wp_attempt, wp_db_write; [apply wp_ret; by apply unfinished_failed|].
    intros ? d' [->| ->]; apply wp_ret; [done|by apply unfinished_failed].
  - apply wp_bind. eapply (wp_mono _ (λ _ d' _ _, d' = w_db w1)).
    { apply wp_bind, wp_attempt, silent_db_read. intros r. by apply wp_ret. }
    intros [policy|?] ? b1 p1 ->; [|done]. apply wp_bind, wp_now. intros t. apply wp_bind, wp_attempt.
    set (f := CompleteBackupJob _ _ _ _ _ _ _ _ _ _).
    assert (unfinished (j_ID job) (f (w_db w1)).2) as Hf.
    { destruct (CompleteBackupJob_jobs (j_ID job) (job_project job) "failed" (match current with Ok c => j_Stage c | Err _ => "" end)
        (error_text e) encoded None (j_Scheduled job) t (Interval policy) (w_db w1)) as [Hc|Hc]; unfold f.
      - by rewrite Hc.
      - intros j0 Hj0. rewrite Hc in Hj0. exact (unfinished_failed _ _ _ _ _ _ H1 j0 Hj0). }
    apply wp_db_tx.
    + intros a d' Ef. rewrite Ef in Hf. by apply wp_ret.
    + intros ? d' Hd'. apply wp_ret. by destruct Hd' as [->| ->].
Qed.

(** ** Witnesses *)

Definition sample_network : Network := {|
  url_Parse _ := Some (mkURL "https" "s3.example.com" "s3.example.com" "" "" false "");
  LookupIP _ := None;
  minio_New _ := Ok tt;
|}.
Definition sample_key : string := BackupKey example_settings "app_0123456789ab" example_time +:+ "/" +:+ ManifestFile.
Definition sample_codec : Codec := {|
  vault_Open _ x := Some x;
  vault_Seal _ x := x;
  unmarshal_Settings _ := Ok example_settings;
  marshal_Settings _ := "settings";
  marshal_Manifest _ := "manifest";
  marshal_BackupResult _ := "backup";
  marshal_RestoreResult _ := "restore";
  marshal_DeleteResult _ := "delete";
  marshal_deleteInput _ := "delete";
  unmarshal_restoreInput _ := Ok (mkRestoreInput sample_key "Copy" "p1");
  unmarshal_deleteInput _ := Ok (mkDeleteInput "p1" "Shop" "app_0123456789ab" "app_0123456789ab");
  error_text _ := "error";
|}.
Definition sample_host : Host := λ A (q : request A),
  match q in request A return M A with
  | DatabaseSize _ => mret 10
  | FreeBytes => mret (2 ^ 40)
  | MkdirTemp _ => mret "work"
  | Passfile | Connect _ | BeginTx | Commit | CleanWorkspace => mret tt
  | ExportSnapshot => mret ("snap", "18.6")
  | TableNames _ => mret [("public", "t")]
  | CountRows _ _ => mret 7
  | CountObjects => mret (mkObjectCounts 0 0 0 0 0)
  | PgDump _ => mret (Ended "" None, mkFile "00" 10)
  | PgRestore _ => mret (Ended "" None)
  | ReadFile f => mret (f_SHA256 f, f_Size f)
  | ServerVersion => mret "18.6"
  | ForeignTables _ => mret 0
  | HasConnect _ => mret true
  end.
#[export] Instance sample_host_laws : HostLaws sample_host.
Proof.
  split.
  - intros A q w r w'. unfold host, sample_host. destruct q; by intros [= <- <-].
  - intros f w sum n w'. unfold host, sample_host. by intros [= <- <- _].
Qed.

(** The management connection, with nothing to provision. *)
Definition sample_provisioner : Provisioner := {|
  ProvisionNow _ := mret tt; DropProject := Postgres.DropProject; SyncPolicy := mret tt |}.
#[export] Instance sample_provisioner_laws : ProvisionerLaws sample_provisioner.
Proof.
  split.
  - intros database role d b p. cbn. eapply wp_mono; [apply DropProject_wp|].
    intros r d' b' p' (-> & -> & _ & H). split_and!; [done|done|]. intros Hr. by eapply dropped_ours, H.
  - intros d b p. by apply wp_ret.
  - intros id d b p. by apply wp_ret.
Qed.

Definition sample_store (s : Settings) : ObjectStore := client s (VersioningConfig true).
Definition sample_job (kind : string) : Job := example_job <| j_Kind := kind |> <| j_State := "running" |>.
Definition sample_project : Project :=
  example_project <| p_DBName := "app_0123456789ab" |> <| p_RoleName := "app_0123456789ab" |>.
Definition sample_state (kind stage : string) (b : bucket) (p : Cluster) : World :=
  mkWorld (empty_db <| db_projects := [sample_project <| p_Stage := stage |>] |> <| db_jobs := [sample_job kind] |>
    <| db_settings := <["storage" := ("sealed", 0)]> ∅ |>) b p [] [example_time; example_time; example_time; example_time;
    example_time; example_time; example_time; example_time; example_time; example_time] [].

Lemma backup_publication_witness :
  let (x, w') := @runBackup sample_network sample_codec sample_host (λ _, "0123456789abcdef") "inst" (sample_job "backup")
    (sample_state "backup" "ready" ∅ empty_cluster) in
  ∃ result record m size, x = Ok (result, Ok record) ∧ w_bucket w' = with_backup m size ∅ ∧ b_ObjectKey record = m_ManifestKey m.
Proof.
  pose proof (@backup_publication sample_network sample_codec sample_host _ (λ _, "0123456789abcdef") "inst" (sample_job "backup")
    (sample_state "backup" "ready" ∅ empty_cluster)) as H.
  assert (match (@runBackup sample_network sample_codec sample_host (λ _, "0123456789abcdef") "inst" (sample_job "backup")
    (sample_state "backup" "ready" ∅ empty_cluster)).1 with Ok (_, r) => is_ok r | Err _ => false end = true) as Hok
    by (vm_compute; reflexivity).
  destruct (@runBackup _ _ _ _ _ _ _) as [x w']. destruct H as (_ & result & r & -> & H). cbn in Hok. destruct r as [record|]; [|done].
  destruct H as [[_ ?]|(s & project & t & m & size & _ & _ & _ & _ & _ & _ & H)]; [done|].
  destruct (H record eq_refl) as (Hb & _ & Hk & _). by exists result, record, m, size.
Defined.



Lemma deletion_removes_rows_last_witness :
  let (x, w') := @runDelete sample_codec (Some sample_provisioner) (sample_job "delete")
    (sample_state "delete" "deleting" ∅ shop_cluster) in
  ∃ result project, x = Ok (result, Ok tt) ∧ gone project (w_pg w') ∧ project_exists (w_db w') (p_ID project) = false.
Proof.
  pose proof (@deletion_removes_rows_last sample_codec sample_provisioner _ (sample_job "delete")
    (sample_state "delete" "deleting" ∅ shop_cluster)) as H.
  assert (match (@runDelete sample_codec (Some sample_provisioner) (sample_job "delete")
    (sample_state "delete" "deleting" ∅ shop_cluster)).1 with Ok (_, r) => is_ok r | Err _ => false end = true) as Hok
    by (vm_compute; reflexivity).
  destruct (@runDelete _ _ _ _) as [x w']. destruct H as (_ & result & r & -> & H). cbn in Hok. destruct r as [[]|]; [|done].
  destruct H as [[_ ?]|(in' & project & _ & _ & _ & _ & Hg & He & _)]; [done|]. by exists result, project.
Defined.

Lemma some_provisioner_laws p : Some sample_provisioner = Some p → ProvisionerLaws p.
Proof. intros [= <-]. apply _. Qed.

Lemma drain_terminates_witness :
  let w := sample_state "backup" "ready" ∅ empty_cluster in
  let turns := S (queued (w_db w)) in
  @drain sample_network sample_codec sample_host (Some sample_provisioner) sample_store (λ _, "0123456789abcdef") "inst" (turns + 5) w =
  @drain sample_network sample_codec sample_host (Some sample_provisioner) sample_store (λ _, "0123456789abcdef") "inst" turns w.
Proof.
  apply (proj2 (@drain_terminates sample_network sample_codec sample_host _ (Some sample_provisioner) some_provisioner_laws sample_store
    (λ s, client_laws s (VersioningConfig true)) (λ _, "0123456789abcdef") "inst" (sample_state "backup" "ready" ∅ empty_cluster)) 5%nat).
Defined.

Lemma success_is_earned_witness :
  let w := sample_state "backup" "ready" ∅ empty_cluster in
  ∃ encoded record w1,
    @outcome_of sample_network sample_codec sample_host (Some sample_provisioner) sample_store (λ _, "0123456789abcdef") "inst"
      (sample_job "backup") w = (Ok (encoded, record, None), w1) ∧ @earned sample_codec "inst" (sample_job "backup") w record w1.
Proof.
  cbv zeta. apply (@success_is_earned sample_network sample_codec sample_host _ (Some sample_provisioner) some_provisioner_laws
    sample_store (λ s, client_laws s (VersioningConfig true)) (λ _, "0123456789abcdef") "inst" (sample_job "backup")
    (sample_state "backup" "ready" ∅ empty_cluster)).
  - reflexivity.
  - intros j [<-|[]] _. reflexivity.
  - assert (existsb (λ j, has_id "j1" j && in_state "succeeded" j) (db_jobs (w_db (@execute sample_network sample_codec sample_host
      (Some sample_provisioner) sample_store (λ _, "0123456789abcdef") "inst" (sample_job "backup")
      (sample_state "backup" "ready" ∅ empty_cluster)).2)) = true) as H by (vm_compute; reflexivity).
    apply existsb_exists in H as (j & Hj & H). apply andb_true_iff in H as [H1 H2].
    apply bool_decide_eq_true in H1, H2. exists j. split; [exact Hj|]. split; [exact H1|exact H2].
Defined.
