(* ===== verification/Provision.v ===== *)
(** * Provisioning ([internal/provision/provision.go])

    Turning persisted projects into roles and databases, keeping limits and
    access rules in step with the records, and rotating passwords.  The
    per-project mutex serialises what changes one role, so the functions here
    run one after another; [locked] tells whether [TryLock] finds it held.
    JSON of address lists is a parameter. *)

From S2P Require Import Prelude GoStrings GoTime Storage Schema Cluster JobStore ProjectStore World Wp Postgres Hba Worker.

Definition DefaultAddresses : list string := ["0.0.0.0/0"; "::/0"].

Class AddressCodec := {
  marshal_addresses : list string → string;
  unmarshal_addresses : string → res werror (list string);
}.

Section provision.
Context {sv : Server} {codec : Codec} {addresses : AddressCodec} {hp : HbaPostgres} (TunnelSource : string)
  (random : World → string).

(** [security.Token()]: any string may come out. *)
Definition Token : M string := λ w, (Ok (random w), w).

(** The vault's context of a project's password. *)
Definition vault_name (projectID : string) : string := "project:" +:+ projectID.

(** ** Limits *)

Definition applyLimits (projectID role : string) (l : ProjectLimits) : M unit :=
  ApplyLimits role (limit_settings (pl_Limits l)) (l_ConnectionLimit (pl_Limits l)) ≫= λ _,
  db_write (MarkLimitsApplied projectID (pl_Revision l)).

(** ** Stages *)

(** Up to three attempts; an identity that is not ours is not retried. *)
Fixpoint retry_ (attempts : nat) (fn : M unit) : M unit :=
  match attempts with
  | O => mret tt
  | S n =>
      attempt fn ≫= λ r,
      match r with
      | Ok _ => mret tt
      | Err RoleMismatch => throw RoleMismatch
      | Err OwnerMismatch => throw OwnerMismatch
      | Err e =>
          ctx_done ≫= λ stop,
          match n with
          | O => throw e
          | S _ => if (stop : bool) then throw e else retry_ n fn
          end
      end
  end.
Definition retry : M unit → M unit := retry_ 3.

(** The last stage: guardrails first, then an access policy if none was recorded. *)
Definition make_ready (project : Project) (limits : ProjectLimits) : M unit :=
  applyLimits (p_ID project) (p_RoleName project) limits ≫= λ _,
  db_get (PolicyState (p_ID project)) ≫= λ st : PolicyStateRow * string,
  if ps_CurrentRevision st.1 =? 0 then
    now_ ≫= λ t,
    attempt (db_tx (RecordPolicyRevision (p_ID project) 0 (marshal_addresses DefaultAddresses) t)) ≫= λ r,
    match r with
    | Ok _ | Err (StoreError ErrRevisionConflict) => mret tt
    | Err e => throw e
    end
  else mret tt.

Definition stages (project : Project) (password : string) (limits : ProjectLimits) : list (string * M unit) :=
  [("role_created", EnsureRole (p_RoleName project) password (l_ConnectionLimit (pl_Limits limits)));
   ("database_created", EnsureDatabase (p_DBName project) (p_RoleName project));
   ("ready", make_ready project limits)].

(** Stages up to the persisted one are skipped. *)
Fixpoint run_stages (project : Project) (started : bool) (l : list (string * M unit)) : M unit :=
  match l with
  | [] => mret tt
  | (name, fn) :: rest =>
      if started then run_stages project (negb (in_stage name project)) rest
      else
        wrap name (retry fn) ≫= λ _,
        now_ ≫= λ t,
        db_write (SetProjectStage (p_ID project) name t) ≫= λ _,
        run_stages project false rest
  end.

Definition known_stage (project : Project) : bool :=
  in_stage "identity_persisted" project || in_stage "role_created" project || in_stage "database_created" project ||
  in_stage "ready" project.

Definition provision (listed : Project) : M unit :=
  db_get (ProjectByID (p_ID listed)) ≫= λ project,
  if in_stage "deleting" project || p_Failed project then mret tt
  else if negb (known_stage project) then throw (Message ("unexpected stage " +:+ quoted (p_Stage project)))
  else
    db_get (SealedPassword (p_ID project)) ≫= λ sealed,
    match vault_Open (vault_name (p_ID project)) sealed with
    | None => throw (Message "stored credentials cannot be decrypted with this installation key")
    | Some password =>
        db_get (ReadLimits (p_ID project)) ≫= λ limits,
        run_stages project (negb (in_stage "identity_persisted" project)) (stages project password limits)
    end.

(** ** Access policy *)

(** The rules of the ready projects, with the policy state each came from; an
    allowlist that does not normalise is recorded as failed. *)
Fixpoint collect_rules (projects : list Project) : M (list (Rule * (string * PolicyStateRow))) :=
  match projects with
  | [] => mret []
  | project :: rest =>
      if negb (in_stage "ready" project) then collect_rules rest
      else
        db_get (PolicyState (p_ID project)) ≫= λ st : PolicyStateRow * string,
        lift (unmarshal_addresses st.2) ≫= λ addrs,
        match Normalize addrs with
        | Err e =>
            attempt (db_write (ApplyPolicyResult (p_ID project) (ps_CurrentRevision st.1) false e)) ≫= λ _,
            collect_rules rest
        | Ok normalized =>
            collect_rules rest ≫= λ rules,
            mret ((mkRule (p_DBName project) (p_RoleName project) normalized, (p_ID project, st.1)) :: rules)
        end
  end.

(** The outcome recorded for one project. *)
Definition record_result (e : option werror) (p : string * PolicyStateRow) : M unit :=
  match e with
  | None => attempt (db_write (ApplyPolicyResult p.1 (ps_CurrentRevision p.2) true "")) ≫= λ _, mret tt
  | Some e =>
      if negb (ps_AppliedRevision p.2 =? ps_CurrentRevision p.2) then
        attempt (db_write (ApplyPolicyResult p.1 (ps_CurrentRevision p.2) false (error_text e))) ≫= λ _, mret tt
      else mret tt
  end.

(** Go ranges over a map here; the records of different projects are
    independent, so the order does not matter. *)
Definition SyncPolicy : M unit :=
  db_read Projects ≫= λ projects,
  collect_rules projects ≫= λ rules,
  attempt (Apply TunnelSource (map fst rules)) ≫= λ applied,
  let e := match applied with Ok _ => None | Err e => Some e end in
  for_each (record_result e) (map snd rules) ≫= λ _,
  match e with None => mret tt | Some e => throw e end.

Definition ProvisionNow (projectID : string) : M unit :=
  db_get (ProjectByID projectID) ≫= λ project,
  if p_Failed project then throw (Message (p_StageError project))
  else
    (if negb (in_stage "ready" project) then
       attempt (provision project) ≫= λ r,
       match r with
       | Ok _ => mret tt
       | Err e => attempt (db_write (FailProject (p_ID project) (error_text e))) ≫= λ _, throw e
       end
     else mret tt) ≫= λ _,
    SyncPolicy.

(** ** Limits of ready projects *)

Definition drifted (want : gmap string string) (n : Z) (state : RoleState) : bool :=
  negb (rs_ConnectionLimit state =? n) ||
  existsb (λ '(k, v), negb (bool_decide (default "" (rs_Settings state !! k) = v))) (map_to_list want).

Definition overrides (want : gmap string string) (state : RoleState) : list string :=
  List.filter (λ k, match rs_DatabaseSettings state !! k with Some _ => true | None => false end) (map fst (map_to_list want)).

Definition sync_one (states : gmap string RoleState) (row : string * string * string * ProjectLimits) : M unit :=
  let '(projectID, role, database, l) := row in
  match states !! role with
  | None => mret tt
  | Some state =>
      let want := limit_settings (pl_Limits l) in
      (match overrides want state with
       | [] => mret tt
       | keys => attempt (ResetDatabaseLimits role database keys) ≫= λ _, mret tt
       end) ≫= λ _,
      if negb (drifted want (l_ConnectionLimit (pl_Limits l)) state) then
        if pl_AppliedRevision l <? pl_Revision l then
          attempt (db_write (MarkLimitsApplied projectID (pl_Revision l))) ≫= λ _, mret tt
        else mret tt
      else
        attempt (applyLimits projectID role l) ≫= λ r,
        match r with
        | Ok _ => mret tt
        | Err _ =>
            attempt (db_write (LimitsFailed projectID
              "PostgreSQL did not accept the limits. Run pgfyctl diagnostics; they are retried automatically.")) ≫= λ _, mret tt
        end
  end.

Definition SyncLimits : M unit :=
  attempt (db_read ReadyProjectLimits) ≫= λ r,
  match r with
  | Err _ | Ok [] => mret tt
  | Ok projects =>
      attempt RoleStates ≫= λ s,
      match s with
      | Err _ => mret tt
      | Ok states => for_each (sync_one states) projects
      end
  end.

(** ** Password rotation *)

Definition finishRotation (project : Project) (password sealed : string) (entry : AuditEntry) : M unit :=
  SetPassword (p_RoleName project) password ≫= λ _,
  TerminateSessions (p_DBName project) (p_RoleName project) ≫= λ _,
  db_tx (CompleteRotation (p_ID project) sealed entry) ≫= λ _, mret tt.

Definition rotation_text : string := "the password change will be finished automatically".
Definition rotation_incomplete : werror := Message rotation_text.

Definition Rotate (project : Project) (entry : AuditEntry) : M string :=
  Token ≫= λ password,
  let sealed := vault_Seal (vault_name (p_ID project)) password in
  db_tx (BeginRotation (p_ID project) sealed (au_RequestID entry)) ≫= λ _,
  attempt (finishRotation project password sealed entry) ≫= λ r,
  match r with
  | Ok _ => mret password
  | Err _ => throw rotation_incomplete
  end.

(** [{"finished":"automatically"}] *)
Definition finished_detail : string := "{" +:+ quoted "finished" +:+ ":" +:+ quoted "automatically" +:+ "}".

Definition finish_one (projectID requestID : string) : M unit :=
  attempt (db_get (PendingPassword projectID)) ≫= λ r,
  match r with
  | Err _ => mret tt
  | Ok sealed =>
      if bool_decide (sealed = "") then mret tt
      else
        attempt (db_get (ProjectByID projectID)) ≫= λ pr,
        match pr with
        | Err _ => mret tt
        | Ok project =>
            match vault_Open (vault_name projectID) sealed with
            | None => mret tt
            | Some password =>
                now_ ≫= λ t,
                attempt (finishRotation project password sealed
                  (mkAuditEntry 0 (unix t) 0 "credentials.rotate" projectID requestID finished_detail)) ≫= λ _, mret tt
            end
        end
  end.

Definition FinishRotations (locked : string → bool) : M unit :=
  attempt (db_read PendingRotations) ≫= λ r,
  match r with
  | Err _ => mret tt
  | Ok pending => for_each (λ x : string * string * string, if locked x.1.1 then mret tt else finish_one x.1.1 x.1.2) pending
  end.

(** ** The loop *)

Fixpoint provision_all (projects : list Project) (changed : bool) : M (option bool) :=
  match projects with
  | [] => mret (Some changed)
  | project :: rest =>
      ctx_done ≫= λ stop,
      if (stop : bool) then mret None
      else
        attempt (provision project) ≫= λ r,
        match r with
        | Err e => attempt (db_write (FailProject (p_ID project) (error_text e))) ≫= λ _, provision_all rest changed
        | Ok _ => provision_all rest true
        end
  end.

Definition pass (locked : string → bool) : M unit :=
  attempt (db_read maintenance) ≫= λ on,
  match on with
  | Ok false =>
      FinishRotations locked ≫= λ _,
      SyncLimits ≫= λ _,
      attempt (db_read IncompleteProjects) ≫= λ r,
      match r with
      | Err _ => mret tt
      | Ok projects =>
          provision_all projects false ≫= λ changed,
          match changed with
          | Some true => attempt SyncPolicy ≫= λ _, mret tt
          | _ => mret tt
          end
      end
  | _ => mret tt
  end.

(** One pass per wake-up: a kick, or half a minute. *)
Fixpoint passes (wakeups : nat) (locked : string → bool) : M unit :=
  pass locked ≫= λ _,
  match wakeups with O => mret tt | S n => passes n locked end.
Definition Run (wakeups : nat) (locked : string → bool) : M unit :=
  attempt SyncPolicy ≫= λ _, passes wakeups locked.
End provision.

(** ** Stages and what they stand for *)

(** A role with the restricted attributes of a project role. *)
Definition restricted (r : Role) : Prop :=
  ro_Login r = true ∧ ro_Super r = false ∧ ro_CreateDB r = false ∧ ro_CreateRole r = false.
Definition has_role (name : string) (c : Cluster) : Prop := ∃ r, cl_Roles c !! name = Some r ∧ restricted r.
(** A database of its own, closed to other roles. *)
Definition has_database (name owner : string) (c : Cluster) : Prop := cl_Databases c !! name = Some (mkDatabase owner false).

(** What a persisted stage promises about PostgreSQL. *)
Definition promised (stage : string) (project : Project) (c : Cluster) : Prop :=
  (stage = "role_created" ∨ stage = "database_created" ∨ stage = "ready" → has_role (p_RoleName project) c) ∧
  (stage = "database_created" ∨ stage = "ready" → has_database (p_DBName project) (p_RoleName project) c).

(** No restricted role and no closed database is lost. *)
Definition grows (c c' : Cluster) : Prop :=
  (∀ n, has_role n c → has_role n c') ∧ (∀ n o, has_database n o c → has_database n o c').
#[export] Instance grows_preorder : PreOrder grows.
Proof. split; [by intros c; split|]. intros a b c [H1 H2] [H3 H4]. split; eauto. Qed.

Lemma promised_grows stage project c c' : grows c c' → promised stage project c → promised stage project c'.
Proof. intros [Hr Hd] [H1 H2]. split; eauto. Qed.

Lemma grows_alter name f c c' : (∀ r, restricted r → restricted (f r)) → alter name f c = Some c' → grows c c'.
Proof.
  intros Hf. unfold alter. destruct (cl_Roles c !! name) as [r|] eqn:E; [|done]. intros [= <-]. split; [|done].
  intros n (r0 & Hr & Hres). unfold has_role. cbn. destruct (decide (n = name)) as [->|Hne].
  - rewrite lookup_insert_eq. exists (f r). split; [done|]. apply Hf. congruence.
  - rewrite lookup_insert_ne by done. by exists r0.
Qed.

Section stages.
Context {sv : Server} {laws : ServerLaws sv}.

(** What one step of provisioning may do, and what it achieves. *)
Definition step_post (d : DB) (b : bucket) (p : Cluster) (G : Cluster → Prop) : post unit := λ r d' b' p',
  b' = b ∧ db_projects d' = db_projects d ∧ db_jobs d' = db_jobs d ∧ grows p p' ∧ (r = Ok tt → G p').

Lemma step_trans d b p d1 p1 G r d2 b2 p2 :
  db_projects d1 = db_projects d → db_jobs d1 = db_jobs d → grows p p1 → step_post d1 b p1 G r d2 b2 p2 → step_post d b p G r d2 b2 p2.
Proof. intros E1 E2 Hg (-> & E3 & E4 & Hg' & HG). split_and!; try congruence; [by etrans|done]. Qed.

Lemma step_intro d b p G r p' : grows p p' → (r = Ok tt → G p') → step_post d b p G r d b p'.
Proof. intros. by split_and!. Qed.
Lemma step_stay d b p G e : step_post d b p G (Err e) d b p.
Proof. apply step_intro; [reflexivity|done]. Qed.
#[local] Hint Resolve step_stay : core.

Lemma EnsureRole_wp name password n d b p :
  wp (EnsureRole name password n) (step_post d b p (has_role name)) d b p.
Proof using laws.
  unfold EnsureRole. destruct (_ || _); [by apply wp_throw|].
  apply wp_bind, wp_ask; [|done]. destruct (cl_Roles p !! name) as [r|] eqn:Er.
  - destruct (_ || _) eqn:Eb; [by apply wp_throw|]. bool_simpl.
    assert (∀ p', effect (AlterPassword name password) p = Some p' → grows p p' ∧ has_role name p') as He.
    { cbn [effect]. intros p' H'. split; [eapply grows_alter; [|exact H']; by intros|]. unfold alter in H'. rewrite Er in H'. injection H' as <-.
      unfold has_role. cbn. rewrite lookup_insert_eq. eexists. split; [done|]. by repeat split. }
    apply wp_exec; [intros p' [? ?]%He; by apply step_intro|]. intros e p' [->|[? ?]%He]; [done|by apply step_intro].
  - destruct (_ || _); [by apply wp_throw|].
    assert (∀ p', effect (CreateRole name password n) p = Some p' → grows p p' ∧ has_role name p') as He.
    { cbn [effect]. rewrite Er. intros p' [= <-]. split.
      - split; [|done]. intros m (r & Hr & Hres). unfold has_role. cbn. rewrite lookup_insert_ne by congruence. by exists r.
      - unfold has_role. cbn. rewrite lookup_insert_eq. eexists. split; [done|]. by repeat split. }
    apply wp_exec; [intros p' [? ?]%He; by apply step_intro|]. intros e p' [->|[? ?]%He]; [done|by apply step_intro].
Qed.

Lemma EnsureDatabase_wp name owner d b p :
  wp (EnsureDatabase name owner) (step_post d b p (has_database name owner)) d b p.
Proof using laws.
  unfold EnsureDatabase. destruct (_ || _); [by apply wp_throw|].
  apply wp_bind, wp_ask; [|done].
  assert (∀ q, grows p q → (d_Owner <$> cl_Databases q !! name) = Some owner →
    wp (exec (RevokePublic name)) (step_post d b p (has_database name owner)) d b q) as Hrevoke.
  { intros q Hq Ho. destruct (cl_Databases q !! name) as [x|] eqn:Ex; [|done]. injection Ho as <-.
    assert (∀ q', effect (RevokePublic name) q = Some q' → grows p q' ∧ has_database name (d_Owner x) q') as He.
    { cbn [effect]. rewrite Ex. intros q' [= <-]. split; [etrans; [exact Hq|]|].
      - split; [done|]. intros n o Hn. unfold has_database in *. cbn. destruct (decide (n = name)) as [->|Hne].
        + rewrite lookup_insert_eq. rewrite Ex in Hn. by injection Hn as ->.
        + by rewrite lookup_insert_ne.
      - unfold has_database. cbn. by rewrite lookup_insert_eq. }
    apply wp_exec; [intros p' [? ?]%He; by apply step_intro|]. intros e p' [->|[? ?]%He]; [done|by apply step_intro]. }
  apply wp_bind. destruct (d_Owner <$> cl_Databases p !! name) as [o|] eqn:Eo.
  - case_bool_decide as Eq; cbn [negb]; [|by apply wp_throw]. apply wp_ret. subst o. by apply Hrevoke.
  - assert (∀ q, effect (CreateDatabase name owner) p = Some q → grows p q ∧ (d_Owner <$> cl_Databases q !! name) = Some owner) as He.
    { cbn [effect]. destruct (cl_Databases p !! name) eqn:Ed; [done|]. destruct (cl_Roles p !! owner); [|done]. intros q [= <-].
      split; [|cbn; by rewrite lookup_insert_eq]. split; [done|]. intros n o' Hn. unfold has_database in *. cbn.
      rewrite lookup_insert_ne by congruence. done. }
    apply wp_exec; [intros q [Hq Ho]%He; by apply Hrevoke|]. intros e q [->|[? ?]%He]; [done|by apply step_intro].
Qed.

Lemma restricted_limited settings n r : restricted r → restricted (limited settings n r).
Proof. done. Qed.

Lemma ApplyLimits_grows role settings n d b p :
  wp (ApplyLimits role settings n) (step_post d b p (λ _, True)) d b p.
Proof using laws.
  eapply wp_mono; [apply ApplyLimits_wp|]. intros r d' b' p' (-> & -> & Hp). apply step_intro; [|done].
  destruct Hp as [(r0 & Hr & -> & _)|[-> _]]; [|done].
  apply (grows_alter role (limited settings n)); [done|]. unfold alter. by rewrite Hr.
Qed.

Lemma retry_wp fn G attempts d b p :
  (∀ d b p, wp fn (step_post d b p G) d b p) → attempts ≠ 0%nat → wp (retry_ attempts fn) (step_post d b p G) d b p.
Proof.
  intros Hfn Hn. assert (∀ d0 p0, db_projects d0 = db_projects d → db_jobs d0 = db_jobs d → grows p p0 →
    wp (retry_ attempts fn) (step_post d b p G) d0 b p0) as Hgen; [|by apply Hgen].
  induction attempts as [|n IH]; [done|]. intros d0 p0 E1 E2 Hg. cbn [retry_]. apply wp_bind, wp_attempt.
  eapply wp_mono; [apply Hfn|]. intros r d1 b1 p1 Hs. apply (step_trans d b p) in Hs; [|done..].
  assert (∀ e, wp (throw e : M unit) (step_post d b p G) d1 b1 p1) as Hthrow.
  { intros e. apply wp_throw. destruct Hs as (-> & ? & ? & ? & _). by split_and!. }
  destruct r as [[]|e]; [by apply wp_ret|]. destruct e; try apply Hthrow;
    (apply wp_bind, wp_ctx_done; intros stop; destruct n as [|n]; [apply Hthrow|]; destruct stop; [apply Hthrow|];
     destruct Hs as (-> & ? & ? & ? & _); by apply IH).
Qed.
End stages.

(** ** Provisioning keeps every stage's promise *)

(** The guardrails of [l] are what the role has. *)
Definition in_force (role : string) (l : Limits) (c : Cluster) : Prop :=
  ∃ r, cl_Roles c !! role = Some r ∧ ro_ConnectionLimit r = l_ConnectionLimit l ∧
    ∀ k, In k limit_keys → ro_Settings r !! k = limit_settings l !! k.

Lemma limited_in_force role l r c :
  (∀ k, In k limit_keys → is_Some (limit_settings l !! k)) →
  in_force role l (with_role role (limited (limit_settings l) (l_ConnectionLimit l) r) c).
Proof.
  intros Hs. eexists. split; [cbn; by rewrite lookup_insert_eq|]. split; [done|]. intros k Hk. cbn.
  rewrite set_keys_lookup by done. rewrite bool_decide_eq_true_2; [done|]. by apply list_elem_of_In.
Qed.

Section provisioning.
Context {sv : Server} {laws : ServerLaws sv} {codec : Codec} {addresses : AddressCodec}.

Lemma make_ready_wp project l d b p :
  wp (make_ready project l) (step_post d b p (in_force (p_RoleName project) (pl_Limits l))) d b p.
Proof using laws.
  unfold make_ready, applyLimits. apply wp_bind, wp_bind.
  eapply wp_mono; [apply (wp_and _ _ _ _ _ _ (ApplyLimits_wp _ _ _ d b p) (ApplyLimits_grows _ _ _ d b p))|].
  intros r d1 b1 p1 [(-> & -> & Hp) (_ & _ & _ & Hg & _)].
  assert (∀ (e : werror) d', db_projects d' = db_projects d → db_jobs d' = db_jobs d →
    step_post d b p (in_force (p_RoleName project) (pl_Limits l)) (Err e) d' b p1) as Hstop by (intros; by split_and!).
  destruct r as [[]|e]; [|by apply Hstop]. destruct Hp as [(r0 & Hr & -> & Hk)|[_ ?]]; [|done].
  apply wp_db_write; [|intros e d' [->| ->]; by apply Hstop]. set (d1 := MarkLimitsApplied _ _ d).
  assert (∀ d', db_projects d' = db_projects d → db_jobs d' = db_jobs d →
    step_post d b p (in_force (p_RoleName project) (pl_Limits l)) (Ok tt) d' b
      (with_role (p_RoleName project) (limited (limit_settings (pl_Limits l)) (l_ConnectionLimit (pl_Limits l)) r0) p)) as Hdone.
  { intros d' E1 E2. split_and!; try done. intros _. by apply limited_in_force. }
  apply wp_bind, wp_db_get; [|intros; by apply Hstop]. intros st Hst.
  destruct (_ =? 0); [|apply wp_ret; by apply Hdone]. apply wp_bind, wp_now. intros t. apply wp_bind, wp_attempt.
  assert (∀ a, db_projects (RecordPolicyRevision (p_ID project) 0 a t d1).2 = db_projects d ∧
    db_jobs (RecordPolicyRevision (p_ID project) 0 a t d1).2 = db_jobs d) as Hrec.
  { intros a. unfold RecordPolicyRevision, atomically. destruct (sql_find _ _); cbn [rbind]; [|done].
    destruct (_ =? 0); [|done]. by destruct (sql_insert _ _ _ _). }
  specialize (Hrec (marshal_addresses DefaultAddresses)) as [Hr1 Hr2].
  apply wp_db_tx.
  - intros n d' E. rewrite E in Hr1, Hr2. apply wp_ret. by apply Hdone.
  - intros e d' Hd'. assert (db_projects d' = db_projects d ∧ db_jobs d' = db_jobs d) as [E1 E2] by (by destruct Hd' as [->| ->]).
    destruct e as [|se| | | | |]; try (by apply wp_throw, Hstop). destruct se; try (by apply wp_throw, Hstop). apply wp_ret. by apply Hdone.
Qed.

Context (project : Project) (l : ProjectLimits) (was : Prop).

Definition promises (d : DB) (c : Cluster) : Prop := ∀ q, In q (db_projects d) → promised (p_Stage q) q c.
Definition named (d : DB) : Prop := ∀ q, In q (db_projects d) → p_ID q = p_ID project →
  p_RoleName q = p_RoleName project ∧ p_DBName q = p_DBName project.
Definition ready_only (P : Prop) (d : DB) : Prop :=
  ∀ q, In q (db_projects d) → p_ID q = p_ID project → p_Stage q = "ready" → P.

Definition provision_post (b : bucket) (js : list Job) : post unit := λ r d' b' p',
  b' = b ∧ db_jobs d' = js ∧ promises d' p' ∧ ready_only (was ∨ in_force (p_RoleName project) (pl_Limits l) p') d'.

Lemma promises_grows d c c' : grows c c' → promises d c → promises d c'.
Proof. intros Hg H q Hq. by eapply promised_grows, H. Qed.

Lemma named_projects d d' : db_projects d' = db_projects d → named d → named d'.
Proof. unfold named. by intros ->. Qed.

(** The row after [SetProjectStage]. *)
Lemma in_SetProjectStage name t d q' : In q' (db_projects (SetProjectStage (p_ID project) name t d)) →
  ∃ q, In q (db_projects d) ∧ p_ID q' = p_ID q ∧ p_RoleName q' = p_RoleName q ∧ p_DBName q' = p_DBName q ∧
    (p_Stage q' = p_Stage q ∨ (p_ID q = p_ID project ∧ p_Stage q' = name)).
Proof.
  unfold SetProjectStage. case_bool_decide; intros (q & Hq & ->)%in_sql_update; exists q; (split; [done|]);
    (destruct (project_id (p_ID project) q) eqn:E; cbn [andb]; [|split_and!; auto]); unfold project_id in E; bool_simpl;
    destruct (negb _); cbn; split_and!; auto.
Qed.

Lemma SetProjectStage_promises name t d c : named d → promised name project c → promises d c →
  promises (SetProjectStage (p_ID project) name t d) c ∧ named (SetProjectStage (p_ID project) name t d).
Proof.
  intros Hn Hp HP. split.
  - intros q' (q & Hq & Eid & Er & Ed & [Es|[Ei Es]])%in_SetProjectStage.
    + specialize (HP q Hq). unfold promised in *. by rewrite Es, Er, Ed.
    + destruct (Hn q Hq Ei) as [E1 E2]. unfold promised in *. by rewrite Es, Er, Ed, E1, E2.
  - intros q' (q & Hq & Eid & Er & Ed & _)%in_SetProjectStage Hid. rewrite Er, Ed. apply Hn; congruence.
Qed.

(** One stage: the work, then its record. *)
Lemma stage_wp name fn G rest d b p :
  (∀ d b p, wp fn (step_post d b p G) d b p) →
  (∀ p', grows p p' → G p' → promised name project p') →
  (name = "ready" → rest = [] ∧ ∀ p', G p' → in_force (p_RoleName project) (pl_Limits l) p') →
  named d → promises d p → ready_only was d →
  (name ≠ "ready" → ∀ d' p', named d' → promises d' p' → ready_only was d' → db_jobs d' = db_jobs d → promised name project p' →
     wp (run_stages project false rest) (provision_post b (db_jobs d)) d' b p') →
  wp (run_stages project false ((name, fn) :: rest)) (provision_post b (db_jobs d)) d b p.
Proof.
  intros Hfn HG Hready Hn HP HR Hrest. cbn [run_stages]. apply wp_bind, wp_wrap. unfold retry.
  eapply wp_mono; [by apply retry_wp|]. intros r d1 b1 p1 (-> & E1 & E2 & Hg & HG1).
  assert (promises d1 p1) as HP1 by (intros q Hq; rewrite E1 in Hq; by eapply promised_grows, HP).
  assert (named d1) as Hn1 by (by eapply named_projects).
  assert (ready_only was d1) as HR1 by (unfold ready_only; by rewrite E1).
  destruct r as [[]|e]; cbn; [|split_and!; try done; unfold ready_only in *; eauto].
  specialize (HG1 eq_refl). pose proof (HG _ Hg HG1) as Hprom. apply wp_bind, wp_now. intros t.
  destruct (SetProjectStage_promises name t d1 p1 Hn1 Hprom HP1) as [HP2 Hn2].
  assert (db_jobs (SetProjectStage (p_ID project) name t d1) = db_jobs d) as E3.
  { rewrite <- E2. unfold SetProjectStage. by case_bool_decide. }
  assert (ready_only (was ∨ in_force (p_RoleName project) (pl_Limits l) p1) (SetProjectStage (p_ID project) name t d1)) as HR2.
  { intros q' (q & Hq & Eid & _ & _ & [Es|[_ Es]])%in_SetProjectStage Hid Hst.
    - left. apply (HR1 q); congruence.
    - right. apply Hready; [congruence|done]. }
  assert (∀ r d', d' = d1 ∨ d' = SetProjectStage (p_ID project) name t d1 → provision_post b (db_jobs d) r d' b p1) as Hstop.
  { intros r d' [->| ->]; split_and!; try done. unfold ready_only in *; eauto. }
  apply wp_bind, wp_db_write; [|intros e d' Hd'; by apply Hstop].
  destruct (decide (name = "ready")) as [Hr|Hr].
  - destruct (Hready Hr) as [-> _]. apply wp_ret. apply Hstop. by right.
  - apply Hrest; try done. intros q' Hin Hid Hst. destruct (in_SetProjectStage _ _ _ _ Hin) as (q & Hq & Eid & _ & _ & [Es|[_ Es]]).
    + apply (HR1 q); congruence.
    + congruence.
Qed.
End provisioning.

Section provision_one.
Context {sv : Server} {laws : ServerLaws sv} {codec : Codec} {addresses : AddressCodec}.

Definition was_ready (id : string) (d : DB) : Prop := ∃ q, In q (db_projects d) ∧ p_ID q = id ∧ p_Stage q = "ready".

(** A project is ready now because it was, or with its limits in force. *)
Definition guarded (id : string) (d : DB) (d' : DB) (c : Cluster) : Prop :=
  ∀ q, In q (db_projects d') → p_ID q = id → p_Stage q = "ready" →
    was_ready id d ∨
    ∃ l q0, ReadLimits id d = Ok l ∧ In q0 (db_projects d) ∧ p_ID q0 = id ∧ in_force (p_RoleName q0) (pl_Limits l) c.

Lemma ProjectByID_in id d project : ProjectByID id d = Ok project → In project (db_projects d) ∧ p_ID project = id.
Proof.
  unfold ProjectByID, projectBy. destruct (sql_find _ _) eqn:Ef; [|done]. intros [= ->].
  apply sql_find_some in Ef as [Hin Hid]. unfold project_id in Hid. by bool_simpl.
Qed.

Lemma chain_wp project password l was d b p :
  named project d → promises d p → ready_only project was d →
  let post := provision_post project l was b (db_jobs d) in
  (promised "database_created" project p → wp (run_stages project false (drop 2 (stages project password l))) post d b p) ∧
  (promised "role_created" project p → wp (run_stages project false (drop 1 (stages project password l))) post d b p) ∧
  wp (run_stages project false (stages project password l)) post d b p.
Proof using laws.
  intros Hn HP HR. cbv zeta. unfold stages. cbn [drop].
  assert (∀ d p, named project d → promises d p → ready_only project was d → promised "database_created" project p →
    wp (run_stages project false [("ready", make_ready project l)]) (provision_post project l was b (db_jobs d)) d b p) as H3.
  { clear d p Hn HP HR. intros d p Hn HP HR Hprev.
    apply (stage_wp project l was "ready" _ (in_force (p_RoleName project) (pl_Limits l))); try done.
    - intros. apply make_ready_wp.
    - intros p' Hg _. eapply promised_grows in Hprev as [Hr Hd]; [|exact Hg]. split; intros _; [apply Hr|apply Hd]; auto. }
  assert (∀ d p, named project d → promises d p → ready_only project was d → promised "role_created" project p →
    wp (run_stages project false [("database_created", EnsureDatabase (p_DBName project) (p_RoleName project)); ("ready", make_ready project l)])
      (provision_post project l was b (db_jobs d)) d b p) as H2.
  { clear d p Hn HP HR. intros d p Hn HP HR Hprev.
    apply (stage_wp project l was "database_created" _ (has_database (p_DBName project) (p_RoleName project))); try done.
    - intros. apply EnsureDatabase_wp.
    - intros p' Hg Hd. eapply promised_grows in Hprev as [Hr _]; [|exact Hg]. split; intros _; [apply Hr; auto|done].
    - intros _ d' p' Hn' HP' HR' <- Hprev'. by apply H3. }
  split; [by apply H3|]. split; [by apply H2|].
  apply (stage_wp project l was "role_created" _ (has_role (p_RoleName project))); try done.
  - intros. apply EnsureRole_wp.
  - intros p' Hg Hr. split; [done|]. intros [?|?]; done.
  - intros _ d' p' Hn' HP' HR' <- Hprev'. by apply H2.
Qed.

Lemma provision_wp listed d b p :
  NoDup (map p_ID (db_projects d)) → promises d p →
  wp (provision listed) (λ r d' b' p', b' = b ∧ db_jobs d' = db_jobs d ∧ promises d' p' ∧ guarded (p_ID listed) d d' p') d b p.
Proof using laws.
  intros Hnd HP. unfold provision.
  set (Q := λ (r : res werror unit) d' b' p', _).
  assert (∀ r, Q r d b p) as Hstay.
  { intros r. split_and!; try done. intros q Hq Hid Hst. left. by exists q. }
  apply wp_bind, wp_db_get; [|done]. intros project [Hin Hid]%ProjectByID_in.
  destruct (_ || _); [by apply wp_ret|]. destruct (known_stage project) eqn:Hk; cbn [negb]; [|by apply wp_throw].
  apply wp_bind, wp_db_get; [|done]. intros sealed _. destruct (vault_Open _ _) as [password|]; [|by apply wp_throw].
  apply wp_bind, wp_db_get; [|done]. intros l Hl.
  assert (named project d) as Hn.
  { intros q Hq Eq. assert (q = project) as ->; [|done]. by eapply NoDup_map_inj. }
  assert (ready_only project (was_ready (p_ID listed) d) d) as HR by (intros q Hq Eq Es; exists q; split_and!; congruence).
  destruct (chain_wp project password l (was_ready (p_ID listed) d) d b p Hn HP HR) as (C3 & C2 & C1).
  assert (∀ m, wp m (provision_post project l (was_ready (p_ID listed) d) b (db_jobs d)) d b p → wp m Q d b p) as Hpost.
  { intros m Hm. eapply wp_mono; [exact Hm|]. intros r d' b' p' (-> & Ej & HP' & HR'). split_and!; try done.
    intros q Hq Eq Es. destruct (HR' q Hq) as [?|?]; [congruence|done|by left|]. right. exists l, project.
    rewrite <- Hid. by split_and!. }
  specialize (HP project Hin). unfold known_stage in Hk. unfold in_stage at 1 in Hk.
  assert (∀ name, in_stage name project = bool_decide (p_Stage project = name)) as Hst by done.
  destruct (in_stage "identity_persisted" project) eqn:E1; [apply Hpost; exact C1|].
  cbn [negb]. unfold stages. cbn [run_stages].
  destruct (in_stage "role_created" project) eqn:E2; cbn [negb].
  { apply Hpost. apply C2. rewrite Hst in E2. bool_simpl. by rewrite <- E2. }
  destruct (in_stage "database_created" project) eqn:E3; cbn [negb].
  { apply Hpost. apply C3. rewrite Hst in E3. bool_simpl. by rewrite <- E3. }
  destruct (in_stage "ready" project) eqn:E4; cbn [negb]; [apply wp_ret, Hstay|]. apply wp_ret, Hstay.
Qed.
End provision_one.

(** C14. A persisted stage is never ahead of PostgreSQL: if every project's
    recorded stage was true before (its role exists with the restricted
    attributes, its database exists, owned by that role and closed to
    others), it is true after provisioning any project, under every schedule
    of failures; a project becomes ready only with the stored connection
    limit and timeouts in force on its role; jobs and bucket are untouched. *)
Theorem provision_keeps_promises {sv : Server} {laws : ServerLaws sv} {codec : Codec} {addresses : AddressCodec} listed w
  (ids : NoDup (map p_ID (db_projects (w_db w)))) (before : promises (w_db w) (w_pg w)) :
  let w' := (provision listed w).2 in
  w_bucket w' = w_bucket w ∧ db_jobs (w_db w') = db_jobs (w_db w) ∧
  promises (w_db w') (w_pg w') ∧ guarded (p_ID listed) (w_db w) (w_db w') (w_pg w').
Proof.
  cbv zeta. destruct (provision listed w) as [r w'] eqn:E.
  exact (wp_run _ _ _ _ _ (provision_wp listed _ _ _ ids before) E).
Qed.

(** ** The interface the worker relies on *)

Section interface.
Context {sv : Server} {laws : ServerLaws sv} {codec : Codec} {addresses : AddressCodec} {hp : HbaPostgres} {hlaws : HbaLaws hp}
  (TunnelSource : string).

Definition provisioner : Provisioner := {|
  Worker.ProvisionNow := ProvisionNow TunnelSource;
  Worker.DropProject := Postgres.DropProject;
  Worker.SyncPolicy := SyncPolicy TunnelSource;
|}.

(** What the access policy may touch. *)
Definition policy_post (d : DB) (b : bucket) (p : Cluster) {A} : post A := λ _ d' b' p',
  b' = b ∧ db_projects d' = db_projects d ∧ db_jobs d' = db_jobs d ∧ cl_Roles p' = cl_Roles p ∧ cl_Databases p' = cl_Databases p.

Lemma policy_result {A} id revision applied message (k : M A) d0 b p d :
  policy_post d0 b p (Ok tt) d b p → (∀ d, policy_post d0 b p (Ok tt) d b p → wp k (policy_post d0 b p) d b p) →
  wp (attempt (db_write (ApplyPolicyResult id revision applied message)) ≫= λ _, k) (policy_post d0 b p) d b p.
Proof.
  intros (_ & E1 & E2 & _) Hk.
  assert (∀ d', d' = d ∨ d' = ApplyPolicyResult id revision applied message d → policy_post d0 b p (Ok tt) d' b p) as Hd.
  { intros d' [->| ->]; [by split_and!|]. unfold ApplyPolicyResult. destruct applied; by split_and!. }
  apply wp_bind, wp_attempt, wp_db_write; [apply Hk, Hd; by right|]. intros e d' Hd'. by apply Hk, Hd.
Qed.

Lemma collect_rules_wp projects d0 b p d :
  policy_post d0 b p (Ok tt) d b p → wp (collect_rules projects) (policy_post d0 b p) d b p.
Proof.
  revert d. induction projects as [|project rest IH]; intros d Hd; cbn [collect_rules]; [by apply wp_ret|].
  destruct (negb _); [by apply IH|]. apply wp_bind, wp_db_get; [|done]. intros st _.
  apply wp_bind, wp_lift. destruct (unmarshal_addresses st.2) as [addrs|e]; [|done].
  destruct (Normalize addrs); [|by apply policy_result].
  apply wp_bind. eapply wp_mono; [by apply IH|]. intros [rules|e] d' b' p' Hd'; [|done]. by apply wp_ret.
Qed.

Lemma SyncPolicy_wp d b p : wp (SyncPolicy TunnelSource) (policy_post d b p) d b p.
Proof using hlaws.
  unfold SyncPolicy. assert (∀ A (r : res werror A), policy_post d b p r d b p) as Hstay by done.
  apply wp_bind, wp_db_read; [|done]. apply wp_bind. eapply wp_mono; [by apply (collect_rules_wp _ d b p)|].
  intros [rules|e] d1 b1 p1 Hd; [|done]. destruct Hd as (-> & E1 & E2 & E3 & E4).
  apply wp_bind, wp_attempt. eapply wp_mono; [apply Apply_wp|]. intros r d2 b2 p2 (-> & -> & Hs & _).
  assert (cl_Roles p2 = cl_Roles p ∧ cl_Databases p2 = cl_Databases p) as [E5 E6].
  { unfold same_but_rules in Hs. rewrite Hs. cbn. by rewrite E3, E4. }
  set (e := match r with Ok _ => None | Err e => Some e end). apply wp_bind.
  eapply (wp_mono _ (λ _ d' b' p', b' = b ∧ db_projects d' = db_projects d ∧ db_jobs d' = db_jobs d ∧ p' = p2)).
  { apply wp_for_each; [done|]. intros x d' b' p' _ (-> & E7 & E8 & ->). unfold record_result.
    assert (∀ a m, wp (attempt (db_write (ApplyPolicyResult x.1 (ps_CurrentRevision x.2) a m)) ≫= λ _, mret tt)
      (λ _ d' b' p', b' = b ∧ db_projects d' = db_projects d ∧ db_jobs d' = db_jobs d ∧ p' = p2) d' b p2) as Hw.
    { intros a m. apply wp_bind, wp_attempt, wp_db_write; [|intros ? d'' [->| ->]]; apply wp_ret; unfold ApplyPolicyResult; destruct a; by split_and!. }
    destruct e; [destruct (negb _)|]; [apply Hw|by apply wp_ret|apply Hw]. }
  intros [[]|?] d3 b3 p3 (-> & E7 & E8 & ->); [|by split_and!]. destruct e; [apply wp_throw|apply wp_ret]; by split_and!.
Qed.

Definition jobs_post (d : DB) (b : bucket) {A} : post A := λ _ d' b' _, b' = b ∧ db_jobs d' = db_jobs d.

(** Provisioning changes no job, whatever state it starts from. *)
Lemma run_stages_jobs project started password l d b p :
  wp (run_stages project started (stages project password l)) (jobs_post d b) d b p.
Proof using laws.
  assert (Forall (λ x : string * M unit, ∃ G, ∀ d b p, wp x.2 (step_post d b p G) d b p) (stages project password l)) as Hall.
  { repeat constructor; eexists; intros; [apply EnsureRole_wp|apply EnsureDatabase_wp|apply make_ready_wp]. }
  revert started d b p. generalize dependent (stages project password l).
  intros sts Hall. induction Hall as [|[name fn] rest [G HG] _ IH]; intros started d b p; cbn [run_stages]; [by apply wp_ret|].
  destruct started; [apply IH|]. apply wp_bind, wp_wrap. unfold retry. eapply wp_mono; [by apply retry_wp|].
  intros [[]|e] d1 b1 p1 (-> & _ & E & _); [|by split]. apply wp_bind, wp_now. intros t.
  assert (∀ d', d' = d1 ∨ d' = SetProjectStage (p_ID project) name t d1 → db_jobs d' = db_jobs d) as Hd.
  { intros d' [->| ->]; [done|]. unfold SetProjectStage. by case_bool_decide. }
  apply wp_bind, wp_db_write; [|intros ? d' Hd'; split; [done|by apply Hd]].
  eapply wp_mono; [apply IH|]. intros ? d2 b2 p2 [-> E2]. split; [done|]. rewrite E2. apply Hd. by right.
Qed.

Lemma provision_jobs listed d b p : wp (provision listed) (jobs_post d b) d b p.
Proof using laws.
  unfold provision. apply wp_bind, wp_db_get; [|done]. intros project _. destruct (_ || _); [by apply wp_ret|].
  destruct (negb (known_stage project)); [by apply wp_throw|]. apply wp_bind, wp_db_get; [|done]. intros sealed _.
  destruct (vault_Open _ _); [|by apply wp_throw]. apply wp_bind, wp_db_get; [|done]. intros l _. apply run_stages_jobs.
Qed.

#[export] Instance provisioner_laws : ProvisionerLaws provisioner.
Proof using laws hlaws.
  split.
  - intros database role d b p. cbn. eapply wp_mono; [apply DropProject_wp|].
    intros r d' b' p' (-> & -> & _ & H). split_and!; [done|done|]. intros Hr. by eapply dropped_ours, H.
  - intros d b p. cbn. eapply wp_mono; [apply SyncPolicy_wp|]. done.
  - intros id d b p. cbn. unfold ProvisionNow. apply wp_bind, wp_db_get; [|done]. intros project _.
    destruct (p_Failed project); [by apply wp_throw|]. apply wp_bind.
    eapply (wp_mono _ (jobs_post d b)).
    + destruct (negb _); [|by apply wp_ret]. apply wp_bind, wp_attempt. eapply wp_mono; [apply provision_jobs|].
      intros [[]|e] d1 b1 p1 [-> E]; [by apply wp_ret|].
      apply wp_bind, wp_attempt, wp_db_write; [by apply wp_throw|]. intros ? d' [->| ->]; by apply wp_throw.
    + intros [[]|e] d1 b1 p1 [-> E]; [|done]. eapply wp_mono; [apply SyncPolicy_wp|].
      intros r d2 b2 p2 (-> & _ & E2 & _). split; [done|congruence].
Qed.
End interface.

(** ** Rotation never loses the password *)

(** What is sealed can be opened again. *)
Class VaultLaws (codec : Codec) : Prop := vault_roundtrip name x : vault_Open name (vault_Seal name x) = Some x.

Section rotation.
Context {sv : Server} {laws : ServerLaws sv} {codec : Codec} {vlaws : VaultLaws codec} (random : World → string) (project : Project).

Definition secrets_of (d : DB) (s : Secret) : Prop := In s (db_secrets d) ∧ sec_ProjectID s = p_ID project.

Definition role_password (password : string) (c : Cluster) : Prop :=
  ∃ r, cl_Roles c !! p_RoleName project = Some r ∧ ro_Password r = password.

(** With no rotation pending, PostgreSQL accepts the stored password. *)
Definition settled (d : DB) (c : Cluster) : Prop :=
  ∀ s, secrets_of d s → sec_Pending s = None →
    ∃ password, vault_Open (vault_name (p_ID project)) (sec_Sealed s) = Some password ∧ role_password password c.

(** A rotation to [sealed] is on record. *)
Definition pending_to (sealed : string) (d : DB) : Prop := ∀ s, secrets_of d s → sec_Pending s = Some sealed.
Lemma pending_settled sealed d c : pending_to sealed d → settled d c.
Proof. intros Hp s Hs Hn. rewrite (Hp s Hs) in Hn. done. Qed.

Definition rotated (password sealed : string) (d : DB) (c : Cluster) : Prop :=
  (∀ s, secrets_of d s → sec_Sealed s = sealed ∧ sec_Pending s = None) ∧ role_password password c ∧
  ∀ x, In x (cl_Sessions c) → ¬ (ss_Role x = p_RoleName project ∧ ss_Database x = p_DBName project).

Lemma CompleteRotation_pending sealed entry d : pending_to sealed d →
  let d' := (CompleteRotation (p_ID project) sealed entry d).2 in
  ∀ s, secrets_of d' s → sec_Sealed s = sealed ∧ sec_Pending s = None.
Proof.
  intros Hp. cbv zeta. unfold CompleteRotation.
  destruct (_ =? 0) eqn:E; cbn [snd].
  - bool_simpl. pose proof (proj1 (sql_count_zero _ _) E) as Hz. intros s Hs. exfalso. pose proof (Hp s Hs) as Hpend. destruct Hs as [Hin Hid].
    specialize (Hz s Hin). unfold secret_of in Hz. rewrite Hid, Hpend, !bool_decide_eq_true_2 in Hz by done. done.
  - intros s [Hin Hid]. cbn in Hin. apply in_sql_update in Hin as (s0 & Hin & ->). destruct (_ && _) eqn:Ec; [done|].
    exfalso. pose proof (Hp s0 (conj Hin Hid)) as Hpend. unfold secret_of in Ec. rewrite Hid, Hpend, !bool_decide_eq_true_2 in Ec by done. done.
Qed.

Lemma rotated_settled password sealed d c :
  vault_Open (vault_name (p_ID project)) sealed = Some password → rotated password sealed d c → settled d c.
Proof. intros Ho (Hs & Hp & _) s Hin _. destruct (Hs s Hin) as [-> _]. by exists password. Qed.

Lemma finishRotation_wp password sealed entry d b p :
  vault_Open (vault_name (p_ID project)) sealed = Some password → pending_to sealed d →
  wp (finishRotation project password sealed entry)
    (λ r d' b' p', settled d' p' ∧ (r = Ok tt → rotated password sealed d' p')) d b p.
Proof using laws.
  intros Ho Hp. unfold finishRotation, SetPassword, TerminateSessions.
  assert (∀ (e : werror) c, settled d c ∧ (Err e = Ok tt → rotated password sealed d c)) as Hstop.
  { intros. split; [by eapply pending_settled|done]. }
  destruct (_ || _); [apply wp_bind, wp_throw, Hstop|].
  apply wp_bind, wp_exec; [|intros; apply Hstop]. intros p1 H1. cbn [effect] in H1. unfold alter in H1.
  destruct (cl_Roles p !! p_RoleName project) as [r|] eqn:Er; [|done]. injection H1 as <-.
  apply wp_bind, wp_exec; [|intros; apply Hstop]. intros p2 [= <-].
  set (c := _ <| cl_Sessions := _ |>).
  assert (rotated password sealed (CompleteRotation (p_ID project) sealed entry d).2 c) as Hrot.
  { split; [by apply CompleteRotation_pending|]. split.
    - eexists. unfold c. cbn. rewrite lookup_insert_eq. by split.
    - intros x. unfold c. cbn. rewrite filter_In. intros [_ Hx] [E1 E2]. rewrite E1, E2, !bool_decide_eq_true_2 in Hx by done. done. }
  apply wp_bind, wp_db_tx.
  - intros a d' E. rewrite E in Hrot. apply wp_ret. split; [by eapply rotated_settled|done].
  - intros e d' [->| ->]; [apply Hstop|]. split; [by eapply rotated_settled|done].
Qed.

Lemma BeginRotation_pending sealed request d :
  let (r, d') := BeginRotation (p_ID project) sealed request d in
  (∀ c, settled d c → settled d' c) ∧ (r = Ok tt → pending_to sealed d').
Proof.
  unfold BeginRotation, expect_one. set (p := λ s, secret_of (p_ID project) s && _). cbv zeta.
  destruct (_ =? 1) eqn:E; cbn; (split; [|try done]).
  - intros c Hs s [Hin Hid] Hn. cbn in Hin. apply in_sql_update in Hin as (s0 & Hin & ->). destruct (p s0); [done|]. by apply Hs.
  - intros _ s [Hin Hid]. cbn in Hin. apply in_sql_update in Hin as (s0 & Hin & ->). destruct (p s0) eqn:Ep; [done|]. exfalso.
    bool_simpl. assert (∃ s1, In s1 (db_secrets d) ∧ p s1 = true) as (s1 & Hin1 & Hp1).
    { destruct (sql_exists p (db_secrets d)) eqn:Ex; [by apply sql_exists_true in Ex|]. rewrite sql_exists_false in Ex.
      assert (sql_count p (db_secrets d) = 0) as Ez by (by apply sql_count_zero). congruence. }
    unfold p in Ep, Hp1. apply andb_true_iff in Hp1 as [Hid1 Hex]. unfold secret_of in Hid1, Ep. bool_simpl.
    rewrite Hid, bool_decide_eq_true_2 in Ep by done. cbn in Ep. rewrite Hid1 in Hex. congruence.
  - intros c Hs s [Hin Hid] Hn. cbn in Hin. try (apply in_sql_update in Hin as (s0 & Hin & ->); destruct (p s0); [done|]). by apply Hs.
Qed.
End rotation.

Lemma Rotate_wp {sv : Server} {laws : ServerLaws sv} {codec : Codec} {vlaws : VaultLaws codec} random project entry d b p :
  settled project d p →
  wp (Rotate random project entry) (λ r d' b' p', settled project d' p' ∧
    ∀ password, r = Ok password → ∃ sealed, vault_Open (vault_name (p_ID project)) sealed = Some password ∧
      rotated project password sealed d' p') d b p.
Proof.
  intros Hs. unfold Rotate. apply wp_bind, wp_plain. intros w <- <- <-. cbn [Token]. set (password := random w).
  match goal with |- context [wp ?m ?Q _ _ _] => assert (wp m Q (w_db w) (w_bucket w) (w_pg w)) as H; [|exact H] end.
  set (sealed := vault_Seal _ password). pose proof (BeginRotation_pending project sealed (au_RequestID entry) (w_db w)) as Hb.
  destruct (BeginRotation (p_ID project) sealed (au_RequestID entry) (w_db w)) as [r d1] eqn:E. destruct Hb as [Hb Hpend].
  assert (vault_Open (vault_name (p_ID project)) sealed = Some password) as Ho by apply vault_roundtrip.
  apply wp_bind, wp_db_tx.
  - intros [] d' E'. rewrite E in E'. injection E' as -> ->. specialize (Hpend eq_refl).
    apply wp_bind, wp_attempt. eapply wp_mono; [by apply finishRotation_wp|].
    intros [[]|e] d2 b2 p2 [Hs2 Hr]; [apply wp_ret|apply wp_throw]; (split; [done|]); [|done].
    intros ? [= <-]. exists sealed. split; [done|by apply Hr].
  - intros e d' [->| ->]; (split; [|done]); [done|]. rewrite E. by apply Hb.
Qed.

Lemma finish_one_wp {sv : Server} {laws : ServerLaws sv} {codec : Codec} project request d b p :
  NoDup (map sec_ProjectID (db_secrets d)) →
  (∀ q, In q (db_projects d) → p_ID q = p_ID project → p_RoleName q = p_RoleName project) →
  settled project d p → wp (finish_one (p_ID project) request) (λ _ d' _ p', settled project d' p') d b p.
Proof.
  intros Hnd Hnames Hs. unfold finish_one. apply wp_bind, wp_attempt, wp_db_get; [|intros; by apply wp_ret].
  intros sealed Hsealed. case_bool_decide as Ee; [by apply wp_ret|].
  apply wp_bind, wp_attempt, wp_db_get; [|intros; by apply wp_ret]. intros q [Hq Hid]%ProjectByID_in.
  destruct (vault_Open _ sealed) as [password|] eqn:Ho; [|by apply wp_ret]. apply wp_bind, wp_now. intros t.
  apply wp_bind, wp_attempt.
  assert (pending_to q sealed d) as Hp.
  { intros s [Hin Hsid]. unfold PendingPassword in Hsealed. destruct (sql_find _ _) as [s1|] eqn:Ef; [|done].
    apply sql_find_some in Ef as [Hin1 Hid1]. unfold secret_of in Hid1. bool_simpl. injection Hsealed as Hsealed.
    assert (s1 = s) as -> by (eapply NoDup_map_inj; [exact Hnd|done|done|congruence]).
    destruct (sec_Pending s); [|done]. by rewrite <- Hsealed. }
  rewrite <- Hid in Ho. eapply wp_mono; [by apply finishRotation_wp|].
  intros r d' b' p' [Hq' _]. assert (settled project d' p') as Hset; [|by destruct r; apply wp_ret].
  unfold settled, secrets_of, role_password in *. rewrite Hid, (Hnames q Hq Hid) in Hq'. exact Hq'.
Qed.

(** C15. A password change survives a failure at any step: as long as no
    rotation is pending, PostgreSQL accepts exactly the password on record,
    and both a rotation and the pass that finishes an interrupted one keep
    it so under every schedule of failures.  A rotation that reports
    success has made its password the stored and the accepted one and left
    no session of the role on its database. *)
Theorem rotation_never_loses_the_password {sv : Server} {laws : ServerLaws sv} {codec : Codec} {vlaws : VaultLaws codec}
  random project entry request w
  (ids : NoDup (map sec_ProjectID (db_secrets (w_db w))))
  (names : ∀ q, In q (db_projects (w_db w)) → p_ID q = p_ID project → p_RoleName q = p_RoleName project)
  (before : settled project (w_db w) (w_pg w)) :
  (let (r, w') := Rotate random project entry w in
   settled project (w_db w') (w_pg w') ∧
   ∀ password, r = Ok password → ∃ sealed, vault_Open (vault_name (p_ID project)) sealed = Some password ∧
     rotated project password sealed (w_db w') (w_pg w')) ∧
  (let w' := (finish_one (p_ID project) request w).2 in settled project (w_db w') (w_pg w')).
Proof.
  split.
  - destruct (Rotate random project entry w) as [r w'] eqn:E. exact (wp_run _ _ _ _ _ (Rotate_wp random project entry _ _ _ before) E).
  - cbv zeta. destruct (finish_one (p_ID project) request w) as [r w'] eqn:E.
    exact (wp_run _ _ _ _ _ (finish_one_wp project request _ _ _ ids names before) E).
Qed.

(** ** Witnesses *)

Definition sample_addresses : AddressCodec := {| marshal_addresses _ := "[]"; unmarshal_addresses _ := Ok DefaultAddresses |}.
#[export] Instance sample_vault_laws : VaultLaws sample_codec.
Proof. done. Qed.

Definition sample_password : string := "0123456789abcdef0123456789abcdef".
Definition new_project : Project := sample_project <| p_Stage := "identity_persisted" |>.
Definition provision_world : World :=
  mkWorld (empty_db <| db_projects := [new_project] |> <| db_secrets := [mkSecret "p1" sample_password None ""] |>
    <| db_policy_state := [mkPolicyState "p1" 0 0 "idle" ""] |>
    <| db_limits := [mkProjectLimits "p1" DefaultLimits 1 0 "" 0] |>) ∅ empty_cluster [] [] [].

Lemma provision_keeps_promises_witness :
  let w' := (@provision live_server sample_codec sample_addresses new_project provision_world).2 in
  promises (w_db w') (w_pg w') ∧ map p_Stage (db_projects (w_db w')) = ["ready"].
Proof.
  cbv zeta. split; [|vm_compute; reflexivity].
  apply (@provision_keeps_promises live_server _ sample_codec sample_addresses new_project provision_world).
  - repeat constructor. set_solver.
  - intros q [<-|[]]. split; intros [?|?]; try done. destruct H; done.
Defined.

Definition rotation_world : World :=
  mkWorld (empty_db <| db_projects := [sample_project] |> <| db_secrets := [mkSecret "p1" "pw" None ""] |>) ∅ shop_cluster [] [] [].
Definition sample_entry : AuditEntry := mkAuditEntry 0 0 1 "credentials.rotate" "p1" "r1" "{}".

Lemma rotation_never_loses_the_password_witness :
  let (r, w') := @Rotate live_server sample_codec (λ _, sample_password) sample_project sample_entry rotation_world in
  r = Ok sample_password ∧ role_password sample_project sample_password (w_pg w').
Proof.
  pose proof (@rotation_never_loses_the_password live_server _ sample_codec _ (λ _, sample_password) sample_project sample_entry "r1"
    rotation_world) as H.
  assert ((@Rotate live_server sample_codec (λ _, sample_password) sample_project sample_entry rotation_world).1 = Ok sample_password)
    as Hok by (vm_compute; reflexivity).
  destruct (@Rotate _ _ _ _ _ _) as [r w']. cbn in Hok. subst r.
  destruct H as [[_ H] _].
  - repeat constructor. set_solver.
  - by intros q [<-|[]] _.
  - intros s [[<-|[]] _] _. exists "pw". split; [done|]. eexists. split; [vm_compute; reflexivity|done].
  - destruct (H _ eq_refl) as (sealed & _ & _ & Hp & _). done.
Defined.
