(* ===== verification/Webhook.v ===== *)
(** * The webhook ([internal/alerts/webhook.go])

    Where alerts go: validating and masking the receiver's URL, the address
    filter of its dialler, signing, and one delivery.  [url.Parse] is
    [Network]'s; the HTTP client is the parameter [Transport], which gets the
    check its dialler runs on every address before it connects. *)

From S2P Require Import Prelude GoStrings GoTime Sha Security Netip IP Storage World Worker.

Record Webhook := mkWebhook { wh_URL : string; wh_Secret : string; wh_PrivateEndpoint : bool }.
#[export] Instance eta_Webhook : Eta Webhook := λ w, mkWebhook (wh_URL w) (wh_Secret w) (wh_PrivateEndpoint w).
#[export] Instance Webhook_eq_dec : EqDecision Webhook.
Proof. solve_decision. Defined.
Definition no_webhook : Webhook := mkWebhook "" "" false.

(** [strings.ReplaceAll] of a text that is not empty. *)
Fixpoint replace_from (skip : nat) (old new s : string) : string :=
  match s with
  | "" => ""
  | String c r =>
      match skip with
      | S skip => replace_from skip old new r
      | O => if has_prefix s old then new +:+ replace_from (slen old - 1) old new r else String c (replace_from 0 old new r)
      end
  end.
Definition ReplaceAll (s old new : string) : string := replace_from 0 old new s.
Example ReplaceAll_examples :
  (ReplaceAll "aaa" "aa" "b", ReplaceAll "x/hook y/hook" "/hook" "/…", ReplaceAll "abc" "d" "e") = ("ba", "x/… y/…", "abc").
Proof. vm_compute. reflexivity. Qed.

Section webhook.
Context {network_ : Network}.

Definition Webhook_Validate (w : Webhook) : res string unit :=
  if (2048 <? slen (wh_URL w))%nat || (256 <? slen (wh_Secret w))%nat then Err "the webhook URL or secret is too long"
  else
    let bad := Err "enter a full webhook URL, for example https://hooks.example.com/…" in
    match url_Parse (wh_URL w) with
    | None => bad
    | Some u =>
        if bool_decide (u_Host u = "") || bool_decide (u_Hostname u = "") then bad
        else if bool_decide (u_Scheme u = "https") then Ok tt
        else if bool_decide (u_Scheme u = "http") then
          if wh_PrivateEndpoint w then Ok tt
          else Err "the webhook must use https unless it is a private endpoint on this network"
        else Err "the webhook must use https"
    end.

Definition Webhook_Masked (w : Webhook) : string :=
  match url_Parse (wh_URL w) with
  | None => ""
  | Some u =>
      if bool_decide (u_Host u = "") then ""
      else
        let masked := u_Scheme u +:+ "://" +:+ u_Host u in
        if (negb (bool_decide (u_Path u = "")) && negb (bool_decide (u_Path u = "/"))) ||
           negb (bool_decide (u_RawQuery u = "")) || u_User u
        then masked +:+ "/…" else masked
  end.

Definition Webhook_Host (w : Webhook) : string := match url_Parse (wh_URL w) with Some u => u_Hostname u | None => "" end.

Definition scrub (s raw : string) : string :=
  let s := ReplaceAll s raw "(webhook)" in
  match url_Parse raw with
  | Some u => if (1 <? slen (u_Path u))%nat then ReplaceAll s (u_Path u) "/…" else s
  | None => s
  end.
End webhook.

(** ** The address filter *)

(** [net.ParseCIDR] of the literals below. *)
Definition network (cidr : string) : IPNet :=
  match ParsePrefix cidr with Some p => net_of p | None => mkIPNet [] [] end.
Definition cgnat : IPNet := network "100.64.0.0/10".
Definition reserved : list IPNet := [network "0.0.0.0/8"; network "192.0.0.0/24"; network "198.18.0.0/15"].
Definition nat64 : IPNet := network "64:ff9b::/96".
Definition sixToFour : IPNet := network "2002::/16".

(** The address itself, once no translation prefix carries another. *)
Definition allowed_plain (ip : IP) (private : bool) : bool :=
  if IsLinkLocalUnicast ip || IsLinkLocalMulticast ip || IsMulticast ip || IsUnspecified ip then false
  else if List.existsb (λ n, NetContains n ip) reserved then false
  else
    let internal := IsLoopback ip || IsPrivate ip || NetContains cgnat ip in
    Bool.eqb internal private.

(** The function calls itself on the four bytes a translation prefix carries;
    [depth] bounds that, and four bytes carry nothing further. *)
Fixpoint allowed_ (depth : nat) (ip : IP) (private : bool) : bool :=
  match depth with
  | O => allowed_plain ip private
  | S depth =>
      if NetContains nat64 ip then allowed_ depth (take 4 (drop 12 ip)) private
      else if NetContains sixToFour ip then allowed_ depth (take 4 (drop 2 ip)) private
      else allowed_plain ip private
  end.
Definition allowed (ip : IP) (private : bool) : bool := allowed_ 2 ip private.

(** [net.Dialer.Control]: asked for every address before a connection to it is made. *)
Definition Control (private : bool) (address : string) : res string unit :=
  let refused := Err (if private then "a private webhook must be on this machine or a private network"
    else "a public webhook may not point at this machine or a private network; use the private endpoint setting") in
  match SplitHostPort address with
  | None => refused
  | Some host =>
      match ParseIP host with
      | Some ip => if allowed ip private then Ok tt else refused
      | None => refused
      end
  end.

(** ** Signing and delivering *)

Definition FormatInt (n : Z) : string := if n <? 0 then "-" +:+ decimal (- n) else decimal n.

Definition Sign (secret : string) (timestamp : Z) (body : string) : string :=
  "sha256=" +:+ hex (hmac sha256 (bytes secret) (bytes (FormatInt timestamp +:+ ".") ++ bytes body)).

Record WireRequest := mkWireRequest {
  wr_Method : string; wr_URL : string; wr_Headers : list (string * string); wr_Body : string }.

(** The [n]-th request of the process: the status that came back, or the text
    of the cause (the [Err] of Go's [url.Error]). *)
Class Transport := { http_Do : nat → (string → res string unit) → WireRequest → res string Z }.

Inductive delivery_error := Rejected (status : Z) | Undelivered (reason : string).
Definition delivery_text (e : delivery_error) : string :=
  match e with Rejected n => "the receiver answered HTTP " +:+ FormatInt n | Undelivered s => s end.

Section deliver.
Context {network_ : Network} {transport : Transport}.

Definition wire_request (w : Webhook) (body version : string) (now : time) : WireRequest :=
  mkWireRequest "POST" (wh_URL w)
    ([("Content-Type", "application/json"); ("User-Agent", "pgfy/" +:+ version)] ++
     (if bool_decide (wh_Secret w = "") then []
      else [("X-Pgfy-Timestamp", FormatInt (unix now)); ("X-Pgfy-Signature", Sign (wh_Secret w) (unix now) body)])) body.

(** [n] requests were made before. *)
Definition Deliver (n : nat) (w : Webhook) (body version : string) (now : time) : res delivery_error unit :=
  match url_Parse (wh_URL w) with
  | None => Err (Undelivered "the webhook URL is not valid")
  | Some _ =>
      match http_Do n (Control (wh_PrivateEndpoint w)) (wire_request w body version now) with
      | Err reason => Err (Undelivered (scrub reason (wh_URL w)))
      | Ok status => if (status <? 200) || (299 <? status) then Err (Rejected status) else Ok tt
      end
  end.
End deliver.

(** ** What the filter lets through *)

(** What a connection to a 128-bit address reaches: the IPv4 address that a
    mapped, NAT64 or 6to4 address carries, or the address itself. *)
Definition destination (v : Z) : Addr :=
  if between 0xffff00000000 v 0xffffffffffff then V4 (v mod 2 ^ 32)
  else if between 0x0064ff9b0000000000000000_00000000 v 0x0064ff9b0000000000000000_ffffffff then V4 (v mod 2 ^ 32)
  else if between 0x2002_0000000000000000000000000000 v 0x2002_ffffffffffffffffffffffffffff then V4 (v / 2 ^ 80 mod 2 ^ 32)
  else V6 v "".

Definition ipv4 (a b c d : Z) : Z := ((a * 256 + b) * 256 + c) * 256 + d.
Definition in_any (ranges : list (Z * Z)) (v : Z) : bool := List.existsb (λ r : Z * Z, between r.1 v r.2) ranges.

(** This network, link-local with the metadata service, protocol assignments, benchmarking, multicast. *)
Definition never4 : list (Z * Z) :=
  [(ipv4 0 0 0 0, ipv4 0 255 255 255); (ipv4 169 254 0 0, ipv4 169 254 255 255); (ipv4 192 0 0 0, ipv4 192 0 0 255);
   (ipv4 198 18 0 0, ipv4 198 19 255 255); (ipv4 224 0 0 0, ipv4 239 255 255 255)].
(** Loopback, the private networks, carrier-grade NAT. *)
Definition internal4 : list (Z * Z) :=
  [(ipv4 10 0 0 0, ipv4 10 255 255 255); (ipv4 100 64 0 0, ipv4 100 127 255 255); (ipv4 127 0 0 0, ipv4 127 255 255 255);
   (ipv4 172 16 0 0, ipv4 172 31 255 255); (ipv4 192 168 0 0, ipv4 192 168 255 255)].
(** Unspecified, link-local, multicast. *)
Definition never6 : list (Z * Z) :=
  [(0, 0); (0xfe80 * 2 ^ 112, 0xfec0 * 2 ^ 112 - 1); (0xff00 * 2 ^ 112, 2 ^ 128 - 1)].
(** Loopback, unique local. *)
Definition internal6 : list (Z * Z) := [(1, 1); (0xfc00 * 2 ^ 112, 0xfe00 * 2 ^ 112 - 1)].

Inductive reach := Never | Internal | Public.
Definition reach_of (a : Addr) : reach :=
  match a with
  | V4 v => if in_any never4 v then Never else if in_any internal4 v then Internal else Public
  | V6 v _ => if in_any never6 v then Never else if in_any internal6 v then Internal else Public
  end.
Definition permitted (r : reach) (private : bool) : bool :=
  match r with Never => false | Internal => private | Public => negb private end.

Lemma all_bytes (P : Z → bool) : forallb P (map Z.of_nat (seq 0 256)) = true → ∀ x, is_byte x → P x = true.
Proof.
  intros H x Hx. rewrite forallb_forall in H. apply H, in_map_iff. exists (Z.to_nat x). unfold is_byte in Hx.
  split; [lia|]. apply in_seq. lia.
Qed.
(** The masks the code tests, as ranges of a byte. *)
Definition masks_ok (x : Z) : bool :=
  Bool.eqb (Z.land x 0xf0 =? 0xe0) (between 224 x 239) && Bool.eqb (Z.land x 0xf0 =? 16) (between 16 x 31) &&
  Bool.eqb (Z.land x 0xfe =? 0xfc) (between 252 x 253) && Bool.eqb (Z.land x 0xc0 =? 0x80) (between 128 x 191) &&
  Bool.eqb (64 =? Z.land x 192) (between 64 x 127) && Bool.eqb (18 =? Z.land x 254) (between 18 x 19) && (Z.land x 255 =? x).
Lemma mask_ranges x : is_byte x →
  (Z.land x 0xf0 =? 0xe0) = between 224 x 239 ∧ (Z.land x 0xf0 =? 16) = between 16 x 31 ∧
  (Z.land x 0xfe =? 0xfc) = between 252 x 253 ∧ (Z.land x 0xc0 =? 0x80) = between 128 x 191 ∧
  (64 =? Z.land x 192) = between 64 x 127 ∧ (18 =? Z.land x 254) = between 18 x 19 ∧ Z.land x 255 = x.
Proof.
  intros Hx. assert (masks_ok x = true) as H by (revert x Hx; apply all_bytes; vm_compute; reflexivity).
  unfold masks_ok in H. rewrite !andb_true_iff in H. destruct H as ((((((?&?)&?)&?)&?)&?)&?).
  split_and!; try (by apply Bool.eqb_prop). by apply Z.eqb_eq.
Qed.

(** The networks, as their bytes. *)
Lemma cgnat_bytes : cgnat = mkIPNet [100; 64; 0; 0] [255; 192; 0; 0].
Proof. vm_compute. reflexivity. Qed.
Lemma reserved_bytes : reserved =
  [mkIPNet [0; 0; 0; 0] [255; 0; 0; 0]; mkIPNet [192; 0; 0; 0] [255; 255; 255; 0]; mkIPNet [198; 18; 0; 0] [255; 254; 0; 0]].
Proof. vm_compute. reflexivity. Qed.
Lemma nat64_bytes : nat64 = mkIPNet ([0; 0x64; 0xff; 0x9b] ++ replicate 12 0) (replicate 12 255 ++ replicate 4 0).
Proof. vm_compute. reflexivity. Qed.
Lemma sixToFour_bytes : sixToFour = mkIPNet (0x20 :: 2 :: replicate 14 0) (255 :: 255 :: replicate 14 0).
Proof. vm_compute. reflexivity. Qed.

(** An address is internal, or never contacted, by its four bytes. *)
Definition never_four (a b c : Z) : bool :=
  (a =? 0) || ((a =? 169) && (b =? 254)) || ((a =? 192) && (b =? 0) && (c =? 0)) || ((a =? 198) && between 18 b 19) || between 224 a 239.
Definition internal_four (a b : Z) : bool :=
  (a =? 10) || ((a =? 100) && between 64 b 127) || (a =? 127) || ((a =? 172) && between 16 b 31) || ((a =? 192) && (b =? 168)).

Lemma reach_four a b c d : is_byte a → is_byte b → is_byte c → is_byte d →
  reach_of (V4 (ipv4 a b c d)) = if never_four a b c then Never else if internal_four a b then Internal else Public.
Proof.
  unfold is_byte. intros. unfold reach_of.
  assert (in_any never4 (ipv4 a b c d) = never_four a b c) as ->.
  { unfold in_any, never4, ipv4, between, never_four. cbn [List.existsb fst snd]. unfold between. lia. }
  assert (in_any internal4 (ipv4 a b c d) = internal_four a b) as ->; [|done].
  unfold in_any, internal4, ipv4, internal_four. cbn [List.existsb fst snd]. unfold between. lia.
Qed.

Lemma allowed_by_four ip private a b c d : To4 ip = Some [a; b; c; d] →
  (Equal ip IPv4zero || Equal ip IPv6unspecified) = (a =? 0) && (b =? 0) && (c =? 0) && (d =? 0) →
  is_byte a → is_byte b → is_byte c → is_byte d →
  allowed_plain ip private = permitted (reach_of (V4 (ipv4 a b c d))) private.
Proof.
  intros H4 H0 Ha Hb Hc Hd. rewrite reach_four by done.
  destruct (mask_ranges a Ha) as (La1&_&_&_&_&_&La), (mask_ranges b Hb) as (_&Lb1&_&_&Lb2&Lb3&Lb), (mask_ranges c Hc) as (_&_&_&_&_&_&Lc).
  unfold allowed_plain, IsUnspecified. rewrite H0, cgnat_bytes, reserved_bytes.
  unfold IsLinkLocalUnicast, IsLinkLocalMulticast, IsMulticast, IsLoopback, IsPrivate, NetContains. cbn [List.existsb].
  rewrite !H4. unfold byte_at. cbn [from_option id default n_IP n_Mask length Nat.eqb andb forallb combine nth fst snd].
  rewrite !Z.land_0_r, La1, Lb1, La, Lb, Lc.
  change (Z.land 100 255) with 100. change (Z.land 64 192) with 64. change (Z.land 0 255) with 0. change (Z.land 192 255) with 192.
  change (Z.land 198 255) with 198. change (Z.land 18 254) with 18. rewrite Lb2, Lb3.
  match goal with |- (if ?x then _ else if ?y then _ else Bool.eqb ?z _) = _ =>
    assert (x || y = never_four a b c) as HN by (unfold never_four, between; lia);
    assert (z = internal_four a b) as -> by (unfold internal_four, between; lia);
    destruct x, y; cbn [orb] in HN; rewrite <- HN; by destruct (internal_four a b), private end.
Qed.

Lemma To4_mapped a b c d : To4 (v4InV6Prefix ++ [a; b; c; d]) = Some [a; b; c; d].
Proof. done. Qed.

Lemma same_four (l : list Z) a b c d :
  bool_decide (l ++ [a; b; c; d] = l ++ [0; 0; 0; 0]) = (a =? 0) && (b =? 0) && (c =? 0) && (d =? 0).
Proof.
  apply eq_iff_eq_true. rewrite bool_decide_eq_true, !andb_true_iff, !Z.eqb_eq. split.
  - by intros [= -> -> -> ->]%app_inv_head.
  - by intros [[[-> ->] ->] ->].
Qed.

Lemma allowed_mapped (mapped : bool) a b c d private : is_byte a → is_byte b → is_byte c → is_byte d →
  allowed_plain ((if mapped then v4InV6Prefix else []) ++ [a; b; c; d]) private = permitted (reach_of (V4 (ipv4 a b c d))) private.
Proof.
  intros. apply allowed_by_four; [by destruct mapped| |done..].
  rewrite <- (same_four v4InV6Prefix). destruct mapped.
  - unfold Equal, is_len. rewrite !length_app. cbn [length replicate v4InV6Prefix Nat.add Nat.eqb IPv4zero IPv6unspecified app].
    rewrite (bool_decide_false (_ = [0; 0; 0; 0; 0; 0; 0; 0; 0; 0; 0; 0; 0; 0; 0; 0])) by congruence. by rewrite orb_false_r.
  - unfold Equal, is_len. cbn [length replicate v4InV6Prefix Nat.add Nat.eqb IPv4zero IPv6unspecified app andb].
    rewrite (bool_decide_false ([0; 0; 0; 0; 0; 0; 0; 0; 0; 0; 0; 0; 0; 0; 0; 0] = _)) by congruence. rewrite orb_false_r.
    by apply bool_decide_ext.
Qed.

(** ** Sixteen bytes as a number *)

Lemma be32_from acc l : fold_left (λ acc x, acc * 256 + x) l acc = acc * 256 ^ Z.of_nat (length l) + be32 l.
Proof.
  unfold be32. revert acc. induction l as [|x l IH]; intros acc; cbn [fold_left length]; [lia|].
  rewrite IH, (IH (0 * 256 + x)). rewrite Nat2Z.inj_succ, Z.pow_succ_r by lia. lia.
Qed.
Lemma be32_cons x l : be32 (x :: l) = x * 256 ^ Z.of_nat (length l) + be32 l.
Proof. unfold be32 at 1. cbn [fold_left]. rewrite be32_from. lia. Qed.
Lemma be32_app l r : be32 (l ++ r) = be32 l * 256 ^ Z.of_nat (length r) + be32 r.
Proof. unfold be32 at 1. rewrite fold_left_app, be32_from. done. Qed.
Lemma be32_bound l : Forall is_byte l → 0 ≤ be32 l < 256 ^ Z.of_nat (length l).
Proof.
  induction 1 as [|x l Hx Hl IH]; [done|]. rewrite be32_cons. cbn [length]. rewrite Nat2Z.inj_succ, Z.pow_succ_r by lia.
  unfold is_byte in Hx. nia.
Qed.
Lemma be32_inj l l' : length l = length l' → Forall is_byte l → Forall is_byte l' → be32 l = be32 l' → l = l'.
Proof.
  revert l'. induction l as [|x l IH]; intros [|y l'] Hl H H'; [done..|]. apply Forall_cons in H as [Hx H], H' as [Hy H'].
  injection Hl as Hl. rewrite !be32_cons, Hl. intros E. pose proof (be32_bound l H) as B. pose proof (be32_bound l' H') as B'.
  rewrite Hl in B. set (n := 256 ^ _) in *. assert (x = y) as -> by nia. f_equal. apply IH; [done..|lia].
Qed.
Lemma be32_eqb l l' : length l = length l' → Forall is_byte l → Forall is_byte l' → bool_decide (l = l') = (be32 l =? be32 l').
Proof.
  intros. apply eq_iff_eq_true. rewrite bool_decide_eq_true, Z.eqb_eq. split; [by intros ->|by apply be32_inj].
Qed.

(** An IPv6 address that is not IPv4-mapped. *)
Lemma allowed_six ip private : length ip = 16%nat → Forall is_byte ip → take 12 ip ≠ v4InV6Prefix →
  allowed_plain ip private = permitted (reach_of (V6 (be32 ip) "")) private.
Proof.
  intros Hl Hb Hm. assert (To4 ip = None) as H4 by (unfold To4, is_len; rewrite Hl, bool_decide_false by done; done).
  assert (∀ n l, length l = 4%nat → NetContains (mkIPNet l n) ip = false) as Hn.
  { intros n l Hll. unfold NetContains. rewrite H4. cbn [from_option id n_IP]. by rewrite Hl, Hll. }
  assert (∀ l, length l = 16%nat → Forall is_byte l → Equal ip l = (be32 ip =? be32 l)) as He.
  { intros l Hll Hlb. unfold Equal. rewrite Hl, Hll, Nat.eqb_refl. apply be32_eqb; [congruence|done..]. }
  assert (Equal ip IPv4zero = false) as Hz.
  { unfold Equal. rewrite Hl. apply bool_decide_eq_false. by intros ->. }
  unfold allowed_plain, IsLinkLocalUnicast, IsLinkLocalMulticast, IsMulticast, IsUnspecified, IsLoopback, IsPrivate, is_len.
  rewrite H4, Hl, Hz, cgnat_bytes, reserved_bytes. cbn [List.existsb]. rewrite !Hn by done.
  rewrite !He by (done || (unfold is_byte; repeat constructor; lia)).
  destruct ip as [|x [|y rest]]; [done..|]. apply Forall_cons in Hb as [Hx Hb]. apply Forall_cons in Hb as [Hy Hb].
  injection Hl as Hl. pose proof (be32_bound rest Hb) as B. rewrite !be32_cons. cbn [length]. rewrite Hl in B |- *.
  destruct (mask_ranges x Hx) as (_&_&Lx&_), (mask_ranges y Hy) as (_&_&_&Ly&_). unfold byte_at. cbn [nth Nat.eqb]. rewrite Lx, Ly.
  change (be32 IPv6unspecified) with 0. change (be32 IPv6loopback) with 1. change (256 ^ Z.of_nat 15) with (256 * 256 ^ Z.of_nat 14).
  assert (256 ^ Z.of_nat 14 = 2 ^ 112) as E by reflexivity. rewrite E in *. set (r := be32 rest) in *. unfold is_byte in *.
  unfold reach_of, in_any, never6, internal6. cbn [List.existsb fst snd orb andb].
  match goal with |- (if ?p then _ else Bool.eqb ?q _) = permitted (if ?p' then _ else if ?q' then _ else _) _ =>
    assert (p = p') as -> by (unfold between; lia); assert (q = q') as -> by (unfold between; lia); by destruct p', q', private end.
Qed.

Lemma four_bytes (l : list Z) : length l = 4%nat → ∃ a b c d, l = [a; b; c; d].
Proof. intros H. do 4 (destruct l as [|? l]; [done|]). destruct l; [|done]. by do 4 eexists. Qed.
Lemma be32_four a b c d : be32 [a; b; c; d] = ipv4 a b c d.
Proof. unfold be32, ipv4. cbn [fold_left]. lia. Qed.

(** The address a slice of four bytes names. *)
Lemma allowed_slice depth l private : length l = 4%nat → Forall is_byte l →
  allowed_ depth l private = permitted (reach_of (V4 (be32 l))) private.
Proof.
  intros Hl Hb. destruct (four_bytes l Hl) as (a & b & c & d & ->). rewrite be32_four.
  assert (allowed_ depth [a; b; c; d] private = allowed_plain [a; b; c; d] private) as ->.
  { destruct depth; [done|]. cbn [allowed_]. by rewrite nat64_bytes, sixToFour_bytes. }
  rewrite !Forall_cons in Hb. destruct Hb as (?&?&?&?&_). by apply (allowed_mapped false).
Qed.

Lemma Forall_take_drop (n m : nat) (l : list Z) : Forall is_byte l → Forall is_byte (take n (drop m l)).
Proof. intros H. by apply Forall_take, Forall_drop. Qed.

(** Starting with given bytes is a range of the number. *)
Lemma starts_between (p ip : list Z) (m : nat) : length ip = (length p + m)%nat → Forall is_byte ip → Forall is_byte p →
  bool_decide (take (length p) ip = p) =
    between (be32 p * 256 ^ Z.of_nat m) (be32 ip) (be32 p * 256 ^ Z.of_nat m + 256 ^ Z.of_nat m - 1).
Proof.
  intros Hl Hb Hp. set (t := take (length p) ip). set (d := drop (length p) ip).
  assert (length t = length p) as Ht by (apply length_take_le; lia). assert (length d = m) as Hd by (unfold d; rewrite length_drop; lia).
  rewrite be32_eqb by (done || by apply Forall_take). rewrite <- (take_drop (length p) ip) at 1. fold t d. rewrite be32_app, Hd.
  pose proof (be32_bound d (Forall_drop _ _ _ Hb)) as B. rewrite Hd in B. set (n := 256 ^ Z.of_nat m) in *.
  apply eq_iff_eq_true. unfold between. rewrite andb_true_iff, Z.eqb_eq, !Z.leb_le. split; [intros ->; lia|nia].
Qed.

Lemma prefix_contains (p ip : list Z) (m : nat) : To4 ip = None → length ip = (length p + m)%nat → Forall is_byte ip → Forall is_byte p →
  NetContains (mkIPNet (p ++ replicate m 0) (replicate (length p) 255 ++ replicate m 0)) ip = bool_decide (take (length p) ip = p).
Proof.
  intros H4 Hl Hb Hp. unfold NetContains. rewrite H4. cbn [from_option id n_IP n_Mask].
  rewrite length_app, length_replicate, Hl, Nat.eqb_refl. cbn [andb]. clear H4. revert ip Hl Hb.
  induction Hp as [|x p Hx Hp IH]; intros ip Hl Hb.
  - cbn [length app replicate take]. rewrite bool_decide_true by done. clear. revert ip.
    induction m as [|m IH]; intros [|y ip]; [done..|]. cbn [replicate combine forallb fst snd]. by rewrite !Z.land_0_r, IH.
  - destruct ip as [|y ip]; [done|]. apply Forall_cons in Hb as [Hy Hb]. injection Hl as Hl.
    cbn [length app replicate take combine forallb fst snd].
    destruct (mask_ranges x Hx) as (_&_&_&_&_&_&->), (mask_ranges y Hy) as (_&_&_&_&_&_&->). rewrite IH by done.
    rewrite (bool_decide_ext (y :: _ = x :: _) (x = y ∧ take (length p) ip = p))
      by (split; [by intros [= -> ?]|by intros [-> ->]]).
    rewrite bool_decide_and. f_equal. apply eq_iff_eq_true. by rewrite bool_decide_eq_true, Z.eqb_eq.
Qed.

Lemma mapped_destination ip : length ip = 16%nat → Forall is_byte ip →
  destination (be32 ip) =
    if bool_decide (take 12 ip = v4InV6Prefix) then V4 (be32 (drop 12 ip))
    else if bool_decide (take 12 ip = [0; 0x64; 0xff; 0x9b] ++ replicate 8 0) then V4 (be32 (drop 12 ip))
    else if bool_decide (take 2 ip = [0x20; 2]) then V4 (be32 (take 4 (drop 2 ip)))
    else V6 (be32 ip) "".
Proof.
  intros Hl Hb.
  assert (be32 (drop 12 ip) = be32 ip mod 2 ^ 32) as E4.
  { pose proof (be32_bound (drop 12 ip) (Forall_drop _ _ _ Hb)) as B. rewrite length_drop, Hl in B.
    rewrite <- (take_drop 12 ip) at 2. rewrite be32_app, length_drop, Hl. change (256 ^ Z.of_nat (16 - 12)) with (2 ^ 32) in *.
    rewrite Z.add_comm, Z.mod_add by lia. by rewrite Z.mod_small. }
  assert (be32 (take 4 (drop 2 ip)) = be32 ip / 2 ^ 80 mod 2 ^ 32) as E6.
  { rewrite <- (take_drop 2 ip) at 2. rewrite <- (take_drop 4 (drop 2 ip)) at 2.
    rewrite !be32_app, !length_app, !drop_drop, !length_drop, Hl.
    assert (length (take 4 (drop 2 ip)) = 4%nat) as -> by (apply length_take_le; rewrite length_drop; lia).
    pose proof (be32_bound (drop 6 ip) (Forall_drop _ _ _ Hb)) as B. rewrite length_drop, Hl in B.
    pose proof (be32_bound _ (Forall_take_drop 4 2 ip Hb)) as B'. rewrite length_take_le in B' by (rewrite length_drop; lia).
    change (256 ^ Z.of_nat (16 - 6)) with (2 ^ 80) in *. change (256 ^ Z.of_nat 4) with (2 ^ 32) in *.
    change (256 ^ Z.of_nat (4 + (16 - (2 + 4)))) with (2 ^ 32 * 2 ^ 80). change (256 ^ Z.of_nat (16 - (2 + 4))) with (2 ^ 80).
    change (drop (2 + 4) ip) with (drop 6 ip). generalize dependent (be32 (drop 6 ip)). intros c B.
    generalize dependent (be32 (take 4 (drop 2 ip))). intros b B'. generalize (be32 (take 2 ip)). intros a.
    replace (a * (2 ^ 32 * 2 ^ 80) + (b * 2 ^ 80 + c)) with (c + (b + a * 2 ^ 32) * 2 ^ 80) by lia.
    rewrite Z.div_add, (Z.div_small c) by lia. rewrite Z.add_0_l, Z.mod_add by lia. by rewrite Z.mod_small. }
  unfold destination. rewrite E4, E6.
  pose proof (starts_between v4InV6Prefix ip 4 Hl Hb) as H1.
  pose proof (starts_between ([0; 0x64; 0xff; 0x9b] ++ replicate 8 0) ip 4 Hl Hb) as H2.
  pose proof (starts_between [0x20; 2] ip 14 Hl Hb) as H3.
  cbn [length v4InV6Prefix app replicate] in H1, H2, H3. cbn [v4InV6Prefix app replicate].
  rewrite H1, H2, H3 by (unfold is_byte; repeat constructor; lia). done.
Qed.

(** C28. The dialler's address filter is exactly a table of ranges.  For every
    IP address the webhook's dialler is about to connect to, the answer
    depends only on the address it really reaches: the IPv4 address inside an
    IPv4-mapped, NAT64 or 6to4 address, or the IPv6 address itself.  Link-local
    addresses (the cloud metadata service among them), multicast, "this
    network" and the reserved ranges are never contacted; loopback, private
    networks and carrier-grade NAT only by a private endpoint; everything else
    only by a public one.  The recursion of the code ends after one step. *)
Theorem allowed_reference ip private : length ip = 16%nat → Forall is_byte ip →
  allowed ip private = permitted (reach_of (destination (be32 ip))) private ∧
  ∀ depth, (1 ≤ depth)%nat → allowed_ depth ip private = allowed ip private.
Proof.
  intros Hl Hb. rewrite mapped_destination by done.
  assert (∀ depth, (1 ≤ depth)%nat → allowed_ depth ip private = permitted (reach_of
    (if bool_decide (take 12 ip = v4InV6Prefix) then V4 (be32 (drop 12 ip))
     else if bool_decide (take 12 ip = [0; 0x64; 0xff; 0x9b] ++ replicate 8 0) then V4 (be32 (drop 12 ip))
     else if bool_decide (take 2 ip = [0x20; 2]) then V4 (be32 (take 4 (drop 2 ip))) else V6 (be32 ip) "")) private) as H.
  { intros [|depth] Hd; [lia|]. cbn [allowed_]. rewrite nat64_bytes, sixToFour_bytes.
    case_bool_decide as Em.
    - assert (length (drop 12 ip) = 4%nat) as Hd4 by (rewrite length_drop; lia). pose proof (Forall_drop _ 12 _ Hb) as Hdb.
      destruct (four_bytes _ Hd4) as (a & b & c & d & E). rewrite E in Hdb |- *. rewrite !Forall_cons in Hdb. destruct Hdb as (?&?&?&?&_).
      rewrite <- (take_drop 12 ip), Em, E, be32_four. by apply (allowed_mapped true).
    - assert (To4 ip = None) as H4 by (unfold To4, is_len; rewrite Hl, bool_decide_false by done; done).
      pose proof (prefix_contains ([0; 0x64; 0xff; 0x9b] ++ replicate 8 0) ip 4 H4 Hl Hb) as H1.
      pose proof (prefix_contains [0x20; 2] ip 14 H4 Hl Hb) as H2.
      cbn [length app replicate] in H1, H2. cbn [app replicate]. rewrite H1, H2 by (unfold is_byte; repeat constructor; lia).
      destruct (bool_decide (take 12 ip = _)); [|destruct (bool_decide (take 2 ip = _))].
      + rewrite (take_ge (drop 12 ip)) by (rewrite length_drop; lia). apply allowed_slice; [rewrite length_drop; lia|by apply Forall_drop].
      + apply allowed_slice; [apply length_take_le; rewrite length_drop; lia|by apply Forall_take_drop].
      + by apply allowed_six. }
  split; [by apply H; lia|]. intros depth Hd. rewrite H by done. symmetry. by apply H; lia.
Qed.
Lemma allowed_reference_witness :
  map (λ s, match ParseIP s with Some ip => Some (allowed ip false) | None => None end)
    ["93.184.215.14"; "169.254.169.254"; "64:ff9b::a9fe:a9fe"; "2002:a00:1::"; "::ffff:127.0.0.1"; "2606:2800:21f::1"] =
  [Some true; Some false; Some false; Some false; Some false; Some true] ∧
  allowed ([0; 0x64; 0xff; 0x9b] ++ replicate 8 0 ++ [169; 254; 169; 254]) false = false.
Proof.
  split; [vm_compute; reflexivity|].
  rewrite (proj1 (allowed_reference ([0; 0x64; 0xff; 0x9b] ++ replicate 8 0 ++ [169; 254; 169; 254]) false eq_refl
    ltac:(unfold is_byte; repeat constructor; lia))). vm_compute. reflexivity.
Defined.
