(* ===== verification/Alerts.v ===== *)
(** * The alert engine ([internal/alerts/alerts.go])

    Every minute, or when kicked, the engine looks at PostgreSQL, the
    connection budget, the host's report, the certificate and the backups,
    records what it saw ([AlertStore]) and tells the receiver ([Webhook]).

    [Memory] is what the engine keeps between ticks.  An operation [E] runs on
    the memory and the world; a store call that fails gives an error value
    there.  [me_posts] records every delivery that was tried, newest last: the
    position is what [Transport] is asked with.  The two mutexes keep ticks,
    settings changes and deliveries apart, so operations run one after
    another; the channel behind [Kick] is in [Loops], logging is not modelled.  Maps are
    iterated in table or first-seen order: the results are sorted by key. *)

From S2P Require Import Prelude GoStrings GoTime Sha Security Netip IP Storage Schema JobStore ProjectStore BackupStore AlertStore World Postgres Worker HostStatus Webhook.

Definition PostgresGrace : duration := 5 * Minute.
Definition sendBudget : duration := 30 * Second.
Definition sealContext : string := "setting:" +:+ AlertWebhookSetting.
Definition sourceBackups : string := "backups".
Definition sourcePostgres : string := "postgres".
Definition sourceDisk : string := "disk".
Definition sourceClock : string := "clock".
Definition sourceHostReport : string := "host_report".
Definition sourceConnections : string := "connections".
Definition sourceBucket : string := "bucket".
Definition sourceCertificate : string := "certificate".
Definition sourceCertSync : string := "certificate_sync".

Record Backups := mkBackups { ba_Configured : bool; ba_Target : string; ba_Interval : duration }.

(** What is configured: a callback that is absent is [nil] in Go; [ec_Backups]
    answers [None] while the target cannot be judged. *)
Record EngineConfig := mkEngineConfig {
  ec_Key : list Z; ec_InstallationID : string; ec_Dashboard : string; ec_Mode : string; ec_Version : string;
  ec_HostFiles : World → HostFiles;
  ec_Postgres : option (M string);
  ec_Budget : option (M Budget);
  ec_Backups : option (M (option Backups)) }.

(** A delivery that was tried: when, what, and what came of it. *)
Record Post := mkPost { po_At : time; po_Message : Outgoing; po_Result : res delivery_error unit }.

Record Memory := mkMemory {
  me_failingSince : time; me_maintenance : bool; me_lastOK : Z; me_lastError : string; me_posts : list Post }.
#[export] Instance eta_Memory : Eta Memory := λ m,
  mkMemory (me_failingSince m) (me_maintenance m) (me_lastOK m) (me_lastError m) (me_posts m).
Definition fresh_memory : Memory := mkMemory zero_time false 0 "" [].
Definition is_zero (t : time) : bool := bool_decide (t = zero_time).

Definition E (A : Type) : Type := Memory → World → A * (Memory * World).
#[export] Instance E_ret : MRet E := λ A a m w, (a, (m, w)).
#[export] Instance E_bind : MBind E := λ A B k x m w, let '(a, (m', w')) := x m w in k a m' w'.
Definition memory {A} (f : Memory → A * Memory) : E A := λ m w, let (a, m') := f m in (a, (m', w)).
(** A call to the store or a callback; the caller looks at its error. *)
Definition outside {A} (x : M A) : E (res werror A) := λ m w, let (r, w') := x w in (r, (m, w')).
Definition look {A} (f : World → A) : E A := λ m w, (f w, (m, w)).
Definition clock : E time := λ m w, let (r, w') := now_ w in (match r with Ok t => t | Err _ => 0 end, (m, w')).

Definition condition (kind key source summary detail : string) : Condition := mkCondition key kind source summary detail.

(** The sources looked at; a name that was never set is [false]. *)
Definition set_checked (source : string) (v : bool) (checked : string → bool) : string → bool :=
  λ s, if bool_decide (s = source) then v else checked s.

(** ** What is true now *)

Definition sort_conditions (l : list Condition) : list Condition := sql_order (key_leb cn_Key String.leb) l.

Definition disk_condition (key names : string) (free : SpecFloat.spec_float) : Condition :=
  condition "disk_low" ("disk_low:" +:+ key) sourceDisk "Free disk space is under 15%" (names +:+ ": " +:+ format_float0 free +:+ "% free.").
(** [groups[d.Device]], by device in the order they come. *)
Definition devices (disks : list Disk) : list Z := remove_dups (map dk_Device disks).
Definition on_device (dev : Z) (disks : list Disk) : list Disk := List.filter (λ d, dk_Device d =? dev) disks.
Definition group_condition (group : list Disk) : Condition :=
  let names := sql_order (key_leb id String.leb) (map dk_Name group) in
  disk_condition (join "+" names) (join ", " names) (match group with d :: _ => dk_FreePercent d | [] => SpecFloat.S754_zero false end).
Definition diskConditions (disks : list Disk) : list Condition :=
  let low := List.filter dk_Low disks in
  let alone := List.filter (λ d, dk_Device d =? 0) low in
  let grouped := List.filter (λ d, negb (dk_Device d =? 0)) low in
  sort_conditions (map (λ d, disk_condition (dk_Name d) (dk_Name d) (dk_FreePercent d)) alone ++
    map (λ dev, group_condition (on_device dev grouped)) (devices grouped)).

(** Every disk was measured, and there is one. *)
Definition disks_measured (disks : list Disk) : bool :=
  negb (bool_decide (length disks = 0%nat)) &&
  forallb (λ d, negb (negb (bool_decide (dk_Error d = "")) || (dk_TotalBytes d <=? 0))) disks.

Section engine.
Context {codec : Codec} (ParseRFC3339 : string → option time) (c : EngineConfig).

Definition name_of (projects : list Project) (id : string) : string :=
  match List.find (project_id id) (rev projects) with Some p => p_Name p | None => "" end.

Definition failing_backups (projects : list Project) (failures : list BackupSchedule) : list Condition :=
  map (λ f, condition "backup_failed" ("backup_failed:" +:+ bs_ProjectID f) sourceBackups
      ("Backups of " +:+ name_of projects (bs_ProjectID f) +:+ " are failing")
      (decimal (bs_Failures f) +:+ " attempts in a row have failed; the next is retried automatically. See the database's Backups tab."))
    (List.filter (λ f, (2 <=? bs_Failures f) && negb (bool_decide (name_of projects (bs_ProjectID f) = ""))) failures).
Definition late_backups (late : list Project) : list Condition :=
  map (λ p, condition "backup_stale" ("backup_stale:" +:+ p_ID p) sourceBackups
      ("The newest recoverable backup of " +:+ p_Name p +:+ " is older than its target")
      "Older than 1.5 times the backup target interval. See the database's Backups tab.") late.
Definition lost_archives (prefixes : list PrefixState) : list Condition :=
  map (λ p, condition "manifest_only" ("manifest_only:" +:+ px_DBName p) sourceBucket "The bucket holds backups whose archive is missing"
      (decimal (px_ManifestOnly p) +:+ " manifest(s) for " +:+ px_DBName p +:+
        " without an archive; they are never offered for restore and never deleted automatically."))
    (List.filter (λ p, 0 <? px_ManifestOnly p) prefixes).

Definition backupConditions (b : Backups) (now : time) (checked : string → bool) : E (list Condition * (string → bool)) :=
  outside (db_read Projects) ≫= λ r,
  match r with
  | Err _ => mret ([], checked)
  | Ok projects =>
      outside (db_read BackupFailures) ≫= λ failures,
      outside (db_read (LateProjects (ba_Target b) (ec_InstallationID c) (ba_Interval b) now)) ≫= λ late,
      let '(out, checked) :=
        match failures, late with
        | Ok failures, Ok late => (failing_backups projects failures ++ late_backups late, set_checked sourceBackups true checked)
        | _, _ => ([], checked)
        end in
      outside (db_read (PrefixStates (ba_Target b))) ≫= λ prefixes,
      let '(out, checked) :=
        match prefixes with
        | Ok prefixes => (out ++ lost_archives prefixes, set_checked sourceBucket true checked)
        | Err _ => (out, checked)
        end in
      mret (sort_conditions out, checked)
  end.

Definition unreachable (failing : time) : Condition :=
  condition "postgres_unreachable" "postgres_unreachable" sourcePostgres "PostgreSQL has been unreachable for more than five minutes"
    ("Since " +:+ format_rfc3339 failing +:+ ". Applications cannot connect. Run pgfyctl diagnostics on the server.").

(** The answer of the probe moves the failure clock. *)
Definition failure_clock (answered : bool) (now failing : time) : time :=
  if answered then zero_time else if is_zero failing then now else failing.

Definition evaluate_postgres (now : time) : E (list Condition * (string → bool)) :=
  match ec_Postgres c with
  | None => mret ([], λ _, false)
  | Some probe =>
      outside probe ≫= λ r,
      memory (λ m, let failing := failure_clock (is_ok r) now (me_failingSince m) in (failing, m <| me_failingSince := failing |>)) ≫= λ failing,
      if negb (is_zero failing) && (PostgresGrace <=? now - failing) then
        mret ([unreachable failing], set_checked sourcePostgres true (λ _, false))
      else mret ([], set_checked sourcePostgres (is_ok r) (λ _, false))
  end.

Definition budget_conditions (b : Budget) : list Condition :=
  let (global, roles) := Warnings b in
  (if global then [condition "connections" "connections_global" sourceConnections "Project connections are at 80% of what PostgreSQL accepts"
     (decimal (bu_ProjectsUsed b) +:+ " of " +:+ decimal (bu_Available b) +:+ " open.")] else []) ++
  map (λ role, condition "connections" ("connections_role:" +:+ role) sourceConnections "A database is at 80% of its connection limit"
    ("Role " +:+ role +:+ ".")) roles.

Definition evaluate_budget (active : list Condition) (checked : string → bool) : E (list Condition * (string → bool)) :=
  match ec_Budget c with
  | None => mret (active, set_checked sourceConnections true checked)
  | Some budget =>
      if checked sourcePostgres && bool_decide (length active = 0%nat) then
        outside budget ≫= λ r,
        match r with
        | Ok b => mret (active ++ budget_conditions b, set_checked sourceConnections true checked)
        | Err _ => mret (active, checked)
        end
      else mret (active, checked)
  end.

Definition host_conditions (host : Status) (checked : string → bool) : list Condition * (string → bool) :=
  let checked := set_checked sourceHostReport true checked in
  if negb (bool_decide (hs_State host = "ok")) then
    ([condition "host_report_stale" "host_report_stale" sourceHostReport "The host has stopped reporting disk and clock status"
       "Disk and clock alerts cannot fire until it reports again. Check systemctl status pgfy-host-status.timer."], checked)
  else
    let checked := set_checked sourceDisk (disks_measured (hs_Disks host)) checked in
    match hs_NTPSynchronized host with
    | None => (diskConditions (hs_Disks host), checked)
    | Some synchronized =>
        (diskConditions (hs_Disks host) ++
         (if synchronized then [] else
            [condition "ntp_unsynchronised" "ntp_unsynchronised" sourceClock "The host clock is not synchronised"
               "Sign-in codes and certificate checks depend on the time. Check systemd-timesyncd."]),
         set_checked sourceClock true checked)
    end.

Definition certificate_conditions (cert : Certificate) (checked : string → bool) : list Condition * (string → bool) :=
  if negb (bool_decide (ec_Mode c = "https")) then ([], set_checked sourceCertSync true (set_checked sourceCertificate true checked))
  else
    let known := negb (bool_decide (ct_State cert = "unknown")) &&
      (negb (bool_decide (ct_State cert = "trusted")) || bool_decide (is_Some (ct_ExpiresAt cert))) in
    let checked := set_checked sourceCertSync (bool_decide (is_Some (ct_LastSync cert))) (set_checked sourceCertificate known checked) in
    ((match ct_ExpiresAt cert with
      | Some expires =>
          if ct_Expiring cert then
            [condition "certificate_expiring" "certificate_expiring" sourceCertificate
               (if ct_Expired cert then "The database and dashboard certificate has expired"
                else "The database and dashboard certificate expires within 14 days")
               ("Expires " +:+ format_rfc3339 (of_unix expires) +:+ ". Check that ports 80/443 reach Caddy, then run pgfyctl sync-db-cert.")]
          else []
      | None => []
      end) ++
     (match ct_LastSync cert with
      | Some sync =>
          if sy_OK sync then []
          else [condition "certificate_sync_failed" "certificate_sync_failed" sourceCertSync "Delivering the certificate to PostgreSQL failed" (sy_Message sync)]
      | None => []
      end), checked).

Definition evaluate_backups (now : time) (active : list Condition) (checked : string → bool) : E (list Condition * (string → bool)) :=
  let nothing := set_checked sourceBucket true (set_checked sourceBackups true checked) in
  match ec_Backups c with
  | None => mret (active, nothing)
  | Some backups =>
      outside backups ≫= λ r,
      match r with
      | Ok (Some b) =>
          if negb (ba_Configured b) then mret (active, nothing)
          else backupConditions b now checked ≫= λ '(out, checked), mret (active ++ out, checked)
      | _ => mret (active, checked)
      end
  end.

Definition Evaluate (now : time) : E (list Condition * (string → bool)) :=
  evaluate_postgres now ≫= λ '(active, checked),
  evaluate_budget active checked ≫= λ '(active, checked),
  look (λ w, Read ParseRFC3339 (ec_HostFiles c w) (ec_Mode c) now) ≫= λ host,
  let '(out, checked) := host_conditions host checked in
  let active := active ++ out in
  let '(out, checked) := certificate_conditions (hs_Certificate host) checked in
  evaluate_backups now (active ++ out) checked.
End engine.

(** ** Messages *)

Record Message := mkMessage {
  ms_Version : Z; ms_Kind : string; ms_Key : string; ms_State : string; ms_Summary : string; ms_Detail : string;
  ms_InstallationID : string; ms_Dashboard : string; ms_At : string; ms_Text : string }.

(** JSON: a decoder that fails may have filled in fields before. *)
Class AlertCodec := {
  marshal_Message : Message → string;
  marshal_Webhook : Webhook → string;
  unmarshal_Webhook : string → Webhook * option string;
}.
Class AlertCodecLaws (ac : AlertCodec) : Prop := {
  webhook_roundtrip w : unmarshal_Webhook (marshal_Webhook w) = (w, None);
}.

Section delivery.
Context {codec : Codec} {ac : AlertCodec} {network_ : Network} {transport : Transport} (c : EngineConfig).

Definition message_prefix (state : string) : string :=
  if bool_decide (state = "firing") then "Alert" else if bool_decide (state = "resolved") then "Resolved"
  else if bool_decide (state = "event") then "Notice" else "".
Definition message_text (o : Outgoing) : string :=
  "[Pgfy] " +:+ message_prefix (o_State o) +:+ ": " +:+ o_Summary o +:+
  (if negb (bool_decide (o_Detail o = "")) && negb (bool_decide (o_State o = "resolved")) then " — " +:+ o_Detail o else "").
Definition message (o : Outgoing) (now : time) : string :=
  marshal_Message (mkMessage 1 (o_Kind o) (o_Key o) (o_State o) (o_Summary o) (o_Detail o) (ec_InstallationID c) (ec_Dashboard c)
    (format_rfc3339 now) (message_text o)).

(** The webhook, whether one is set, and the text of an error. *)
Definition ReadWebhook : E (Webhook * bool * option string) :=
  outside (db_read (Setting AlertWebhookSetting)) ≫= λ r,
  match r with
  | Err e => mret (no_webhook, false, Some (error_text e))
  | Ok sealed =>
      if bool_decide (sealed = "") then mret (no_webhook, false, None)
      else
        match Open (ec_Key c) sealContext sealed with
        | Err _ => mret (no_webhook, false, Some "the stored webhook cannot be decrypted with this installation key")
        | Ok plain =>
            let (w, e) := unmarshal_Webhook (text_of plain) in
            match e with
            | Some e => mret (w, false, Some e)
            | None => mret (w, negb (bool_decide (wh_URL w = "")), None)
            end
        end
  end.

Definition SaveWebhook (nonce : list Z) (w : Webhook) : E (res werror unit) :=
  ReadWebhook ≫= λ '(previous, _, _),
  clock ≫= λ now,
  outside (db_write (SetAlertWebhook (Seal (ec_Key c) nonce sealContext (bytes (marshal_Webhook w)))
    (negb (bool_decide (wh_URL previous = wh_URL w))) now)).

Definition record (e : option string) (now : time) : E unit :=
  memory (λ m, (tt, match e with
                    | None => m <| me_lastOK := unix now |> <| me_lastError := "" |>
                    | Some e => m <| me_lastError := e |>
                    end)).
Definition result_text (r : res delivery_error unit) : option string :=
  match r with Ok _ => None | Err e => Some (delivery_text e) end.

(** One delivery, noted in [me_posts]. *)
Definition post (w : Webhook) (o : Outgoing) (now : time) : E (res delivery_error unit) :=
  memory (λ m, let r := Deliver (length (me_posts m)) w (message o now) (ec_Version c) now in
    (r, m <| me_posts := me_posts m ++ [mkPost now o r] |>)).

(** The receiver is up and refused this message only. *)
Definition refused (e : delivery_error) : bool :=
  match e with Rejected status => negb (status =? 429) && (status <? 500) | Undelivered _ => false end.

Fixpoint send_all (w : Webhook) (now deadline : time) (pending : list Outgoing) : E unit :=
  match pending with
  | [] => mret tt
  | o :: pending =>
      clock ≫= λ t,
      if deadline <? t then mret tt
      else
        post w o now ≫= λ r,
        record (result_text r) now ≫= λ _,
        match r with
        | Err e =>
            outside (db_write (AlertAttemptFailed o)) ≫= λ _,
            if refused e then send_all w now deadline pending else mret tt
        | Ok _ =>
            outside (db_write (MarkAlertSent o now)) ≫= λ _,
            send_all w now deadline pending
        end
  end.

Definition send (now : time) : E unit :=
  ReadWebhook ≫= λ '(w, ok, e),
  match e with
  | Some e => record (Some e) now
  | None =>
      if negb ok then mret tt
      else
        outside (db_read (AlertsToSend now)) ≫= λ r,
        match r with
        | Err _ => mret tt
        | Ok [] => mret tt
        | Ok pending => clock ≫= λ t, send_all w now (t + sendBudget) pending
        end
  end.

Definition Delivery : E (Z * string) := memory (λ m, ((me_lastOK m, me_lastError m), m)).

Definition test_message : Outgoing :=
  mkOutgoing "test" "test" "event" "Test alert from Pgfy" "Alerts from this installation will arrive here." 0 0.
Definition SendTest : E (option string) :=
  ReadWebhook ≫= λ '(w, ok, e),
  match e with
  | Some e => mret (Some e)
  | None =>
      if negb ok then mret (Some "no webhook is configured")
      else
        clock ≫= λ now,
        post w test_message now ≫= λ r,
        record (result_text r) now ≫= λ _,
        mret (result_text r)
  end.

(** ** A tick *)

(** During an update nothing is looked at; after it the failure clock starts afresh. *)
Definition after_maintenance : E unit :=
  memory (λ m, (tt, if me_maintenance m then m <| me_maintenance := false |> <| me_failingSince := zero_time |> else m)).

Definition Tick (ParseRFC3339 : string → option time) : E unit :=
  outside (db_read maintenance) ≫= λ r,
  match r with
  | Err _ => mret tt
  | Ok true => memory (λ m, (tt, m <| me_maintenance := true |>))
  | Ok false =>
      after_maintenance ≫= λ _,
      clock ≫= λ now,
      Evaluate ParseRFC3339 c now ≫= λ '(active, checked),
      outside (db_write (ReconcileAlerts active checked now)) ≫= λ r,
      match r with
      | Err _ => mret tt
      | Ok _ => send now
      end
  end.
End delivery.
