(* ===== verification/AlertEngine.v ===== *)
(** * The engine keeps the protocol of its alerts

    Runs of the alert engine, tick after tick, against any receiver, any
    answers of PostgreSQL and the host and any activity of the rest of the
    program.  They are simulated by the abstract protocol of [AlertSteps], so
    what holds of the protocol holds of what the real engine sends. *)

From S2P Require Import Prelude GoStrings GoTime Sha Security Netip IP Storage Schema Cluster ProjectStore BackupStore AlertStore AlertSteps World Postgres Worker HostStatus Webhook Alerts.

#[export] Instance Outgoing_eq_dec : EqDecision Outgoing.
Proof. solve_decision. Defined.

(** ** Parts of a tick that only look *)

(** A callback that leaves the database alone, and works when nothing fails. *)
Definition quiet {A} (x : M A) : Prop :=
  ∀ w, w_db (x w).2 = w_db w ∧ (w_faults w = [] → w_faults (x w).2 = []).
Class EngineLaws (c : EngineConfig) : Prop := {
  quiet_postgres probe : ec_Postgres c = Some probe → quiet probe;
  quiet_budget budget : ec_Budget c = Some budget → quiet budget;
  quiet_backups backups : ec_Backups c = Some backups → quiet backups;
}.

Definition calm {A} (x : E A) : Prop := ∀ m w,
  let '(_, (m', w')) := x m w in
  w_db w' = w_db w ∧ (w_faults w = [] → w_faults w' = []) ∧ me_posts m' = me_posts m.

Lemma calm_ret {A} (a : A) : calm (mret a).
Proof. done. Qed.
Lemma calm_bind {A B} (x : E A) (k : A → E B) : calm x → (∀ a, calm (k a)) → calm (x ≫= k).
Proof.
  intros Hx Hk m w. unfold mbind, E_bind. specialize (Hx m w). destruct (x m w) as [a [m1 w1]]. destruct Hx as (Hd & Hf & Hp).
  specialize (Hk a m1 w1). destruct (k a m1 w1) as [b [m2 w2]]. destruct Hk as (-> & Hf2 & ->). auto.
Qed.
Lemma calm_outside {A} (x : M A) : quiet x → calm (outside x).
Proof. intros Hx m w. unfold outside. specialize (Hx w). destruct (x w). by destruct Hx. Qed.
Lemma calm_look {A} (f : World → A) : calm (look f).
Proof. done. Qed.
Lemma calm_clock : calm clock.
Proof. intros m w. unfold clock, now_. by destruct (w_clock w). Qed.
Lemma calm_memory {A} (f : Memory → A * Memory) : (∀ m, me_posts (f m).2 = me_posts m) → calm (memory f).
Proof. intros H m w. unfold memory. specialize (H m). by destruct (f m). Qed.
Lemma quiet_db_read {A} (f : DB → A) : quiet (db_read f).
Proof. intros w. unfold db_read, call. destruct (w_faults w) as [|[] os] eqn:Ef; cbn; split; congruence. Qed.

Create HintDb calm.
#[export] Hint Resolve calm_ret calm_look calm_clock calm_outside quiet_db_read quiet_postgres quiet_budget quiet_backups : calm.
Ltac calmly := repeat first
  [ progress auto with calm
  | match goal with
    | |- calm (_ ≫= _) => apply calm_bind
    | |- calm (outside _) => apply calm_outside; eauto with calm
    | |- calm (memory _) => apply calm_memory; intros ?
    | |- calm (if ?b then _ else _) => destruct b
    | |- calm (match ?x with _ => _ end) => destruct x eqn:?
    | |- ∀ _, _ => intros ?
    end ].

Section looking.
Context {codec : Codec} (ParseRFC3339 : string → option time) (c : EngineConfig) {laws : EngineLaws c}.

Lemma calm_backupConditions b now checked : calm (backupConditions c b now checked).
Proof. unfold backupConditions. calmly. Qed.
Lemma calm_Evaluate now : calm (Evaluate ParseRFC3339 c now).
Proof.
  unfold Evaluate, evaluate_postgres, evaluate_budget, evaluate_backups. pose proof calm_backupConditions. calmly.
Qed.
End looking.

(** ** A delivery pass *)

(** The accepted messages, newest first. *)
Definition heard_log (m : Memory) : list (time * Outgoing) :=
  rev (map (λ p, (po_At p, po_Message p)) (List.filter (λ p, is_ok (po_Result p)) (me_posts m))).

Lemma heard_log_app m ps :
  heard_log (m <| me_posts := me_posts m ++ ps |>) =
  rev (map (λ p, (po_At p, po_Message p)) (List.filter (λ p, is_ok (po_Result p)) ps)) ++ heard_log m.
Proof. unfold heard_log. cbn. by rewrite List.filter_app, map_app, rev_app_distr. Qed.

Definition is_event (o : Outgoing) : bool := bool_decide (o_State o = "event").

(** Marking looks at the conditions only, and events leave them alone. *)
Lemma mark_conditions o now d d' : db_conditions d = db_conditions d' →
  db_conditions (MarkAlertSent o now d) = db_conditions (MarkAlertSent o now d').
Proof. intros H. unfold MarkAlertSent. repeat case_bool_decide; cbn [db_conditions upd]; by rewrite ?H. Qed.
Lemma mark_event o now d : is_event o = true → db_conditions (MarkAlertSent o now d) = db_conditions d.
Proof. unfold is_event, MarkAlertSent. by intros ->. Qed.
Lemma mark_all_conditions now os d d' : db_conditions d = db_conditions d' →
  db_conditions (mark_all now os d) = db_conditions (mark_all now os d').
Proof. revert d d'. induction os as [|o os IH]; intros d d' H; [done|]. cbn [mark_all fold_left]. by apply IH, mark_conditions. Qed.
Lemma mark_all_events now os d :
  db_conditions (mark_all now os d) = db_conditions (mark_all now (List.filter (λ o, negb (is_event o)) os) d).
Proof.
  revert d. induction os as [|o os IH]; intros d; [done|]. cbn [mark_all fold_left List.filter].
  destruct (is_event o) eqn:Eo; cbn [negb].
  - fold (mark_all now os (MarkAlertSent o now d)). rewrite (mark_all_conditions _ _ _ d) by by apply mark_event. apply IH.
  - apply IH.
Qed.
Lemma attempt_conditions o d : db_conditions (AlertAttemptFailed o d) = db_conditions d.
Proof. unfold AlertAttemptFailed. by case_bool_decide. Qed.

Section sending.
Context {codec : Codec} {ac : AlertCodec} {network_ : Network} {transport : Transport} (c : EngineConfig).

(** What a pass over the pending messages did: some of them, in order, were
    accepted, and the conditions are marked as by those. *)
Definition passed (now : time) (os : list Outgoing) (m : Memory) (w : World) (r : unit * (Memory * World)) : Prop :=
  w_faults r.2.2 = [] ∧ ∃ acc, sublist acc os ∧
    heard_log r.2.1 = rev (map (λ o, (now, o)) acc) ++ heard_log m ∧
    db_conditions (w_db r.2.2) = db_conditions (mark_all now acc (w_db w)).

Lemma clock_world m w : ∃ t w', clock m w = (t, (m, w')) ∧ w_db w' = w_db w ∧ w_faults w' = w_faults w.
Proof. unfold clock, now_. destruct (w_clock w) as [|t ts]; by eexists _, _. Qed.
Lemma write_world m w f : w_faults w = [] → outside (db_write f) m w = (Ok tt, (m, w <| w_db := f (w_db w) |>)).
Proof. intros H. unfold outside, db_write, call. by rewrite H. Qed.
Lemma read_world {A} m w (f : DB → A) : w_faults w = [] → outside (db_read f) m w = (Ok (f (w_db w)), (m, w)).
Proof. intros H. unfold outside, db_read, call. by rewrite H. Qed.
Lemma record_log e now m w : ∃ m', record e now m w = (tt, (m', w)) ∧ me_posts m' = me_posts m.
Proof. unfold record, memory. destruct e; by eexists. Qed.

Lemma send_all_passes wh now deadline os m w : w_faults w = [] → passed now os m w (send_all c wh now deadline os m w).
Proof.
  revert m w. induction os as [|o os IH]; intros m w Hf; cbn [send_all].
  { split; [done|]. by exists []. }
  unfold mbind, E_bind. destruct (clock_world m w) as (t & w1 & -> & Hd1 & Hf1). rewrite Hf in Hf1.
  destruct (deadline <? t).
  { cbn. split; [done|]. exists []. split_and!; [apply sublist_nil_l|done|cbn; by rewrite Hd1]. }
  unfold post at 1, memory. cbn zeta beta iota. set (r := Deliver _ _ _ _ _). set (m1 := m <| me_posts := _ |>).
  destruct (record_log (result_text r) now m1 w1) as (m2 & -> & Hp2).
  assert (heard_log m2 = (if is_ok r then [(now, o)] else []) ++ heard_log m) as Hlog.
  { unfold heard_log at 1. rewrite Hp2. fold (heard_log m1). unfold m1. rewrite heard_log_app. cbn. by destruct r. }
  destruct r as [[]|e]; rewrite write_world by done; cbn beta iota.
  - set (w2 := w1 <| w_db := _ |>). destruct (IH m2 w2 Hf1) as (Hf' & acc & Hs & Hl & Hc).
    split; [exact Hf'|]. exists (o :: acc). split; [by apply sublist_skip|]. rewrite Hl, Hc, Hlog. cbn [map rev is_ok mark_all fold_left].
    change (w_db w2) with (MarkAlertSent o now (w_db w1)). rewrite Hd1. split; [by rewrite <- app_assoc|done].
  - destruct (refused e).
    + set (w2 := w1 <| w_db := _ |>). destruct (IH m2 w2 Hf1) as (Hf' & acc & Hs & Hl & Hc).
      split; [exact Hf'|]. exists acc. split; [by apply sublist_cons|]. rewrite Hl, Hc, Hlog. split; [done|].
      apply mark_all_conditions. change (w_db w2) with (AlertAttemptFailed o (w_db w1)). by rewrite attempt_conditions, Hd1.
    + cbn. split; [done|]. exists []. split_and!; [apply sublist_nil_l|done|cbn; by rewrite attempt_conditions, Hd1].
Qed.
Lemma passed_none now os m w m' w' : w_faults w' = [] → me_posts m' = me_posts m → w_db w' = w_db w → passed now os m w (tt, (m', w')).
Proof.
  intros Hf Hp Hd. split; [done|]. exists []. unfold heard_log. cbn [fst snd]. rewrite Hp, Hd. split; [apply sublist_nil_l|done].
Qed.

Lemma ReadWebhook_world m w : w_faults w = [] → ∃ r, ReadWebhook c m w = (r, (m, w)).
Proof.
  intros Hf. unfold ReadWebhook, mbind, E_bind. rewrite read_world by done. cbn beta iota.
  case_bool_decide; [by eexists|]. destruct (Open _ _ _); [|by eexists]. destruct (unmarshal_Webhook _) as [wh [e|]]; by eexists.
Qed.

Lemma send_passes now m w : w_faults w = [] → passed now (AlertsToSend now (w_db w)) m w (send c now m w).
Proof.
  intros Hf. unfold send, mbind, E_bind. destruct (ReadWebhook_world m w Hf) as ([[wh ok] e] & ->). cbn beta iota.
  destruct e as [e|].
  { destruct (record_log (Some e) now m w) as (m' & -> & Hp). by apply passed_none. }
  destruct ok; cbn [negb]; [|by apply passed_none]. rewrite read_world by done. cbn beta iota.
  destruct (AlertsToSend now (w_db w)) as [|o os]; [by apply passed_none|].
  destruct (clock_world m w) as (t & w1 & -> & Hd1 & Hf1). rewrite Hf in Hf1.
  destruct (send_all_passes wh now (t + sendBudget) (o :: os) m w1 Hf1) as (Hf' & acc & Hs & Hl & Hc).
  split; [exact Hf'|]. exists acc. by rewrite <- Hd1.
Qed.

Lemma SendTest_world m w : w_faults w = [] → let '(_, (m', w')) := SendTest c m w in
  w_db w' = w_db w ∧ ∀ k, heard k (heard_log m') = heard k (heard_log m).
Proof.
  intros Hf. unfold SendTest, mbind, E_bind. destruct (ReadWebhook_world m w Hf) as ([[wh ok] e] & ->). cbn beta iota.
  destruct e as [e|]; [done|]. destruct ok; cbn [negb]; [|done].
  destruct (clock_world m w) as (t & w1 & -> & Hd1 & Hf1). unfold post, memory. cbn zeta beta iota. set (r := Deliver _ _ _ _ _).
  set (m1 := m <| me_posts := _ |>). destruct (record_log (result_text r) t m1 w1) as (m2 & -> & Hp2). cbn.
  split; [done|]. intros k. unfold heard_log at 1. rewrite Hp2. fold (heard_log m1). unfold m1. rewrite heard_log_app.
  unfold heard. rewrite List.filter_app. by destruct r.
Qed.
End sending.

(** ** Accepted messages as a decision of the abstract protocol *)

Lemma filter_none {A} (p : A → bool) l : (∀ x, In x l → p x = false) → List.filter p l = [].
Proof. induction l as [|x l IH]; intros H; [done|]. cbn. rewrite H by by left. apply IH. intros; apply H. by right. Qed.
Lemma filter_all {A} (p : A → bool) l : (∀ x, In x l → p x = true) → List.filter p l = l.
Proof. induction l as [|x l IH]; intros H; [done|]. cbn. rewrite H by by left. f_equal. apply IH. intros; apply H. by right. Qed.
Lemma sublist_in {A} (l l' : list A) x : sublist l l' → In x l → In x l'.
Proof. intros Hs Hx. apply list_elem_of_In. apply list_elem_of_In in Hx. by eapply elem_of_submseteq, sublist_submseteq. Qed.
Lemma sublist_filter (acc os : list Outgoing) : NoDup os → sublist acc os → List.filter (λ o, bool_decide (o ∈ acc)) os = acc.
Proof.
  intros Hn Hs. induction Hs as [|o acc os Hs IH|o acc os Hs IH]; [done|..]; apply NoDup_cons in Hn as [Ho Hn]; cbn [List.filter].
  - rewrite bool_decide_true by left. f_equal. etrans; [|exact (IH Hn)]. apply List.filter_ext_in. intros x Hx.
    apply bool_decide_ext. rewrite elem_of_cons. split; [|auto]. intros [->|]; [|done]. by destruct Ho; apply list_elem_of_In.
  - rewrite bool_decide_false; [by apply IH|]. intros Hin. destruct Ho. by eapply elem_of_submseteq, sublist_submseteq.
Qed.

(** The condition messages of a pass, and what acceptance of some of them does. *)
Definition accepts (acc : list Outgoing) (o : Outgoing) : bool := bool_decide (o ∈ acc) && negb (is_event o).

Lemma delivered_accepts now db acc : keys_unique (db_conditions db) → sublist acc (AlertsToSend now db) →
  delivered (accepts acc) now db = List.filter (λ o, negb (is_event o)) acc.
Proof.
  intros Hu Hs. unfold delivered, AlertsToSend in *.
  set (C := map outgoing_condition _) in *. set (V := map outgoing_event _) in *.
  apply sublist_app_r in Hs as (a1 & a2 & -> & H1 & H2).
  assert (∀ o, In o V → is_event o = true) as HV by (intros o (x & <- & _)%in_map_iff; done).
  assert (∀ o, In o C → is_event o = false) as HC.
  { intros o (x & <- & _)%in_map_iff. unfold is_event, outgoing_condition. cbn. by destruct (ac_Active x). }
  assert (NoDup C) as Hn.
  { apply (NoDup_fmap_1 o_Key). unfold C. change (fmap o_Key (map outgoing_condition (due_rows now db))) with
      (map o_Key (map outgoing_condition (due_rows now db))).
    rewrite List.map_map. exact (due_rows_unique now db Hu). }
  pose proof (λ o, sublist_in a2 V o H2) as HI2.
  rewrite !List.filter_app.
  assert (List.filter (accepts (a1 ++ a2)) V = []) as ->.
  { unfold accepts. apply filter_none. intros o Ho. by rewrite (HV o Ho), andb_false_r. }
  assert (List.filter (λ o, negb (is_event o)) a2 = []) as ->.
  { apply filter_none. intros o Ho. by rewrite (HV o (HI2 o Ho)). }
  rewrite !app_nil_r. rewrite (List.filter_ext_in _ (λ o, bool_decide (o ∈ a1)) C).
  2: { intros o Ho. unfold accepts. rewrite (HC o Ho), andb_true_r. apply bool_decide_ext. rewrite elem_of_app. split; [|auto].
       intros [|Hin]; [done|]. apply list_elem_of_In, HI2, HV in Hin. rewrite HC in Hin by done. done. }
  rewrite sublist_filter by done. symmetry. apply filter_all. intros o Ho. by rewrite (HC o (sublist_in _ _ _ H1 Ho)).
Qed.

(** ** Runs of the engine *)

(** The program stops and starts: what the engine remembered is gone; the
    record of what was posted is the observer's. *)
Definition restart (m : Memory) : Memory := fresh_memory <| me_posts := me_posts m |>.

Section runs.
Context {codec : Codec} {ac : AlertCodec} {network_ : Network} {transport : Transport} (c : EngineConfig)
  (ParseRFC3339 : string → option time).

(** [engine_reach now m w]: a state the engine is in, at [now], after any
    ticks, test messages and restarts, at times that never go back, while the
    rest of the program does as it likes with the other tables.  Storage
    works; the receiver, PostgreSQL and the host may do anything. *)
Inductive engine_reach : time → Memory → World → Prop :=
| engine_start now w : db_conditions (w_db w) = [] → engine_reach now fresh_memory w
| engine_tick now now' ts m w w0 m' w' :
    engine_reach now m w → now ≤ now' → w_db w0 = w_db w → w_faults w0 = [] → w_clock w0 = now' :: ts →
    Tick c ParseRFC3339 m w0 = (tt, (m', w')) → engine_reach now' m' w'
| engine_test now m w r m' w' :
    engine_reach now m w → w_faults w = [] → SendTest c m w = (r, (m', w')) → engine_reach now m' w'
| engine_restart now m w : engine_reach now m w → engine_reach now (restart m) w
| engine_other now m w w' :
    engine_reach now m w → db_conditions (w_db w') = db_conditions (w_db w) → engine_reach now m w'.

(** The abstract state of the protocol that a state of the engine stands for. *)
Definition simulates (now : time) (h : Heard) (m : Memory) (w : World) : Prop :=
  heard_reach now h ∧ he_db h = w_db w ∧ ∀ k, heard k (he_log h) = heard k (heard_log m).

(** The other tables may be anything. *)
Lemma heard_reach_sync now h d : heard_reach now h → db_conditions d = db_conditions (he_db h) →
  heard_reach now (mkHeard d (he_log h) (he_passes h)).
Proof.
  intros Hr Hd. set (f := λ x : DB, d <| db_conditions := db_conditions x |>).
  assert (mkHeard d (he_log h) (he_passes h) = alert_step now (LOther f) h) as ->.
  { cbn. f_equal. unfold f. rewrite <- Hd. by destruct d. }
  apply (reach_step now); [done|done|]. intros x. done.
Qed.

Lemma simulates_quiet now h m w m' w' : simulates now h m w → db_conditions (w_db w') = db_conditions (w_db w) →
  (∀ k, heard k (heard_log m') = heard k (heard_log m)) → ∃ h', simulates now h' m' w'.
Proof.
  intros (Hr & Hd & Hk) Hd' Hk'. exists (mkHeard (w_db w') (he_log h) (he_passes h)). split_and!; [|done|].
  - apply heard_reach_sync; [done|]. by rewrite Hd', Hd.
  - intros k. by rewrite Hk', Hk.
Qed.

Lemma heard_marked now k acc log : heard k (rev (map (λ o, (now, o)) acc) ++ log) =
  heard k (rev (map (λ o, (now, o)) (List.filter (λ o, negb (is_event o)) acc)) ++ log).
Proof.
  unfold heard. rewrite !List.filter_app. f_equal. rewrite !filter_rev, !filter_map_comm, filter_filter_and. f_equal. f_equal.
  apply List.filter_ext. intros o. unfold about, is_event. cbn. by destruct (bool_decide (o_State o = _)).
Qed.

Context {laws : EngineLaws c}.

(** A tick that is not in maintenance is a reconciliation pass, then a delivery pass. *)
Lemma tick_shape now ts m w : w_faults w = [] → w_clock w = now :: ts →
  let '(_, (m', w')) := Tick c ParseRFC3339 m w in
  (w_db w' = w_db w ∧ me_posts m' = me_posts m) ∨
  ∃ active checked m1 w1, me_posts m1 = me_posts m ∧ w_db w1 = ReconcileAlerts active checked now (w_db w) ∧
    passed now (AlertsToSend now (w_db w1)) m1 w1 (tt, (m', w')).
Proof.
  intros Hf Hc. unfold Tick, mbind, E_bind. rewrite read_world by done. cbn beta iota. destruct (maintenance (w_db w)); [by left|].
  unfold after_maintenance, memory. cbn beta iota zeta. set (m0 := if me_maintenance m then _ else m).
  assert (me_posts m0 = me_posts m) as Hm0 by (unfold m0; by destruct (me_maintenance m)).
  unfold clock, now_, readings. rewrite Hc. cbn [hd]. cbn beta iota. set (w0 := w <| w_clock := passing (now :: ts) |>).
  pose proof (calm_Evaluate ParseRFC3339 c now m0 w0) as Hcalm.
  destruct (Evaluate ParseRFC3339 c now m0 w0) as [[active checked] [m1 w1]]. destruct Hcalm as (Hd1 & Hf1 & Hp1).
  specialize (Hf1 Hf). rewrite write_world by done. cbn beta iota. set (w2 := w1 <| w_db := _ |>).
  pose proof (send_passes c now m1 w2 Hf1) as Hs. destruct (send c now m1 w2) as [[] [m' w']].
  right. exists active, checked, m1, w2. split_and!; [congruence| |done]. unfold w2. cbn [w_db upd]. by rewrite Hd1.
Qed.

Lemma tick_simulates now now' ts h m w w0 m' w' :
  simulates now h m w → now ≤ now' → w_db w0 = w_db w → w_faults w0 = [] → w_clock w0 = now' :: ts →
  Tick c ParseRFC3339 m w0 = (tt, (m', w')) → ∃ h', simulates now' h' m' w'.
Proof.
  intros (Hr & Hd & Hk) Hle Hw Hf Hc Ht. pose proof (tick_shape now' ts m w0 Hf Hc) as Hs. rewrite Ht in Hs.
  assert (heard_reach now' (mkHeard (he_db h) (he_log h) (he_passes h))) as Hr'.
  { change (mkHeard (he_db h) (he_log h) (he_passes h)) with (alert_step now' (LOther id) h). by apply (reach_step now). }
  destruct Hs as [[Hdb Hp]|(active & checked & m1 & w1 & Hp1 & Hdb1 & _ & acc & Hsub & Hlog & Hcond)].
  { exists (mkHeard (he_db h) (he_log h) (he_passes h)). split_and!; [done|cbn; congruence|].
    intros k. cbn [he_log]. rewrite Hk. unfold heard_log. by rewrite Hp. }
  cbn [fst snd] in *. rewrite Hw, <- Hd in Hdb1.
  set (h0 := mkHeard (he_db h) (he_log h) (he_passes h)) in *.
  pose proof (reach_step now' now' (LReconcile active checked) _ Hr' (Z.le_refl _) I) as Hr1. set (h1 := alert_step _ _ h0) in Hr1.
  assert (he_db h1 = w_db w1) as Hd1 by (rewrite Hdb1; done).
  destruct (heard_reach_inv now' h1 "" Hr1) as [Hu _].
  pose proof (reach_step now' now' (LSend (accepts acc)) _ Hr1 (Z.le_refl _) I) as Hr2. set (h2 := alert_step _ _ h1) in Hr2.
  assert (delivered (accepts acc) now' (he_db h1) = List.filter (λ o, negb (is_event o)) acc) as Hdel.
  { apply delivered_accepts; [done|]. by rewrite Hd1. }
  exists (mkHeard (w_db w') (he_log h2) (he_passes h2)). split_and!; [|done|].
  - apply heard_reach_sync; [done|]. unfold h2. cbn [alert_step he_db]. rewrite Hdel, <- mark_all_events, Hd1. done.
  - intros k. unfold h2. cbn [he_log alert_step]. rewrite Hdel, Hlog, (heard_marked now' k acc). unfold heard at 1 2.
    rewrite !List.filter_app. f_equal. change (he_log h1) with (he_log h). fold (heard k (he_log h)). rewrite Hk.
    unfold heard, heard_log. by rewrite Hp1.
Qed.

(** C27. The engine refines the alert protocol.  Whatever a running engine has
    done, tick after tick, with test messages and restarts in between, any
    receiver and any answers of PostgreSQL, the host and the bucket, while the
    rest of the program works on the other tables: there is a run of the
    abstract protocol with the same alert rows, in which the receiver has
    accepted exactly the messages about each condition that the engine's
    deliveries got through.  So two messages that a condition is firing are a
    day apart, and one that it resolved directly follows one that it fired. *)
Theorem engine_keeps_protocol now m w : engine_reach now m w →
  (∃ h, heard_reach now h ∧ he_db h = w_db w ∧ ∀ k, heard k (he_log h) = heard k (heard_log m)) ∧
  ∀ k, spaced (heard k (heard_log m)) ∧ alternates (heard k (heard_log m)).
Proof.
  intros H. assert (∃ h, simulates now h m w) as (h & Hr & Hd & Hk).
  { induction H as [now w Hw|now now' ts m w w0 m' w' _ [h IH] Hle Hdb Hf Hc Ht|now m w r m' w' _ [h IH] Hf Ht|now m w _ [h IH]|now m w w' _ [h IH] Hw].
    - exists (mkHeard (w_db w) [] []). split_and!; [by apply reach_start|done|done].
    - by eapply tick_simulates.
    - pose proof (SendTest_world c m w Hf) as Hs. rewrite Ht in Hs. destruct Hs as [Hd Hk].
      eapply simulates_quiet; [exact IH|by rewrite Hd|done].
    - by exists h.
    - eapply simulates_quiet; [exact IH|done|done]. }
  split; [by exists h|]. intros k. destruct (heard_reach_inv now h k Hr) as [_ []]. by rewrite <- Hk.
Qed.
End runs.

(** An installation whose host has stopped reporting, and a receiver that accepts. *)
Module Run.
Definition wh : Webhook := mkWebhook "https://hooks.example.com/T0" "" false.
Definition alert_codec : AlertCodec := {|
  marshal_Message := ms_Text; marshal_Webhook := wh_URL; unmarshal_Webhook url := (mkWebhook url "" false, None) |}.
Definition receiver : Transport := {| http_Do _ _ _ := Ok 204 |}.
Definition key : list Z := replicate 32 7.
Definition config : EngineConfig :=
  mkEngineConfig key "inst" "https://pgfy.example.com" "tunnel" "1.0" (λ _, mkHostFiles None None None None) None None None.
Definition sealed : string := Eval vm_compute in Seal key (replicate 12 1) sealContext (bytes (wh_URL wh)).
Definition before : World := mkWorld (SetSetting AlertWebhookSetting sealed 0 empty_db) ∅ empty_cluster [] [of_unix 1000; of_unix 1001; of_unix 1001] [].
Definition tick : unit * (Memory * World) :=
  Tick (codec := sample_codec) (ac := alert_codec) (network_ := sample_network) (transport := receiver) config (λ _, None) fresh_memory before.
End Run.

#[export] Instance Run_laws : EngineLaws Run.config.
Proof. split; discriminate. Qed.

Lemma engine_keeps_protocol_witness :
  map (λ p, o_Key p.2) (heard_log Run.tick.2.1) = ["host_report_stale"] ∧
  spaced (heard "host_report_stale" (heard_log (Run.tick).2.1)).
Proof.
  split; [vm_compute; reflexivity|].
  refine (proj1 (proj2 (engine_keeps_protocol (codec := sample_codec) (ac := Run.alert_codec) (network_ := sample_network)
    (transport := Run.receiver) Run.config (λ _, None) (of_unix 1000) Run.tick.2.1 Run.tick.2.2 _) "host_report_stale")).
  refine (engine_tick _ _ (of_unix 0) (of_unix 1000) [of_unix 1001; of_unix 1001] fresh_memory Run.before Run.before _ _
    (engine_start _ _ _ Run.before _) _ _ _ _ _); [vm_compute; reflexivity|vm_compute; discriminate|reflexivity|reflexivity|reflexivity|].
  fold Run.tick. destruct Run.tick as [[] [m' w']]. reflexivity.
Defined.
