(* ===== verification/Http.v ===== *)
(** * Serving a request ([internal/httpapi/server.go])

    The part every endpoint shares: the wrapper of [Handler] with its checks
    of host, origin, content type and maintenance, decoding of bodies,
    cookies, the rate limits, and [authorize].

    A handler is a computation [H] on the server's state.  Writing a response
    ends it: [failure(…); return] is an error value of the model that carries
    the response.  Store calls run in the fault monad of [World], so every
    handler theorem covers failing calls.  Random bytes come from [rand], one
    draw after another; JSON decoders, [mime.ParseMediaType] and
    [mail.ParseAddress] are parameters.  A panic, which [recover] turns into
    a 500, has no counterpart except for a configured origin that does not
    parse. *)

From S2P Require Import Prelude GoStrings GoTime Netip IP Storage Schema Security AuthStore World Worker RateLimit HostStatus Webhook Alerts.

(** ** Configuration ([config.Installation]) and the server *)

Record Installation := mkInstallation {
  in_ID : string; in_Mode : string; in_Origin : string; in_Hostname : string; in_Generation : string;
  in_Release : string; in_CaddyVersion : string; in_DockerVersion : string; in_ComposeVersion : string }.

(** The components that may be absent ([nil]) are flags. *)
Record HttpServer := mkHttpServer {
  s_Config : Installation;
  s_Key : list Z; (* the vault's key *)
  s_TrustedProxy : option Prefix;
  s_Store : bool; s_Mgmt : bool; s_Provisioner : bool; s_Jobs : bool; s_Alerts : bool }.

(** ** Requests and responses *)

Inductive json :=
| JNull | JBool (b : bool) | JNum (n : Z) | JStr (s : string) | JArr (l : list json) | JObj (l : list (string * json))
| JRaw (s : string). (* [json.RawMessage] *)

(** [rq_Header], [rq_PathValue] and [rq_Query] answer [""] for what is absent. *)
Record Request := mkRequest {
  rq_Method : string; rq_Path : string; rq_Host : string; rq_RemoteAddr : string; rq_Header : string → string;
  rq_Cookies : list (string * string); rq_Body : string; rq_PathValue : string → string; rq_Query : string → string }.

Record Cookie := mkCookie {
  ck_Name : string; ck_Value : string; ck_Path : string; ck_HttpOnly : bool; ck_Secure : bool; ck_SameSite : string;
  ck_MaxAge : Z; ck_Expires : option time }.

Record Response := mkResponse {
  rs_Status : Z; rs_Headers : list (string * string); rs_Cookies : list Cookie; rs_Body : option json }.

(** ** The state of the server and handlers *)

Record Srv := mkSrv {
  sv_world : World;
  sv_limiter : rateLimit;
  sv_codeLimiter : rateLimit;
  sv_slots : Z; (* Argon2 slots in use *)
  sv_draws : nat; (* random draws so far *)
  sv_headers : list (string * string); (* of the response being prepared *)
  sv_cookies : list Cookie;
  sv_alerts : Memory (* of the alert engine *) }.
#[export] Instance eta_Srv : Eta Srv := λ r,
  mkSrv (sv_world r) (sv_limiter r) (sv_codeLimiter r) (sv_slots r) (sv_draws r) (sv_headers r) (sv_cookies r) (sv_alerts r).

Definition H (A : Type) : Type := Srv → res Response A * Srv.
#[export] Instance H_ret : MRet H := λ A a st, (Ok a, st).
#[export] Instance H_bind : MBind H := λ A B k m st,
  match m st with
  | (Ok a, st') => k a st'
  | (Err r, st') => (Err r, st')
  end.
(** A handler has nothing to return: it ends by writing a response. *)
Inductive void : Set :=.

Definition state {A} (f : Srv → A * Srv) : H A := λ st, let (a, st') := f st in (Ok a, st').
Definition modify (f : Srv → Srv) : H unit := λ st, (Ok tt, f st).
Definition defer {A} (f : Srv → Srv) (m : H A) : H A := λ st, let (r, st') := m st in (r, f st').
(** A call to the store, PostgreSQL or the bucket; its error is looked at by the caller. *)
Definition run {A} (m : M A) : H (res werror A) := λ st, let (r, w') := m (sv_world st) in (Ok r, st <| sv_world := w' |>).
(** A call to the alert engine. *)
Definition engine {A} (x : E A) : H A := λ st,
  let '(a, (m', w')) := x (sv_alerts st) (sv_world st) in (Ok a, st <| sv_alerts := m' |> <| sv_world := w' |>).
Definition Now : H time := λ st,
  match now_ (sv_world st) with
  | (Ok t, w') => (Ok t, st <| sv_world := w' |>)
  | (Err _, w') => (Ok 0, st <| sv_world := w' |>)
  end.
Definition set_header (k v : string) : H unit := modify (λ st, st <| sv_headers := sv_headers st ++ [(k, v)] |>).
Definition add_cookie (c : Cookie) : H unit := modify (λ st, st <| sv_cookies := sv_cookies st ++ [c] |>).

Definition header (k : string) (l : list (string * string)) : string :=
  match List.find (λ p, bool_decide (p.1 = k)) l with Some p => p.2 | None => "" end.

Definition respond {A} (status : Z) (body : option json) : H A := λ st,
  (Err (mkResponse status (sv_headers st) (sv_cookies st) body), st).
Definition write {A} (status : Z) (v : json) : H A :=
  set_header "Content-Type" "application/json" ≫= λ _, respond status (Some v).
Definition failure {A} (status : Z) (code message : string) : H A := λ st,
  write status (JObj [("error", JObj [("code", JStr code); ("message", JStr message);
    ("request_id", JStr (header "X-Request-ID" (sv_headers st)))])]) st.

(** [if e != nil { failure(…); return }] *)
Definition or_fail {A} (r : res werror A) (status : Z) (code message : string) : H A :=
  match r with Ok a => mret a | Err _ => failure status code message end.
Definition metadata_unavailable {A} (message : string) : H A := failure 503 "metadata_unavailable" message.

(** What a body decoder finds wrong: no value of the expected form with known
    fields only, or something after it. *)
Inductive decode_error := BadValue | TrailingData.
(** At most 4096 bytes are read: a longer body either stops inside its value or
    has more after it. *)
Definition decode {A} (parse : string → res decode_error A) (r : Request) : H A :=
  let single := failure 400 "invalid_request" "Provide a single JSON object." in
  match parse (stake 4096 (rq_Body r)) with
  | Err BadValue => failure 400 "invalid_request" "Provide a valid JSON request."
  | Err TrailingData => single
  | Ok a => if (4096 <? slen (rq_Body r))%nat then single else mret a
  end.

Definition is_get (r : Request) : bool := bool_decide (rq_Method r = "GET").
(** [r.Method != "GET" && r.Method != "HEAD"] *)
Definition changes (r : Request) : bool := negb (is_get r) && negb (bool_decide (rq_Method r = "HEAD")).
Definition find_cookie (name : string) (r : Request) : option string :=
  snd <$> List.find (λ p, bool_decide (p.1 = name)) (rq_Cookies r).

Section server.
Context {network : Network} (s : HttpServer) (rand : nat → nat → list Z) (ParseMediaType : string → string).

(** [rand.Read] of [n] bytes. *)
Definition random (n : nat) : H (list Z) := λ st, (Ok (rand (sv_draws st) n), st <| sv_draws := S (sv_draws st) |>).
Definition new_token : H string := random 32 ≫= λ b, mret (Token b).
Definition https : bool := bool_decide (in_Mode (s_Config s) = "https").

Definition scope : string :=
  in_ID (s_Config s) +:+ ":" +:+ in_Mode (s_Config s) +:+ ":" +:+ in_Generation (s_Config s) +:+ ":" +:+ in_Origin (s_Config s).

(** ** Cookies *)

Definition cookie (kind : string) : string := if https then "__Host-pgfy_" +:+ kind else "pgfy_tunnel_" +:+ kind.
Definition cookieName : string := cookie "session".
Definition setStepCookie (kind value : string) (ttl : duration) : H unit :=
  Now ≫= λ t, add_cookie (mkCookie (cookie kind) value "/" true https "Strict" (ttl / Second) (Some (t + ttl))).
Definition setCookie (token : string) : H unit :=
  Now ≫= λ t, add_cookie (mkCookie cookieName token "/" true https "Strict" 43200 (Some (t + 12 * Hour))).
Definition clearCookie (kind : string) : H unit := add_cookie (mkCookie (cookie kind) "" "/" true https "Strict" (-1) None).
Definition stepCookie (r : Request) (kind : string) : option string :=
  match find_cookie (cookie kind) r with
  | Some v => if (slen v =? 43)%nat then Some v else None
  | None => None
  end.

(** ** Rate limits *)

Definition client (r : Request) : string :=
  let host := split_host (rq_RemoteAddr r) in
  match ParseAddr host, s_TrustedProxy s with
  | Some ip, Some proxy =>
      if Contains proxy ip then
        match ParseAddr (rq_Header r "X-Forwarded-For") with
        | Some forwarded => AddrStringZone forwarded
        | None => host
        end
      else host
  | _, _ => host
  end.

Definition rate_limited {A} : H A :=
  set_header "Retry-After" "900" ≫= λ _, failure 429 "rate_limited" "Too many attempts. Try again later.".

(** Takes one of the two Argon2 slots; the caller gives it back when it ends. *)
Definition beginAuth (r : Request) : H unit :=
  Now ≫= λ now,
  state (λ st, let (ok, l) := allow (client r) now (sv_limiter st) in (ok, st <| sv_limiter := l |>)) ≫= λ ok,
  if negb ok then rate_limited
  else
    state (λ st, if sv_slots st <? 2 then (true, st <| sv_slots := sv_slots st + 1 |>) else (false, st)) ≫= λ free : bool,
    if free then mret tt else failure 429 "auth_busy" "Authentication is busy. Try again shortly.".
Definition release (st : Srv) : Srv := st <| sv_slots := sv_slots st - 1 |>.

Definition codeAllowed (r : Request) : H unit :=
  Now ≫= λ now,
  state (λ st, let (ok, l) := allow (client r) now (sv_codeLimiter st) in (ok, st <| sv_codeLimiter := l |>)) ≫= λ ok : bool,
  if ok then mret tt else rate_limited.

(** ** Authorization *)

(** The session, and the token that names it. *)
Definition authorize (r : Request) : H (Session * string) :=
  match find_cookie cookieName r with
  | None => failure 401 "unauthorized" "Sign in to continue."
  | Some c =>
      if negb (slen c =? 43)%nat then failure 401 "unauthorized" "Sign in to continue."
      else
        Now ≫= λ now,
        run (db_get (ReadSession c scope now)) ≫= λ e,
        match e with
        | Err (StoreError ErrNoRows) => failure 401 "unauthorized" "Your session expired. Sign in again."
        | Err _ => metadata_unavailable "Management storage is unavailable."
        | Ok session =>
            let session := session <| sn_CSRF := CSRF (s_Key s) c scope |> in
            if negb (is_get r) && negb (bool_decide (rq_Header r "X-CSRF-Token" = sn_CSRF session))
            then failure 403 "csrf_rejected" "Refresh the page and try again."
            else mret (session, c)
        end
  end.

(** ** The wrapper around every endpoint *)

Definition maintenanceExempt (path : string) : bool :=
  bool_decide (path ∈ ["/api/v1/setup"; "/api/v1/auth/login"; "/api/v1/auth/logout"; "/api/v1/auth/code";
    "/api/v1/auth/enrol/confirm"; "/api/v1/auth/abandon"]).

Definition csp : string :=
  "default-src 'self'; script-src 'self'; style-src 'self'; img-src 'self' data:; connect-src 'self'; frame-ancestors 'none'; base-uri 'none'; form-action 'self'".

Definition standard_headers (r : Request) : H unit :=
  new_token ≫= λ id,
  set_header "X-Request-ID" (stake 16 id) ≫= λ _,
  set_header "X-Content-Type-Options" "nosniff" ≫= λ _,
  set_header "Referrer-Policy" "no-referrer" ≫= λ _,
  set_header "X-Frame-Options" "DENY" ≫= λ _,
  set_header "Content-Security-Policy" csp ≫= λ _,
  set_header "Permissions-Policy" "camera=(), microphone=(), geolocation=()" ≫= λ _,
  (if https then set_header "Strict-Transport-Security" "max-age=31536000" else mret tt) ≫= λ _,
  (if has_prefix (rq_Path r) "/api/" || has_prefix (rq_Path r) "/health/" then set_header "Cache-Control" "no-store" else mret tt).

(** What a request to the API passes before its endpoint sees it. *)
Definition api_gate (r : Request) : H unit :=
  match url_Parse (in_Origin (s_Config s)) with
  | None => failure 500 "internal_error" "Request could not be completed."
  | Some u =>
      if negb (bool_decide (rq_Host r = u_Host u)) then failure 403 "invalid_host" "Use the configured dashboard address."
      else if changes r &&
        (negb (bool_decide (rq_Header r "Origin" = in_Origin (s_Config s))) ||
         negb (bool_decide (ParseMediaType (rq_Header r "Content-Type") = "application/json")) ||
         bool_decide (rq_Header r "Sec-Fetch-Site" = "cross-site"))
      then failure 403 "origin_rejected" "Request origin or content type was rejected."
      else if negb (s_Store s) then metadata_unavailable "Management storage is unavailable. Run host diagnostics."
      else if changes r && negb (maintenanceExempt (path_clean (rq_Path r))) then
        run (db_read maintenance) ≫= λ e,
        match e with
        | Ok false => mret tt
        | _ => failure 503 "maintenance" "An update is in progress. Try again when it finishes."
        end
      else mret tt
  end.

(** The response of a request and the state after it; [mux] is the routing. *)
Definition Handler (mux : Request → H void) (r : Request) (st : Srv) : Response * Srv :=
  let st := st <| sv_headers := [] |> <| sv_cookies := [] |> in
  match (standard_headers r ≫= λ _,
    (if has_prefix (rq_Path r) "/api/" then api_gate r else mret tt) ≫= λ _, mux r) st with
  | (Err response, st') => (response, st')
  | (Ok v, st') => match v with end
  end.
End server.
