(* ===== verification/HttpWp.v ===== *)
(** * Reasoning about handlers under faults

    [hwp m Q d b p]: whatever the fault schedule, the clock, the limiters and
    the random draws, a run of the handler [m] from database [d], bucket [b]
    and cluster [p] ends in a result and state that satisfy [Q]; the result
    is a value or the response that ended the request. *)

From S2P Require Import Prelude GoStrings GoTime Storage Schema Cluster Security AuthStore World Wp Worker RateLimit Http.

Definition hpost (A : Type) : Type := res Response A → DB → World.bucket → Cluster → Prop.

Definition hwp {am : Ambient} {A} (m : H A) (Q : hpost A) (d : DB) (b : World.bucket) (p : Cluster) : Prop :=
  ∀ st, w_db (sv_world st) = d → w_bucket (sv_world st) = b → w_pg (sv_world st) = p → Wp.within (sv_world st) →
    let (r, st') := m st in
    Q r (w_db (sv_world st')) (w_bucket (sv_world st')) (w_pg (sv_world st')) ∧ Wp.within (sv_world st').

Lemma hwp_run_from {A} (m : H A) Q st r st' :
  hwp m Q (w_db (sv_world st)) (w_bucket (sv_world st)) (w_pg (sv_world st)) → m st = (r, st') →
  Q r (w_db (sv_world st')) (w_bucket (sv_world st')) (w_pg (sv_world st')).
Proof. intros H E. specialize (H st eq_refl eq_refl eq_refl (conj (λ _ _, I) (λ _ _, I))). rewrite E in H. by destruct H. Qed.
(** A run within the readings of its own clock. *)
Lemma hwp_run_timed {A} (m : H A) Q st r st' :
  hwp (am := readings_of (sv_world st)) m Q (w_db (sv_world st)) (w_bucket (sv_world st)) (w_pg (sv_world st)) → m st = (r, st') →
  Q r (w_db (sv_world st')) (w_bucket (sv_world st')) (w_pg (sv_world st')).
Proof. intros H E. specialize (H st eq_refl eq_refl eq_refl (conj (λ _ Ht, Ht) (λ _ _, I))). rewrite E in H. by destruct H. Qed.

Section rules.
Context {am : Ambient}.
Implicit Types (d : DB) (b : World.bucket) (p : Cluster).

Lemma hwp_mono {A} (m : H A) (Q Q' : hpost A) d b p :
  hwp m Q d b p → (∀ r d b p, Q r d b p → Q' r d b p) → hwp m Q' d b p.
Proof. intros H HQ st Hd Hb Hp Hw. specialize (H st Hd Hb Hp Hw). destruct (m st). destruct H. auto. Qed.
Lemma hwp_ret {A} (a : A) (Q : hpost A) d b p : Q (Ok a) d b p → hwp (mret a) Q d b p.
Proof. by intros H st <- <- <-. Qed.
Lemma hwp_bind {A B} (m : H A) (k : A → H B) (Q : hpost B) d b p :
  hwp m (λ r d b p, match r with Ok a => hwp (k a) Q d b p | Err e => Q (Err e) d b p end) d b p →
  hwp (m ≫= k) Q d b p.
Proof.
  intros H st Hd Hb Hp Hw. specialize (H st Hd Hb Hp Hw). unfold mbind, H_bind. destruct (m st) as [[a|e] st']; [|done].
  destruct H as [H Hw']. by apply H.
Qed.
Lemma hwp_run {A} (m : M A) (Q : hpost (res werror A)) d b p :
  wp m (λ r d b p, Q (Ok r) d b p) d b p → hwp (run m) Q d b p.
Proof.
  intros H st Hd Hb Hp Hw. specialize (H (sv_world st) Hd Hb Hp Hw). unfold run. by destruct (m (sv_world st)).
Qed.
Lemma hwp_now_timed (Q : hpost time) d b p : (∀ t, is_time t → Q (Ok t) d b p) → hwp Now Q d b p.
Proof.
  intros H st <- <- <- Hw. pose proof (wp_now_timed (λ r d b p, ∃ t, r = Ok t ∧ Q (Ok t) d b p) (w_db (sv_world st)) (w_bucket (sv_world st))
    (w_pg (sv_world st)) (λ t Ht, ex_intro _ t (conj eq_refl (H t Ht))) (sv_world st) eq_refl eq_refl eq_refl Hw) as Hn.
  unfold Now. destruct (now_ (sv_world st)) as [r w']. destruct Hn as [(t & -> & HQ) Hw']. by split.
Qed.
Lemma hwp_now (Q : hpost time) d b p : (∀ t, Q (Ok t) d b p) → hwp Now Q d b p.
Proof. intros H. apply hwp_now_timed. auto. Qed.
(** A step that leaves the world alone. *)
Lemma hwp_state {A} (f : Srv → A * Srv) (Q : hpost A) d b p :
  (∀ st, sv_world (f st).2 = sv_world st) → (∀ a, Q (Ok a) d b p) → hwp (state f) Q d b p.
Proof.
  intros Hf H st <- <- <- Hw. unfold state. specialize (Hf st). destruct (f st) as [a st']. cbn in Hf. rewrite Hf. split; [apply H|done].
Qed.
Lemma hwp_modify (f : Srv → Srv) (Q : hpost unit) d b p :
  (∀ st, sv_world (f st) = sv_world st) → Q (Ok tt) d b p → hwp (modify f) Q d b p.
Proof. intros Hf H st <- <- <- Hw. unfold modify. rewrite Hf. by split. Qed.
Lemma hwp_defer {A} (f : Srv → Srv) (m : H A) (Q : hpost A) d b p :
  (∀ st, sv_world (f st) = sv_world st) → hwp m Q d b p → hwp (defer f m) Q d b p.
Proof. intros Hf H st Hd Hb Hp Hw. specialize (H st Hd Hb Hp Hw). unfold defer. destruct (m st). by rewrite Hf. Qed.
Lemma hwp_random rand n (Q : hpost (list Z)) d b p : (∀ x, Q (Ok x) d b p) → hwp (random rand n) Q d b p.
Proof. intros H st <- <- <- Hw. split; [apply H|done]. Qed.
Lemma hwp_new_token rand (Q : hpost string) d b p : (∀ x, Q (Ok x) d b p) → hwp (new_token rand) Q d b p.
Proof. intros H. apply hwp_bind, hwp_random. intros x. by apply hwp_ret. Qed.
Lemma hwp_set_header k v (Q : hpost unit) d b p : Q (Ok tt) d b p → hwp (set_header k v) Q d b p.
Proof. by apply hwp_modify. Qed.
Lemma hwp_add_cookie c (Q : hpost unit) d b p : Q (Ok tt) d b p → hwp (add_cookie c) Q d b p.
Proof. by apply hwp_modify. Qed.

Lemma hwp_respond {A} status body (Q : hpost A) d b p :
  (∀ r, rs_Status r = status → rs_Body r = body → Q (Err r) d b p) → hwp (respond status body) Q d b p.
Proof. intros H st <- <- <- Hw. split; [by apply H|done]. Qed.
Lemma hwp_write {A} status v (Q : hpost A) d b p :
  (∀ r, rs_Status r = status → rs_Body r = Some v → Q (Err r) d b p) → hwp (write status v) Q d b p.
Proof. intros H. apply hwp_bind, hwp_set_header, hwp_respond, H. Qed.
Lemma hwp_failure {A} status code message (Q : hpost A) d b p :
  (∀ r, rs_Status r = status → Q (Err r) d b p) → hwp (failure status code message) Q d b p.
Proof.
  intros H st Hd Hb Hp Hw. unfold failure.
  refine (hwp_write status _ Q d b p _ st Hd Hb Hp Hw). auto.
Qed.
Lemma hwp_metadata {A} message (Q : hpost A) d b p :
  (∀ r, rs_Status r = 503 → Q (Err r) d b p) → hwp (metadata_unavailable message) Q d b p.
Proof. apply hwp_failure. Qed.
Lemma stake_all n s : (slen s ≤ n)%nat → stake n s = s.
Proof. revert n. induction s as [|c s IH]; intros [|n] H; cbn in *; [done|done|lia|]. f_equal. apply IH. lia. Qed.
Lemma hwp_decode {A} (parse : string → res decode_error A) r (Q : hpost A) d b p :
  (∀ a, parse (rq_Body r) = Ok a → Q (Ok a) d b p) → (∀ e, rs_Status e = 400 → Q (Err e) d b p) → hwp (decode parse r) Q d b p.
Proof.
  intros H He. unfold decode. cbv zeta. destruct (parse (stake 4096 (rq_Body r))) as [a|[]] eqn:E; [|by apply hwp_failure..].
  destruct (4096 <? slen (rq_Body r))%nat eqn:El; [by apply hwp_failure|]. apply hwp_ret, H.
  rewrite stake_all in E by by apply Nat.ltb_ge. done.
Qed.

(** The end of a request: what comes after it no longer matters. *)
Definition hwp_end {A} (m : H A) (Q : hpost A) d b p : Prop :=
  ∀ st, w_db (sv_world st) = d → w_bucket (sv_world st) = b → w_pg (sv_world st) = p → Wp.within (sv_world st) →
    let (r, st') := m st in Q r (w_db (sv_world st')) (w_bucket (sv_world st')) (w_pg (sv_world st')).
Lemma hwp_end_of {A} (m : H A) (Q : hpost A) d b p : hwp m Q d b p → hwp_end m Q d b p.
Proof. intros H st Hd Hb Hp Hw. specialize (H st Hd Hb Hp Hw). destruct (m st). apply H. Qed.
Lemma hwp_end_bind {A B} (m : H A) (k : A → H B) (Q : hpost B) d b p :
  hwp m (λ r d b p, match r with Ok a => hwp_end (k a) Q d b p | Err e => Q (Err e) d b p end) d b p →
  hwp_end (m ≫= k) Q d b p.
Proof.
  intros H st Hd Hb Hp Hw. specialize (H st Hd Hb Hp Hw). unfold mbind, H_bind. destruct (m st) as [[a|e] st']; [|by destruct H].
  destruct H as [H Hw']. by apply H.
Qed.
Lemma hwp_end_any {A} (m : H A) (Q : hpost A) d b p : (∀ r d' b' p', Q r d' b' p') → hwp_end m Q d b p.
Proof. intros HQ st _ _ _ _. destruct (m st). apply HQ. Qed.

Section server.
Context (s : HttpServer).

Lemma hwp_setStepCookie kind v ttl (Q : hpost unit) d b p : Q (Ok tt) d b p → hwp (setStepCookie s kind v ttl) Q d b p.
Proof. intros H. apply hwp_bind, hwp_now. intros t. by apply hwp_add_cookie. Qed.
Lemma hwp_setCookie v (Q : hpost unit) d b p : Q (Ok tt) d b p → hwp (setCookie s v) Q d b p.
Proof. intros H. apply hwp_bind, hwp_now. intros t. by apply hwp_add_cookie. Qed.
Lemma hwp_clearCookie kind (Q : hpost unit) d b p : Q (Ok tt) d b p → hwp (clearCookie s kind) Q d b p.
Proof. by apply hwp_add_cookie. Qed.
Lemma hwp_rate_limited {A} (Q : hpost A) d b p : (∀ r, rs_Status r = 429 → Q (Err r) d b p) → hwp rate_limited Q d b p.
Proof. intros H. apply hwp_bind, hwp_set_header, hwp_failure, H. Qed.
Lemma hwp_beginAuth r (Q : hpost unit) d b p :
  Q (Ok tt) d b p → (∀ e, rs_Status e = 429 → Q (Err e) d b p) → hwp (beginAuth s r) Q d b p.
Proof.
  intros H He. apply hwp_bind, hwp_now. intros t. apply hwp_bind, hwp_state.
  { intros st. by destruct (allow _ _ _). }
  intros [|]; cbn; [|by apply hwp_rate_limited]. apply hwp_bind, hwp_state.
  { intros st. by destruct (sv_slots st <? 2). }
  intros [|]; [by apply hwp_ret|by apply hwp_failure].
Qed.
Lemma hwp_codeAllowed r (Q : hpost unit) d b p :
  Q (Ok tt) d b p → (∀ e, rs_Status e = 429 → Q (Err e) d b p) → hwp (codeAllowed s r) Q d b p.
Proof.
  intros H He. apply hwp_bind, hwp_now. intros t. apply hwp_bind, hwp_state.
  { intros st. by destruct (allow _ _ _). }
  intros [|]; [by apply hwp_ret|by apply hwp_rate_limited].
Qed.

(** What [authorize] lets through: a session that is live at a time the clock
    showed, and for anything but GET its CSRF token. *)
Definition authorized (r : Request) (d : DB) (a : Session * string) : Prop :=
  find_cookie (cookieName s) r = Some a.2 ∧ slen a.2 = 43%nat ∧
  (∃ now v, is_time now ∧ ReadSession a.2 (scope s) now d = Ok v ∧ a.1 = v <| sn_CSRF := CSRF (s_Key s) a.2 (scope s) |>) ∧
  (is_get r = true ∨ rq_Header r "X-CSRF-Token" = CSRF (s_Key s) a.2 (scope s)).
(** The request came with the cookie of a session in the table, of this
    scope and of an existing administrator, that ends after a time the clock
    showed, and for anything but GET with the session's CSRF token. *)
Definition has_session (r : Request) (d : DB) : Prop := ∃ token row now,
  find_cookie (cookieName s) r = Some token ∧ In row (db_sessions d) ∧ se_Hash row = Hash token ∧ se_Scope row = scope s ∧
  is_time now ∧ unix now < se_ExpiresAt row ∧ db_admin d ≠ None ∧
  (is_get r = true ∨ rq_Header r "X-CSRF-Token" = CSRF (s_Key s) token (scope s)).
Lemma authorized_session r d a : authorized r d a → has_session r d.
Proof.
  intros (Hc & _ & (now & v & Ht & Hr & _) & Hx). unfold ReadSession in Hr.
  destruct (sql_find _ (db_sessions d)) as [row|] eqn:Ef; [|done]. destruct (db_admin d) as [adm|] eqn:Ea; [|done].
  apply sql_find_some in Ef as [Hin Hv]. unfold valid_session, session_hash in Hv. bool_simpl.
  exists a.2, row, now. split_and!; try done. by rewrite Ea.
Qed.
Lemma hwp_authorize r (Q : hpost (Session * string)) d b p :
  (∀ a, authorized r d a → Q (Ok a) d b p) →
  (∀ e, rs_Status e = 401 ∨ rs_Status e = 403 ∨ rs_Status e = 503 → Q (Err e) d b p) → hwp (authorize s r) Q d b p.
Proof.
  intros Ha He. unfold authorize. destruct (find_cookie (cookieName s) r) as [c|] eqn:Ec; [|apply hwp_failure; auto].
  destruct (slen c =? 43)%nat eqn:El; cbn [negb]; [|apply hwp_failure; auto]. apply Nat.eqb_eq in El.
  apply hwp_bind, hwp_now_timed. intros now Hnow. apply hwp_bind, hwp_run, wp_db_get.
  - intros v Hv. cbn [sn_CSRF]. destruct (is_get r) eqn:Eg; cbn [negb andb].
    + apply hwp_ret, Ha. split; [done|]. split; [done|]. split; [by exists now, v|by left].
    + case_bool_decide as E; cbn [negb]; [|apply hwp_failure; auto].
      apply hwp_ret, Ha. split; [done|]. split; [done|]. split; [by exists now, v|by right].
  - intros e. repeat case_match; apply hwp_failure; auto.
Qed.
End server.
End rules.

(** [hwp_step] applies the rule for the next step of a handler. *)
Ltac hwp_call :=
  lazymatch goal with
  | |- hwp (mret _) _ _ _ _ => apply hwp_ret
  | |- hwp (run _) _ _ _ _ => apply hwp_run
  | |- hwp Now _ _ _ _ => apply hwp_now_timed; intros ? ?
  | |- hwp (random _ _) _ _ _ _ => apply hwp_random; intros ?
  | |- hwp (new_token _) _ _ _ _ => apply hwp_new_token; intros ?
  | |- hwp (set_header _ _) _ _ _ _ => apply hwp_set_header
  | |- hwp (add_cookie _) _ _ _ _ => apply hwp_add_cookie
  | |- hwp (setStepCookie _ _ _ _) _ _ _ _ => apply hwp_setStepCookie
  | |- hwp (setCookie _ _) _ _ _ _ => apply hwp_setCookie
  | |- hwp (clearCookie _ _) _ _ _ _ => apply hwp_clearCookie
  | |- hwp (respond _ _) _ _ _ _ => apply hwp_respond; intros ? ? ?
  | |- hwp (write _ _) _ _ _ _ => apply hwp_write; intros ? ? ?
  | |- hwp (failure _ _ _) _ _ _ _ => apply hwp_failure; intros ? ?
  | |- hwp (metadata_unavailable _) _ _ _ _ => apply hwp_metadata; intros ? ?
  | |- hwp rate_limited _ _ _ _ => apply hwp_rate_limited; intros ? ?
  | |- hwp (decode _ _) _ _ _ _ => apply hwp_decode; [intros ? ?|intros ? ?]
  | |- hwp (beginAuth _ _) _ _ _ _ => apply hwp_beginAuth; [|intros ? ?]
  | |- hwp (codeAllowed _ _) _ _ _ _ => apply hwp_codeAllowed; [|intros ? ?]
  | |- hwp (authorize _ _) _ _ _ _ => apply hwp_authorize; [intros ? ?|intros ? ?]
  | |- hwp (defer _ _) _ _ _ _ => apply hwp_defer; [done|]
  | |- hwp (_ ≫= _) _ _ _ _ => apply hwp_bind
  end.
Ltac hwp_step := hwp_call; cbn beta iota.
