(* ===== verification/HttpAuth.v ===== *)
(** * Signing in over HTTP ([internal/httpapi/auth.go] and the sign-in
      handlers of [internal/httpapi/server.go])

    Setup, login with its second factor, enrolment, reset and sessions, as
    handlers over the store operations of [AuthStore] and the primitives of
    [Security]. *)

From S2P Require Import Prelude GoStrings GoTime Storage Schema Security AuthStore World Wp Worker RateLimit Http HttpWp.

Record credentials := mkCredentials { cr_Token : string; cr_Email : string; cr_Password : string }.

(** Decoders of request bodies, the JSON of an enrolment, and Unicode lower
    case and [mail.ParseAddress]. *)
Class AuthBodies := {
  parse_credentials : string → res decode_error credentials;
  parse_code : string → res decode_error string;
  parse_reset : string → res decode_error (string * string); (* token, password *)
  marshal_enrolment : Enrolment → list Z;
  unmarshal_enrolment : list Z → option Enrolment;
  ToLower : string → string;
  ParseAddress : string → option string;
}.

Definition adminFactorContext : string := "admin:totp:1".
Definition enrolContext (tokenHash : string) : string := "auth_token:enrol:" +:+ tokenHash.

(** The dummy hash keeps unknown emails on the same path. *)
Definition dummy_hash : string :=
  "$argon2id$v=19$m=65536,t=3,p=1$AAAAAAAAAAAAAAAAAAAAAA$AAAAAAAAAAAAAAAAAAAAAAAAAAAAAAAAAAAAAAAAAAA".

Section auth.
Context {pc : PendingCodec} {bodies : AuthBodies} (s : HttpServer) (rand : nat → nat → list Z)
  (IDKey : list Z → list Z → list Z) (PG : option (M string)).
#[local] Notation key := (s_Key s).
#[local] Notation scope := (scope s).
#[local] Notation https := (https s).

Definition normalizeEmail (value : string) : string * bool :=
  let v := ToLower (TrimSpace value) in
  (v, match ParseAddress v with Some a => bool_decide (a = v) && (slen v <=? 254)%nat | None => false end).

(** ** Health *)

Definition checks : H (bool * res werror string) :=
  (if s_Store s then run (db_write Check) ≫= λ e, mret (is_ok e) else mret false) ≫= λ sqliteOK,
  match PG with
  | None => mret (sqliteOK, Err (Message "postgres unavailable"))
  | Some check => run check ≫= λ v, mret (sqliteOK, v)
  end.
Definition ready (r : Request) : H void :=
  checks ≫= λ c,
  if negb c.1 || negb (is_ok c.2) then write 503 (JObj [("status", JStr "not_ready")])
  else write 200 (JObj [("status", JStr "ready")]).

(** ** Enrolment of a second factor *)

Definition enrolView (secret : list Z) (account : string) : H json :=
  Now ≫= λ t,
  mret (JObj [("next", JStr "enrol"); ("key", JStr (TOTPKey secret)); ("account", JStr account); ("issuer", JStr "Pgfy");
    ("algorithm", JStr "SHA1"); ("digits", JNum (Z.of_nat TOTPDigits)); ("period", JNum TOTPPeriod); ("server_time", JNum (unix t))]).

(** The account shown when the enrolment names none. *)
Definition account_of (en : Enrolment) : H string :=
  if bool_decide (en_Email en = "") then
    run (db_get AdminEmail) ≫= λ e, mret (match e with Ok a => a | Err _ => "" end)
  else mret (en_Email en).

Definition startEnrolment (en : Enrolment) (begin : string → string → H (res werror unit)) : H void :=
  random rand 20 ≫= λ secret,
  let en := mkEnrolment (en_Kind en) (en_Email en) (en_PasswordHash en) (en_Binding en) scope secret in
  new_token rand ≫= λ enrol,
  let hash := Hash enrol in
  random rand 12 ≫= λ nonce,
  begin hash (Seal key nonce (enrolContext hash) (marshal_enrolment en)) ≫= λ e,
  match e with
  | Err (StoreError ErrSetup) => failure 409 "setup_rejected" "Setup token is invalid, expired, or already used."
  | Err (StoreError ErrToken) =>
      failure 409 "reset_rejected" "Reset token is invalid, expired, or already used. Issue a new one with pgfyctl reset-admin."
  | Err _ => metadata_unavailable "The sign-in step could not be saved. Run host diagnostics."
  | Ok _ =>
      setStepCookie s "enrol" enrol (10 * Minute) ≫= λ _,
      account_of en ≫= λ account,
      enrolView secret account ≫= λ v, write 200 v
  end.

Definition signedIn (email session : string) (status : Z) : H void :=
  setCookie s session ≫= λ _,
  write status (JObj [("email", JStr email); ("csrf_token", JStr (CSRF key session scope))]).

(** ** Setup and login *)

Definition setupAvailable (r : Request) : H void :=
  run (db_read SetupAvailable) ≫= λ e,
  match e with
  | Err _ => metadata_unavailable "Management storage is unavailable."
  | Ok available => write 200 (JObj [("available", JBool available)])
  end.

Definition setup (r : Request) : H void :=
  beginAuth s r ≫= λ _,
  defer release (
    decode parse_credentials r ≫= λ in_,
    let (email, valid) := normalizeEmail (cr_Email in_) in
    if negb valid || negb (slen (cr_Token in_) =? 43)%nat
    then failure 400 "invalid_setup" "Provide a valid email, setup token, and password."
    else
      random rand 16 ≫= λ salt,
      match Password IDKey (cr_Password in_) salt with
      | Err e => failure 400 "invalid_password" e
      | Ok hash =>
          if https then
            startEnrolment (mkEnrolment "setup" email hash "" "" []) (λ enrolHash sealed,
              Now ≫= λ now, run (db_tx (BeginEnrolment (cr_Token in_) enrolHash sealed now)))
          else
            new_token rand ≫= λ token,
            Now ≫= λ now,
            run (db_tx (Setup (cr_Token in_) email hash (Hash token) scope now)) ≫= λ e,
            match e with
            | Err (StoreError ErrSetup) => failure 409 "setup_rejected" "Setup token is invalid, expired, or already used."
            | Err _ => metadata_unavailable "Setup could not be saved. Run host diagnostics."
            | Ok _ => signedIn email token 201
            end
      end).

Definition invalid_credentials : H void := failure 401 "invalid_credentials" "Email or password is incorrect.".

(** After the password was found right. *)
Definition after_password (email current : string) (enrolled : bool) : H void :=
  if enrolled then
    new_token rand ≫= λ pending,
    Now ≫= λ now,
    run (db_tx (BeginPending (Hash pending) current scope now)) ≫= λ e,
    match e with
    | Err _ => metadata_unavailable "Sign-in could not be saved."
    | Ok _ =>
        setStepCookie s "pending" pending (5 * Minute) ≫= λ _,
        Now ≫= λ t, write 200 (JObj [("next", JStr "code"); ("server_time", JNum (unix t))])
    end
  else if https then
    startEnrolment (mkEnrolment "upgrade" email "" (Hash current) "" []) (λ enrolHash sealed,
      Now ≫= λ now, run (db_tx (BeginUpgrade enrolHash sealed now)))
  else
    new_token rand ≫= λ token,
    Now ≫= λ now,
    run (db_tx (AddSession token scope current now)) ≫= λ e,
    match e with
    | Err (StoreError ErrCredentialsChanged) => invalid_credentials
    | Err _ => metadata_unavailable "Session could not be saved."
    | Ok _ => signedIn email token 200
    end.

Definition login (r : Request) : H void :=
  beginAuth s r ≫= λ _,
  defer release (
    decode parse_credentials r ≫= λ in_,
    let email := (normalizeEmail (cr_Email in_)).1 in
    run (db_get (PasswordOf email)) ≫= λ e,
    match e with
    | Err (StoreError ErrNoRows) =>
        (* the outcome of this check is not used *)
        if VerifyPassword IDKey dummy_hash (cr_Password in_) then invalid_credentials else invalid_credentials
    | Err _ => metadata_unavailable "Management storage is unavailable."
    | Ok hash =>
        if negb (VerifyPassword IDKey hash (cr_Password in_)) then invalid_credentials
        else
          run (db_get Factor) ≫= λ f,
          match f with
          | Err _ => metadata_unavailable "Management storage is unavailable."
          | Ok (enrolled, current) =>
              if negb (bool_decide (current = hash)) then invalid_credentials else after_password email current enrolled
          end
    end).

(** ** Codes *)

Definition codeFailure (e : werror) : H void :=
  match e with
  | StoreError ErrCode =>
      failure 401 "invalid_code" "That code is not right. Check the time on your device and try the current code."
  | StoreError ErrCodeReused => failure 401 "code_reused" "That code was already used. Wait for the next one."
  | StoreError (ErrCodeLocked seconds) =>
      set_header "Retry-After" (decimal seconds) ≫= λ _,
      failure 429 "code_locked" "Too many wrong codes. Wait a few minutes and try again."
  | StoreError ErrMaintenance =>
      failure 503 "maintenance" "An update is in progress. Finish the reset when it completes."
  | _ => metadata_unavailable "Management storage is unavailable."
  end.

(** The check of a code against the enrolled factor. *)
Definition verify_pending (code : string) (now : time) (sealed : string) (last : Z) : res store_error Z :=
  match Open key adminFactorContext sealed with
  | Err _ => Err ErrToken
  | Ok secret =>
      let '(step, valid, reused) := VerifyTOTP secret code now last in
      if (reused : bool) then Err ErrCodeReused else if negb valid then Err ErrCode else Ok step
  end.

Definition confirmCode (r : Request) : H void :=
  match stepCookie s r "pending" with
  | None => failure 401 "code_expired" "Sign in again."
  | Some pending =>
      codeAllowed s r ≫= λ _,
      decode parse_code r ≫= λ code,
      Now ≫= λ now,
      new_token rand ≫= λ session,
      run (db_tx (ConfirmPending (Hash pending) (Hash session) scope now (verify_pending code now))) ≫= λ e,
      match e with
      | Err (StoreError ErrToken) =>
          clearCookie s "pending" ≫= λ _, failure 401 "code_expired" "This sign-in expired. Sign in again."
      | Err e => codeFailure e
      | Ok email => clearCookie s "pending" ≫= λ _, signedIn email session 200
      end
  end.

(** The check of an enrolment's first code; [nonce] seals the factor. *)
Definition verify_enrol (hash code : string) (nonce : list Z) (now : time) (sealed : string) : res store_error Confirmed :=
  match Open key (enrolContext hash) sealed with
  | Err _ => Err ErrToken
  | Ok plain =>
      match unmarshal_enrolment plain with
      | None => Err ErrToken
      | Some en =>
          let '(step, valid, _) := VerifyTOTP (en_Secret en) code now 0 in
          if negb valid then Err ErrCode else Ok (mkConfirmed en (Seal key nonce adminFactorContext (en_Secret en)) step)
      end
  end.

Definition confirmEnrolment (r : Request) : H void :=
  match stepCookie s r "enrol" with
  | None => failure 401 "enrol_expired" "This setup step expired. Start again."
  | Some enrol =>
      codeAllowed s r ≫= λ _,
      decode parse_code r ≫= λ code,
      Now ≫= λ now,
      let hash := Hash enrol in
      new_token rand ≫= λ session,
      random rand 12 ≫= λ nonce,
      state (λ st, (header "X-Request-ID" (sv_headers st), st)) ≫= λ requestID,
      run (db_tx (ConfirmEnrolment hash (Hash session) scope requestID now (verify_enrol hash code nonce now))) ≫= λ e,
      match e with
      | Err (StoreError ErrToken) =>
          clearCookie s "enrol" ≫= λ _, failure 401 "enrol_expired" "This setup step expired or was replaced. Start again."
      | Err e => codeFailure e
      | Ok email => clearCookie s "enrol" ≫= λ _, signedIn email session 200
      end
  end.

(** An upgrade is stale once a factor was set. *)
Definition stale_upgrade (en : Enrolment) : H bool :=
  if bool_decide (en_Kind en = "upgrade") then
    run (db_get Factor) ≫= λ f, mret (match f with Ok (enrolled, _) => enrolled | Err _ => true end)
  else mret false.

Definition currentEnrolment (r : Request) : H void :=
  match stepCookie s r "enrol" with
  | None => failure 401 "enrol_expired" "No setup step is in progress."
  | Some enrol =>
      let hash := Hash enrol in
      let expired := clearCookie s "enrol" ≫= λ _, failure 401 "enrol_expired" "This setup step expired. Start again." in
      Now ≫= λ now,
      run (db_get (EnrolmentPayload hash now)) ≫= λ e,
      match e with
      | Err _ => expired
      | Ok sealed =>
          match (match Open key (enrolContext hash) sealed with Ok plain => unmarshal_enrolment plain | Err _ => None end) with
          | None => expired
          | Some en =>
              stale_upgrade en ≫= λ stale : bool,
              if stale then expired
              else
                run (db_read (EnrolmentUsable hash (en_Kind en))) ≫= λ u,
                match u with
                | Ok true => account_of en ≫= λ account, enrolView (en_Secret en) account ≫= λ v, write 200 v
                | _ => expired
                end
          end
      end
  end.

Definition startReset (r : Request) : H void :=
  beginAuth s r ≫= λ _,
  defer release (
    decode parse_reset r ≫= λ in_,
    if negb (slen in_.1 =? 43)%nat
    then failure 409 "reset_rejected" "Reset token is invalid, expired, or already used. Issue a new one with pgfyctl reset-admin."
    else
      random rand 16 ≫= λ salt,
      match Password IDKey in_.2 salt with
      | Err e => failure 400 "invalid_password" e
      | Ok hash =>
          startEnrolment (mkEnrolment "reset" "" hash "" "" []) (λ enrolHash sealed,
            Now ≫= λ now, run (db_tx (BeginReset in_.1 enrolHash sealed now)))
      end).

(** ** Ending a sign-in or a session *)

Definition abandon_step (r : Request) (kind : string) : H unit :=
  match stepCookie s r kind with
  | Some value => Now ≫= λ now, run (db_write (Abandon (Hash value) now)) ≫= λ _, mret tt
  | None => mret tt
  end.
Definition abandonSteps (r : Request) : H unit := abandon_step r "pending" ≫= λ _, abandon_step r "enrol".

Definition abandon (r : Request) : H void :=
  abandonSteps r ≫= λ _, clearCookie s "pending" ≫= λ _, clearCookie s "enrol" ≫= λ _, respond 204 None.

Definition session (r : Request) : H void :=
  authorize s r ≫= λ a,
  let v := a.1 <| sn_ClientIP := client s r |> in
  write 200 (JObj ([("email", JStr (sn_Email v)); ("expires_at", JNum (sn_ExpiresAt v)); ("csrf_token", JStr (sn_CSRF v))] ++
    (if bool_decide (sn_ClientIP v = "") then [] else [("client_ip", JStr (sn_ClientIP v))]))).

Definition logout (r : Request) : H void :=
  authorize s r ≫= λ a,
  run (db_write (Logout a.2)) ≫= λ e,
  match e with
  | Err _ => metadata_unavailable "Logout could not be saved. Try again."
  | Ok _ =>
      abandonSteps r ≫= λ _,
      clearCookie s "session" ≫= λ _, clearCookie s "pending" ≫= λ _, clearCookie s "enrol" ≫= λ _, respond 204 None
  end.
End auth.
