(* ===== verification/SignIn.v ===== *)
(** * Signing in, from request to session

    What the sign-in handlers of [HttpAuth] guarantee: in HTTPS mode a session
    starts only with a verified one-time code, under every schedule of
    failures; and the steps of a sign-in lead to a session that [authorize]
    accepts. *)

From S2P Require Import Prelude GoStrings GoTime Storage Schema Security Cluster AuthStore AuthSteps World Wp Worker RateLimit HostStatus Webhook Alerts Http HttpWp HttpAuth.

(** Rules for store calls of which only the effect matters. *)
Lemma hwp_tx {am : Ambient} {A} (f : DB → res store_error A * DB) (Q : hpost (res werror A)) d b p :
  (∀ x d', d' = d ∨ d' = (f d).2 → Q (Ok x) d' b p) → hwp (run (db_tx f)) Q d b p.
Proof.
  intros HQ. apply hwp_run, wp_db_tx; [|intros e d' Hd; by apply HQ]. intros a d' E. apply HQ. right. by rewrite E.
Qed.
Lemma hwp_update {am : Ambient} (f : DB → DB) (Q : hpost (res werror unit)) d b p :
  (∀ x d', d' = d ∨ d' = f d → Q (Ok x) d' b p) → hwp (run (db_write f)) Q d b p.
Proof. intros HQ. apply (hwp_tx (λ d, (Ok tt, f d))), HQ. Qed.
Lemma hwp_get {am : Ambient} {A} (f : DB → res store_error A) (Q : hpost (res werror A)) d b p :
  (∀ x, Q (Ok x) d b p) → hwp (run (db_get f)) Q d b p.
Proof. intros HQ. apply hwp_run, wp_db_get; auto. Qed.
Lemma hwp_read {am : Ambient} {A} (f : DB → A) (Q : hpost (res werror A)) d b p : (∀ x, Q (Ok x) d b p) → hwp (run (db_read f)) Q d b p.
Proof. intros HQ. apply hwp_run, wp_db_read; auto. Qed.

Ltac hwp_any :=
  lazymatch goal with
  | |- hwp (run (db_get _)) _ _ _ _ => apply hwp_get; intros ?
  | |- hwp (run (db_read _)) _ _ _ _ => apply hwp_read; intros ?
  | |- hwp (run (db_tx _)) _ _ _ _ => apply hwp_tx; intros ? ? ?
  | |- hwp (run (db_write _)) _ _ _ _ => apply hwp_update; intros ? ? ?
  | |- hwp _ _ _ _ _ => hwp_call
  end; cbn beta iota zeta.
Ltac hwp_case := match goal with |- hwp (match ?x with _ => _ end) _ _ _ _ => destruct x eqn:? end.

Section https.
Context {am : Ambient} {pc : PendingCodec} {bodies : AuthBodies} (s : HttpServer) (rand : nat → nat → list Z)
  (IDKey : list Z → list Z → list Z).

(** The endpoints of a sign-in, in the order of the routing table. *)
Inductive sign_in_endpoint :=
| ESetupAvailable | ESetup | ELogin | ELogout | ECode | ECurrentEnrolment | EConfirmEnrolment | EReset | EAbandon | ESession.
Definition sign_in (e : sign_in_endpoint) : Request → H void :=
  match e with
  | ESetupAvailable => setupAvailable
  | ESetup => setup s rand IDKey
  | ELogin => login s rand IDKey
  | ELogout => logout s
  | ECode => confirmCode s rand
  | ECurrentEnrolment => currentEnrolment s
  | EConfirmEnrolment => confirmEnrolment s rand
  | EReset => startReset s rand IDKey
  | EAbandon => abandon s
  | ESession => session s
  end.

(** The request carried a code that was right for the administrator's factor
    (with a password step bound to the current password), or for a factor
    being enrolled, at a time the clock showed. *)
Inductive proved_by_code (r : Request) (d : DB) : Prop :=
| by_factor pending code now a sealed secret step t :
    is_time now → stepCookie s r "pending" = Some pending → parse_code (rq_Body r) = Ok code →
    In t (db_tokens d) → usable "pending" (Hash pending) (unix now) t = true → bound t a (scope s) = true →
    db_admin d = Some a → a_CodeLockedUntil a ≤ unix now → a_TotpSecretSealed a = Some sealed →
    Open (s_Key s) adminFactorContext sealed = Ok secret →
    VerifyTOTP secret code now (a_TotpLastStep a) = (step, true, false) → a_TotpLastStep a < step → proved_by_code r d
| by_enrolment enrol code now t plain en step reused :
    is_time now → stepCookie s r "enrol" = Some enrol → parse_code (rq_Body r) = Ok code →
    In t (db_tokens d) → usable "enrol" (Hash enrol) (unix now) t = true →
    Open (s_Key s) (enrolContext (Hash enrol)) (t_Payload t) = Ok plain → unmarshal_enrolment plain = Some en →
    VerifyTOTP (en_Secret en) code now 0 = (step, true, reused) → proved_by_code r d.

(** No session but those of [d0], unless a code was proved. *)
Definition sessions_from (r : Request) (d0 : DB) (b : World.bucket) (p : Cluster) : hpost void := λ _ d' b' p',
  b' = b ∧ p' = p ∧ ∀ x, In x (db_sessions d') → In x (db_sessions d0) ∨ proved_by_code r d0.

Definition no_new_session (d0 d : DB) : Prop := ∀ x, In x (db_sessions d) → In x (db_sessions d0).
Lemma sessions_from_kept r d0 d b p e : no_new_session d0 d → sessions_from r d0 b p e d b p.
Proof. intros Hk. split; [done|]. split; [done|]. intros x Hx. left. auto. Qed.

Lemma no_new_refl d : no_new_session d d.
Proof. by intros x. Qed.
Lemma token_step_no_new now o d d1 : token_only o = true → legal o →
  d1 = d ∨ d1 = (auth_step now o d).2 → no_new_session d d1.
Proof.
  intros Ho Hl [->| ->] x; [done|]. by rewrite (proj2 (token_only_frame now o d Ho Hl)).
Qed.
Lemma logout_no_new token d d1 : d1 = d ∨ d1 = Logout token d → no_new_session d d1.
Proof. intros [->| ->] x; [done|]. by intros [Hx _]%in_sql_delete. Qed.
Lemma no_new_trans d0 d1 d2 : no_new_session d0 d1 → no_new_session d1 d2 → no_new_session d0 d2.
Proof. unfold no_new_session. auto. Qed.

(** Ends every path of a handler on which no session was added. *)
Ltac kept := lazymatch goal with
  | |- hwp _ _ _ _ _ => fail
  | |- _ => apply sessions_from_kept; first [assumption | apply no_new_refl]
  end.
Ltac steps := repeat (hwp_any || kept).
Ltac handler := repeat (hwp_any || kept || hwp_case).

Lemma hwp_startEnrolment en begin r d0 d b p :
  (∀ h sealed (Q : hpost (res werror unit)), (∀ x d1, no_new_session d0 d1 → Q (Ok x) d1 b p) → hwp (begin h sealed) Q d b p) →
  hwp (startEnrolment s rand en begin) (sessions_from r d0 b p) d b p.
Proof.
  intros Hb. unfold startEnrolment. do 6 hwp_any. apply hwp_bind, Hb. intros y d1 H1.
  cbn beta iota. unfold account_of, enrolView. handler.
Qed.

(** A transaction that only touches tokens, begun at the current time. *)
Lemma hwp_begin {A} (f : time → DB → res store_error A * DB) (o : auth_op) d0 d b p (Q : hpost (res werror A)) :
  token_only o = true → legal o → (∀ now d, (f now d).2 = (auth_step now o d).2) → no_new_session d0 d →
  (∀ x d1, no_new_session d0 d1 → Q (Ok x) d1 b p) → hwp (Now ≫= λ now, run (db_tx (f now))) Q d b p.
Proof.
  intros Ho Hl Hf H0 HQ. hwp_any. hwp_any. hwp_any. apply HQ. eapply no_new_trans; [exact H0|].
  eapply token_step_no_new; [exact Ho|exact Hl|]. by rewrite <- Hf.
Qed.

Lemma setup_sessions r d b p : https s = true → hwp (setup s rand IDKey r) (sessions_from r d b p) d b p.
Proof.
  intros Hm. unfold setup. rewrite Hm. steps. destruct (normalizeEmail _) as [email valid].
  destruct (_ || _); [handler|]. steps. destruct (Password _ _ _) as [hash|e]; [|handler].
  apply hwp_startEnrolment. intros h sealed Q HQ.
  eapply (hwp_begin _ (ABeginEnrolment _ _ _)); [done|done|done|apply no_new_refl|exact HQ].
Qed.

Lemma login_sessions r d b p : https s = true → hwp (login s rand IDKey r) (sessions_from r d b p) d b p.
Proof.
  intros Hm. unfold login, invalid_credentials. steps.
  destruct x as [hash|[]]; [|handler..]. destruct (negb (VerifyPassword _ _ _)); [handler|]. steps.
  destruct x as [[enrolled current]|e]; [|handler]. destruct (negb (bool_decide _)); [handler|]. unfold after_password. rewrite Hm.
  destruct enrolled.
  - do 6 hwp_any.
    match goal with Hd : _ ∨ _ = (BeginPending ?h ?ph ?sc ?now _).2 |- _ =>
      apply (token_step_no_new now (ABeginPending h ph sc)) in Hd; [|done|done] end. handler.
  - apply hwp_startEnrolment. intros h sealed Q HQ.
    eapply (hwp_begin _ (ABeginUpgrade _ _)); [done|done|done|apply no_new_refl|exact HQ].
Qed.

Lemma reset_sessions r d b p : hwp (startReset s rand IDKey r) (sessions_from r d b p) d b p.
Proof.
  unfold startReset. steps. destruct (negb _); [handler|]. steps.
  destruct (Password _ _ _) as [hash|e]; [|handler]. apply hwp_startEnrolment. intros h sealed Q HQ.
  eapply (hwp_begin _ (ABeginReset _ _ _)); [done|done|done|apply no_new_refl|exact HQ].
Qed.

Lemma verify_pending_ok code now sealed last step : verify_pending s code now sealed last = Ok step →
  ∃ secret, Open (s_Key s) adminFactorContext sealed = Ok secret ∧ VerifyTOTP secret code now last = (step, true, false).
Proof.
  unfold verify_pending. destruct (Open _ _ _) as [secret|]; [|done]. destruct (VerifyTOTP secret code now last) as [[st valid] reused] eqn:E.
  destruct reused; [done|]. destruct valid; [|done]. cbn. intros [= <-]. eauto.
Qed.
Lemma verify_enrol_ok hash code nonce now sealed c : verify_enrol s hash code nonce now sealed = Ok c →
  ∃ plain en step reused, Open (s_Key s) (enrolContext hash) sealed = Ok plain ∧ unmarshal_enrolment plain = Some en ∧
    VerifyTOTP (en_Secret en) code now 0 = (step, true, reused).
Proof.
  unfold verify_enrol. destruct (Open _ _ _) as [plain|]; [|done]. destruct (unmarshal_enrolment plain) as [en|] eqn:En; [|done].
  destruct (VerifyTOTP _ code now 0) as [[st valid] reused] eqn:E. destruct valid; [|done]. intros _. eauto 8.
Qed.

Lemma code_sessions r d b p : auth_wf d → hwp (confirmCode s rand r) (sessions_from r d b p) d b p.
Proof.
  intros Hwf. unfold confirmCode. destruct (stepCookie s r "pending") as [pending|] eqn:Ec; [|handler].
  steps.
  match goal with Hd : ?d1 = d ∨ ?d1 = (ConfirmPending ?h ?sh ?sc ?now ?v d).2 |- _ => rename d1 into d'; rename Hd into Hd1;
    assert (∀ x, In x (db_sessions d') → In x (db_sessions d) ∨ proved_by_code r d) as Hx end.
  { destruct Hd1 as [->| ->]; [by left|]. intros sn Hin.
    match type of Hin with In _ (db_sessions (ConfirmPending ?h ?sh ?sc ?now ?v d).2) =>
      destruct (session_cases now d (AConfirmPending h sh sc v) sn Hwf I Hin) as [?|(_ & adm & sealed & step & tok & Ha & Hs & Hl & Ht & Hu & Hb & Hv & Hst)] end.
    { by left. }
    right. apply verify_pending_ok in Hv as (secret & Ho & Hv). by eapply by_factor. }
  clear Hd1. assert (∀ e, sessions_from r d b p e d' b p) as Hq by (intros e; by split).
  unfold codeFailure, signedIn. repeat (hwp_any || hwp_case || apply Hq).
Qed.

Lemma enrolment_sessions r d b p : auth_wf d → hwp (confirmEnrolment s rand r) (sessions_from r d b p) d b p.
Proof.
  intros Hwf. unfold confirmEnrolment. destruct (stepCookie s r "enrol") as [enrol|] eqn:Ec; [|handler].
  steps. apply hwp_state; [done|]. intros rid. steps.
  match goal with Hd : ?d1 = d ∨ ?d1 = (ConfirmEnrolment ?h ?sh ?sc _ ?now ?v d).2 |- _ => rename d1 into d'; rename Hd into Hd1;
    assert (∀ x, In x (db_sessions d') → In x (db_sessions d) ∨ proved_by_code r d) as Hx end.
  { destruct Hd1 as [->| ->]; [by left|]. intros sn Hin.
    match type of Hin with In _ (db_sessions (ConfirmEnrolment ?h ?sh ?sc ?rid ?now ?v d).2) =>
      destruct (session_cases now d (AConfirmEnrolment h sh sc rid v) sn Hwf I Hin) as [?|(_ & tok & c & Ht & Hu & Hv)] end.
    { by left. }
    right. apply verify_enrol_ok in Hv as (plain & en & step & reused & Ho & Hen & Hv). by eapply by_enrolment. }
  clear Hd1. assert (∀ e, sessions_from r d b p e d' b p) as Hq by (intros e; by split).
  unfold codeFailure, signedIn. repeat (hwp_any || hwp_case || apply Hq).
Qed.

Lemma current_enrolment_sessions r d b p : hwp (currentEnrolment s r) (sessions_from r d b p) d b p.
Proof. unfold currentEnrolment, stale_upgrade, account_of, enrolView. handler. Qed.

Lemma hwp_abandonSteps r d0 d b p (Q : hpost unit) : no_new_session d0 d →
  (∀ d1, no_new_session d0 d1 → Q (Ok tt) d1 b p) → hwp (abandonSteps s r) Q d b p.
Proof.
  intros H0 HQ. assert (∀ kind d (Q : hpost unit), no_new_session d0 d → (∀ d1, no_new_session d0 d1 → Q (Ok tt) d1 b p) →
    hwp (abandon_step s r kind) Q d b p) as Hone.
  { clear Q d H0 HQ. intros kind d Q H0 HQ. unfold abandon_step. destruct (stepCookie s r kind) as [v|]; [|by apply hwp_ret, HQ].
    do 5 hwp_any. apply HQ. eapply no_new_trans; [exact H0|]. match goal with Hd : _ ∨ _ = Abandon _ ?now _ |- _ => by apply (token_step_no_new now (AAbandon (Hash v))) in Hd end. }
  unfold abandonSteps. apply hwp_bind, Hone; [done|]. intros d1 H1. by apply Hone.
Qed.
Lemma abandon_sessions r d b p : hwp (abandon s r) (sessions_from r d b p) d b p.
Proof. unfold abandon. apply hwp_bind, (hwp_abandonSteps r d); [apply no_new_refl|]. intros d1 H1. handler. Qed.
Lemma logout_sessions r d b p : hwp (logout s r) (sessions_from r d b p) d b p.
Proof.
  unfold logout. steps. match goal with Hd : _ ∨ _ = Logout _ _ |- _ => apply logout_no_new in Hd end.
  match goal with |- hwp (match ?x with _ => _ end) _ _ _ _ => destruct x end; [|handler].
  apply hwp_bind, (hwp_abandonSteps r d); [done|]. intros d1 H1. handler.
Qed.

Lemma sign_in_sessions e r d b p : https s = true → auth_wf d → hwp (sign_in e r) (sessions_from r d b p) d b p.
Proof.
  intros Hm Hwf. destruct e; cbn [sign_in].
  - unfold setupAvailable. handler.
  - by apply setup_sessions.
  - by apply login_sessions.
  - apply logout_sessions.
  - by apply code_sessions.
  - apply current_enrolment_sessions.
  - by apply enrolment_sessions.
  - apply reset_sessions.
  - apply abandon_sessions.
  - unfold session. handler.
Qed.
End https.

(** C2. In HTTPS mode a session starts only with a verified one-time code.
    Whatever the request to any sign-in endpoint and whatever calls fail, a
    session that is there afterwards and was not before means that the request
    carried the cookie of a step that is live, and a code that is right, at a
    time the clock showed while the request was served:
    for the administrator's factor, later than the last accepted one, with a
    password step bound to the current password, or for the factor of a live
    enrolment.  Bucket and PostgreSQL are never touched. *)
Theorem https_session_needs_a_code {pc : PendingCodec} {bodies : AuthBodies} s rand IDKey e r st response st' :
  https s = true → auth_wf (w_db (sv_world st)) → sign_in s rand IDKey e r st = (Err response, st') →
  w_bucket (sv_world st') = w_bucket (sv_world st) ∧ w_pg (sv_world st') = w_pg (sv_world st) ∧
  ∀ x, In x (db_sessions (w_db (sv_world st'))) → ¬ In x (db_sessions (w_db (sv_world st))) →
    proved_by_code (am := readings_of (sv_world st)) s r (w_db (sv_world st)).
Proof.
  intros Hm Hwf E.
  pose proof (sign_in_sessions (am := readings_of (sv_world st)) s rand IDKey e r _ (w_bucket (sv_world st)) (w_pg (sv_world st)) Hm Hwf) as Hs.
  apply (hwp_run_timed _ _ _ _ _ Hs) in E as (Hb & Hp & Hx). split; [done|]. split; [done|].
  intros x Hin Hnot. by destruct (Hx x Hin).
Qed.

(** ** A sign-in that works *)

(** A request handled while the clock reads [t] and nothing fails. *)
Definition at_time (t : time) (st : Srv) : Srv :=
  st <| sv_world := (sv_world st) <| w_clock := [t] |> <| w_faults := [] |> |>.

Lemma BeginPending_fresh {pc : PendingCodec} h ph scope now db : (∀ t, In t (db_tokens db) → t_Hash t ≠ h) →
  (BeginPending h ph scope now db).1 = Ok tt.
Proof.
  intros Hf. unfold BeginPending, atomically, issue. cbv zeta. unfold sql_insert.
  rewrite (proj2 (sql_exists_false _ _)); [done|]. unfold delete_tokens. cbn [db_tokens upd].
  intros t (t0 & <- & [H0 _]%in_sql_delete)%in_map_iff. unfold token_hash. apply bool_decide_eq_false.
  rewrite (ev_hash _ _ (orphan_evolves _ _ _)). auto.
Qed.

Lemma try_steps_later secret code lastStep cs step reused :
  try_steps secret code lastStep cs = (step, true, reused) → lastStep < step.
Proof.
  induction cs as [|c cs IH]; [done|]. cbn [try_steps]. destruct (bool_decide _); [|exact IH].
  destruct (c <=? lastStep) eqn:E; [done|]. intros [= <- _]. lia.
Qed.
Lemma VerifyTOTP_later secret code now lastStep step reused :
  VerifyTOTP secret code now lastStep = (step, true, reused) → lastStep < step.
Proof. unfold VerifyTOTP. cbv zeta. destruct (negb _); [done|]. apply try_steps_later. Qed.

(** Runs without faults, one step at a time. *)
Section quiet_runs.
Context (b : World.bucket) (p : Cluster) (t : time) (sp : list bool) (l c : rateLimit) (k : Z) (n : nat)
  (hs : list (string * string)) (cs : list Cookie) (al : Memory).
#[local] Notation quiet d := (mkSrv (mkWorld d b p [] [t] sp) l c k n hs cs al).

Lemma bind_run {A B} (m : H A) (f : A → H B) st a st1 x : m st = (Ok a, st1) → f a st1 = x → (m ≫= f) st = x.
Proof. intros E <-. unfold mbind, H_bind. by rewrite E. Qed.
Lemma Now_run d : Now (quiet d) = (Ok t, quiet d).
Proof. done. Qed.
Lemma get_run {A} (f : DB → res store_error A) d x : f d = Ok x → run (db_get f) (quiet d) = (Ok (Ok x), quiet d).
Proof. intros E. unfold run, db_get, call. cbn [w_faults w_db sv_world]. by rewrite E. Qed.
Lemma tx_run {A} (f : DB → res store_error A * DB) d x d' : f d = (Ok x, d') →
  run (db_tx f) (quiet d) = (Ok (Ok x), quiet d').
Proof. intros E. unfold run, db_tx, call. cbn [w_faults w_db sv_world]. by rewrite E. Qed.
Lemma decode_run {A} (parse : string → res decode_error A) r a st : (slen (rq_Body r) ≤ 4096)%nat → parse (rq_Body r) = Ok a →
  decode parse r st = (Ok a, st).
Proof. intros Hl E. unfold decode. cbv zeta. rewrite stake_all, E, (proj2 (Nat.ltb_ge _ _) Hl) by done. done. Qed.
Lemma defer_run {A} (f : Srv → Srv) (m : H A) st x st' : m st = (x, st') → defer f m st = (x, f st').
Proof. unfold defer. by intros ->. Qed.

Lemma beginAuth_run s r d :
  (allow (client s r) t l).1 = true → k < 2 →
  beginAuth s r (quiet d) = (Ok tt, mkSrv (mkWorld d b p [] [t] sp) (allow (client s r) t l).2 c (k + 1) n hs cs al).
Proof.
  intros Ha Hk. unfold beginAuth. eapply bind_run; [apply Now_run|]. unfold mbind, H_bind, state. cbn [sv_limiter upd].
  destruct (allow (client s r) t l) as [ok l']. cbn in Ha. subst ok. cbn. replace (k <? 2) with true by lia. done.
Qed.
Lemma codeAllowed_run s r d : (allow (client s r) t c).1 = true →
  codeAllowed s r (quiet d) = (Ok tt, mkSrv (mkWorld d b p [] [t] sp) l (allow (client s r) t c).2 k n hs cs al).
Proof.
  intros Ha. unfold codeAllowed. eapply bind_run; [apply Now_run|]. unfold mbind, H_bind, state. cbn [sv_codeLimiter upd].
  destruct (allow (client s r) t c) as [ok l']. cbn in Ha. by subst ok.
Qed.
End quiet_runs.

Section works.
Context {pc : PendingCodec} {laws : PendingCodecLaws pc} {bodies : AuthBodies} (s : HttpServer)
  (rand : nat → nat → list Z) (IDKey : list Z → list Z → list Z).

(** The password step of an administrator with a second factor. *)
Lemma login_step r t st creds a :
  let d := w_db (sv_world st) in
  let pending := Token (rand (sv_draws st) 32%nat) in
  (allow (client s r) t (sv_limiter st)).1 = true → sv_slots st < 2 →
  (slen (rq_Body r) ≤ 4096)%nat → parse_credentials (rq_Body r) = Ok creds → a_Email a = ToLower (TrimSpace (cr_Email creds)) →
  db_admin d = Some a → has_factor a = true → VerifyPassword IDKey (a_PasswordHash a) (cr_Password creds) = true →
  (∀ x, In x (db_tokens d) → t_Hash x ≠ Hash pending) →
  ∃ response st', login s rand IDKey r (at_time t st) = (Err response, st') ∧ rs_Status response = 200 ∧
    In (mkCookie (cookie s "pending") pending "/" true (https s) "Strict" 300 (Some (t + 5 * Minute))) (rs_Cookies response) ∧
    BeginPending (Hash pending) (a_PasswordHash a) (scope s) t d = (Ok tt, w_db (sv_world st')) ∧
    sv_draws st' = S (sv_draws st) ∧ sv_codeLimiter st' = sv_codeLimiter st.
Proof.
  destruct st as [[d bk pg fs cl sp] lim clim slots n hs cs al].
  cbv zeta. cbn [sv_world w_db sv_draws sv_limiter sv_slots sv_codeLimiter]. set (pending := Token (rand n 32%nat)).
  intros Hl Hs Hlen Hp He Ha Hf Hv Hfresh.
  assert (∃ d', BeginPending (Hash pending) (a_PasswordHash a) (scope s) t d = (Ok tt, d')) as [d' Hb].
  { pose proof (BeginPending_fresh (Hash pending) (a_PasswordHash a) (scope s) t d Hfresh) as E.
    destruct (BeginPending _ _ _ _ _) as [x d']. cbn in E. subst x. by exists d'. }
  change (at_time t _) with (mkSrv (mkWorld d bk pg [] ([t]) sp) lim clim slots n hs cs al).
  eexists _, _. split.
  - unfold login. eapply bind_run; [by apply beginAuth_run|]. apply defer_run.
    eapply bind_run; [by apply decode_run|]. cbv zeta.
    eapply bind_run; [apply get_run; unfold PasswordOf; rewrite Ha, bool_decide_true by done; reflexivity|]. cbv beta iota.
    rewrite Hv. cbn [negb]. eapply bind_run; [apply get_run; unfold Factor; rewrite Ha; reflexivity|]. cbv beta iota.
    rewrite bool_decide_true by done. cbn [negb]. unfold after_password. rewrite Hf.
    eapply bind_run; [reflexivity|]. eapply bind_run; [apply Now_run|]. eapply bind_run; [apply tx_run; exact Hb|].
    eapply bind_run; [reflexivity|]. eapply bind_run; [apply Now_run|]. reflexivity.
  - cbn [rs_Status rs_Cookies sv_world w_db sv_draws sv_codeLimiter release upd sv_cookies]. split; [done|]. split; [|done].
    cbn. apply in_app_iff. right. by left.
Qed.

(** The code step of a pending sign-in. *)
Lemma code_step r t st d0 t0 a sealed secret code step n pending session :
  BeginPending (Hash pending) (a_PasswordHash a) (scope s) t0 d0 = (Ok tt, w_db (sv_world st)) →
  session = Token (rand (sv_draws st) 32%nat) →
  stepCookie s r "pending" = Some pending → (allow (client s r) t (sv_codeLimiter st)).1 = true →
  (slen (rq_Body r) ≤ 4096)%nat → parse_code (rq_Body r) = Ok code →
  db_admin d0 = Some a → a_TotpSecretSealed a = Some sealed → a_CodeLockedUntil a ≤ unix t → unix t < unix (t0 + pendingTTL) →
  Open (s_Key s) adminFactorContext sealed = Ok secret → VerifyTOTP secret code t (a_TotpLastStep a) = (step, true, false) →
  a_TotpLastStep a < step → (∀ x, In x (db_sessions d0) → se_Hash x ≠ Hash session) → ascii_text (scope s) = true →
  unix n < unix (t + sessionTTL) →
  ∃ response st', confirmCode s rand r (at_time t st) = (Err response, st') ∧ rs_Status response = 200 ∧
    In (mkCookie (cookieName s) session "/" true (https s) "Strict" 43200 (Some (t + 12 * Hour))) (rs_Cookies response) ∧
    rs_Body response = Some (JObj [("email", JStr (a_Email a)); ("csrf_token", JStr (CSRF (s_Key s) session (scope s)))]) ∧
    ReadSession session (scope s) n (w_db (sv_world st')) = Ok (mkSessionView (a_Email a) (unix (t + sessionTTL)) "" "").
Proof.
  destruct st as [[d bk pg fs cl sp] lim clim slots k hs cs al]. cbn [sv_world w_db sv_draws sv_codeLimiter].
  intros Hb -> Hc Hl Hlen Hp Ha Hs Hlock Hexp Ho Hv Hstep Hfresh Hsc Hn. set (session := Token (rand k 32%nat)) in *.
  destruct (sign_in_completes d0 d a sealed (Hash pending) session (scope s) t0 t (verify_pending s code t) step n)
    as (d' & Hd' & Hread); try done.
  { unfold verify_pending. rewrite Ho, Hv. done. }
  change (at_time t _) with (mkSrv (mkWorld d bk pg [] ([t]) sp) lim clim slots k hs cs al).
  eexists _, _. split.
  - unfold confirmCode. rewrite Hc. eapply bind_run; [by apply codeAllowed_run|]. eapply bind_run; [by apply decode_run|].
    eapply bind_run; [apply Now_run|]. eapply bind_run; [reflexivity|]. eapply bind_run; [apply tx_run; exact Hd'|]. cbv beta iota.
    eapply bind_run; [reflexivity|]. unfold signedIn. eapply bind_run; [reflexivity|]. reflexivity.
  - cbn [rs_Status rs_Cookies rs_Body sv_world w_db upd sv_cookies]. split; [done|]. split; [|by split].
    cbn. apply in_app_iff. right. by left.
Qed.

(** A session that reads is let in. *)
Lemma authorize_step r t st session v :
  find_cookie (cookieName s) r = Some session → slen session = 43%nat → ReadSession session (scope s) t (w_db (sv_world st)) = Ok v →
  is_get r = true ∨ rq_Header r "X-CSRF-Token" = CSRF (s_Key s) session (scope s) →
  ∃ st', authorize s r (at_time t st) = (Ok (v <| sn_CSRF := CSRF (s_Key s) session (scope s) |>, session), st').
Proof.
  destruct st as [[d bk pg fs cl sp] lim clim slots k hs cs al]. cbn [sv_world w_db]. intros Hc Hlen Hr Hcsrf.
  change (at_time t _) with (mkSrv (mkWorld d bk pg [] ([t]) sp) lim clim slots k hs cs al).
  eexists. unfold authorize. rewrite Hc, Hlen. cbn [Nat.eqb negb].
  eapply bind_run; [apply Now_run|]. eapply bind_run; [apply get_run; exact Hr|]. cbv beta iota zeta.
  destruct Hcsrf as [Hg|Hx]; [rewrite Hg; reflexivity|]. cbn [sn_CSRF upd]. rewrite Hx, bool_decide_true by done.
  by rewrite andb_false_r.
Qed.
End works.

(** C32. Signing in works, end to end.  When an administrator with a second
    factor sends the right email and password, the answer sets the cookie of
    a password step; when that cookie comes back within five minutes with a
    right code of a step not used before, and codes are not locked, the
    answer sets a session cookie and gives the CSRF token; and requests with
    that cookie (and, unless they only read, that token) are authorized as
    this administrator for the next twelve hours.  The rate limiters let the
    attempts through, no call fails, and the new random tokens do not repeat
    a stored one. *)
Theorem password_and_code_sign_in {pc : PendingCodec} {laws : PendingCodecLaws pc} {bodies : AuthBodies}
    s rand IDKey st r1 t1 creds a sealed secret :
  let d := w_db (sv_world st) in
  let pending := Token (rand (sv_draws st) 32%nat) in
  let session := Token (rand (S (sv_draws st)) 32%nat) in
  (∀ k n, length (rand k n) = n) → ascii_text (scope s) = true →
  (∀ x, In x (db_tokens d) → t_Hash x ≠ Hash pending) → (∀ x, In x (db_sessions d) → se_Hash x ≠ Hash session) →
  db_admin d = Some a → a_TotpSecretSealed a = Some sealed → sealed ≠ "" → Open (s_Key s) adminFactorContext sealed = Ok secret →
  (allow (client s r1) t1 (sv_limiter st)).1 = true → sv_slots st < 2 →
  (slen (rq_Body r1) ≤ 4096)%nat → parse_credentials (rq_Body r1) = Ok creds →
  a_Email a = ToLower (TrimSpace (cr_Email creds)) → VerifyPassword IDKey (a_PasswordHash a) (cr_Password creds) = true →
  ∃ response1 st1, login s rand IDKey r1 (at_time t1 st) = (Err response1, st1) ∧ rs_Status response1 = 200 ∧
    In (mkCookie (cookie s "pending") pending "/" true (https s) "Strict" 300 (Some (t1 + 5 * Minute))) (rs_Cookies response1) ∧
  ∀ r2 t2 code step, find_cookie (cookie s "pending") r2 = Some pending →
    (allow (client s r2) t2 (sv_codeLimiter st)).1 = true → (slen (rq_Body r2) ≤ 4096)%nat → parse_code (rq_Body r2) = Ok code →
    a_CodeLockedUntil a ≤ unix t2 < unix (t1 + 5 * Minute) → VerifyTOTP secret code t2 (a_TotpLastStep a) = (step, true, false) →
  ∃ response2 st2, confirmCode s rand r2 (at_time t2 st1) = (Err response2, st2) ∧ rs_Status response2 = 200 ∧
    In (mkCookie (cookieName s) session "/" true (https s) "Strict" 43200 (Some (t2 + 12 * Hour))) (rs_Cookies response2) ∧
    rs_Body response2 = Some (JObj [("email", JStr (a_Email a)); ("csrf_token", JStr (CSRF (s_Key s) session (scope s)))]) ∧
  ∀ r3 t3, find_cookie (cookieName s) r3 = Some session → unix t3 < unix (t2 + 12 * Hour) →
    is_get r3 = true ∨ rq_Header r3 "X-CSRF-Token" = CSRF (s_Key s) session (scope s) →
  ∃ st3, authorize s r3 (at_time t3 st2) =
    (Ok (mkSessionView (a_Email a) (unix (t2 + 12 * Hour)) (CSRF (s_Key s) session (scope s)) "", session), st3).
Proof.
  intros d pending session Hrand Hsc Hpf Hsf Ha Hs Hne Ho Hl Hsl Hlen Hp He Hv.
  destruct (login_step s rand IDKey r1 t1 st creds a) as (resp1 & st1 & E1 & Hst1 & Hck1 & Hb & Hdr & Hcl); try done.
  { unfold has_factor. rewrite Hs. by rewrite bool_decide_false. }
  exists resp1, st1. split; [exact E1|]. split; [exact Hst1|]. split; [exact Hck1|].
  intros r2 t2 code step Hc2 Hl2 Hlen2 Hp2 [Hlock Hexp] Hv2.
  assert (a_TotpLastStep a < step) as Hstep by (by eapply VerifyTOTP_later).
  assert (stepCookie s r2 "pending" = Some pending) as Hc2'.
  { unfold stepCookie. rewrite Hc2. unfold pending. rewrite slen_Token by apply Hrand. done. }
  assert (∀ n, unix n < unix (t2 + sessionTTL) → _) as Hcode
    by (intros n Hn; exact (code_step s rand r2 t2 st1 d t1 a sealed secret code step n pending session Hb
      ltac:(by rewrite Hdr) Hc2' ltac:(by rewrite Hcl) Hlen2 Hp2 Ha Hs Hlock Hexp Ho Hv2 Hstep Hsf Hsc Hn)).
  destruct (Hcode t2) as (resp2 & st2 & E2 & Hst2 & Hck2 & Hbody & _).
  { change sessionTTL with (43200 * Second). unfold unix. rewrite Z.div_add by done. lia. }
  exists resp2, st2. split; [exact E2|]. split; [exact Hst2|]. split; [exact Hck2|]. split; [exact Hbody|].
  intros r3 t3 Hc3 Ht3 Hcsrf. destruct (Hcode t3 Ht3) as (resp2' & st2' & E2' & _ & _ & _ & Hread).
  rewrite E2 in E2'. injection E2' as <- <-.
  destruct (authorize_step s r3 t3 st2 session _ Hc3 ltac:(unfold session; apply slen_Token, Hrand) Hread Hcsrf) as (st3 & E3).
  exists st3. exact E3.
Qed.

(** ** A concrete sign-in *)

Module Sample.
Definition bodies : AuthBodies := {|
  parse_credentials body := Ok (mkCredentials "" "a@b.c" body);
  parse_code body := Ok body;
  parse_reset body := Err BadValue;
  marshal_enrolment _ := [];
  unmarshal_enrolment _ := None;
  ToLower v := v;
  ParseAddress v := Some v |}.
Definition key : list Z := replicate 32 7.
Definition server : HttpServer :=
  mkHttpServer (mkInstallation "inst" "https" "https://db.example.com" "db.example.com" "g1" "1" "" "" "") key None true true true true true.
Definition rand (k n : nat) : list Z := replicate n (Z.of_nat (k mod 256)).
Definition password : string := "correct horse battery".
Definition hash : string := match Password sample_IDKey password (replicate 16 9) with Ok h => h | Err _ => "" end.
Definition sealed : string := Eval vm_compute in Seal key (replicate 12 1) adminFactorContext rfc_secret.
Definition admin : Admin := mkAdmin "a@b.c" hash 0 (Some sealed) 0 0 0.
Definition db : DB := empty_db <| db_admin := Some admin |>.
Definition start : Srv := mkSrv (mkWorld db ∅ empty_cluster [] [] []) new_limiter new_limiter 0 0 [] [] fresh_memory.
Definition request (method body : string) (cookies : list (string * string)) : Request :=
  mkRequest method "/" "" "10.0.0.1:5" (λ _, "") cookies body (λ _, "") (λ _, "").
Definition t1 : time := of_unix 1111111100.
Definition t2 : time := of_unix 1111111109.
Definition pending : string := Eval vm_compute in Token (rand 0 32).
Definition session : string := Eval vm_compute in Token (rand 1 32).
Definition login_request : Request := request "POST" password [].
Definition code_request : Request := request "POST" "081804" [(cookie server "pending", pending)].
End Sample.

Ltac evaluate := lazymatch goal with
  | |- (_ ≤ _)%nat => apply Nat.leb_le; vm_compute; reflexivity
  | |- _ ∨ _ => left; vm_compute; reflexivity
  | |- _ ∧ _ => split; vm_compute; done
  | |- _ => vm_compute; done
  end.
Lemma password_and_code_sign_in_witness :
  let pc := sample_pending in let bd := Sample.bodies in
  ∃ response1 st1 response2 st2 st3,
    login Sample.server Sample.rand sample_IDKey Sample.login_request (at_time Sample.t1 Sample.start) = (Err response1, st1) ∧
    confirmCode Sample.server Sample.rand Sample.code_request (at_time Sample.t2 st1) = (Err response2, st2) ∧ rs_Status response2 = 200 ∧
    authorize Sample.server (Sample.request "GET" "" [(cookieName Sample.server, Sample.session)]) (at_time Sample.t2 st2) =
      (Ok (mkSessionView "a@b.c" (1111111109 + 43200) (CSRF Sample.key Sample.session (scope Sample.server)) "", Sample.session), st3).
Proof.
  cbv zeta. set (pc := sample_pending). set (bd := Sample.bodies).
  destruct (password_and_code_sign_in (pc := pc) (laws := sample_pending_laws) (bodies := bd) Sample.server Sample.rand sample_IDKey Sample.start
    Sample.login_request Sample.t1 (mkCredentials "" "a@b.c" Sample.password) Sample.admin Sample.sealed rfc_secret
    (λ k n, length_replicate n (Z.of_nat (k mod 256))))
    as (response1 & st1 & E1 & _ & _ & H1); [evaluate..|].
  destruct (H1 Sample.code_request Sample.t2 "081804" 37037036) as (response2 & st2 & E2 & Hst & _ & _ & H2); [evaluate..|].
  destruct (H2 (Sample.request "GET" "" [(cookieName Sample.server, Sample.session)]) Sample.t2) as (st3 & E3); [evaluate..|].
  exists response1, st1, response2, st2, st3. auto.
Defined.

Definition waiting_for_code : Srv :=
  mkSrv (mkWorld (BeginPending (pc := sample_pending) (Hash Sample.pending) Sample.hash (scope Sample.server) Sample.t1 Sample.db).2
    ∅ empty_cluster [] [Sample.t2; Sample.t2; Sample.t2] []) new_limiter new_limiter 0 1 [] [] fresh_memory.
Lemma waiting_wf : auth_wf (w_db (sv_world waiting_for_code)).
Proof.
  change (auth_wf (auth_step (pc := sample_pending) Sample.t1 (ABeginPending (Hash Sample.pending) Sample.hash (scope Sample.server)) Sample.db).2).
  apply auth_step_wf; [exact I|]. destruct empty_auth_wf. split; auto. intros a [= <-]. done.
Qed.
Lemma https_session_needs_a_code_witness :
  let st := waiting_for_code in
  let m := sign_in (pc := sample_pending) (bodies := Sample.bodies) Sample.server Sample.rand sample_IDKey ECode
    Sample.code_request in
  length (db_sessions (w_db (sv_world (m st).2))) = 1%nat ∧
  proved_by_code (am := readings_of (sv_world st)) (pc := sample_pending) (bodies := Sample.bodies) Sample.server Sample.code_request (w_db (sv_world st)).
Proof.
  cbv zeta.
  assert (db_sessions (w_db (sv_world (sign_in (pc := sample_pending) (bodies := Sample.bodies) Sample.server
    Sample.rand sample_IDKey ECode Sample.code_request waiting_for_code).2)) =
    [mkSession (Hash Sample.session) (scope Sample.server) (1111111109 + 43200)]) as Hs by (vm_compute; reflexivity).
  split; [by rewrite Hs|].
  destruct (sign_in (pc := sample_pending) (bodies := Sample.bodies) Sample.server Sample.rand sample_IDKey ECode
    Sample.code_request waiting_for_code) as [[[]|response] st'] eqn:E. cbn [snd] in Hs.
  apply (proj2 (proj2 (https_session_needs_a_code (pc := sample_pending) (bodies := Sample.bodies) Sample.server Sample.rand sample_IDKey
    ECode Sample.code_request waiting_for_code response st' eq_refl waiting_wf E)) (mkSession (Hash Sample.session) (scope Sample.server) (1111111109 + 43200))).
  - rewrite Hs. by left.
  - vm_compute. by intros [].
Defined.
