(* ===== verification/HttpProjects.v ===== *)
(** * Projects and their access over HTTP ([internal/httpapi/projects.go],
      [internal/httpapi/access.go])

    The handlers that create, show, change and delete projects.  [Kick]
    wakes the worker or the provisioner and changes no state.  The process
    runs in UTC.  Live sessions and database sizes come from queries that
    only read ([PgQueries]); the certificate state is a file another program
    writes ([TLSState]). *)

From S2P Require Import Prelude GoStrings GoTime Sha Storage Schema Security AuthStore JobStore ProjectStore BackupStore World Cluster Postgres Netip Hba Inspect Worker Provision RateLimit Http.

(** ** Texts and queries *)

Class ApiText := {
  marshal_json : json → string; (* [json.Marshal] *)
  json_Valid : string → bool;
  quote_go : string → string; (* [%q] *)
  unicode_letter_or_digit : Z → bool; (* beyond Latin-1 *)
}.

Class PgQueries := {
  q_DatabaseSize : string → M Z;
  q_Connections : string → string → M (list Connection);
}.
Class PgQueriesLaws (pq : PgQueries) : Prop := {
  size_quiet database w r w' : q_DatabaseSize database w = (r, w') → same w w' ∧ w_pg w' = w_pg w;
  connections_quiet database role w r w' : q_Connections database role w = (r, w') → same w w' ∧ w_pg w' = w_pg w;
  queries_timely : (∀ database, timely (q_DatabaseSize database)) ∧ ∀ database role, timely (q_Connections database role);
}.

(** The operations of [Inspect] keep that contract. *)
Definition management_queries {ct : Catalog} : PgQueries := {| q_DatabaseSize := Inspect.DatabaseSize; q_Connections := Connections |}.
#[export] Instance management_queries_laws {ct : Catalog} {loaded_at} `{!CatalogLaws ct loaded_at} : PgQueriesLaws management_queries.
Proof.
  split; cbn; unfold Inspect.DatabaseSize, Connections.
  - intros database w r w'. unfold mbind, M_bind. destruct (database_size database w) as [[[size|]|e] w1] eqn:E; apply size_quiet_ in E; by intros [= <- <-].
  - intros database role w r w'. unfold mbind, M_bind. destruct (stat_activity w) as [[[activity ssl]|e] w1] eqn:E; apply activity_quiet in E; by intros [= <- <-].
  - destruct (catalog_timely (CatalogLaws := CatalogLaws0)) as (_ & _ & _ & Hs & Ha). split.
    + intros database. apply timely_bind; [apply Hs|]. auto with timely.
    + intros database role. apply timely_bind; [apply Ha|]. intros [activity ssl]. auto with timely.
Qed.

(** The runes of a text; bytes that are no valid UTF-8 give U+FFFD. *)
Fixpoint runes_ (skip : nat) (l : list Z) : list Z :=
  match skip, l with
  | _, [] => []
  | S skip, _ :: l => runes_ skip l
  | O, x :: tl =>
      match rune_size l, tl with
      | 2%nat, y :: _ => ((x mod 32) * 64 + y mod 64) :: runes_ 1 tl
      | 3%nat, y :: z :: _ => ((x mod 16) * 4096 + (y mod 64) * 64 + z mod 64) :: runes_ 2 tl
      | 4%nat, y :: z :: u :: _ => ((x mod 8) * 262144 + (y mod 64) * 4096 + (z mod 64) * 64 + u mod 64) :: runes_ 3 tl
      | _, _ => (if x <? 128 then x else 0xFFFD) :: runes_ 0 tl
      end
  end.
Definition runes (s : string) : list Z := runes_ 0 (bytes s).
Example runes_example : runes (text [97; 195; 169; 226; 130; 172; 240; 159; 152; 128; 255]%nat) = [97; 0xe9; 0x20ac; 0x1f600; 0xFFFD].
Proof. vm_compute. reflexivity. Qed.

(** [url.PathEscape] *)
Definition path_safe (a : ascii) : bool :=
  let n := nat_of_ascii a in
  ((48 <=? n) && (n <=? 57) || (65 <=? n) && (n <=? 90) || (97 <=? n) && (n <=? 122))%nat ||
  contains_byte a "-_.~$&+:=@".
Definition upper_hex (n : Z) : ascii := ascii_of_nat (Z.to_nat (if n <? 10 then 48 + n else 55 + n)).
Fixpoint PathEscape (s : string) : string :=
  match s with
  | "" => ""
  | String a r =>
      if path_safe a then String a (PathEscape r)
      else
        let n := Z.of_nat (nat_of_ascii a) in
        String "%" (String (upper_hex (n / 16)) (String (upper_hex (n mod 16)) (PathEscape r)))
  end.

(** ** Views *)

Definition project_fields (p : Project) : list (string * json) :=
  [("id", JStr (p_ID p)); ("name", JStr (p_Name p)); ("db_name", JStr (p_DBName p)); ("role_name", JStr (p_RoleName p));
   ("stage", JStr (p_Stage p)); ("failed", JBool (p_Failed p)); ("stage_error", JStr (p_StageError p));
   ("created_at", JNum (p_CreatedAt p)); ("ready_at", JNum (p_ReadyAt p)); ("frozen_at", JNum (p_FrozenAt p));
   ("deleting_at", JNum (p_DeletingAt p))].
Definition policy_json (st : PolicyStateRow * string) : json :=
  JObj [("current_revision", JNum (ps_CurrentRevision st.1)); ("applied_revision", JNum (ps_AppliedRevision st.1));
    ("state", JStr (ps_State st.1)); ("last_error", JStr (ps_LastError st.1)); ("addresses", JRaw st.2)].
Definition limit_fields (l : Limits) : list (string * json) :=
  [("statement_timeout_ms", JNum (l_StatementTimeoutMS l)); ("idle_in_transaction_ms", JNum (l_IdleInTransactionMS l));
   ("temp_file_limit_kb", JNum (l_TempFileLimitKB l)); ("lock_timeout_ms", JNum (l_LockTimeoutMS l));
   ("connection_limit", JNum (l_ConnectionLimit l))].
Definition limits_json (l : ProjectLimits) : json :=
  JObj (limit_fields (pl_Limits l) ++ [("revision", JNum (pl_Revision l)); ("applied_revision", JNum (pl_AppliedRevision l));
    ("last_error", JStr (pl_LastError l))]).
Definition connection_json (c : Connection) : json :=
  JObj [("client_addr", JStr (cn_ClientAddr c)); ("tls", JBool (cn_TLS c)); ("application_name", JStr (cn_ApplicationName c));
    ("since", JStr (format_rfc3339 (cn_Since c)))].

Record deletionView := mkDeletionView { dv_StartedAt : Z; dv_Active : bool; dv_LastError : string }.
Record projectView := mkProjectView {
  pv_Project : Project; pv_OpenToInternet : bool; pv_RotationPending : bool; pv_Limits : option ProjectLimits;
  pv_SizeBytes : option Z; pv_SizeError : string; pv_Policy : option (PolicyStateRow * string);
  pv_Connections : list Connection; pv_Deletion : option deletionView }.
#[export] Instance eta_projectView : Eta projectView := λ v,
  mkProjectView (pv_Project v) (pv_OpenToInternet v) (pv_RotationPending v) (pv_Limits v) (pv_SizeBytes v) (pv_SizeError v)
    (pv_Policy v) (pv_Connections v) (pv_Deletion v).
(** [omitempty] *)
Definition opt {A} (name : string) (f : A → json) (x : option A) : list (string * json) :=
  match x with Some a => [(name, f a)] | None => [] end.
Definition deletion_json (d : deletionView) : json :=
  JObj ([("started_at", JNum (dv_StartedAt d)); ("active", JBool (dv_Active d))] ++
    (if bool_decide (dv_LastError d = "") then [] else [("last_error", JStr (dv_LastError d))])).
Definition view_json (v : projectView) : json :=
  JObj (project_fields (pv_Project v) ++
    [("open_to_internet", JBool (pv_OpenToInternet v)); ("rotation_pending", JBool (pv_RotationPending v))] ++
    opt "limits" limits_json (pv_Limits v) ++
    [("size_bytes", match pv_SizeBytes v with Some n => JNum n | None => JNull end)] ++
    (if bool_decide (pv_SizeError v = "") then [] else [("size_error", JStr (pv_SizeError v))]) ++
    opt "policy" policy_json (pv_Policy v) ++
    match pv_Connections v with [] => [] | l => [("connections_now", JArr (map connection_json l))] end ++
    opt "deletion" deletion_json (pv_Deletion v)).

Definition openToInternet (addresses : list string) : bool :=
  List.existsb (λ a, bool_decide (a = "0.0.0.0/0") || bool_decide (a = "::/0")) addresses.

(** ** Request bodies *)

Record deleteRequest := mkDeleteRequest { de_ConfirmName : string; de_Acknowledge : bool }.
Class ProjectBodies := {
  parse_create : string → res decode_error (string * string); (* name, idempotency key *)
  parse_access : string → res decode_error (Z * list string); (* revision, addresses *)
  parse_writes : string → res decode_error bool;
  parse_limits : string → res decode_error (Limits * Z);
  parse_delete : string → res decode_error deleteRequest;
}.

Section projects.
Context {network : Network} {sv : Server} {codec : Codec} {addresses : AddressCodec} {hp : HbaPostgres} {at_ : ApiText} {pq : PgQueries}
  {bodies : ProjectBodies} (s : HttpServer) (rand : nat → nat → list Z) (TunnelSource : string) (prandom : World → string)
  (TLSState : option string).
#[local] Notation key := (s_Key s).

(** ** What every handler uses *)

Definition request_id : H string := state (λ st, (header "X-Request-ID" (sv_headers st), st)).
(** An action by the single administrator. *)
Definition auditEntry (action target : string) (detail : option json) : H AuditEntry :=
  Now ≫= λ t,
  request_id ≫= λ rid,
  mret (mkAuditEntry 0 (unix t) 1 action target rid (match detail with Some d => marshal_json d | None => "" end)).
(** A failure to record is not a failure of the action. *)
Definition http_audit (action target : string) (detail : option json) : H unit :=
  auditEntry action target detail ≫= λ entry, run (db_write (Audit entry)) ≫= λ _, mret tt.

Definition provisioningReady : H unit :=
  if negb (s_Mgmt s) || negb (s_Provisioner s)
  then failure 503 "postgres_unavailable" "Project provisioning is unavailable on this installation. Run host diagnostics."
  else mret tt.
Definition provisionerReady : H unit :=
  if negb (s_Provisioner s)
  then failure 503 "postgres_unavailable" "Project provisioning is unavailable on this installation. Run host diagnostics."
  else mret tt.
Definition jobsReady : H unit :=
  if negb (s_Jobs s) then failure 503 "postgres_unavailable" "Backups are unavailable on this installation. Run host diagnostics."
  else mret tt.

Definition access_mode : string := if https s then "direct" else "tunnel".
Definition access_host : string := if https s then in_Hostname (s_Config s) else "127.0.0.1".
Definition certificate : string :=
  let unknown := "{" +:+ quoted "state" +:+ ":" +:+ quoted "unknown" +:+ "}" in
  match TLSState with Some b => if json_Valid b then b else unknown | None => unknown end.
Definition databaseAccess : json :=
  JObj [("mode", JStr access_mode); ("host", JStr access_host); ("port", JNum 5432); ("certificate", JRaw certificate)].

Definition letter_or_digit (r : Z) : bool :=
  if r <=? 255 then
    between 48 r 57 || between 65 r 90 || between 97 r 122 || (r =? 0xaa) || (r =? 0xb5) || (r =? 0xba) ||
    between 0xc0 r 0xd6 || between 0xd8 r 0xf6 || between 0xf8 r 0xff
  else unicode_letter_or_digit r.
Definition validProjectName (name : string) : bool :=
  negb (bool_decide (name = "") || (64 <? slen name)%nat || negb (bool_decide (TrimSpace name = name))) &&
  forallb (λ r, letter_or_digit r || bool_decide (r ∈ bytes " -_.()")) (runes name).

Definition project (r : Request) : H Project :=
  run (db_get (ProjectByID (rq_PathValue r "id"))) ≫= λ e,
  match e with
  | Err (StoreError ErrProjectNotFound) => failure 404 "not_found" "Project not found."
  | Err _ => metadata_unavailable "Management storage is unavailable."
  | Ok p => mret p
  end.

(** The store in use, if one is configured. *)
Definition storageTarget : H (option string) :=
  if negb (s_Jobs s) then mret None
  else run StorageSettings ≫= λ e, mret (match e with Ok settings => Some (Target settings) | Err _ => None end).

(** ** Reading *)

Definition open_summary (p : Project) : H bool :=
  if in_stage "ready" p then
    run (db_get (PolicyState (p_ID p))) ≫= λ e,
    mret (match e with
          | Ok st => openToInternet (match unmarshal_addresses st.2 with Ok l => l | Err _ => [] end)
          | Err _ => false
          end)
  else mret false.
Definition deletion_summary (p : Project) : H deletionView :=
  run (db_read (LastDeleteJob (p_ID p))) ≫= λ e,
  mret (match e with
        | Ok (Some job) =>
            let in_state x := bool_decide (j_State job = x) in
            mkDeletionView (p_DeletingAt p) (in_state "queued" || in_state "running")
              (if in_state "failed" || in_state "interrupted" then j_Error job else "")
        | _ => mkDeletionView (p_DeletingAt p) false ""
        end).

Definition projectSummary (p : Project) : H projectView :=
  open_summary p ≫= λ open,
  let view := mkProjectView p open false None None "" None [] None in
  if in_stage "deleting" p then deletion_summary p ≫= λ d, mret (view <| pv_Deletion := Some d |>)
  else
    run (db_get (PendingPassword (p_ID p))) ≫= λ pending,
    let view := view <| pv_RotationPending := match pending with Ok x => negb (bool_decide (x = "")) | Err _ => false end |> in
    if in_stage "ready" p && s_Mgmt s then
      run (q_DatabaseSize (p_DBName p)) ≫= λ size,
      mret (match size with
            | Ok n => view <| pv_SizeBytes := Some n |>
            | Err _ => view <| pv_SizeError := "Size is unavailable while PostgreSQL cannot be reached." |>
            end)
    else mret view.

Fixpoint summaries (l : list Project) : H (list json) :=
  match l with
  | [] => mret []
  | p :: l => projectSummary p ≫= λ v, summaries l ≫= λ vs, mret (view_json v :: vs)
  end.
Definition listProjects (r : Request) : H void :=
  authorize s r ≫= λ _,
  run (db_read Projects) ≫= λ e,
  match e with
  | Err _ => metadata_unavailable "Management storage is unavailable."
  | Ok projects =>
      summaries projects ≫= λ views,
      write 200 (JObj [("projects", JArr views); ("database_access", databaseAccess)])
  end.

Definition getProject (r : Request) : H void :=
  authorize s r ≫= λ _,
  project r ≫= λ p,
  projectSummary p ≫= λ view,
  run (db_get (PolicyState (p_ID p))) ≫= λ st,
  run (db_get (ReadLimits (p_ID p))) ≫= λ limits,
  let view := view <| pv_Policy := match st with Ok x => Some x | Err _ => None end |>
                   <| pv_Limits := match limits with Ok x => Some x | Err _ => None end |> in
  (if in_stage "ready" p && s_Mgmt s then
     run (q_Connections (p_DBName p) (p_RoleName p)) ≫= λ c,
     mret (match c with Ok l => view <| pv_Connections := l |> | Err _ => view end)
   else mret view) ≫= λ view,
  write 200 (JObj [("project", view_json view); ("database_access", databaseAccess)]).

(** ** Creating and retrying *)

(** A key of the client, or one for the same name within the same minute. *)
Definition minute_of (t : time) : string := format_rfc3339 (t - t mod Minute).
Definition new_project (name suffix : string) : Project :=
  mkProject ("prj_" +:+ suffix) name ("app_" +:+ suffix) ("app_" +:+ suffix) "" "" false "" 0 0 0 0.
Definition new_suffix : H string := new_token rand ≫= λ t, mret (stake 12 (hex (bytes t))).
Definition save_project (project : Project) (idempotencyKey : string) : H (res werror (Project * bool)) :=
  new_token rand ≫= λ password,
  random rand 12 ≫= λ nonce,
  Now ≫= λ now,
  run (db_tx (CreateProject project idempotencyKey (Seal key nonce ("project:" +:+ p_ID project) (bytes password)) now)).

Definition createProject (r : Request) : H void :=
  authorize s r ≫= λ a,
  provisioningReady ≫= λ _,
  decode parse_create r ≫= λ in_,
  if negb (validProjectName in_.1) then
    failure 400 "invalid_name" (text [85;115;101;32;49;226;128;147]%nat +:+ "64 letters, digits, spaces, dots, dashes, underscores, or parentheses.")
  else
    (if bool_decide (in_.2 = "") || (128 <? slen in_.2)%nat
     then Now ≫= λ t, mret (Hash (sn_Email a.1 +:+ "|" +:+ in_.1 +:+ "|" +:+ minute_of t))
     else mret in_.2) ≫= λ idempotencyKey,
    new_suffix ≫= λ suffix,
    save_project (new_project in_.1 suffix) idempotencyKey ≫= λ e,
    match e with
    | Err _ => metadata_unavailable "Project could not be saved. Run host diagnostics."
    | Ok (created, wasCreated) =>
        projectSummary created ≫= λ v, write (if (wasCreated : bool) then 202 else 200) (view_json v)
    end.

Definition retryProject (r : Request) : H void :=
  authorize s r ≫= λ _,
  provisioningReady ≫= λ _,
  project r ≫= λ p,
  run (db_tx (RetryProject (p_ID p))) ≫= λ e,
  match e with
  | Err _ => failure 409 "not_failed" "Only failed projects can be retried."
  | Ok _ => respond 204 None
  end.

(** ** Credentials *)

Record connectionDetails_ := mkConnectionDetails {
  cd_Host : string; cd_Port : Z; cd_Database : string; cd_User : string; cd_Password : string; cd_SSLMode : string; cd_URL : string }.
Definition connectionDetails (p : Project) (password : string) : connectionDetails_ :=
  let sslmode := if https s then "verify-full" else "disable" in
  mkConnectionDetails access_host 5432 (p_DBName p) (p_RoleName p) password sslmode
    ("postgresql://" +:+ PathEscape (p_RoleName p) +:+ ":" +:+ PathEscape password +:+ "@" +:+ access_host +:+ ":5432/" +:+
     p_DBName p +:+ "?sslmode=" +:+ sslmode).
Definition libpqURL (c : connectionDetails_) : string :=
  if bool_decide (cd_SSLMode c = "verify-full") then cd_URL c +:+ "&sslrootcert=system" else cd_URL c.
Definition details_fields (c : connectionDetails_) : list (string * json) :=
  [("host", JStr (cd_Host c)); ("port", JNum (cd_Port c)); ("database", JStr (cd_Database c)); ("user", JStr (cd_User c));
   ("password", JStr (cd_Password c)); ("sslmode", JStr (cd_SSLMode c)); ("url", JStr (cd_URL c));
   ("psql", JStr ("psql " +:+ quote_go (libpqURL c)))].

Definition projectCredentials (p : Project) : H (option connectionDetails_) :=
  run (db_get (SealedPassword (p_ID p))) ≫= λ e,
  mret (match e with
        | Ok sealed =>
            match Open key ("project:" +:+ p_ID p) sealed with
            | Ok password => Some (connectionDetails p (text_of password))
            | Err _ => None
            end
        | Err _ => None
        end).

Definition getCredentials (r : Request) : H void :=
  authorize s r ≫= λ _,
  project r ≫= λ p,
  if negb (in_stage "ready" p) then failure 409 "not_ready" "Credentials become available once the database is ready."
  else
    projectCredentials p ≫= λ c,
    match c with
    | None => metadata_unavailable "Stored credentials could not be read."
    | Some c =>
        run (db_get (PendingPassword (p_ID p))) ≫= λ pending,
        write 200 (JObj (details_fields c ++
          [("rotation_pending", JBool (match pending with Ok x => negb (bool_decide (x = "")) | Err _ => false end))]))
    end.

Definition rotateCredentials (r : Request) : H void :=
  authorize s r ≫= λ _,
  provisioningReady ≫= λ _,
  project r ≫= λ p,
  if negb (in_stage "ready" p) || p_Failed p then failure 409 "not_ready" "Passwords can be changed once the database is ready."
  else
    auditEntry "credentials.rotate" (p_ID p) None ≫= λ entry,
    run (Rotate prandom p entry) ≫= λ e,
    match e with
    | Ok password =>
        Now ≫= λ t,
        write 200 (JObj [("credentials", JObj (details_fields (connectionDetails p password))); ("rotated_at", JNum (unix t))])
    | Err (StoreError ErrProjectNotFound) => failure 409 "not_ready" "Passwords can be changed once the database is ready."
    | Err (Message m) =>
        if bool_decide (m = rotation_text) then
          failure 502 "rotation_incomplete"
            "PostgreSQL did not confirm the new password yet. It will be finished automatically; the new password is shown once it is active."
        else metadata_unavailable "The password change could not be recorded; nothing changed."
    | Err _ => metadata_unavailable "The password change could not be recorded; nothing changed."
    end.

(** ** Access rules, limits and writes *)

Definition updateAccess (r : Request) : H void :=
  authorize s r ≫= λ _,
  provisioningReady ≫= λ _,
  project r ≫= λ p,
  decode parse_access r ≫= λ in_,
  if in_stage "deleting" p then failure 409 "deleting" "This database is being deleted."
  else
    match Normalize in_.2 with
    | Err e => failure 400 "invalid_addresses" e
    | Ok normalized =>
        Now ≫= λ now,
        run (db_tx (RecordPolicyRevision (p_ID p) in_.1 (marshal_addresses normalized) now)) ≫= λ e,
        match e with
        | Err (StoreError ErrRevisionConflict) =>
            failure 409 "revision_conflict" "The access rules changed elsewhere. Reload and try again."
        | Err _ => metadata_unavailable "Access rules could not be saved."
        | Ok _ =>
            http_audit "access.update" (p_ID p) (Some (JObj [("addresses", JNum (Z.of_nat (length normalized)))])) ≫= λ _,
            (if in_stage "ready" p then run (SyncPolicy TunnelSource) ≫= λ _, mret tt else mret tt) ≫= λ _,
            run (db_get (PolicyState (p_ID p))) ≫= λ st,
            match st with
            | Err _ => metadata_unavailable "Access rules could not be read back."
            | Ok st => write 200 (policy_json st)
            end
        end
    end.

Definition putLimits (r : Request) : H void :=
  authorize s r ≫= λ _,
  provisionerReady ≫= λ _,
  project r ≫= λ p,
  decode parse_limits r ≫= λ in_,
  if in_stage "deleting" p then failure 409 "deleting" "This database is being deleted."
  else
    match Limits_Validate in_.1 with
    | Err e => failure 400 "invalid_limits" (error_text (StoreError e))
    | Ok _ =>
        Now ≫= λ now,
        run (db_tx (SetProjectLimits (p_ID p) in_.1 in_.2 now)) ≫= λ e,
        match e with
        | Err (StoreError ErrRevisionConflict) => failure 409 "revision_conflict" "The limits changed elsewhere. Reload and try again."
        | Err _ => metadata_unavailable "Limits could not be saved."
        | Ok limits =>
            http_audit "limits.update" (p_ID p) (Some (JObj (limit_fields in_.1))) ≫= λ _,
            (if in_stage "ready" p then
               run SyncLimits ≫= λ _,
               run (db_get (ReadLimits (p_ID p))) ≫= λ current, mret (match current with Ok l => l | Err _ => limits end)
             else mret limits) ≫= λ limits,
            write 200 (limits_json limits)
        end
    end.

(** PostgreSQL first; a change that cannot be recorded is reverted. *)
Definition updateWrites (r : Request) : H void :=
  authorize s r ≫= λ _,
  provisioningReady ≫= λ _,
  project r ≫= λ p,
  if negb (in_stage "ready" p) || p_Failed p then failure 409 "not_ready" "Writes can be frozen once the database is ready."
  else
    decode parse_writes r ≫= λ frozen,
    if Bool.eqb frozen (negb (p_FrozenAt p =? 0)) then projectSummary p ≫= λ v, write 200 (view_json v)
    else
      run (SetWritesFrozen (p_DBName p) (p_RoleName p) frozen) ≫= λ e,
      match e with
      | Err _ => failure 503 "postgres_unavailable" "PostgreSQL did not apply the change. Run host diagnostics."
      | Ok _ =>
          (if frozen then Now else mret zero_time) ≫= λ at',
          run (db_tx (SetProjectFrozen (p_ID p) at')) ≫= λ e,
          match e with
          | Err _ =>
              run (SetWritesFrozen (p_DBName p) (p_RoleName p) (negb frozen)) ≫= λ _,
              metadata_unavailable "The change could not be saved and was reverted."
          | Ok _ =>
              let is_zero := bool_decide (at' = zero_time) in
              let p := p <| p_FrozenAt := if is_zero then 0 else unix at' |> in
              http_audit (if is_zero then "writes.resume" else "writes.freeze") (p_ID p) None ≫= λ _,
              projectSummary p ≫= λ v, write 200 (view_json v)
          end
      end.

(** ** Connection checks *)

Definition createConnectionCheck (r : Request) : H void :=
  authorize s r ≫= λ _,
  project r ≫= λ p,
  if negb (in_stage "ready" p) then failure 409 "not_ready" "The database is not ready yet."
  else
    projectCredentials p ≫= λ c,
    match c with
    | None => metadata_unavailable "Stored credentials could not be read."
    | Some c =>
        new_token rand ≫= λ t1,
        new_token rand ≫= λ t2,
        let id := "chk_" +:+ stake 16 t2 in
        let applicationName := "pgfy-check-" +:+ stake 24 t1 in
        Now ≫= λ now,
        run (db_tx (λ d, match NewConnectionCheck id (p_ID p) (Hash applicationName) access_mode now d with
                         | Ok d' => (Ok tt, d') | Err e => (Err e, d) end)) ≫= λ e,
        match e with
        | Err _ => metadata_unavailable "Connection check could not be saved."
        | Ok _ =>
            Now ≫= λ now2,
            write 201 (JObj [("id", JStr id); ("expires_at", JNum (unix (now2 + 10 * Minute))); ("application_name", JStr applicationName);
              ("command", JStr ("psql " +:+ quote_go (libpqURL c +:+ "&application_name=" +:+ applicationName) +:+ " -c " +:+
                 quoted "select pg_sleep(20)"))])
        end
    end.

(** The first connection whose name has the awaited hash completes the check. *)
Definition observe_check (checkID hash : string) (connections : list Connection) : H unit :=
  match List.find (λ c, bool_decide (Hash (cn_ApplicationName c) = hash)) connections with
  | None => mret tt
  | Some c =>
      Now ≫= λ t,
      let evidence := marshal_json (JObj [("client_addr", JStr (cn_ClientAddr c)); ("observed_at", JNum (unix t)); ("tls", JBool (cn_TLS c))]) in
      run (db_tx (CompleteConnectionCheck checkID evidence)) ≫= λ _, mret tt
  end.
Definition getConnectionCheck (r : Request) : H void :=
  authorize s r ≫= λ _,
  project r ≫= λ p,
  Now ≫= λ now,
  run (db_write (ExpireConnectionChecks now)) ≫= λ _,
  let checkID := rq_PathValue r "check" in
  run (db_get (PendingChallengeHash (p_ID p) checkID)) ≫= λ h,
  (match h with
   | Ok hash =>
       if s_Mgmt s then
         run (q_Connections (p_DBName p) (p_RoleName p)) ≫= λ c,
         match c with Ok connections => observe_check checkID hash connections | Err _ => mret tt end
       else mret tt
   | Err _ => mret tt
   end) ≫= λ _,
  run (db_get (ReadConnectionCheck (p_ID p) checkID)) ≫= λ e,
  match e with
  | Err (StoreError ErrProjectNotFound) => failure 404 "not_found" "Connection check not found."
  | Err _ => metadata_unavailable "Connection check could not be read."
  | Ok check =>
      write 200 (JObj ([("id", JStr (cc_ID check)); ("state", JStr (cc_State check)); ("expires_at", JNum (cc_ExpiresAt check));
        ("created_at", JNum (cc_CreatedAt check))] ++
        (if bool_decide (cc_Evidence check = "") then [] else [("evidence", JRaw (cc_Evidence check))])))
  end.

(** ** The connection budget *)

Definition role_view (names : list (string * string)) (u : RoleUse) : json :=
  let name := match List.find (λ p, bool_decide (p.1 = ru_Role u)) (rev names) with Some p => p.2 | None => "" end in
  JObj ([("role", JStr (ru_Role u)); ("limit", JNum (ru_Limit u)); ("connections", JNum (ru_Connections u))] ++
    (if bool_decide (name = "") then [] else [("project", JStr name)]) ++
    [("warning", JBool (NearLimit (ru_Connections u) (ru_Limit u)))]).
Definition connectionBudget (r : Request) : H void :=
  authorize s r ≫= λ _,
  if negb (s_Mgmt s) then failure 503 "postgres_unavailable" "PostgreSQL management is unavailable. Run host diagnostics."
  else
    run ConnectionBudget ≫= λ e,
    match e with
    | Err _ => failure 503 "postgres_unavailable" "Connection use could not be read from PostgreSQL."
    | Ok b =>
        run (db_read Projects) ≫= λ ps,
        let names := match ps with Ok l => map (λ p, (p_RoleName p, p_Name p)) l | Err _ => [] end in
        write 200 (JObj [("max_connections", JNum (bu_MaxConnections b)); ("superuser_reserved", JNum (bu_SuperuserReserved b));
          ("reserved", JNum (bu_Reserved b)); ("available", JNum (bu_Available b)); ("projects_used", JNum (bu_ProjectsUsed b));
          ("projects_limit", JNum (bu_ProjectsLimit b)); ("other_used", JNum (bu_OtherUsed b)); ("warning", JBool (Warnings b).1);
          ("overcommitted", JBool (bu_Available b <? bu_ProjectsLimit b)); ("roles", JArr (map (role_view names) (bu_Roles b)));
          ("system", JArr (map (role_view names) (bu_System b)))])
    end.

(** ** Deleting *)

Definition job_fields (j : Job) : list (string * json) :=
  [("id", JStr (j_ID j)); ("kind", JStr (j_Kind j)); ("project_id", JStr (default "" (j_ProjectID j))); ("state", JStr (j_State j));
   ("stage", JStr (j_Stage j)); ("error", JStr (j_Error j)); ("created_at", JNum (j_CreatedAt j));
   ("started_at", JNum (j_StartedAt j)); ("finished_at", JNum (j_FinishedAt j)); ("stage_at", JNum (j_StageAt j));
   ("scheduled", JBool (j_Scheduled j))].
Definition jobView (j : Job) : H json :=
  (if j_FinishedAt j =? 0 then Now ≫= λ t, mret (unix t) else mret (j_FinishedAt j)) ≫= λ finished,
  mret (JObj (job_fields j ++ [("result", JRaw (if json_Valid (j_Result j) then j_Result j else "{}"));
    ("elapsed_seconds", JNum (if 0 <? j_StartedAt j then finished - j_StartedAt j else 0))])).

(** A recoverable backup newer than the backup interval. *)
Definition recentlyBackedUp (p : Project) : H bool :=
  storageTarget ≫= λ target,
  match target with
  | None => mret false
  | Some target =>
      run (db_read ReadBackupPolicy) ≫= λ policy,
      match policy with
      | Err _ => mret false
      | Ok policy =>
          run (db_read (NewestRecoverable target (in_ID (s_Config s)))) ≫= λ newest,
          match newest with
          | Err _ => mret false
          | Ok newest => Now ≫= λ t, mret (unix (t - Interval policy) <? default 0 ((newest : gmap string Z) !! p_ID p))
          end
      end
  end.

(** What must hold before a deletion starts; the result is whether it goes
    ahead without a recent backup. *)
Definition may_delete (p : Project) (in_ : deleteRequest) : H bool :=
  if in_stage "deleting" p then mret false
  else if negb (in_stage "ready" p) && negb (p_Failed p)
  then failure 409 "not_deletable" "Wait until the database is ready or its setup has failed."
  else if negb (bool_decide (de_ConfirmName in_ = p_Name p)) then failure 400 "name_mismatch" "Type the database name exactly to confirm."
  else if in_stage "ready" p then
    recentlyBackedUp p ≫= λ recent : bool,
    if recent then mret false
    else if negb (de_Acknowledge in_) then
      failure 409 "backup_required" "There is no recoverable backup newer than the backup interval. Back up first, or confirm that data written since the last backup will be lost."
    else mret true
  else mret false.

Definition deleteProject (r : Request) : H void :=
  authorize s r ≫= λ _,
  jobsReady ≫= λ _,
  provisionerReady ≫= λ _,
  project r ≫= λ p,
  decode parse_delete r ≫= λ in_,
  may_delete p in_ ≫= λ acknowledged,
  auditEntry "project.delete" (p_ID p) (Some (JObj [("acknowledged_without_backup", JBool acknowledged); ("name", JStr (p_Name p))])) ≫= λ entry,
  new_token rand ≫= λ id,
  Now ≫= λ now,
  run (db_tx (BeginProjectDeletion (p_ID p) (NewDeleteJob (stake 16 id)) entry now)) ≫= λ e,
  match e with
  | Err (StoreError ErrMaintenance) => failure 503 "maintenance" "An update is in progress. Try again when it finishes."
  | Err (StoreError ErrNotDeletable) => failure 409 "not_deletable" "Wait until the database is ready or its setup has failed."
  | Err (StoreError ErrProjectBusy) =>
      failure 409 "job_busy" "A backup or restore of this database is running. Try again when it finishes."
  | Err (StoreError ErrProjectNotFound) => failure 404 "not_found" "Project not found."
  | Err _ => metadata_unavailable "The deletion could not be saved."
  | Ok (job, _) =>
      run (db_get (ProjectByID (p_ID p))) ≫= λ updated,
      (match updated with
       | Ok u => mret u
       | Err _ => Now ≫= λ t, mret (p <| p_Stage := "deleting" |> <| p_DeletingAt := unix t |>)
       end) ≫= λ p,
      projectSummary p ≫= λ v,
      jobView job ≫= λ j,
      write 202 (JObj [("project", view_json v); ("job", j)])
  end.
End projects.
