(* ===== verification/HttpBackups.v ===== *)
(** * Backups, storage and recovery over HTTP ([internal/httpapi/backups.go])
      and the system status ([internal/httpapi/server.go])

    Handlers that read the reconciled view of the bucket from management
    storage, change the storage settings and the backup policy, and queue
    backups and restores.  The bucket's own answer about versioning is
    [versioning_of], a function of the settings it is asked with. *)

From S2P Require Import Prelude GoStrings GoTime Netip Sha Storage Schema Security AuthStore JobStore ProjectStore BackupStore World Cluster Postgres Hba Worker Provision RateLimit Http HttpAuth HttpProjects.

Class BackupBodies := {
  parse_settings : string → res decode_error Settings;
  (** Decoding on top of the stored policy keeps the fields left out. *)
  parse_policy : BackupPolicy → string → res decode_error BackupPolicy;
  parse_restore : string → res decode_error (string * string); (* manifest key, name *)
}.

(** ** Views *)

Definition settings_json (s : Settings) : json :=
  JObj [("endpoint", JStr (s_Endpoint s)); ("region", JStr (s_Region s)); ("bucket", JStr (s_Bucket s)); ("prefix", JStr (s_Prefix s));
    ("access_key", JStr (s_AccessKey s)); ("secret_key", JStr (s_SecretKey s)); ("session_token", JStr (s_SessionToken s));
    ("path_style", JBool (s_PathStyle s)); ("private_endpoint", JBool (s_PrivateEndpoint s));
    ("bucket_protection", JStr (s_BucketProtection s)); ("protection_state", JStr (s_ProtectionState s));
    ("protection_checked_at", JNum (s_ProtectionCheckedAt s))].
Definition policy_fields (p : BackupPolicy) : json :=
  JObj [("target_interval_hours", JNum (bp_TargetIntervalHours p)); ("retention_daily", JNum (bp_RetentionDaily p));
    ("retention_weekly", JNum (bp_RetentionWeekly p)); ("preferred_hour", JNum (bp_PreferredHour p)); ("updated_at", JNum (bp_UpdatedAt p))].
Definition backup_json (b : Backup) : json :=
  JObj [("id", JStr (b_ID b)); ("project_id", JStr (default "" (b_ProjectID b))); ("job_id", JStr (b_JobID b));
    ("object_key", JStr (b_ObjectKey b)); ("size_bytes", JNum (b_SizeBytes b)); ("created_at", JNum (b_CreatedAt b));
    ("manifest", JRaw (b_Manifest b))].
Definition bucket_backup_json (b : BucketBackup) : json :=
  JObj [("manifest_key", JStr (bb_ManifestKey b)); ("archive_key", JStr (bb_ArchiveKey b)); ("db_name", JStr (bb_DBName b));
    ("taken_at", JNum (bb_TakenAt b)); ("state", JStr (bb_State b)); ("installation_id", JStr (bb_InstallationID b));
    ("project_id", JStr (bb_ProjectID b)); ("project_name", JStr (bb_ProjectName b)); ("postgres_version", JStr (bb_PostgresVersion b));
    ("table_count", JNum (bb_TableCount b)); ("size_bytes", JNum (bb_SizeBytes b))].

Record databaseGroup := mkDatabaseGroup {
  dg_DBName : string; dg_ProjectID : string; dg_ProjectName : string; dg_InstallationID : string; dg_Mixed : bool; dg_Foreign : bool;
  dg_NewestAt : Z; dg_Count : Z; dg_TotalBytes : Z; dg_HasMore : bool; dg_ManifestOnly : Z; dg_Damaged : Z; dg_ReconciledAt : Z;
  dg_Backups : list BucketBackup }.
Definition nonempty (name v : string) : list (string * json) := if bool_decide (v = "") then [] else [(name, JStr v)].
Definition group_json (g : databaseGroup) : json :=
  JObj ([("db_name", JStr (dg_DBName g))] ++ nonempty "project_id" (dg_ProjectID g) ++ nonempty "project_name" (dg_ProjectName g) ++
    nonempty "installation_id" (dg_InstallationID g) ++
    [("mixed", JBool (dg_Mixed g)); ("foreign", JBool (dg_Foreign g)); ("newest_at", JNum (dg_NewestAt g)); ("count", JNum (dg_Count g));
     ("total_bytes", JNum (dg_TotalBytes g)); ("has_more", JBool (dg_HasMore g)); ("manifest_only", JNum (dg_ManifestOnly g));
     ("damaged", JNum (dg_Damaged g)); ("reconciled_at", JNum (dg_ReconciledAt g)); ("backups", JArr (map bucket_backup_json (dg_Backups g)))]).

Definition discoveryPage : nat := 20.

(** The group of one folder, from its cached page. *)
Definition group_of (installation : string) (prefix : PrefixState) (backups : list BucketBackup) (more : bool) : databaseGroup :=
  let total := fold_left (λ n b, n + bb_SizeBytes b) backups 0 in
  let named := match backups with newest :: _ => if px_Mixed prefix then None else Some newest | [] => None end in
  mkDatabaseGroup (px_DBName prefix)
    (match named with Some b => bb_ProjectID b | None => "" end)
    (match named with Some b => bb_ProjectName b | None => "" end)
    (match named with Some b => bb_InstallationID b | None => "" end)
    (px_Mixed prefix)
    (match named with Some b => negb (bool_decide (bb_InstallationID b = installation)) | None => false end)
    (match backups with newest :: _ => bb_TakenAt newest | [] => 0 end)
    (px_Complete prefix) total more (px_ManifestOnly prefix) (px_Damaged prefix) (px_ReconciledAt prefix) backups.

(** [time.Parse] with the layout of a directory name: a fraction after the
    seconds is accepted and skipped. *)
Fixpoint drop_digits (s : string) : string := match s with String c r => if is_digit c then drop_digits r else s | "" => "" end.
Definition strip_fraction (s : string) : string :=
  match sdrop 15 s with
  | String c (String e r) =>
      if (bool_decide (c = "."%char) || bool_decide (c = ","%char)) && is_digit e then stake 15 s +:+ drop_digits r else s
  | _ => s
  end.
Definition parse_page_time (s : string) : option time := parse_compact (strip_fraction s).

(** [strconv.Atoi] for the numbers a page size can be. *)
Definition Atoi (s : string) : option Z :=
  let '(sign, rest) := match s with
    | String c r => if bool_decide (c = "-"%char) then (-1, r) else if bool_decide (c = "+"%char) then (1, r) else (1, s)
    | "" => (1, "")
    end in
  if bool_decide (rest = "") || negb (sforall is_digit rest) then None
  else let n := sign * decimal_value 0 rest in if (- 2 ^ 63 <=? n) && (n <? 2 ^ 63) then Some n else None.

Record CheckStep := mkCheckStep { cs_Name : string; cs_OK : bool; cs_Error : string; cs_Detail : string }.
Definition step_json (c : CheckStep) : json :=
  JObj ([("name", JStr (cs_Name c)); ("ok", JBool (cs_OK c))] ++ nonempty "error" (cs_Error c) ++ nonempty "detail" (cs_Detail c)).

Section backups.
Context {network : Network} {sv : Server} {codec : Codec} {addresses : AddressCodec} {at_ : ApiText} {pq : PgQueries}
  {bodies : BackupBodies} (s : HttpServer) (rand : nat → nat → list Z) (TLSState : option string)
  (versioning_of : Settings → versioning_answer) (PG : option (M string))
  (Versions host_status : json) (sqlite_version : string).

Definition not_configured (e : werror) : bool :=
  match e with Message m => bool_decide (m = "backup storage is not configured") | _ => false end.

(** ** Storage settings *)

Definition default_settings : Settings :=
  mkSettings "https://s3.us-east-1.amazonaws.com" "us-east-1" "" "pgfy" "" "" "" false false "" "" 0.
Definition getStorage (r : Request) : H void :=
  authorize s r ≫= λ _,
  jobsReady s ≫= λ _,
  run StorageSettings ≫= λ e,
  match e with
  | Err e =>
      if not_configured e then write 200 (JObj [("configured", JBool false); ("settings", settings_json default_settings)])
      else metadata_unavailable "Storage settings could not be read."
  | Ok settings => write 200 (JObj [("configured", JBool true); ("settings", settings_json (Storage.Masked settings))])
  end.

(** Blank or masked credentials keep the stored ones. *)
Definition keep_credentials (existing in_ : Settings) : Settings :=
  let masked := Storage.Masked existing in
  in_ <| s_AccessKey := if bool_decide (s_AccessKey in_ = "") || bool_decide (s_AccessKey in_ = s_AccessKey masked)
                        then s_AccessKey existing else s_AccessKey in_ |>
      <| s_SecretKey := if bool_decide (s_SecretKey in_ = "") || bool_decide (s_SecretKey in_ = s_SecretKey masked)
                        then s_SecretKey existing else s_SecretKey in_ |>
      <| s_SessionToken := if bool_decide (s_SessionToken in_ = s_SessionToken masked) then s_SessionToken existing else s_SessionToken in_ |>.

(** A bucket whose provider says versioning is off is refused whatever was chosen. *)
Definition checkProtection (in_ : Settings) : M string :=
  lift (New in_) ≫= λ client,
  ClientProtection (versioning_of client) ≫= λ state,
  if bool_decide (state = VersioningDisabled) then
    throw (Message "this bucket does not keep versions of deleted objects. Enable versioning on the bucket, then save again.")
  else if bool_decide (state = VersioningUnsupported) && bool_decide (s_BucketProtection in_ = ProtectionVersioning) then
    throw (Message "this provider does not report bucket versioning. Protect the bucket with the provider's own lock and acknowledge it instead.")
  else mret state.

Definition putStorage (r : Request) : H void :=
  authorize s r ≫= λ _,
  jobsReady s ≫= λ _,
  decode parse_settings r ≫= λ in_,
  let in_ := in_ <| s_ProtectionState := "" |> <| s_ProtectionCheckedAt := 0 |> in
  run StorageSettings ≫= λ existing,
  let in_ := match existing with Ok existing => keep_credentials existing in_ | Err _ => in_ end in
  match Settings_Validate in_ with
  | Err e => failure 400 "invalid_storage" (error_text e)
  | Ok _ =>
      run (checkProtection in_) ≫= λ e,
      match e with
      | Err e => failure 400 "invalid_storage" (error_text e)
      | Ok state =>
          Now ≫= λ t,
          let in_ := in_ <| s_ProtectionState := state |> <| s_ProtectionCheckedAt := unix t |> in
          run (SaveStorageSettings in_) ≫= λ e,
          match e with
          | Err _ => metadata_unavailable "Storage settings could not be saved."
          | Ok _ =>
              http_audit "settings.storage" (s_Bucket in_)
                (Some (JObj [("endpoint", JStr (s_Endpoint in_)); ("prefix", JStr (s_Prefix in_))])) ≫= λ _,
              write 200 (JObj [("configured", JBool true); ("settings", settings_json (Storage.Masked in_))])
          end
      end
  end.

(** [Client.Check]: an object is uploaded, listed, downloaded and removed, and
    the bucket is asked about its protection. *)
Definition check_upload (k : string) (size : Z) : M unit :=
  call (λ w, (Ok tt, w <| w_bucket := <[k := mkStored size Other]> (w_bucket w) |>)).
Definition check_list (k : string) : M bool := call (λ w, (Ok (bool_decide (k ∈ keys_under k (w_bucket w))), w)).
Definition check_download (k : string) (size : Z) : M bool :=
  call (λ w, (match w_bucket w !! k with
              | Some o => Ok ((so_Size o =? size) && match so_Content o with Other => true | _ => false end)
              | None => Err Unavailable end, w)).
Definition fail_step (steps : list CheckStep) (name message : string) : list CheckStep := steps ++ [mkCheckStep name false message ""].
Definition pass_step (steps : list CheckStep) (name : string) : list CheckStep := steps ++ [mkCheckStep name true "" ""].
Definition protection_step (state : string) : CheckStep :=
  if bool_decide (state = VersioningEnabled) then mkCheckStep "protection" true "" "the bucket keeps versions of deleted objects"
  else if bool_decide (state = VersioningDisabled) then
    mkCheckStep "protection" false "versioning is off for this bucket; a deleted backup cannot be recovered" ""
  else mkCheckStep "protection" true "" "this provider does not report versioning; protection is the acknowledged setting".
Definition ClientCheck (client : Settings) : M (list CheckStep) :=
  now_ ≫= λ t,
  let k := Storage.key client ["checks"; "pgfy-check-" +:+ decimal t +:+ ".txt"] in
  now_ ≫= λ t2,
  let size := Z.of_nat (slen ("pgfy storage check " +:+ format_rfc3339 t2)) in
  attempt (check_upload k size) ≫= λ e,
  match e with
  | Err e => mret (fail_step [] "upload" (error_text e))
  | Ok _ =>
      let steps := pass_step [] "upload" in
      attempt (check_list k) ≫= λ e,
      match e with
      | Err e => mret (fail_step steps "list" (error_text e))
      | Ok false => mret (fail_step steps "list" "the uploaded object was not listed")
      | Ok true =>
          let steps := pass_step steps "list" in
          attempt (check_download k size) ≫= λ e,
          match e with
          | Err e => mret (fail_step steps "download" (error_text e))
          | Ok false => mret (fail_step steps "download" "downloaded content differs from the upload")
          | Ok true =>
              let steps := pass_step steps "download" in
              attempt (Remove k) ≫= λ e,
              match e with
              | Err e => mret (fail_step steps "cleanup" (error_text e))
              | Ok _ =>
                  let steps := pass_step steps "cleanup" in
                  attempt (ClientProtection (versioning_of client)) ≫= λ e,
                  mret (match e with
                        | Err e => fail_step steps "protection" (error_text e)
                        | Ok state => steps ++ [protection_step state]
                        end)
              end
          end
      end
  end.

Definition checkStorage (r : Request) : H void :=
  authorize s r ≫= λ _,
  jobsReady s ≫= λ _,
  run StorageClient ≫= λ e,
  match e with
  | Err e =>
      if not_configured e then failure 409 "storage_not_configured" "Save storage settings first."
      else failure 400 "invalid_storage" (error_text e)
  | Ok client =>
      run (ClientCheck client) ≫= λ e,
      let steps := match e with Ok l => l | Err _ => [] end in
      write 200 (JObj [("ok", JBool (negb (bool_decide (length steps = 0%nat)) && forallb cs_OK steps)); ("steps", JArr (map step_json steps))])
  end.

(** ** Backups of a project *)

(** [{"scheduled":false}] *)
Definition manual_input : string := "{" +:+ quoted "scheduled" +:+ ":false}".
Definition new_job_id : H string := new_token rand ≫= λ t, mret ("job_" +:+ stake 16 t).

Definition startBackup (r : Request) : H void :=
  authorize s r ≫= λ _,
  jobsReady s ≫= λ _,
  project r ≫= λ p,
  if negb (in_stage "ready" p) || p_Failed p then failure 409 "not_ready" "The database is not ready yet."
  else
    run StorageSettings ≫= λ e,
    match e with
    | Err _ => failure 409 "storage_not_configured" "Configure backup storage in Settings before backing up."
    | Ok _ =>
        new_job_id ≫= λ id,
        Now ≫= λ now,
        run (db_tx (EnqueueBackupJob id (p_ID p) manual_input false now)) ≫= λ e,
        match e with
        | Err (StoreError ErrJobBusy) =>
            failure 409 "job_busy" "Another backup or restore is still running. Try again when it finishes."
        | Err _ => metadata_unavailable "The backup could not be queued."
        | Ok job => jobView job ≫= λ v, write 202 v
        end
    end.

Fixpoint jobViews (l : list Job) : H (list json) :=
  match l with
  | [] => mret []
  | j :: l => jobView j ≫= λ v, jobViews l ≫= λ vs, mret (v :: vs)
  end.

(** What the bucket, not the history, says is recoverable, and when the next backup is due. *)
Definition next_backup (policy : BackupPolicy) (schedule : BackupSchedule) (newest : Z) : Z :=
  let next := if 0 <? newest then NextAfter policy newest else 0 in
  if next <? bs_NextAttemptAt schedule then bs_NextAttemptAt schedule else next.
(** A read whose error is ignored leaves the zero value. *)
Definition or_zero {A} (zero : A) (r : res werror A) : A := match r with Ok a => a | Err _ => zero end.

Definition listBackups (r : Request) : H void :=
  authorize s r ≫= λ _,
  project r ≫= λ p,
  run (db_read (ProjectBackups (p_ID p) 50)) ≫= λ e,
  or_fail e 503 "metadata_unavailable" "Backup history could not be read." ≫= λ backups,
  run (db_read (ProjectJobs (p_ID p) 20)) ≫= λ e,
  or_fail e 503 "metadata_unavailable" "Backup history could not be read." ≫= λ history,
  jobViews history ≫= λ views,
  storageTarget s ≫= λ target,
  run (db_read ReadBackupPolicy) ≫= λ policy,
  let policy := or_zero (mkBackupPolicy 0 0 0 0 0) policy in
  run (db_read (ReadSchedule (p_ID p))) ≫= λ schedule,
  let schedule := or_zero (mkBackupSchedule "" 0 0 0) schedule in
  (match target with
   | Some target =>
       run (db_read (NewestRecoverable target (in_ID (s_Config s)))) ≫= λ e,
       mret (match e with Ok m => default 0 ((m : gmap string Z) !! p_ID p) | Err _ => 0 end)
   | None => mret 0
   end) ≫= λ newest,
  write 200 (JObj [("backups", JArr (map backup_json backups)); ("jobs", JArr views);
    ("storage_configured", JBool (match target with Some _ => true | None => false end));
    ("next_scheduled_at", JNum (next_backup policy schedule newest)); ("newest_backup_at", JNum newest);
    ("target_interval_hours", JNum (bp_TargetIntervalHours policy)); ("failures", JNum (bs_Failures schedule));
    ("last_attempt_at", JNum (bs_LastAttemptAt schedule))]).

Definition getJob (r : Request) : H void :=
  authorize s r ≫= λ _,
  run (db_get (JobByID (rq_PathValue r "id"))) ≫= λ e,
  match e with
  | Err (StoreError ErrProjectNotFound) => failure 404 "not_found" "Job not found."
  | Err _ => metadata_unavailable "Job could not be read."
  | Ok job => jobView job ≫= λ v, write 200 v
  end.

(** ** The backup policy *)

Definition getBackupPolicy (r : Request) : H void :=
  authorize s r ≫= λ _,
  run (db_read ReadBackupPolicy) ≫= λ e,
  or_fail e 503 "metadata_unavailable" "Backup settings could not be read." ≫= λ policy, write 200 (policy_fields policy).

Definition putBackupPolicy (r : Request) : H void :=
  authorize s r ≫= λ _,
  run (db_read ReadBackupPolicy) ≫= λ e,
  or_fail e 503 "metadata_unavailable" "Backup settings could not be read." ≫= λ stored,
  decode (parse_policy stored) r ≫= λ in_,
  Now ≫= λ now,
  run (db_tx (SetBackupPolicy in_ now)) ≫= λ e,
  match e with
  | Err e => failure 400 "invalid_policy" (error_text e)
  | Ok _ =>
      http_audit "settings.backups" "" (Some (policy_fields in_)) ≫= λ _,
      run (db_read ReadBackupPolicy) ≫= λ e,
      or_fail e 503 "metadata_unavailable" "Backup settings could not be read back." ≫= λ policy, write 200 (policy_fields policy)
  end.

(** ** Recovery *)

Definition group (target : string) (prefix : PrefixState) : H (res werror databaseGroup) :=
  run (db_read (BucketBackups target (px_DBName prefix) 0 discoveryPage)) ≫= λ e,
  mret (match e with Ok (backups, more) => Ok (group_of (in_ID (s_Config s)) prefix backups more) | Err e => Err e end).
Definition shown (g : databaseGroup) : bool := (0 <? dg_Count g) || (0 <? dg_ManifestOnly g) || (0 <? dg_Damaged g).
Fixpoint groups (target : string) (prefixes : list PrefixState) : H (list databaseGroup) :=
  match prefixes with
  | [] => mret []
  | p :: l =>
      group target p ≫= λ e,
      or_fail e 503 "metadata_unavailable" "Backups could not be read." ≫= λ g,
      groups target l ≫= λ gs, mret (if shown g then g :: gs else gs)
  end.

Definition page_limit (value : string) : option nat :=
  if bool_decide (value = "") then Some discoveryPage
  else match Atoi value with Some n => if (n <? 1) || (100 <? n) then None else Some (Z.to_nat n) | None => None end.
Definition pageDatabase (r : Request) (target name : string) : H void :=
  if negb (ValidDatabaseSegment name) then failure 400 "invalid_request" "That is not a database folder written by this application."
  else
    let value := rq_Query r "before" in
    match (if bool_decide (value = "") then Some 0 else unix <$> parse_page_time value) with
    | None => failure 400 "invalid_request" "Provide a backup timestamp to page from."
    | Some before =>
        match page_limit (rq_Query r "limit") with
        | None => failure 400 "invalid_request" "Ask for between 1 and 100 backups."
        | Some limit =>
            run (db_read (BucketBackups target name before limit)) ≫= λ e,
            or_fail e 503 "metadata_unavailable" "Backups could not be read." ≫= λ page,
            write 200 (JObj [("db_name", JStr name); ("backups", JArr (map bucket_backup_json page.1)); ("has_more", JBool page.2)])
        end
    end.

Definition listRecoveryBackups (r : Request) : H void :=
  authorize s r ≫= λ _,
  jobsReady s ≫= λ _,
  run StorageSettings ≫= λ e,
  match e with
  | Err e =>
      if not_configured e then write 200 (JObj [("state", JStr "storage_not_configured"); ("databases", JArr [])])
      else failure 400 "invalid_storage" (error_text e)
  | Ok settings =>
      let target := Target settings in
      run (db_read (ReadStorageTarget target)) ≫= λ e,
      or_fail e 503 "metadata_unavailable" "Backups could not be read." ≫= λ state,
      let name := rq_Query r "db" in
      if negb (bool_decide (name = "")) then pageDatabase r target name
      else
        run (db_read (PrefixStates target)) ≫= λ e,
        or_fail e 503 "metadata_unavailable" "Backups could not be read." ≫= λ prefixes,
        groups target prefixes ≫= λ gs,
        run (db_read ActiveJobs) ≫= λ active,
        run (db_read (RecentJobs 20)) ≫= λ recent,
        jobViews (List.filter (λ j, bool_decide (j_Kind j = "restore")) (or_zero [] recent)) ≫= λ restores,
        write 200 (JObj [("state", JStr (if st_ReconciledAt state =? 0 then "checking" else "ok"));
          ("databases", JArr (map group_json gs)); ("installation_id", JStr (in_ID (s_Config s)));
          ("reconciled_at", JNum (st_ReconciledAt state)); ("storage_error", JStr (st_LastError state));
          ("busy", JBool (negb (bool_decide (length (or_zero [] active) = 0%nat)))); ("restores", JArr restores)])
  end.

(** A restore always gets a project of its own. *)
Definition restore_key (email manifestKey name : string) (t : time) : string :=
  Hash (email +:+ "|restore|" +:+ manifestKey +:+ "|" +:+ name +:+ "|" +:+ minute_of t).
Definition restore_job_input (manifestKey name projectID : string) : string :=
  marshal_json (JObj [("manifest_key", JStr manifestKey); ("name", JStr name); ("project_id", JStr projectID)]).
Definition restore_answer (created : Project) (job : Job) : H void :=
  jobView job ≫= λ v, write 202 (JObj [("project", JObj (project_fields created)); ("job", v)]).
Definition queue_restore (created : Project) (manifestKey name : string) : H void :=
  new_job_id ≫= λ id,
  Now ≫= λ now,
  run (db_tx (EnqueueJob id "restore" (p_ID created) (restore_job_input manifestKey name (p_ID created)) now)) ≫= λ e,
  match e with
  | Err (StoreError ErrJobBusy) => failure 409 "job_busy" "Another backup or restore is still running. Try again when it finishes."
  | Err _ => metadata_unavailable "The restore could not be queued."
  | Ok job => restore_answer created job
  end.

Definition startRestore (r : Request) : H void :=
  authorize s r ≫= λ a,
  jobsReady s ≫= λ _,
  provisioningReady s ≫= λ _,
  decode parse_restore r ≫= λ in_,
  if negb (validProjectName in_.2) then
    failure 400 "invalid_name" (text [85;115;101;32;49;226;128;147]%nat +:+ "64 letters, digits, spaces, dots, dashes, underscores, or parentheses.")
  else
    run StorageClient ≫= λ e,
    match e with
    | Err _ => failure 409 "storage_not_configured" "Configure backup storage in Settings first."
    | Ok client =>
        run (ClientManifest client in_.1) ≫= λ e,
        match e with
        | Err e => failure 400 "invalid_backup" (error_text e)
        | Ok _ =>
            new_suffix rand ≫= λ suffix,
            Now ≫= λ t,
            save_project s rand (new_project in_.2 suffix) (restore_key (sn_Email a.1) in_.1 in_.2 t) ≫= λ e,
            match e with
            | Err _ => metadata_unavailable "The target project could not be saved."
            | Ok (created, isNew) =>
                if (isNew : bool) then queue_restore created in_.1 in_.2
                else
                  run (db_read (ProjectJobs (p_ID created) 1)) ≫= λ e,
                  or_fail e 503 "metadata_unavailable" "The restore could not be read." ≫= λ existing,
                  match existing with
                  | j :: _ => if bool_decide (j_Kind j = "restore") then restore_answer created j else queue_restore created in_.1 in_.2
                  | [] => queue_restore created in_.1 in_.2
                  end
            end
        end
    end.

(** ** System status *)

Definition backupStatus : H string :=
  storageTarget s ≫= λ target,
  match target with
  | None => mret "not_configured"
  | Some target =>
      run (db_read (ReadStorageTarget target)) ≫= λ e,
      match e with
      | Err _ => mret "unavailable"
      | Ok state =>
          if st_ReconciledAt state =? 0 then mret "checking"
          else
            run (db_read BackupFailures) ≫= λ failures,
            match failures with
            | Ok (_ :: _) => mret "failing"
            | _ =>
                run (db_read ReadBackupPolicy) ≫= λ e,
                match e with
                | Err _ => mret "unavailable"
                | Ok policy =>
                    Now ≫= λ now,
                    run (db_read (LateProjects target (in_ID (s_Config s)) (Interval policy) now)) ≫= λ e,
                    mret (match e with Err _ => "unavailable" | Ok [] => "ok" | Ok (_ :: _) => "stale" end)
                end
            end
      end
  end.

Definition available (ok : bool) : string := if ok then "available" else "unavailable".
Definition status (r : Request) : H void :=
  authorize s r ≫= λ _,
  checks s PG ≫= λ c,
  run (db_read maintenance) ≫= λ m,
  Now ≫= λ _,
  backupStatus ≫= λ backups,
  let pg := is_ok c.2 in
  write 200 (JObj [("ready", JBool (c.1 && pg)); ("maintenance", JBool (or_zero false m)); ("host", host_status);
    ("sqlite", JObj [("status", JStr (available c.1)); ("version", JStr sqlite_version)]);
    ("postgres", JObj [("status", JStr (available pg)); ("version", JStr (match c.2 with Ok v => v | Err _ => "" end))]);
    ("versions", Versions); ("backups", JStr backups); ("database_access", databaseAccess s TLSState)]).

Definition settings (r : Request) : H void :=
  authorize s r ≫= λ _,
  let c := s_Config s in
  write 200 (JObj [("id", JStr (in_ID c)); ("mode", JStr (in_Mode c)); ("origin", JStr (in_Origin c)); ("hostname", JStr (in_Hostname c));
    ("generation", JStr (in_Generation c)); ("release", JStr (in_Release c)); ("caddy_version", JStr (in_CaddyVersion c));
    ("docker_version", JStr (in_DockerVersion c)); ("compose_version", JStr (in_ComposeVersion c))]).
End backups.
