(* ===== verification/HttpAlerts.v ===== *)
(** * Alert settings over HTTP ([internal/httpapi/alerts.go]) *)

From S2P Require Import Prelude GoStrings GoTime Sha Security Storage Schema Cluster AuthStore AlertStore World Worker RateLimit HostStatus Webhook Alerts Http HttpProjects.

Class AlertBodies := { parse_webhook : string → res decode_error Webhook }.

Definition alert_json (a : AlertCondition) : json :=
  JObj [("key", JStr (ac_Key a)); ("kind", JStr (ac_Kind a)); ("source", JStr (ac_Source a)); ("summary", JStr (ac_Summary a));
    ("detail", JStr (ac_Detail a)); ("active", JBool (ac_Active a)); ("first_seen_at", JNum (ac_FirstSeenAt a));
    ("last_fired_at", JNum (default 0 (ac_LastFiredAt a))); ("sent_state", JStr (ac_SentState a))].

Section alerts.
Context {network_ : Network} {codec : Codec} {ac : AlertCodec} {transport : Transport} {at_ : ApiText} {bodies : AlertBodies}
  (s : HttpServer) (rand : nat → nat → list Z) (c : EngineConfig).

Definition alertsReady : H unit :=
  if s_Alerts s then mret tt
  else metadata_unavailable "Alerts are unavailable on this installation. Run host diagnostics.".

(** The URL may itself be the credential; only its scheme and host leave the server. *)
Definition webhook_json (configured : bool) (w : Webhook) : json :=
  JObj [("configured", JBool configured); ("url", JStr (Webhook_Masked w)); ("has_secret", JBool (negb (bool_decide (wh_Secret w = ""))));
    ("private_endpoint", JBool (wh_PrivateEndpoint w))].

Definition getAlertSettings (r : Request) : H void :=
  authorize s r ≫= λ _,
  alertsReady ≫= λ _,
  engine (ReadWebhook c) ≫= λ '(hook, configured, e),
  match e with
  | Some _ => metadata_unavailable "Alert settings could not be read."
  | None => write 200 (webhook_json configured hook)
  end.

(** What is saved: nothing for an empty URL; the stored URL for its masked
    form, and the stored secret for an empty one. *)
Definition merge_webhook (current : Webhook) (configured : bool) (in_ : Webhook) : res string Webhook :=
  if bool_decide (wh_URL in_ = "") then Ok no_webhook
  else
    let in_ := if configured && bool_decide (wh_URL in_ = Webhook_Masked current) then in_ <| wh_URL := wh_URL current |> else in_ in
    let in_ := if bool_decide (wh_Secret in_ = "") && configured then in_ <| wh_Secret := wh_Secret current |> else in_ in
    match Webhook_Validate in_ with Err e => Err e | Ok _ => Ok in_ end.

Definition putAlertSettings (r : Request) : H void :=
  authorize s r ≫= λ _,
  alertsReady ≫= λ _,
  decode parse_webhook r ≫= λ in_,
  engine (ReadWebhook c) ≫= λ '(current, configured, e),
  let configured := match e with Some _ => false | None => configured end in
  match merge_webhook current configured in_ with
  | Err e => failure 400 "invalid_webhook" e
  | Ok in_ =>
      random rand 12 ≫= λ nonce,
      engine (SaveWebhook c nonce in_) ≫= λ e,
      match e with
      | Err _ => metadata_unavailable "Alert settings could not be saved."
      | Ok _ =>
          let enabled := negb (bool_decide (wh_URL in_ = "")) in
          http_audit "settings.alerts" (Webhook_Host in_)
            (Some (JObj [("enabled", JBool enabled); ("private_endpoint", JBool (wh_PrivateEndpoint in_))])) ≫= λ _,
          write 200 (webhook_json enabled in_)
      end
  end.

Definition testAlerts (r : Request) : H void :=
  authorize s r ≫= λ _,
  alertsReady ≫= λ _,
  engine (SendTest c) ≫= λ e,
  match e with
  | Some e => write 200 (JObj [("ok", JBool false); ("error", JStr e)])
  | None => write 200 (JObj [("ok", JBool true)])
  end.

Definition listAlerts (r : Request) : H void :=
  authorize s r ≫= λ _,
  alertsReady ≫= λ _,
  run (db_read AlertConditions) ≫= λ e,
  or_fail e 503 "metadata_unavailable" "Alerts could not be read." ≫= λ conditions,
  engine Delivery ≫= λ '(lastOK, lastError),
  write 200 (JObj [("conditions", JArr (map alert_json conditions));
    ("delivery", JObj [("last_ok_at", JNum lastOK); ("last_error", JStr lastError)])]).
End alerts.
