(* ===== verification/HttpRoutes.v ===== *)
(** * Routing ([Handler] and [static] of [internal/httpapi/server.go])

    The table of endpoints, the part of [http.ServeMux] it uses, and the
    dashboard's files.  A pattern for GET also matches HEAD; a path that is
    not clean is redirected; what no pattern matches goes to [static].
    Paths with percent-encoding are outside the model: [rq_Path] is both the
    path and its escaped form. *)

From S2P Require Import Prelude GoStrings GoTime Storage Schema Cluster Security AuthStore AuthSteps JobStore World Wp Postgres Netip Hba Worker Provision RateLimit HostStatus Webhook Alerts Http HttpWp HttpAuth HttpProjects HttpBackups HttpAlerts.

Inductive endpoint :=
| Live | Ready | SetupAvailable | Setup | Login | Logout | Code | Enrol | EnrolConfirm | Reset | AbandonStep | SessionInfo
| SystemStatus | ReadSettings | ListProjects | CreateProject_ | GetProject | DeleteProject | RetryProject_ | GetCredentials
| PutAccess | PutWrites | PutLimits | RotateCredentials | Connections | GetAlertSettings | PutAlertSettings | TestAlerts
| ListAlerts | CreateCheck | GetCheck | GetStorage | PutStorage | CheckStorage | GetBackupPolicy | PutBackupPolicy
| StartBackup | ListBackups_ | GetJob | ListRecovery | StartRestore | StaticFile.
#[export] Instance endpoint_eq_dec : EqDecision endpoint.
Proof. solve_decision. Defined.

(** ** Patterns *)

Inductive segment := Lit (s : string) | Wild (name : string).
Record pattern := mkPattern { pt_Method : string; pt_Path : list segment; pt_Endpoint : endpoint }.

Definition parse_segment (s : string) : segment :=
  if has_prefix s "{" then Wild (trim_suffix (sdrop 1 s) "}") else Lit s.
(** [mux.HandleFunc("METHOD /path", …)] *)
Definition handle_func (method path : string) (e : endpoint) : pattern :=
  mkPattern method (map parse_segment (split_on slash (sdrop 1 path))) e.

Definition patterns : list pattern := [
  handle_func "GET" "/health/live" Live;
  handle_func "GET" "/health/ready" Ready;
  handle_func "GET" "/api/v1/setup" SetupAvailable;
  handle_func "POST" "/api/v1/setup" Setup;
  handle_func "POST" "/api/v1/auth/login" Login;
  handle_func "POST" "/api/v1/auth/logout" Logout;
  handle_func "POST" "/api/v1/auth/code" Code;
  handle_func "GET" "/api/v1/auth/enrol" Enrol;
  handle_func "POST" "/api/v1/auth/enrol/confirm" EnrolConfirm;
  handle_func "POST" "/api/v1/auth/reset" Reset;
  handle_func "POST" "/api/v1/auth/abandon" AbandonStep;
  handle_func "GET" "/api/v1/auth/session" SessionInfo;
  handle_func "GET" "/api/v1/system/status" SystemStatus;
  handle_func "GET" "/api/v1/settings" ReadSettings;
  handle_func "GET" "/api/v1/projects" ListProjects;
  handle_func "POST" "/api/v1/projects" CreateProject_;
  handle_func "GET" "/api/v1/projects/{id}" GetProject;
  handle_func "DELETE" "/api/v1/projects/{id}" DeleteProject;
  handle_func "POST" "/api/v1/projects/{id}/retry" RetryProject_;
  handle_func "GET" "/api/v1/projects/{id}/credentials" GetCredentials;
  handle_func "PUT" "/api/v1/projects/{id}/access" PutAccess;
  handle_func "PUT" "/api/v1/projects/{id}/writes" PutWrites;
  handle_func "PUT" "/api/v1/projects/{id}/limits" PutLimits;
  handle_func "POST" "/api/v1/projects/{id}/credentials/rotate" RotateCredentials;
  handle_func "GET" "/api/v1/system/connections" Connections;
  handle_func "GET" "/api/v1/settings/alerts" GetAlertSettings;
  handle_func "PUT" "/api/v1/settings/alerts" PutAlertSettings;
  handle_func "POST" "/api/v1/settings/alerts/test" TestAlerts;
  handle_func "GET" "/api/v1/alerts" ListAlerts;
  handle_func "POST" "/api/v1/projects/{id}/connection-checks" CreateCheck;
  handle_func "GET" "/api/v1/projects/{id}/connection-checks/{check}" GetCheck;
  handle_func "GET" "/api/v1/settings/storage" GetStorage;
  handle_func "PUT" "/api/v1/settings/storage" PutStorage;
  handle_func "POST" "/api/v1/settings/storage/check" CheckStorage;
  handle_func "GET" "/api/v1/settings/backups" GetBackupPolicy;
  handle_func "PUT" "/api/v1/settings/backups" PutBackupPolicy;
  handle_func "POST" "/api/v1/projects/{id}/backups" StartBackup;
  handle_func "GET" "/api/v1/projects/{id}/backups" ListBackups_;
  handle_func "GET" "/api/v1/jobs/{id}" GetJob;
  handle_func "GET" "/api/v1/recovery/backups" ListRecovery;
  handle_func "POST" "/api/v1/recovery/restores" StartRestore ].

(** The values of the wildcards, when the segments fit. *)
Fixpoint match_path (p : list segment) (path : list string) : option (list (string * string)) :=
  match p, path with
  | [], [] => Some []
  | Lit s :: p, x :: path => if bool_decide (s = x) then match_path p path else None
  | Wild name :: p, x :: path =>
      if bool_decide (x = "") then None else (λ vs, (name, x) :: vs) <$> match_path p path
  | _, _ => None
  end.
Definition method_fits (p method : string) : bool :=
  bool_decide (p = method) || (bool_decide (p = "GET") && bool_decide (method = "HEAD")).
Definition match_pattern (method : string) (path : list string) (p : pattern) : option (list (string * string)) :=
  if method_fits (pt_Method p) method then match_path (pt_Path p) path else None.

Fixpoint first_match (method : string) (path : list string) (ps : list pattern) : option (endpoint * list (string * string)) :=
  match ps with
  | [] => None
  | p :: ps => match match_pattern method path p with Some vs => Some (pt_Endpoint p, vs) | None => first_match method path ps end
  end.
Definition path_segments (path : string) : list string := split_on slash (trim_prefix path "/").
Definition route (method path : string) : endpoint * list (string * string) :=
  default (StaticFile, []) (first_match method (path_segments path) patterns).

(** [cleanPath] of the mux: rooted, and a trailing slash stays. *)
Definition mux_clean (path : string) : string :=
  let p := if has_prefix path "/" then path else "/" +:+ path in
  let np := path_clean p in
  if has_suffix p "/" && negb (bool_decide (np = "/")) then np +:+ "/" else np.

Definition bind_values (vs : list (string * string)) (r : Request) : Request :=
  mkRequest (rq_Method r) (rq_Path r) (rq_Host r) (rq_RemoteAddr r) (rq_Header r) (rq_Cookies r) (rq_Body r)
    (λ name, header name vs) (rq_Query r).

Example route_examples :
  map (λ p : string * string, route p.1 p.2)
    [("GET", "/api/v1/projects/p1"); ("HEAD", "/health/live"); ("DELETE", "/api/v1/projects"); ("POST", "/api/v1/projects//retry");
     ("GET", "/api/v1/projects/p1/connection-checks/c2"); ("GET", "/assets/app.js"); ("GET", "/")] =
  [(GetProject, [("id", "p1")]); (Live, []); (StaticFile, []); (StaticFile, []);
   (GetCheck, [("id", "p1"); ("check", "c2")]); (StaticFile, []); (StaticFile, [])].
Proof. vm_compute. reflexivity. Qed.

(** ** The dashboard's files *)

Class Assets := {
  fs_Stat : string → bool;
  fs_ReadFile : string → option string;
  FileServer : ∀ {A}, string → Request → H A; (* [http.FileServer] at a path; it ends the request *)
}.
(** The files are embedded in the program: serving one changes nothing. *)
Class AssetsLaws (fs : Assets) : Prop := {
  FileServer_quiet A path r d b p (Q : hpost A) : (∀ e, Q (Err e) d b p) → hwp (FileServer path r) Q d b p;
}.

Section static.
Context {fs : Assets} (present : bool).

Definition static (r : Request) : H void :=
  if has_prefix (rq_Path r) "/api/" || has_prefix (rq_Path r) "/health/" then failure 404 "not_found" "Endpoint not found."
  else if changes r then respond 405 None
  else if negb present then respond 503 (Some (JRaw "Dashboard assets unavailable"))
  else
    let path := trim_prefix (rq_Path r) "/" in
    let path := if bool_decide (path = "") then "index.html" else path in
    let index := match fs_Stat path with true => bool_decide (path = "index.html") | false => true end in
    if negb (fs_Stat path) && has_prefix path "assets/" then respond 404 (Some (JRaw "404 page not found"))
    else if index then
      set_header "Cache-Control" "no-cache" ≫= λ _,
      match fs_ReadFile "index.html" with
      | None => respond 503 (Some (JRaw "Dashboard unavailable"))
      | Some b =>
          set_header "Content-Type" "text/html; charset=utf-8" ≫= λ _,
          respond 200 (if bool_decide (rq_Method r = "HEAD") then None else Some (JRaw b))
      end
    else
      set_header "Cache-Control" "public, max-age=31536000, immutable" ≫= λ _,
      FileServer path r.
End static.

(** ** Every endpoint *)

Section routes.
Context {network : Network} {sv : Server} {codec : Codec} {addresses : AddressCodec} {hp : HbaPostgres} {at_ : ApiText} {pq : PgQueries}
  {pc : PendingCodec} {auth_bodies : AuthBodies} {project_bodies : ProjectBodies} {backup_bodies : BackupBodies}
  {alert_bodies : AlertBodies} {ac : AlertCodec} {transport : Transport} {fs : Assets}
  (s : HttpServer) (rand : nat → nat → list Z) (ParseMediaType : string → string) (IDKey : list Z → list Z → list Z)
  (TunnelSource : string) (prandom : World → string) (TLSState : option string) (versioning_of : Settings → versioning_answer)
  (PG : option (M string)) (Versions host_status : json) (sqlite_version : string) (c : EngineConfig) (assets : bool) (permanent : bool).

(** The router's redirect to a clean path: moved permanently, or, in newer
    versions of the library, temporary. *)
Definition redirect : Z := if permanent then 301 else 307.

Definition live : H void := write 200 (JObj [("status", JStr "live")]).

Definition serve (e : endpoint) (r : Request) : H void :=
  match e with
  | Live => live
  | Ready => ready s PG r
  | SetupAvailable => setupAvailable r
  | Setup => setup s rand IDKey r
  | Login => login s rand IDKey r
  | Logout => logout s r
  | Code => confirmCode s rand r
  | Enrol => currentEnrolment s r
  | EnrolConfirm => confirmEnrolment s rand r
  | Reset => startReset s rand IDKey r
  | AbandonStep => abandon s r
  | SessionInfo => session s r
  | SystemStatus => status s TLSState PG Versions host_status sqlite_version r
  | ReadSettings => settings s r
  | ListProjects => listProjects s TLSState r
  | CreateProject_ => createProject s rand r
  | GetProject => getProject s TLSState r
  | DeleteProject => deleteProject s rand r
  | RetryProject_ => retryProject s r
  | GetCredentials => getCredentials s r
  | PutAccess => updateAccess s TunnelSource r
  | PutWrites => updateWrites s r
  | PutLimits => putLimits s r
  | RotateCredentials => rotateCredentials s prandom r
  | Connections => connectionBudget s r
  | GetAlertSettings => getAlertSettings s c r
  | PutAlertSettings => putAlertSettings s rand c r
  | TestAlerts => testAlerts s c r
  | ListAlerts => listAlerts s r
  | CreateCheck => createConnectionCheck s rand r
  | GetCheck => getConnectionCheck s r
  | GetStorage => getStorage s r
  | PutStorage => putStorage s versioning_of r
  | CheckStorage => checkStorage s versioning_of r
  | GetBackupPolicy => getBackupPolicy s r
  | PutBackupPolicy => putBackupPolicy s r
  | StartBackup => startBackup s rand r
  | ListBackups_ => listBackups s r
  | GetJob => getJob s r
  | ListRecovery => listRecoveryBackups s r
  | StartRestore => startRestore s rand r
  | StaticFile => static assets r
  end.

Definition mux (r : Request) : H void :=
  if negb (bool_decide (mux_clean (rq_Path r) = rq_Path r)) then
    set_header "Location" (mux_clean (rq_Path r)) ≫= λ _, respond redirect None
  else let '(e, vs) := route (rq_Method r) (rq_Path r) in serve e (bind_values vs r).

(** A request from the network: the response and the state after it. *)
Definition serve_http (r : Request) (st : Srv) : Response * Srv := Handler s rand ParseMediaType mux r st.

(** Endpoints that do not need a session: health, the steps of signing in, and files. *)
Definition open_endpoint (e : endpoint) : bool :=
  bool_decide (e ∈ [Live; Ready; SetupAvailable; Setup; Login; Code; Enrol; EnrolConfirm; Reset; AbandonStep; StaticFile]).

(** ** What a request must have passed *)

Lemma hwp_standard_headers {am : Ambient} r (Q : hpost unit) d b p : Q (Ok tt) d b p → hwp (standard_headers s rand r) Q d b p.
Proof.
  intros H. unfold standard_headers. repeat (first [progress hwp_step|match goal with |- hwp (if ?x then _ else _) _ _ _ _ => destruct x end]); done.
Qed.

(** What [Handler] checks before it lets a request to the API through. *)
Record admitted (r : Request) (d : DB) : Prop := {
  ad_host u : url_Parse (in_Origin (s_Config s)) = Some u → rq_Host r = u_Host u;
  ad_store : s_Store s = true;
  ad_origin : changes r = true → rq_Header r "Origin" = in_Origin (s_Config s);
  ad_media : changes r = true → ParseMediaType (rq_Header r "Content-Type") = "application/json";
  ad_site : changes r = true → rq_Header r "Sec-Fetch-Site" ≠ "cross-site";
  ad_maintenance : changes r = true → maintenanceExempt (path_clean (rq_Path r)) = false → maintenance d = false;
}.
Lemma hwp_api_gate {am : Ambient} r (Q : hpost unit) d b p :
  (admitted r d → Q (Ok tt) d b p) → (∀ e, rs_Status e = 403 ∨ rs_Status e = 500 ∨ rs_Status e = 503 → Q (Err e) d b p) →
  hwp (api_gate s ParseMediaType r) Q d b p.
Proof.
  intros HQ He. unfold api_gate. destruct (url_Parse _) as [u|] eqn:Eu; [|apply hwp_failure; auto].
  case_bool_decide as Eh; cbn [negb]; [|apply hwp_failure; auto].
  destruct (changes r) eqn:Ec; cbn [andb].
  - destruct (bool_decide (rq_Header r "Origin" = _)) eqn:Eo, (bool_decide (ParseMediaType _ = _)) eqn:Em,
      (bool_decide (rq_Header r "Sec-Fetch-Site" = _)) eqn:Es; cbn [negb orb]; try (apply hwp_failure; auto).
    apply bool_decide_eq_true in Eo, Em. apply bool_decide_eq_false in Es.
    destruct (s_Store s) eqn:Ess; cbn [negb]; [|apply hwp_failure; auto].
    destruct (maintenanceExempt _) eqn:Ex; cbn [negb].
    { apply hwp_ret, HQ. split; first [done|congruence]. }
    apply hwp_bind, hwp_run, wp_db_read; [|intros ?; apply hwp_failure; auto].
    destruct (maintenance d) eqn:Emt; [apply hwp_failure; auto|]. apply hwp_ret, HQ. split; first [done|congruence].
  - destruct (s_Store s) eqn:Ess; cbn [negb]; [|apply hwp_failure; auto].
    apply hwp_ret, HQ. split; first [done|congruence].
Qed.

(** Every endpoint that is not open asks for the session first. *)
Lemma session_first e r : open_endpoint e = false → ∃ k, serve e r = authorize s r ≫= k.
Proof.
  intros Ho. destruct e; vm_compute in Ho; try discriminate Ho; clear Ho; eexists; reflexivity.
Qed.

Definition unchanged (d : DB) (b : World.bucket) (p : Cluster) (d' : DB) (b' : World.bucket) (p' : Cluster) : Prop :=
  d' = d ∧ b' = b ∧ p' = p.
Definition endpoint_of (r : Request) : endpoint := (route (rq_Method r) (rq_Path r)).1.
(** What a request to the API may find or change. *)
Definition guarded {am : Ambient} (r : Request) (d : DB) (b : World.bucket) (p : Cluster) : hpost void := λ x d' b' p',
  match x with
  | Err response =>
      (admitted r d ∨ unchanged d b p d' b' p' ∧ (rs_Status response = 403 ∨ rs_Status response = 500 ∨ rs_Status response = 503)) ∧
      (open_endpoint (endpoint_of r) = true ∨ has_session s r d ∨
       unchanged d b p d' b' p' ∧
         (rs_Status response = 401 ∨ rs_Status response = 403 ∨ rs_Status response = 500 ∨ rs_Status response = 503 ∨
          (mux_clean (rq_Path r) ≠ rq_Path r ∧ (rs_Status response = 301 ∨ rs_Status response = 307) ∧ rs_Body response = None)))
  | Ok v => False
  end.

Lemma hwp_mux_guarded {am : Ambient} r d b p : admitted r d → hwp_end (mux r) (guarded r d b p) d b p.
Proof.
  intros Ha. unfold mux. case_bool_decide as Ec; cbn [negb].
  2: { apply hwp_end_of, hwp_bind, hwp_set_header, hwp_respond. intros response Hs Hbody. split; [by left|]. right. right. split; [done|].
       do 4 right. split_and!; [done| |done]. rewrite Hs. unfold redirect. destruct permanent; auto. }
  unfold guarded, endpoint_of. destruct (route (rq_Method r) (rq_Path r)) as [e vs]. cbn [fst].
  assert (∀ x : res Response void, match x with Ok _ => False | Err _ => True end) as Hvoid by by intros [[]|].
  destruct (open_endpoint e) eqn:Eo.
  - apply hwp_end_any. intros x d' b' p'. specialize (Hvoid x). destruct x; [done|]. auto.
  - destruct (session_first e (bind_values vs r) Eo) as [k ->]. apply hwp_end_bind, hwp_authorize.
    + intros a Hs. apply hwp_end_any. intros x d' b' p'. specialize (Hvoid x). destruct x; [done|].
      split; [by left|]. right. left. exact (authorized_session s _ _ _ Hs).
    + intros response Hr. split; [by left|]. right. right. split; [done|]. naive_solver.
Qed.

(** C1. Nothing in the API can be read or changed without what it asks for.
    For every request whose path is under [/api/], whatever fails while it is
    served: either the database, the bucket and PostgreSQL are untouched and
    the answer is an error, or the request named the configured host and, if
    it can change anything, came from the dashboard's own origin as JSON and
    not while an update holds the installation quiet (signing in excepted);
    and for every endpoint other than health, the steps of signing in and the
    files, either everything is untouched and the answer is an error or, for a
    path that is not clean, the router's empty redirect (301 or 307) to the clean one, or
    the request carried the cookie of a session that is in the table, of this
    installation's scope, and ends after a time the clock showed during this
    request, and, for anything but GET, that session's CSRF token. *)
Theorem api_is_guarded r st response st' :
  has_prefix (rq_Path r) "/api/" = true → serve_http r st = (response, st') →
  guarded (am := readings_of (sv_world st)) r (w_db (sv_world st)) (w_bucket (sv_world st)) (w_pg (sv_world st)) (Err response)
    (w_db (sv_world st')) (w_bucket (sv_world st')) (w_pg (sv_world st')).
Proof.
  intros Hp. unfold serve_http, Handler. cbv zeta. rewrite Hp. set (st0 := st <| sv_headers := [] |> <| sv_cookies := [] |>).
  set (m := standard_headers _ _ _ ≫= _). set (am := readings_of (sv_world st)).
  assert (hwp_end m (guarded r (w_db (sv_world st)) (w_bucket (sv_world st)) (w_pg (sv_world st)))
    (w_db (sv_world st)) (w_bucket (sv_world st)) (w_pg (sv_world st))) as H.
  { apply hwp_end_bind, hwp_standard_headers, hwp_end_bind, hwp_api_gate; [apply hwp_mux_guarded|].
    intros e He. split; [by right|]. right. right. split; [done|]. naive_solver. }
  specialize (H st0 eq_refl eq_refl eq_refl (conj (λ _ Ht, Ht) (λ _ _, I))). destruct (m st0) as [[[]|x] st1]. by intros [= <- <-].
Qed.
End routes.

(** ** A concrete installation *)

Module Api.
Definition network : Network := {|
  url_Parse u := Some (mkURL "https" "db.example.com" "db.example.com" "" "" false ""); LookupIP _ := None; minio_New _ := Ok tt |}.
Definition addresses : AddressCodec := {| marshal_addresses := join " "; unmarshal_addresses t := Ok (split_on " "%char t) |}.
Definition api_text : ApiText := {| marshal_json _ := "{}"; json_Valid _ := true; quote_go t := t; unicode_letter_or_digit _ := false |}.
Definition queries : PgQueries := {| q_DatabaseSize _ := mret 0; q_Connections _ _ := mret [] |}.
Definition pending : PendingCodec := sample_pending.
Definition auth_bodies : AuthBodies := {|
  parse_credentials _ := Err BadValue; parse_code b := Ok b; parse_reset _ := Err BadValue; marshal_enrolment _ := []; unmarshal_enrolment _ := None;
  ToLower v := v; ParseAddress v := Some v |}.
Definition project_bodies : ProjectBodies := {|
  parse_create b := Ok (b, "k"); parse_access _ := Err BadValue; parse_writes _ := Err BadValue; parse_limits _ := Err BadValue;
  parse_delete b := Ok (mkDeleteRequest b true) |}.
Definition backup_bodies : BackupBodies := {| parse_settings _ := Err BadValue; parse_policy p _ := Ok p; parse_restore _ := Err BadValue |}.
Definition alert_bodies : AlertBodies := {| parse_webhook u := Ok (mkWebhook u "" false) |}.
Definition alert_codec : AlertCodec := {|
  marshal_Message := ms_Text; marshal_Webhook := wh_URL; unmarshal_Webhook u := (mkWebhook u "" false, None) |}.
Definition transport : Transport := {| http_Do _ _ _ := Ok 204 |}.
Definition files : Assets := {| fs_Stat _ := false; fs_ReadFile _ := Some "<html>"; FileServer A _ _ := respond 200 None |}.
Definition key : list Z := replicate 32 7.
Definition server : HttpServer :=
  mkHttpServer (mkInstallation "inst" "https" "https://db.example.com" "db.example.com" "g1" "1" "" "" "") key None true true true true true.
Definition config : EngineConfig :=
  mkEngineConfig key "inst" "https://db.example.com" "https" "1.0" (λ _, mkHostFiles None None None None) None None None.
Definition rand (k n : nat) : list Z := replicate n (Z.of_nat (k mod 256)).
Abbreviation serve := (
  serve_http (network := network) (sv := live_server) (codec := sample_codec) (addresses := addresses) (hp := accepting) (at_ := api_text)
    (pq := queries) (pc := pending) (auth_bodies := auth_bodies) (project_bodies := project_bodies) (backup_bodies := backup_bodies)
    (alert_bodies := alert_bodies) (ac := alert_codec) (transport := transport) (fs := files)
    server rand id (λ p s, p ++ s) "" (λ _, "") None (λ _, VersioningConfig true) None JNull JNull "3" config true false).
Definition headers (name : string) : string :=
  if bool_decide (name = "Origin") then "https://db.example.com"
  else if bool_decide (name = "Content-Type") then "application/json" else "".
(** A request to delete a project, from the dashboard's origin but without a session. *)
Definition stranger : Request :=
  mkRequest "DELETE" "/api/v1/projects/p1" "db.example.com" "10.0.0.1:5" headers [] "shop" (λ _, "") (λ _, "").
Definition start : Srv := mkSrv (mkWorld example_db ∅ empty_cluster [] [] []) new_limiter new_limiter 0 0 [] [] fresh_memory.
End Api.

Lemma api_is_guarded_witness :
  rs_Status (Api.serve Api.stranger Api.start).1 = 401 ∧
  w_db (sv_world (Api.serve Api.stranger Api.start).2) = example_db.
Proof.
  split; [vm_compute; reflexivity|].
  assert (has_prefix (rq_Path Api.stranger) "/api/" = true) as Hp by reflexivity.
  destruct (Api.serve Api.stranger Api.start) as [response st'] eqn:E.
  apply api_is_guarded in E as [_ [Ho|[(a & row & now & Hc & _)|[(Hd & _) _]]]]; [| | |exact Hp].
  - assert (open_endpoint (endpoint_of Api.stranger) = false) as Hn by (vm_compute; reflexivity). congruence.
  - discriminate.
  - exact Hd.
Defined.
