(* ===== verification/HttpSafety.v ===== *)
(** * What the handlers refuse

    Under every schedule of failures: a deletion starts only when it was
    confirmed by name and, for a database in use, with a recent backup or an
    acknowledgement; and storage settings are saved only for a bucket that
    keeps deleted objects. *)

From S2P Require Import Prelude GoStrings GoTime Sha Storage Schema Cluster Security AuthStore JobStore ProjectStore BackupStore World Wp Postgres Netip IP Hba Worker Provision RateLimit HostStatus Webhook Alerts Http HttpWp HttpAuth SignIn HttpProjects HttpBackups HttpAlerts HttpRoutes.

(** ** Starting a deletion *)

Definition marked_deleting (now : time) (r : Project) : Project :=
  r <| p_Stage := "deleting" |> <| p_Failed := false |> <| p_StageError := "" |> <| p_DeletingAt := unix now |>.

Lemma BeginProjectDeletion_projects id newJob entry now d :
  let d' := (BeginProjectDeletion id newJob entry now d).2 in
  db_projects d' = db_projects d ∨
  ∃ p, ProjectByID id d = Ok p ∧ in_stage "deleting" p = false ∧ in_stage "ready" p || p_Failed p = true ∧
    db_projects d' = sql_update (project_id id) (marked_deleting now) (db_projects d).
Proof.
  cbv zeta. unfold BeginProjectDeletion, atomically.
  destruct (maintenance d); [by left|]. cbn [negb]. destruct (ProjectByID id d) as [p|e] eqn:Ep; [|by left]. cbn [rbind].
  destruct (newJob p) as [jid input]. destruct (in_stage "deleting" p) eqn:Ed.
  - left. destruct (sql_order _ _); [|done]. unfold insertDeleteJob. destruct (sql_insert _ _ _ _); done.
  - destruct (in_stage "ready" p || p_Failed p) eqn:Er; [|by left]. destruct (_ =? 0); [|by left].
    unfold insertDeleteJob. destruct (sql_insert _ _ _ _) as [jobs|e]; [|by left]. right. exists p. done.
Qed.

Lemma ProjectByID_marked id id' now d d' : db_projects d' = sql_update (project_id id') (marked_deleting now) (db_projects d) →
  id ≠ id' → ProjectByID id d' = ProjectByID id d.
Proof.
  intros Hd Hne. unfold ProjectByID, projectBy. rewrite Hd, sql_find_update by done.
  destruct (sql_find (project_id id) (db_projects d)) as [p|] eqn:Ef; [|done]. apply sql_find_some in Ef as [_ Ef].
  unfold project_id in *. apply bool_decide_eq_true in Ef. cbn. rewrite bool_decide_false by congruence. done.
Qed.

Section deleting.
Context {am : Ambient} {codec : Codec} {addresses : AddressCodec} {at_ : ApiText} {pq : PgQueries} {pql : PgQueriesLaws pq} {bodies : ProjectBodies}
  (s : HttpServer) (rand : nat → nat → list Z).

(** The settings of the backup store, as they are stored. *)
Definition stored_settings (d : DB) (settings : Settings) : Prop :=
  ∃ plain, vault_Open ("setting:" +:+ StorageSetting) (Setting StorageSetting d) = Some plain ∧ unmarshal_Settings plain = Ok settings.

Lemma hwp_StorageSettings (Q : hpost (res werror Settings)) d b p :
  (∀ x, match x with Ok settings => stored_settings d settings | Err _ => True end → Q (Ok x) d b p) → hwp (run StorageSettings) Q d b p.
Proof.
  intros HQ. apply hwp_run. unfold StorageSettings. apply wp_bind, wp_db_read; [|intros e; by apply HQ].
  case_bool_decide; [by apply wp_throw, HQ|]. destruct (vault_Open _ _) as [plain|] eqn:Eo; [|by apply wp_throw, HQ].
  apply wp_lift, HQ. destruct (unmarshal_Settings plain) eqn:Eu; [|done]. by exists plain.
Qed.

Lemma hwp_projectSummary q (Q : hpost projectView) d b p : (∀ v, Q (Ok v) d b p) → hwp (projectSummary s q) Q d b p.
Proof.
  intros HQ. unfold projectSummary, open_summary, deletion_summary.
  assert (∀ (Q : hpost (res werror Z)), (∀ x, Q (Ok x) d b p) → hwp (run (q_DatabaseSize (p_DBName q))) Q d b p) as Hsize.
  { intros Q' HQ'. apply hwp_run, wp_intro; [apply queries_timely|]. intros w <- <- <-. destruct (q_DatabaseSize _ w) as [r w'] eqn:E.
    apply size_quiet in E as [[-> ->] ->]. apply HQ'. }
  repeat first [apply Hsize; intros ? | hwp_any | apply HQ | hwp_case].
Qed.
Lemma hwp_jobView j (Q : hpost json) d b p : (∀ v, Q (Ok v) d b p) → hwp (jobView j) Q d b p.
Proof. intros HQ. unfold jobView. repeat first [hwp_any | apply HQ | hwp_case]. Qed.
Lemma hwp_auditEntry action target detail (Q : hpost AuditEntry) d b p : (∀ v, Q (Ok v) d b p) → hwp (auditEntry action target detail) Q d b p.
Proof. intros HQ. unfold auditEntry, request_id. hwp_any. hwp_any. hwp_any. apply hwp_state; [done|]. intros rid. cbn beta iota. hwp_any. apply HQ. Qed.

(** A recoverable backup of the project in the active store, newer than the
    interval before a time the clock showed; or that time is itself within the
    interval from the epoch, of which no backup is as old. *)
Definition recent_backup (q : Project) (d : DB) : Prop :=
  ∃ settings t, is_time t ∧ stored_settings d settings ∧
    let since := unix (t - Interval (ReadBackupPolicy d)) in
    since < 0 ∨ ∃ p row, In p (db_projects d) ∧ p_ID p = p_ID q ∧ In row (db_bucket d) ∧
      recoverable (Target settings) (in_ID (s_Config s)) (p_ID q) (p_DBName p) row = true ∧ since < bb_TakenAt row.

Lemma hwp_recentlyBackedUp q (Q : hpost bool) d b p :
  (∀ x, (x = true → recent_backup q d) → Q (Ok x) d b p) → hwp (recentlyBackedUp s q) Q d b p.
Proof.
  intros HQ. assert (Q (Ok false) d b p) as Hf by by apply HQ. unfold recentlyBackedUp, storageTarget.
  destruct (negb (s_Jobs s)); [by do 2 hwp_any; apply hwp_ret|]. hwp_any. hwp_any.
  apply hwp_StorageSettings. intros x Hx. cbn beta iota. hwp_any. destruct x as [settings|e]; [|by apply hwp_ret].
  hwp_any. apply hwp_run, wp_db_read; [|intros e; by apply hwp_ret]. cbn beta iota.
  hwp_any. apply hwp_run, wp_db_read; [|intros e; by apply hwp_ret]. cbn beta iota.
  apply hwp_bind, hwp_now_timed. intros t Ht. cbn beta iota. apply hwp_ret, HQ. intros Hlt%Z.ltb_lt. exists settings, t. split; [done|].
  split; [exact Hx|]. cbv zeta. destruct (NewestRecoverable _ _ d !! p_ID q) as [n|] eqn:En; cbn [default] in Hlt; [|by left].
  apply NewestRecoverable_row in En as (p' & row & ? & ? & ? & ? & <-). right. by exists p', row.
Qed.

(** The request asks for this deletion, and may. *)
Definition confirmed (r : Request) (d : DB) (q : Project) : Prop :=
  has_session s r d ∧ p_ID q = rq_PathValue r "id" ∧ in_stage "deleting" q = false ∧ (in_stage "ready" q || p_Failed q = true) ∧
  ∃ in_, parse_delete (rq_Body r) = Ok in_ ∧ de_ConfirmName in_ = p_Name q ∧
    (in_stage "ready" q = true → de_Acknowledge in_ = true ∨ recent_backup q d).

Definition deletes_only_confirmed (r : Request) (d0 : DB) (b : World.bucket) (p : Cluster) : hpost void := λ _ d' b' p',
  b' = b ∧ p' = p ∧ ∀ id q, ProjectByID id d0 = Ok q → ProjectByID id d' = Ok q ∨ confirmed r d0 q.

Lemma untouched_deletes r d b p x : deletes_only_confirmed r d b p x d b p.
Proof. split; [done|]. split; [done|]. auto. Qed.

Lemma hwp_may_delete q in_ (Q : hpost bool) d b p :
  (∀ x, in_stage "deleting" q = true ∨
    (de_ConfirmName in_ = p_Name q ∧ (in_stage "ready" q = true → de_Acknowledge in_ = true ∨ recent_backup q d)) → Q (Ok x) d b p) →
  (∀ e, Q (Err e) d b p) → hwp (may_delete s q in_) Q d b p.
Proof.
  intros HQ He. unfold may_delete. destruct (in_stage "deleting" q); [apply hwp_ret, HQ; by left|].
  destruct (_ && _); [by apply hwp_failure|]. case_bool_decide as En; cbn [negb]; [|by apply hwp_failure].
  destruct (in_stage "ready" q) eqn:Er; [|apply hwp_ret, HQ; right; by split].
  apply hwp_bind, hwp_recentlyBackedUp. intros [|] Hx; cbn beta iota.
  - apply hwp_ret, HQ. right. split; [done|]. intros _. right. by apply Hx.
  - destruct (de_Acknowledge in_) eqn:Ea; cbn [negb]; [|by apply hwp_failure]. apply hwp_ret, HQ. right. split; [done|]. by left.
Qed.

Lemma deleteProject_confirmed r d b p : hwp (deleteProject s rand r) (deletes_only_confirmed r d b p) d b p.
Proof.
  unfold deleteProject. hwp_any. hwp_any; [|apply untouched_deletes]. cbn beta iota.
  hwp_any. unfold jobsReady. destruct (negb (s_Jobs s)); [hwp_any; apply untouched_deletes|]. apply hwp_ret. cbn beta iota.
  hwp_any. unfold provisionerReady. destruct (negb (s_Provisioner s)); [hwp_any; apply untouched_deletes|]. apply hwp_ret. cbn beta iota.
  hwp_any. unfold project. hwp_any. apply hwp_run, wp_db_get.
  2: { intros e. cbn beta iota. repeat hwp_case; hwp_any; apply untouched_deletes. }
  intros q Hq. cbn beta iota. apply hwp_ret. cbn beta iota. hwp_any. apply hwp_decode; [|intros e _; apply untouched_deletes].
  intros in_ Hin. cbn beta iota. hwp_any. apply hwp_may_delete; [|intros e; apply untouched_deletes].
  intros ack Hmay. cbn beta iota. hwp_any. apply hwp_auditEntry. intros entry. cbn beta iota.
  hwp_any. apply hwp_new_token. intros tok. cbn beta iota. hwp_any. apply hwp_now. intros now. cbn beta iota. hwp_any.
  apply hwp_tx. intros result d1 Hd1. cbn beta iota.
  assert (∀ y, deletes_only_confirmed r d b p y d1 b p) as Hend.
  { intros y. split; [done|]. split; [done|]. intros id q' Hq'. destruct Hd1 as [->|Hd1]; [by left|].
    pose proof (BeginProjectDeletion_projects (p_ID q) (NewDeleteJob (stake 16 tok)) entry now d) as Hb. cbv zeta in Hb. rewrite <- Hd1 in Hb.
    destruct Hb as [Hb|(p1 & Hp1 & Hnd & Hst & Hb)]; [left; unfold ProjectByID, projectBy; rewrite Hb; exact Hq'|].
    destruct (decide (id = p_ID q)) as [->|Hne]; [right|left; by rewrite (ProjectByID_marked id (p_ID q) now d d1 Hb Hne)].
    pose proof (ProjectByID_id _ _ _ Hq) as Hid. rewrite Hid in Hp1, Hq'. rewrite Hq in Hp1, Hq'. injection Hp1 as <-. injection Hq' as <-.
    destruct Hmay as [Hmay|Hmay]; [congruence|]. split; [by eapply authorized_session|]. split; [done|]. split; [done|]. split; [done|]. by exists in_. }
  destruct result as [[job created]|e].
  - hwp_any. apply hwp_get. intros updated. cbn beta iota. hwp_any.
    destruct updated as [u|e]; [apply hwp_ret|hwp_any; hwp_any; apply hwp_ret]; cbn beta iota;
    (hwp_any; apply hwp_projectSummary; intros v; cbn beta iota; hwp_any; apply hwp_jobView; intros j; cbn beta iota; hwp_any; apply Hend).
  - repeat hwp_case; hwp_any; apply Hend.
Qed.

End deleting.

(** C25. A deletion starts only when it was confirmed.  Whatever fails while a
    request to delete a project is served, the bucket and PostgreSQL are not
    touched, and every project is afterwards exactly as it was, except the one
    the request names: its row changes only for a request with a live session
    that repeats its name exactly, while it is ready or its setup has failed,
    and if it is ready only with the acknowledgement that newer data will be
    lost, or when the cached view of the active store holds a complete backup
    of this project and installation that is newer than the backup interval
    before a time the clock showed during this request. *)
Theorem deletion_is_confirmed {codec : Codec} {addresses : AddressCodec} {at_ : ApiText} {pq : PgQueries} {pql : PgQueriesLaws pq}
    {bodies : ProjectBodies} s rand r st response st' :
  deleteProject s rand r st = (response, st') →
  w_bucket (sv_world st') = w_bucket (sv_world st) ∧ w_pg (sv_world st') = w_pg (sv_world st) ∧
  ∀ id q, ProjectByID id (w_db (sv_world st)) = Ok q →
    ProjectByID id (w_db (sv_world st')) = Ok q ∨ confirmed (am := readings_of (sv_world st)) s r (w_db (sv_world st)) q.
Proof. intros E. exact (hwp_run_timed _ _ _ _ _ (deleteProject_confirmed s rand r _ _ _) E). Qed.

Module Deleting.
Definition token : string := Eval vm_compute in Security.Token (replicate 32 5).
Definition db : DB :=
  example_db <| db_sessions := [mkSession (Security.Hash token) (scope Api.server) 2000] |> <| db_jobs := [] |>
    <| db_projects := [example_project <| p_Stage := "ready" |>] |> <| db_admin := Some (mkAdmin "a@b.c" "" 0 None 0 0 0) |>.
Definition csrf : string := Eval vm_compute in CSRF Api.key token (scope Api.server).
Definition request (body : string) : Request :=
  mkRequest "DELETE" "/api/v1/projects/p1" "db.example.com" "10.0.0.1:5" (λ _, csrf) [(cookieName Api.server, token)] body
    (λ _, p_ID example_project) (λ _, "").
Definition start : Srv := mkSrv (mkWorld db ∅ empty_cluster [] (replicate 20 (of_unix 1000)) []) new_limiter new_limiter 0 0 [] [] fresh_memory.
Abbreviation delete := (deleteProject (codec := sample_codec) (addresses := Api.addresses) (at_ := Api.api_text) (pq := Api.queries)
  (bodies := Api.project_bodies) Api.server Api.rand).
(** The same without an acknowledgement, in 2026, when nothing was backed up. *)
Definition unacknowledged : ProjectBodies := {|
  parse_create := parse_create (ProjectBodies := Api.project_bodies); parse_access := parse_access (ProjectBodies := Api.project_bodies);
  parse_writes := parse_writes (ProjectBodies := Api.project_bodies); parse_limits := parse_limits (ProjectBodies := Api.project_bodies);
  parse_delete b := Ok (mkDeleteRequest b false) |}.
Definition unbacked : Srv := mkSrv (mkWorld (db <| db_sessions := [mkSession (Security.Hash token) (scope Api.server) 1767229200] |>) ∅ empty_cluster []
  [of_unix 1767225600] []) new_limiter new_limiter 0 0 [] [] fresh_memory.
Abbreviation delete_unacknowledged := (deleteProject (codec := sample_codec) (addresses := Api.addresses) (at_ := Api.api_text) (pq := Api.queries)
  (bodies := unacknowledged) Api.server Api.rand).
End Deleting.

#[export] Instance Api_queries_quiet : PgQueriesLaws Api.queries.
Proof. split; [intros * [= <- <-]; by split..|]. split; intros; intros w; reflexivity. Qed.

(** The right name with an acknowledgement is accepted; a wrong one changes
    nothing, nor does the right one with neither acknowledgement nor backup. *)
Lemma deletion_is_confirmed_witness :
  match (Deleting.delete (Deleting.request (p_Name example_project)) Deleting.start).1 with Err x => rs_Status x | Ok _ => 0 end = 202 ∧
  match (Deleting.delete (Deleting.request "other") Deleting.start).1 with Err x => rs_Status x | Ok _ => 0 end = 400 ∧
  is_ok (ProjectByID (p_ID example_project) (w_db (sv_world (Deleting.delete (Deleting.request "other") Deleting.start).2))) = true ∧
  match (Deleting.delete_unacknowledged (Deleting.request (p_Name example_project)) Deleting.unbacked).1 with Err x => rs_Status x | Ok _ => 0 end = 409 ∧
  is_ok (ProjectByID (p_ID example_project) (w_db (sv_world
    (Deleting.delete_unacknowledged (Deleting.request (p_Name example_project)) Deleting.unbacked).2))) = true.
Proof.
  split; [vm_compute; reflexivity|]. split; [vm_compute; reflexivity|]. split; [|split; [vm_compute; reflexivity|]].
  - destruct (Deleting.delete (Deleting.request "other") Deleting.start) as [response st'] eqn:E.
    apply deletion_is_confirmed in E as (_ & _ & H). cbn [snd].
    destruct (H (p_ID example_project) (example_project <| p_Stage := "ready" |>) eq_refl) as [->|(_ & _ & _ & _ & in_ & Hin & Hn & _)]; [done|].
    injection Hin as <-. discriminate Hn.
  - destruct (Deleting.delete_unacknowledged (Deleting.request (p_Name example_project)) Deleting.unbacked) as [response st'] eqn:E.
    apply deletion_is_confirmed in E as (_ & _ & H). cbn [snd].
    destruct (H (p_ID example_project) (example_project <| p_Stage := "ready" |>) eq_refl) as [->|(_ & _ & _ & _ & in_ & Hin & _ & Hr)]; [done|].
    injection Hin as <-. destruct (Hr eq_refl) as [?|(settings & t & [<-|[]] & _ & Hb)]; [done|].
    destruct Hb as [Hb|(p & row & _ & _ & [] & _)]. vm_compute in Hb. discriminate Hb.
Defined.

(** ** Storage settings *)

(** A setting read back after it was set, and one that was not. *)
Lemma Setting_set k v now d : Setting k (SetSetting k v now d) = v.
Proof. unfold Setting, SetSetting. cbn [db_settings upd]. by rewrite lookup_insert_eq. Qed.

Section storage_settings.
Context {am : Ambient} {network : Network} {codec : Codec} {at_ : ApiText} {bodies : BackupBodies} (s : HttpServer)
  (versioning_of : Settings → versioning_answer).

(** The provider says that the bucket keeps deleted objects, or cannot say and
    the administrator vouches for it. *)
Definition protected_bucket (in_ : Settings) : Prop :=
  Protection (versioning_of in_) = Ok VersioningEnabled ∨
  Protection (versioning_of in_) = Ok VersioningUnsupported ∧ s_BucketProtection in_ = ProtectionAcknowledged.

(** Anything stored under the setting after the request was there before, or
    describes a valid, protected store that a signed-in request asked for. *)
Definition saves_only_protected (r : Request) (d0 : DB) (b : World.bucket) (p : Cluster) : hpost void := λ _ d' b' p',
  b' = b ∧ p' = p ∧
  (Setting StorageSetting d' = Setting StorageSetting d0 ∨
   ∃ in_, Setting StorageSetting d' = vault_Seal ("setting:" +:+ StorageSetting) (marshal_Settings in_) ∧
     has_session s r d0 ∧ Settings_Validate in_ = Ok tt ∧ ∃ asked, New asked = Ok asked ∧ protected_bucket asked ∧
     in_ = asked <| s_ProtectionState := s_ProtectionState in_ |> <| s_ProtectionCheckedAt := s_ProtectionCheckedAt in_ |>).

Lemma untouched_saves r d b p x : saves_only_protected r d b p x d b p.
Proof. split; [done|]. split; [done|]. by left. Qed.

Lemma acknowledged_or_versioned in_ : Settings_Validate in_ = Ok tt →
  s_BucketProtection in_ = ProtectionVersioning ∨ s_BucketProtection in_ = ProtectionAcknowledged.
Proof.
  unfold Settings_Validate. destruct (url_Parse _) as [u|]; [|done]. destruct (_ || _); [done|].
  match goal with |- rbind ?m _ = _ → _ => destruct m; [|done] end. cbn [rbind].
  case_bool_decide as E1; [by left|]. case_bool_decide as E2; [by right|]. done.
Qed.

Lemma wp_checkProtection in_ (Q : Wp.post string) d b p :
  (∀ state, New in_ = Ok in_ → Settings_Validate in_ = Ok tt → protected_bucket in_ → Q (Ok state) d b p) →
  (∀ e, Q (Err e) d b p) → wp (checkProtection versioning_of in_) Q d b p.
Proof.
  intros HQ He. unfold checkProtection. apply wp_bind, wp_lift.
  destruct (New in_) as [c|e] eqn:En; [|apply He].
  assert (c = in_ ∧ Settings_Validate in_ = Ok tt) as [-> Hv].
  { unfold New in En. destruct (Settings_Validate in_) as [[]|]; [|done]. cbn in En. destruct (minio_New in_); [|done].
    by injection En as <-. }
  apply wp_bind. unfold ClientProtection. apply (wp_call_read (λ _ _ _, match Protection (versioning_of in_) with Ok x => Ok x | Err _ => Err Unavailable end)); [|done].
  destruct (Protection (versioning_of in_)) as [state|e] eqn:Ep; [|apply He].
  destruct (bool_decide (state = VersioningDisabled)) eqn:E1; [by apply wp_throw|]. apply bool_decide_eq_false in E1.
  destruct (bool_decide (state = VersioningUnsupported)) eqn:E2; cbn [andb].
  - apply bool_decide_eq_true in E2 as ->. case_bool_decide as E3; [by apply wp_throw|]. apply wp_ret, HQ; [done|done|]. right. split; [done|].
    by apply acknowledged_or_versioned in Hv as [?|?].
  - apply wp_ret, HQ; [done|done|]. left. apply bool_decide_eq_false in E2.
    destruct (versioning_of in_) as [[]|code|]; cbn in Ep |- *; [done|congruence| |done]. destruct (_ || _); congruence.
Qed.

Lemma hwp_http_audit action target detail (Q : hpost unit) d b p :
  (∀ d', db_settings d' = db_settings d → Q (Ok tt) d' b p) → hwp (http_audit action target detail) Q d b p.
Proof.
  intros HQ. unfold http_audit. apply hwp_bind, hwp_auditEntry. intros entry. apply hwp_bind, hwp_update. intros x d' Hd.
  apply hwp_ret, HQ. by destruct Hd as [->| ->].
Qed.

Lemma putStorage_protected r d b p : hwp (putStorage s versioning_of r) (saves_only_protected r d b p) d b p.
Proof.
  unfold putStorage. apply hwp_bind, hwp_authorize; [|intros e _; apply untouched_saves]. intros a Ha.
  apply hwp_bind. unfold jobsReady. destruct (negb (s_Jobs s)); [apply hwp_failure; intros; apply untouched_saves|]. apply hwp_ret.
  apply hwp_bind, hwp_decode; [|intros e _; apply untouched_saves]. intros body Hbody. cbv zeta.
  apply hwp_bind, hwp_StorageSettings. intros existing _. set (asked := match existing with Ok _ => _ | Err _ => _ end).
  destruct (Settings_Validate asked) as [[]|e] eqn:Ev; [|apply hwp_failure; intros; apply untouched_saves].
  apply hwp_bind, hwp_run, wp_checkProtection; [|intros e; apply hwp_failure; intros; apply untouched_saves].
  intros state Hnew _ Hprot. apply hwp_bind, hwp_now. intros t. cbn beta iota.
  set (saved := asked <| s_ProtectionState := state |> <| s_ProtectionCheckedAt := unix t |>).
  assert (∀ y d1, (d1 = d ∨ Settings_Validate saved = Ok tt ∧
      Setting StorageSetting d1 = vault_Seal ("setting:" +:+ StorageSetting) (marshal_Settings saved)) → saves_only_protected r d b p y d1 b p) as Hend.
  { intros y d1 [->|[Hv Hd1]]; [apply untouched_saves|]. split; [done|]. split; [done|]. right. exists saved.
    split; [done|]. split; [by eapply authorized_session|]. split; [done|]. by exists asked. }
  apply hwp_bind, hwp_run. unfold SaveStorageSettings. apply wp_bind, wp_lift.
  destruct (Settings_Validate saved) as [[]|e] eqn:Es; [|apply hwp_failure; intros; apply Hend; by left].
  apply wp_bind, wp_now. intros t2. apply wp_db_write.
  - apply hwp_bind, hwp_http_audit. intros d2 Hd2. apply hwp_write. intros. apply Hend. right. split; [done|].
    unfold Setting. rewrite Hd2. apply Setting_set.
  - intros e d2 Hd2. apply hwp_metadata. intros. apply Hend. destruct Hd2 as [->| ->]; [by left|right; split; [done|apply Setting_set]].
Qed.

End storage_settings.

(** C29. Backups are only ever sent to a bucket that keeps deleted objects.
    Whatever fails while storage settings are saved, the bucket and PostgreSQL
    are not touched, and the stored settings are as before or describe a store
    that passed validation, that the S3 library accepts and whose provider
    just said that versioning is on, or cannot say and the administrator
    acknowledged another protection; a bucket with versioning off is refused.
    Only a request with a live session changes them. *)
Theorem stored_bucket_is_protected {network : Network} {codec : Codec} {at_ : ApiText} {bodies : BackupBodies} s versioning_of r st response st' :
  putStorage s versioning_of r st = (response, st') →
  saves_only_protected (am := readings_of (sv_world st)) s versioning_of r (w_db (sv_world st)) (w_bucket (sv_world st)) (w_pg (sv_world st)) response
    (w_db (sv_world st')) (w_bucket (sv_world st')) (w_pg (sv_world st')).
Proof. intros E. exact (hwp_run_timed _ _ _ _ _ (putStorage_protected s versioning_of r _ _ _) E). Qed.

Module Saving.
Definition asked : Settings := example_settings <| s_BucketProtection := ProtectionVersioning |>.
Definition bodies : BackupBodies := {| parse_settings _ := Ok asked; parse_policy p _ := Ok p; parse_restore _ := Err BadValue |}.
Definition put (versioned : bool) : res Response void * Srv :=
  putStorage (network := Api.network) (codec := sample_codec) (at_ := Api.api_text) (bodies := bodies) Api.server
    (λ _, VersioningConfig versioned) (Deleting.request "") Deleting.start.
Definition status_of (x : res Response void * Srv) : Z := match x.1 with Err e => rs_Status e | Ok _ => 0 end.
End Saving.

Lemma stored_bucket_is_protected_witness :
  Saving.status_of (Saving.put true) = 200 ∧ Saving.status_of (Saving.put false) = 400 ∧
  Setting StorageSetting (w_db (sv_world (Saving.put false).2)) = Setting StorageSetting Deleting.db.
Proof.
  split; [vm_compute; reflexivity|]. split; [vm_compute; reflexivity|].
  destruct (stored_bucket_is_protected (network := Api.network) (codec := sample_codec) (at_ := Api.api_text) (bodies := Saving.bodies)
    Api.server (λ _, VersioningConfig false) (Deleting.request "") Deleting.start (Saving.put false).1 (Saving.put false).2)
    as (_ & _ & [H|(in_ & _ & _ & _ & asked & _ & [Hp|[Hp _]] & _)]); [|exact H|discriminate Hp|discriminate Hp].
  unfold Saving.put. by destruct (putStorage _ _ _ _).
Defined.
