(* ===== verification/Startup.v ===== *)
(** * Start-up ([cmd/pgfy/main.go], [internal/config], [postgres.Health], [store.Open])

    One program serves the dashboard and the host's tools: [run] looks at its
    arguments, reads the configuration, opens management storage and either
    does one command or puts the server together.  It runs on a [Machine]: the
    files, what the database file holds, and what was printed.

    Outside code is the class [Outside]: the environment, JSON, SQLite's
    pragmas and migrations, the key file, the connection pools, the versions of
    the bundled tools.  Serving itself is the plan [run] returns: the server,
    the alert engine and the loops it starts, each modelled in a file of its
    own. *)

From S2P Require Import Prelude GoStrings GoTime Netip IP Storage Schema Security BackupStore World Worker Postgres HostStatus Webhook Alerts Http AuthStore Files Snapshots.

(** ** Configuration *)

(** One label of the pattern: letters, digits and inner hyphens, 63 at most. *)
Definition label_char (a : ascii) : bool := is_lower a || is_digit a || bool_decide (a = "-"%char).
Definition first_char (P : ascii → bool) (s : string) : bool := match s with "" => false | String a _ => P a end.
Definition edge_char (a : ascii) : bool := is_lower a || is_digit a.
Definition hostname_label (s : string) : bool :=
  first_char edge_char s && first_char edge_char (srev s) && sforall label_char s && (slen s <=? 63)%nat.
Definition hostname_matches (s : string) : bool :=
  let labels := split_on "."%char s in
  (2 <=? length labels)%nat && forallb hostname_label labels.

Section config.
Context {network : Network}.

Definition Installation_Validate (c : Installation) : res string unit :=
  match url_Parse (in_Origin c) with
  | None => Err "invalid installation configuration"
  | Some u =>
      if u_User u || negb (bool_decide (u_RawQuery u = "")) || negb (bool_decide (u_Fragment u = "")) ||
         negb (bool_decide (u_Path u = "")) || bool_decide (in_ID c = "") || bool_decide (in_Generation c = "")
      then Err "invalid installation configuration"
      else if bool_decide (in_Mode c = "https") && hostname_matches (in_Hostname c) && (slen (in_Hostname c) <=? 253)%nat &&
              bool_decide (u_Scheme u = "https") && bool_decide (u_Host u = in_Hostname c) then Ok tt
      else if bool_decide (in_Mode c = "tunnel") && bool_decide (in_Hostname c = "") && bool_decide (in_Origin c = "http://127.0.0.1:8080") then Ok tt
      else Err "invalid access mode or origin"
  end.
End config.

(** ** The health probe *)

(** [probe] answers the server's version and the identity it was initialized
    with; [id] is absent when no pool could be opened ([h == nil]). *)
Definition Health_Check (probe : M (string * string)) (id : option string) : M string :=
  match id with
  | None => throw (World.Message "postgres unavailable")
  | Some ID =>
      probe ≫= λ row,
      if negb (bool_decide (row.2 = ID)) then throw (World.Message "postgres installation identity mismatch")
      else if negb (has_prefix row.1 "18.6 ") && negb (bool_decide (row.1 = "18.6")) then throw (World.Message "unexpected postgres version")
      else mret row.1
  end.

(** ** The machine *)

Record Machine := mkMachine { mc_files : Fs; mc_db : DB; mc_out : list string }.
#[export] Instance eta_Machine : Eta Machine := λ m, mkMachine (mc_files m) (mc_db m) (mc_out m).

(** A call to the store fails on its own terms or because storage does. *)
Inductive store_failure := Refusal (e : store_error) | Storage.

Inductive run_error := Exit (text : string) | FileError (e : fs_error) | StoreFailed (e : store_failure).

Definition R (A : Type) : Type := Machine → res run_error A * Machine.
#[export] Instance R_ret : MRet R := λ A a m, (Ok a, m).
#[export] Instance R_bind : MBind R := λ A B k x m,
  match x m with
  | (Ok a, m) => k a m
  | (Err e, m) => (Err e, m)
  end.
Definition exit {A} (text : string) : R A := λ m, (Err (Exit text), m).
Definition give_up_with {A} (e : run_error) : R A := λ m, (Err e, m).
Definition println (text : string) : R unit := λ m, (Ok tt, m <| mc_out := mc_out m ++ [text] |>).

(** File calls, their error for the caller to look at. *)
Definition on_files {A} (x : F A) : R (res fs_error A) := λ m, let (r, fs) := x (mc_files m) in (Ok r, m <| mc_files := fs |>).
Definition files_only (x : F unit) : R unit :=
  on_files x ≫= λ r, match r with Ok _ => mret tt | Err e => give_up_with (FileError e) end.

(** The store as it was opened. *)
Definition set_db (db : DB) : R unit := λ m, (Ok tt, m <| mc_db := db |>).

(** A statement or transaction on the open store, under the same schedule. *)
Definition on_store {A} (f : DB → res store_error A * DB) : R (res store_failure A) := λ m,
  let work m := let (r, db) := f (mc_db m) in
    (match r with Ok a => Ok a | Err e => Err (Refusal e) end, m <| mc_db := db |>) in
  match fs_faults (mc_files m) with
  | [] => let (r, m) := work m in (Ok r, m)
  | o :: os =>
      let m := m <| mc_files := (mc_files m) <| fs_faults := os |> |> in
      match o with
      | Works => let (r, m) := work m in (Ok r, m)
      | Fails => (Ok (Err Storage), m)
      | Torn _ => (Ok (Err Storage), (work m).2)
      end
  end.

(** ** Outside *)

Class Outside := {
  build_version : string; build_commit : string; go_version : string;
  getenv : string → string;
  health_get : string → option Z; (* the status of [http://127.0.0.1:3000/health/…] *)
  unmarshal_installation : string → option Installation;
  sq_exec : string → string → F unit; (* a statement on the database at a path *)
  sq_migrate : string → F DB; (* the migrations of [Migrate], and what the file then holds *)
  new_token : string; (* [security.Token] *)
  now_time : time;
  key_file : string → option KeyFile;
  host_files : World → HostFiles;
  pool_opens : string → bool; (* [pgxpool.NewWithConfig] after [ParseConfig] *)
  pg_probe : M (string * string);
  tool_output : string → option string; (* [tool --version] *)
  listens : bool; (* [ListenAndServe] ends with [http.ErrServerClosed] *)
}.

Section startup.
Context {network : Network} {codec : Codec} {sv : Server} {sq : Sqlite} {out : Outside}.
Context (glob_dirs : string → Fs → list string).

(** [config.Env] *)
Definition Env (name fallback : string) : string := if bool_decide (getenv name = "") then fallback else getenv name.

(** [config.Load] *)
Definition Load (path : string) : F (res string Installation) :=
  ReadFile path ≫= λ b,
  match unmarshal_installation b with
  | None => mret (Err "invalid JSON")
  | Some c => mret (let! _ := Installation_Validate c in Ok c)
  end.

(** ** Opening *)

Definition closing_on_error {A} (path : string) (x : F A) : F A := λ fs,
  match x fs with (Err e, fs) => (Err e, sq_close path fs) | r => r end.
Definition pragmas : list string :=
  ["PRAGMA journal_mode=WAL"; "PRAGMA foreign_keys=ON"; "PRAGMA busy_timeout=5000"; "PRAGMA synchronous=FULL"].
(** [store.Open] *)
Definition Open (path : string) : F DB :=
  MkdirAll (path_dir path) ≫= λ _,
  closing_on_error path (
    for_files (sq_exec path) pragmas ≫= λ _,
    sq_migrate path ≫= λ db,
    Chmod path ≫= λ _,
    mret db).

(** [postgres.Open] and [postgres.OpenManagement]: a password and a pool. *)
Definition health_config : string := "host=postgres port=5432 user=pgfy_health dbname=pgfy_system sslmode=disable connect_timeout=3".
Definition management_config : string := "host=postgres port=5432 user=pgfy_mgmt dbname=pgfy_system sslmode=disable connect_timeout=3".
Definition Health_Open (passwordFile id : string) : F string :=
  ReadFile passwordFile ≫= λ b,
  if pool_opens (health_config +:+ " password=" +:+ TrimSpace b) then mret id else fail (Text "the pool cannot be opened").
Definition OpenManagement (passwordFile : string) : F string :=
  ReadFile passwordFile ≫= λ b,
  let password := TrimSpace b in
  if pool_opens (management_config +:+ " password=" +:+ password) then mret password else fail (Text "the pool cannot be opened").

(** [s.DB.Close()] *)
Definition close_db (dbPath : string) : R unit := λ m, (Ok tt, m <| mc_files := sq_close dbPath (mc_files m) |>).

(** Storage as the command may use it: [true] when it is open and bound to
    this installation. *)
Definition open_storage (command dbPath id : string) : R bool :=
  (if bool_decide (command = "initialize-store") then
     on_files (CreateNew dbPath) ≫= λ r,
     match r with
     | Err _ => exit "metadata already exists or cannot be initialized; inspect it on the host"
     | Ok _ => mret true
     end
   else
     on_files (StatSize dbPath) ≫= λ r, mret (match r with Ok size => negb (size =? 0) | Err _ => false end)) ≫= λ there : bool,
  if negb there then mret false
  else
    on_files (Open dbPath) ≫= λ r,
    match r with
    | Err _ => mret false
    | Ok db =>
        set_db db ≫= λ _,
        on_store (Bind id) ≫= λ r,
        match r with
        | Ok _ => mret true
        | Err _ => close_db dbPath ≫= λ _, mret false
        end
    end.

(** [if s != nil { defer s.DB.Close() }] *)
Definition closing {A} (s : bool) (dbPath : string) (x : R A) : R A := λ m,
  let (r, m) := x m in (r, if s then (close_db dbPath m).2 else m).

(** ** Host commands *)

Definition usage : string := "usage: pgfy [serve|version|health [ready]|setup-token|initialize-store|reset-admin|maintenance on|off|status|jobs running|store-snapshot <path>|store-restore [--check] <path>]".

Definition returns {A} (r : res store_failure A) (k : A → R unit) : R unit :=
  match r with Ok a => k a | Err e => give_up_with (StoreFailed e) end.

Definition hostCommand (command : string) (args : list string) : R unit :=
  match args with
  | [arg] =>
      let line := command +:+ " " +:+ arg in
      if bool_decide (line = "maintenance on") || bool_decide (line = "maintenance off") then
        on_store (λ db, (Ok tt, SetMaintenance (bool_decide (arg = "on")) db)) ≫= λ r, returns r (λ _, mret tt)
      else if bool_decide (line = "maintenance status") then
        on_store (λ db, (Ok (maintenance db), db)) ≫= λ r, returns r (λ on : bool, println (if on then "on" else "off"))
      else if bool_decide (line = "jobs running") then
        on_store (λ db, (Ok (RunningJobs db), db)) ≫= λ r, returns r (λ n, println (decimal n))
      else exit usage
  | _ => exit usage
  end.

Definition storeFile (command : string) (args : list string) (dbPath : string) : R unit :=
  let check := (length args =? 2)%nat && bool_decide (head args = Some "--check") in
  if negb (length args =? 1)%nat && negb check then exit usage
  else
    let path := List.last args "" in
    if bool_decide (command = "store-snapshot") && negb check then files_only (Snapshot dbPath path)
    else if bool_decide (command = "store-restore") && check then files_only (CheckSnapshot path)
    else if bool_decide (command = "store-restore") then files_only (Restore path dbPath)
    else exit usage.

(** One pass of the loop of [dailyCopies] per wake-up: a minute after the
    start, then every hour.  Failures are logged. *)
Definition copies_dir (dbPath : string) : string := path_join [path_dir dbPath; "daily"].
Definition dailyCopies (dbPath : string) (wakes : list (time * DB)) : F unit :=
  foldr (λ (wake : time * DB) rest,
    try (DailyCopy glob_dirs wake.2 dbPath (copies_dir dbPath) wake.1) ≫= λ _, rest) (mret tt) wakes.

(** ** Serving *)

(** The loops that run beside the server. *)
Inductive loop := ProvisionerRun | WorkerRun | AlertRun | CopyRun.

Record Plan := mkPlan {
  pl_Server : HttpServer;
  pl_Versions : list (string * string);
  pl_Health : M string; (* what [/health/ready] and the alerts ask PostgreSQL *)
  pl_Alerts : option EngineConfig;
  pl_Loops : list loop }.

(** What the alert engine asks the worker about backups. *)
Definition backups_callback : M (option Backups) :=
  attempt StorageSettings ≫= λ r,
  match r with
  | Err (World.Message text) =>
      mret (if bool_decide (text = "backup storage is not configured") then Some (mkBackups false "" 0) else None)
  | Err _ => mret None
  | Ok settings =>
      let target := Target settings in
      attempt (db_read (ReadStorageTarget target)) ≫= λ state,
      attempt (db_read ReadBackupPolicy) ≫= λ policy,
      mret (match state, policy with
            | Ok state, Ok policy => if st_ReconciledAt state =? 0 then None else Some (mkBackups true target (Interval policy))
            | _, _ => None
            end)
  end.

Definition tools : list string := ["psql"; "pg_dump"; "pg_restore"].
Definition tool_versions : list (string * string) :=
  map (λ tool, (tool, match tool_output tool with Some text => TrimSpace text | None => "unavailable" end)) tools.
Definition versions : list (string * string) :=
  [("application", build_version); ("commit", build_commit); ("go", go_version)] ++ tool_versions.

Definition alerter (cfg : Installation) (key : list Z) (pg : M string) (s mgmt : bool) : option EngineConfig :=
  if s then
    Some (mkEngineConfig key (in_ID cfg) (in_Origin cfg) (in_Mode cfg) build_version host_files
      (Some pg) (if mgmt then Some ConnectionBudget else None) (if mgmt then Some backups_callback else None))
  else None.

Definition loops (s mgmt : bool) : list loop :=
  (if mgmt then [ProvisionerRun; WorkerRun] else []) ++ (if s then [AlertRun; CopyRun] else []).

Definition trusted_proxy : R (option Prefix) :=
  let value := getenv "PGFY_TRUSTED_PROXY" in
  if bool_decide (value = "") then mret None
  else match ParsePrefix value with Some p => mret (Some p) | None => exit "invalid trusted proxy CIDR" end.

Definition serve (cfg : Installation) (s : bool) : R Plan :=
  match LoadVault (key_file (Env "PGFY_KEY_FILE" "/run/secrets/encryption_key")) with
  | Err _ => exit "installation encryption key is missing or insecure"
  | Ok key =>
      on_files (Health_Open (Env "PGFY_HEALTH_PASSWORD_FILE" "/run/secrets/health_password") (in_ID cfg)) ≫= λ pg,
      let check := Health_Check pg_probe (match pg with Ok id => Some id | Err _ => None end) in
      (if s then on_files (OpenManagement (Env "PGFY_MANAGEMENT_PASSWORD_FILE" "/run/secrets/management_password")) ≫= λ r, mret (is_ok r)
       else mret false) ≫= λ mgmt,
      trusted_proxy ≫= λ proxy,
      let api := mkHttpServer cfg key proxy s mgmt mgmt mgmt s in
      let plan := mkPlan api versions check (alerter cfg key check s mgmt) (loops s mgmt) in
      if listens then mret plan else exit "HTTP server failed"
  end.

(** ** The program *)

Inductive done := Finished | Served (p : Plan).

Definition healthCommand (args : list string) : R unit :=
  let route := if bool_decide (args !! 2%nat = Some "ready") then "ready" else "live" in
  match health_get ("http://127.0.0.1:3000/health/" +:+ route) with
  | None => exit "application health check failed"
  | Some status => if status =? 200 then mret tt else exit "application is not ready"
  end.

(** The commands that need storage, and the server, which runs without. *)
Definition dispatch (command : string) (args : list string) (cfg : Installation) (s : bool) : R done :=
  if bool_decide (command = "initialize-store") then
    if s then mret Finished else exit "metadata initialization failed; inspect state before retrying"
  else if bool_decide (command = "setup-token") then
    if negb s then exit "management storage unavailable"
    else
      on_store (NewSetupToken new_token now_time) ≫= λ r,
      match r with
      | Err e => give_up_with (StoreFailed e)
      | Ok token => println token ≫= λ _, mret Finished
      end
  else if bool_decide (command = "reset-admin") then
    if negb s then exit "management storage unavailable"
    else
      on_store (NewResetToken new_token now_time) ≫= λ r,
      match r with
      | Err (Refusal ErrSetup) => exit "no administrator exists yet; use setup-token"
      | Err _ => exit "management storage unavailable"
      | Ok token => println token ≫= λ _, mret Finished
      end
  else if bool_decide (command = "maintenance") || bool_decide (command = "jobs") then
    if negb s then exit "management storage unavailable"
    else hostCommand command (drop 2 args) ≫= λ _, mret Finished
  else if negb (bool_decide (command = "serve")) then exit usage
  else serve cfg s ≫= λ p, mret (Served p).

Definition run (args : list string) : R done :=
  let command := default "serve" (args !! 1%nat) in
  if bool_decide (command = "version") then
    println ("pgfy " +:+ build_version +:+ " (" +:+ build_commit +:+ ")") ≫= λ _, mret Finished
  else if bool_decide (command = "health") then healthCommand args ≫= λ _, mret Finished
  else
    let dbPath := Env "PGFY_DB" "/data/pgfy.db" in
    if bool_decide (command = "store-snapshot") || bool_decide (command = "store-restore") then
      storeFile command (drop 2 args) dbPath ≫= λ _, mret Finished
    else
      on_files (Load (Env "PGFY_CONFIG" "/etc/pgfy/install.json")) ≫= λ cfg,
      match cfg with
      | Ok (Ok cfg) =>
          open_storage command dbPath (in_ID cfg) ≫= λ s,
          closing s dbPath (dispatch command args cfg s)
      | _ => exit "invalid or missing installation configuration"
      end.
End startup.

(** ** What commands do to a machine *)

(** Computations that leave files and storage as they are and print nothing. *)
Definition unchanged (m m' : Machine) : Prop := quiet (mc_files m) (mc_files m') ∧ mc_db m' = mc_db m ∧ mc_out m' = mc_out m.
Definition reads {A} (x : R A) : Prop := ∀ m, unchanged m (x m).2.

Lemma quiet_trans fs fs1 fs2 : quiet fs fs1 → quiet fs1 fs2 → quiet fs fs2.
Proof. unfold quiet. intros -> ->. done. Qed.
Lemma unchanged_refl m : unchanged m m.
Proof. split; [apply quiet_refl|done]. Qed.
Lemma unchanged_trans m m1 m2 : unchanged m m1 → unchanged m1 m2 → unchanged m m2.
Proof. intros (Hq & Hd & Ho) (Hq' & Hd' & Ho'). split; [by eapply quiet_trans|]. split; congruence. Qed.

Create HintDb startup discriminated.
Section reads.
Context {A B : Type}.
Lemma reads_ret (a : A) : reads (mret a).
Proof. intros m. apply unchanged_refl. Qed.
Lemma reads_exit text : reads (exit (A:=A) text).
Proof. intros m. apply unchanged_refl. Qed.
Lemma reads_error e : reads (give_up_with (A:=A) e).
Proof. intros m. apply unchanged_refl. Qed.
Lemma reads_bind (x : R A) (k : A → R B) : reads x → (∀ a, reads (k a)) → reads (x ≫= k).
Proof.
  intros Hx Hk m. unfold mbind, R_bind. specialize (Hx m). destruct (x m) as [[a|e] m1]; [|done]. cbn in Hx.
  eapply unchanged_trans; [exact Hx|apply Hk].
Qed.
Lemma reads_files (x : F A) : (∀ fs, fwp x (λ _ fs', quiet fs fs') fs) → reads (on_files x).
Proof.
  intros Hx m. specialize (Hx (mc_files m)). unfold on_files, fwp in *. destruct (x (mc_files m)) as [r fs']. by split.
Qed.
Lemma fwp_ask_quiet (q : Fs → res fs_error A) fs : fwp (os_ask q) (λ _ fs', quiet fs fs') fs.
Proof. apply os_ask_wp. auto. Qed.
Lemma fwp_quiet_bind (x : F A) (k : A → F B) fs : fwp x (λ _ fs', quiet fs fs') fs → (∀ a fs, fwp (k a) (λ _ fs', quiet fs fs') fs) →
  fwp (x ≫= k) (λ _ fs', quiet fs fs') fs.
Proof.
  intros Hx Hk. apply fwp_bind. eapply fwp_mono; [exact Hx|]. intros [a|e] fs1 H1; [|done].
  eapply fwp_mono; [apply Hk|]. intros r fs2 H2. by eapply quiet_trans.
Qed.
End reads.
#[export] Hint Resolve reads_ret reads_exit reads_error reads_bind : startup.

Section startup_facts.
Context {network : Network} {codec : Codec} {sv : Server} {sq : Sqlite} {out : Outside}.

Lemma reads_Load path : reads (on_files (Load path)).
Proof.
  apply reads_files. intros fs. unfold Load, ReadFile. apply fwp_quiet_bind; [apply fwp_ask_quiet|].
  intros b fs1. destruct (unmarshal_installation b); apply fwp_ret, quiet_refl.
Qed.
Lemma reads_Health_Open path id : reads (on_files (Health_Open path id)).
Proof.
  apply reads_files. intros fs. unfold Health_Open, ReadFile. apply fwp_quiet_bind; [apply fwp_ask_quiet|].
  intros b fs1. destruct (pool_opens _); apply quiet_refl.
Qed.
Lemma reads_OpenManagement path : reads (on_files (OpenManagement path)).
Proof.
  apply reads_files. intros fs. unfold OpenManagement, ReadFile. apply fwp_quiet_bind; [apply fwp_ask_quiet|].
  intros b fs1. cbv zeta. destruct (pool_opens _); apply quiet_refl.
Qed.
Lemma reads_serve cfg s : reads (serve cfg s).
Proof.
  unfold serve. destruct (LoadVault _) as [key|]; [|auto with startup]. apply reads_bind; [apply reads_Health_Open|]. intros pg.
  apply reads_bind; [destruct s; [apply reads_bind; [apply reads_OpenManagement|]|]; auto with startup|]. intros mgmt.
  apply reads_bind; [unfold trusted_proxy; destruct (bool_decide _); [|destruct (ParsePrefix _)]; auto with startup|].
  intros proxy. cbv zeta. destruct listens; auto with startup.
Qed.
Lemma reads_dispatch command args cfg : reads (dispatch command args cfg false).
Proof.
  unfold dispatch. repeat (destruct (bool_decide _); cbn [negb orb]; [auto with startup|]); auto with startup.
  all: apply reads_bind; [apply reads_serve|auto with startup].
Qed.

Lemma machine_bind {A B} (x : R A) (k : A → R B) m :
  (x ≫= k) m = match x m with (Ok a, m1) => k a m1 | (Err e, m1) => (Err e, m1) end.
Proof. reflexivity. Qed.

(** What a server is made of. *)
Lemma bind_ok {A B} (x : R A) (k : A → R B) m b m' : (x ≫= k) m = (Ok b, m') → ∃ a m1, x m = (Ok a, m1) ∧ k a m1 = (Ok b, m').
Proof. unfold mbind, R_bind. destruct (x m) as [[a|e] m1]; [eauto|done]. Qed.
Lemma serve_plan cfg s m p m' : serve cfg s m = (Ok p, m') →
  ∃ key proxy mgmt id, LoadVault (key_file (Env "PGFY_KEY_FILE" "/run/secrets/encryption_key")) = Ok key ∧ (mgmt = true → s = true) ∧
    p = mkPlan (mkHttpServer cfg key proxy s mgmt mgmt mgmt s) versions (Health_Check pg_probe id) (alerter cfg key (Health_Check pg_probe id) s mgmt) (loops s mgmt).
Proof.
  unfold serve. destruct (LoadVault _) as [key|]; [|done]. intros (pg & m1 & _ & E)%bind_ok. apply bind_ok in E as (mgmt & m2 & Em & E).
  apply bind_ok in E as (proxy & m3 & _ & E). cbv zeta in E. destruct listens; [|done]. injection E as <- _.
  eexists key, proxy, mgmt, _. split; [done|]. split; [|reflexivity]. destruct s; [done|]. by injection Em as <- _.
Qed.

Lemma dispatch_missing command args cfg m p m' : dispatch command args cfg false m = (Ok (Served p), m') →
  s_Store (pl_Server p) = false ∧ pl_Alerts p = None ∧ pl_Loops p = [].
Proof.
  unfold dispatch. repeat (destruct (bool_decide _); cbn [negb orb]; [done|]).
  destruct (bool_decide (command = "serve")); [|done]. cbn [negb]. intros (p' & m1 & E & E')%bind_ok. injection E' as -> _.
  apply serve_plan in E as (key & proxy & mgmt & check & _ & Hs & ->). destruct mgmt; [by specialize (Hs eq_refl)|done].
Qed.




(** The command a line of arguments asks for, and the path it works on. *)
Definition command_of (args : list string) : string := default "serve" (args !! 1%nat).
Definition storage_path : string := Env "PGFY_DB" "/data/pgfy.db".

(** Storage is opened and the command runs, or the configuration is refused. *)
Lemma run_opens args m :
  command_of args ∉ ["version"; "health"; "store-snapshot"; "store-restore"] →
  (∃ m1, unchanged m m1 ∧ ∃ text, run args m = (Err (Exit text), m1)) ∨
  ∃ cfg m1, unchanged m m1 ∧ Installation_Validate cfg = Ok tt ∧
    run args m = (open_storage (command_of args) storage_path (in_ID cfg) ≫= λ s, closing s storage_path (dispatch (command_of args) args cfg s)) m1.
Proof.
  intros Hc. rewrite !not_elem_of_cons in Hc. destruct Hc as (H1 & H2 & H3 & H4 & _).
  unfold run. fold (command_of args). rewrite !bool_decide_false by done. cbn [orb]. cbv zeta. rewrite machine_bind.
  pose proof (reads_Load (Env "PGFY_CONFIG" "/etc/pgfy/install.json") m) as Hr.
  assert (∀ r m1, on_files (Load (Env "PGFY_CONFIG" "/etc/pgfy/install.json")) m = (Ok (Ok (Ok r)), m1) → Installation_Validate r = Ok tt) as Hv.
  { intros r m1. unfold on_files, Load, mbind, F_bind. destruct (ReadFile _ _) as [[b|e] fs1]; [|done].
    destruct (unmarshal_installation b) as [c|]; [|done]. cbn. destruct (Installation_Validate c) as [[]|] eqn:E; [|done]. by intros [= <- _]. }
  destruct (on_files _ m) as [[[[cfg|e]|e]|e] m1] eqn:E; cbn in Hr; [right|left..]; [|eauto..|by unfold on_files in E; destruct (Load _ _)].
  exists cfg, m1. split; [done|]. split; [by eapply Hv|reflexivity].
Qed.






(** *** Whose storage it is *)

Definition bound (id : string) (db : DB) : Prop := db_metadata db !! "installation_id" = Some id.
(** Computations that keep the identity of the storage. *)
Definition keeps_identity {A} (x : R A) : Prop := ∀ id m, bound id (mc_db m) → bound id (mc_db (x m).2).

Lemma keeps_reads {A} (x : R A) : reads x → keeps_identity x.
Proof. intros Hx id m Hb. destruct (Hx m) as (_ & -> & _). done. Qed.
Lemma keeps_bind {A B} (x : R A) (k : A → R B) : keeps_identity x → (∀ a, keeps_identity (k a)) → keeps_identity (x ≫= k).
Proof. intros Hx Hk id m Hb. rewrite machine_bind. specialize (Hx id m Hb). destruct (x m) as [[a|e] m1]; [by apply Hk|done]. Qed.
Lemma keeps_println text : keeps_identity (println text).
Proof. intros id m Hb. exact Hb. Qed.
Lemma keeps_on_store {A} (f : DB → res store_error A * DB) : (∀ id db, bound id db → bound id (f db).2) → keeps_identity (on_store f).
Proof.
  intros Hf id m Hb. unfold on_store. pose proof (Hf id (mc_db m) Hb) as H.
  assert (∀ m0, mc_db m0 = mc_db m → bound id (mc_db ((let (r, db) := f (mc_db m0) in
    (match r with Ok a => Ok a | Err e => Err (Refusal e) end, m0 <| mc_db := db |>)).2))) as Hw.
  { intros m0 E. rewrite E. by destruct (f (mc_db m)). }
  destruct (fs_faults (mc_files m)) as [|[] os]; [specialize (Hw m eq_refl); by destruct (f (mc_db m))|..].
  - specialize (Hw m eq_refl). cbn [mc_db upd]. by destruct (f (mc_db m)).
  - exact Hb.
  - specialize (Hw m eq_refl). cbn [mc_db upd]. by destruct (f (mc_db m)).
Qed.

Lemma issue_metadata purpose h ttl max parent payload now db r : issue purpose h ttl max parent payload now db = Ok r → db_metadata r.2 = db_metadata db.
Proof. unfold issue. cbv zeta. destruct (sql_insert _ _ _ _); [|done]. cbn [rbind]. by intros [= <-]. Qed.
Lemma setup_token_identity plain now id db : bound id db → bound id (NewSetupToken plain now db).2.
Proof.
  intros Hb. unfold NewSetupToken, atomically. cbv zeta. destruct (negb _); [|exact Hb]. destruct (_ =? 0); [|exact Hb].
  destruct (issue _ _ _ _ _ _ _ _) as [r|e] eqn:E; [|exact Hb]. cbn [rbind snd]. unfold bound. rewrite (issue_metadata _ _ _ _ _ _ _ _ _ E). cbn [db_metadata upd].
  destruct (db_metadata db !! "setup_lock"); [exact Hb|]. by rewrite lookup_insert_ne.
Qed.
Lemma reset_token_identity plain now id db : bound id db → bound id (NewResetToken plain now db).2.
Proof.
  intros Hb. unfold NewResetToken, atomically. cbv zeta. destruct (adminExists db); [|exact Hb].
  destruct (issue _ _ _ _ _ _ _ _) as [r|e] eqn:E; [|exact Hb]. cbn [rbind snd]. unfold bound. rewrite (issue_metadata _ _ _ _ _ _ _ _ _ E). exact Hb.
Qed.
Lemma maintenance_identity on id db : bound id db → bound id (SetMaintenance on db).
Proof. intros Hb. unfold bound, SetMaintenance. destruct on; cbn [db_metadata upd]; [by rewrite lookup_insert_ne|by rewrite lookup_delete_ne]. Qed.

Lemma keeps_hostCommand command args : keeps_identity (hostCommand command args).
Proof.
  unfold hostCommand. destruct args as [|arg [|]]; [apply keeps_reads; auto with startup| |apply keeps_reads; auto with startup]. cbv zeta.
  destruct (_ || _); [|destruct (bool_decide _); [|destruct (bool_decide _); [|apply keeps_reads; auto with startup]]].
  - apply keeps_bind; [apply keeps_on_store; intros; by apply maintenance_identity|]. intros [a|e]; apply keeps_reads; cbn; auto with startup.
  - apply keeps_bind; [by apply keeps_on_store|]. intros [a|e]; [apply keeps_println|apply keeps_reads; cbn; auto with startup].
  - apply keeps_bind; [by apply keeps_on_store|]. intros [a|e]; [apply keeps_println|apply keeps_reads; cbn; auto with startup].
Qed.
Lemma keeps_dispatch command args cfg : keeps_identity (dispatch command args cfg true).
Proof.
  assert (∀ text, keeps_identity (println text ≫= λ _, mret Finished)) as Hp by (intros; apply keeps_bind; [apply keeps_println|intros; apply keeps_reads; auto with startup]).
  unfold dispatch. cbn [negb]. destruct (bool_decide _); [apply keeps_reads; auto with startup|].
  destruct (bool_decide _); [apply keeps_bind; [apply keeps_on_store; intros; by apply setup_token_identity|intros [a|e]; [apply Hp|apply keeps_reads; auto with startup]]|].
  destruct (bool_decide _); [apply keeps_bind; [apply keeps_on_store; intros; by apply reset_token_identity|intros [a|[[]|]]; [apply Hp|..]; apply keeps_reads; auto with startup]|].
  destruct (_ || _); [apply keeps_bind; [apply keeps_hostCommand|intros; apply keeps_reads; auto with startup]|].
  destruct (negb _); apply keeps_reads; [auto with startup|]. apply reads_bind; [apply reads_serve|auto with startup].
Qed.

Lemma Bind_binds id db u : (Bind id db).1 = Ok u → bound id (Bind id db).2.
Proof.
  unfold Bind. cbv zeta. cbn [fst snd]. set (db1 := db <| db_metadata := _ |>). unfold bound. destruct (db_metadata db1 !! "installation_id"); [|done].
  case_bool_decide as E; [|done]. by rewrite E.
Qed.
Lemma on_store_ok {A} (f : DB → res store_error A * DB) m r m' : on_store f m = (r, m') →
  mc_out m' = mc_out m ∧ ∀ a, r = Ok (Ok a) → f (mc_db m) = (Ok a, mc_db m').
Proof.
  unfold on_store. destruct (fs_faults (mc_files m)) as [|[] os]; cbn [mc_db upd];
    try (destruct (f (mc_db m)) as [[a|e] db] eqn:E; intros [= <- <-]; (split; [done|]); intros a'; [intros [= <-]; done|done]).
Qed.

(** Storage that counts as open is this installation's. *)
Lemma open_storage_bound command dbPath id m r m' : open_storage command dbPath id m = (r, m') →
  mc_out m' = mc_out m ∧ (r = Ok true → bound id (mc_db m')).
Proof.
  unfold open_storage. rewrite machine_bind. intros E.
  match type of E with context [match ?x m with _ => _ end] =>
    assert (mc_out (x m).2 = mc_out m) as Ho; [|destruct (x m) as [[there|e] m1]; cbn [snd] in Ho; [|injection E as <- <-; done]] end.
  { destruct (bool_decide _); rewrite machine_bind; unfold on_files; [destruct (CreateNew _ _) as [[] ?]|destruct (StatSize _ _) as [? ?]]; reflexivity. }
  destruct there; cbn [negb] in E; [|by injection E as <- <-]. rewrite machine_bind in E.
  unfold on_files in E at 1. destruct (Open dbPath (mc_files m1)) as [[db|e] fs2]; [|by injection E as <- <-].
  rewrite machine_bind in E. cbn [set_db] in E. rewrite machine_bind in E.
  match type of E with context [on_store (Bind id) ?x] => destruct (on_store (Bind id) x) as [r3 m3] eqn:E3; apply on_store_ok in E3 as [Ho3 Hb] end.
  cbn [mc_out mc_db upd] in Ho3, Hb. destruct r3 as [[[]|e]|e].
  - injection E as <- <-. split; [by rewrite Ho3|]. intros _. specialize (Hb tt eq_refl). pose proof (Bind_binds id db tt) as HB. rewrite Hb in HB. by apply HB.
  - rewrite machine_bind in E. injection E as <- <-. split; [cbn; by rewrite Ho3|done].
  - injection E as <- <-. split; [by rewrite Ho3|done].
Qed.

(** A command that acts: it prints, ends well, or serves from storage. *)
Definition acted (m m' : Machine) (r : res run_error done) : Prop :=
  mc_out m' ≠ mc_out m ∨ r = Ok Finished ∨ ∃ p, r = Ok (Served p) ∧ s_Store (pl_Server p) = true.

Lemma idle_dispatch command args cfg m : let (r, m') := dispatch command args cfg false m in ¬ acted m m' r.
Proof.
  pose proof (reads_dispatch command args cfg m) as Hr. destruct (dispatch command args cfg false m) as [r m'] eqn:E. cbn [snd] in Hr.
  intros [Ho|[->|(p & -> & Hp)]].
  - by destruct Hr as (_ & _ & ?).
  - revert E. unfold dispatch. repeat (destruct (bool_decide _); cbn [negb orb]; [done|]). destruct (bool_decide (command = "serve")); [|done].
    intros (p & m1 & _ & E)%bind_ok. done.
  - apply dispatch_missing in E as [E _]. congruence.
Qed.

Lemma dispatch_serves command args cfg s m p m' : dispatch command args cfg s m = (Ok (Served p), m') → ∃ m1 m2, serve cfg s m1 = (Ok p, m2).
Proof.
  assert (∀ A (x : R A) m1, (x ≫= λ _, mret Finished) m1 ≠ (Ok (Served p), m')) as Hf by (intros A x m1 (? & ? & _ & ?)%bind_ok; done).
  unfold dispatch. destruct (bool_decide _); [by destruct s|].
  destruct (bool_decide _); [destruct s; [|done]; intros (r & m1 & _ & E)%bind_ok; destruct r; [by apply Hf in E|done]|].
  destruct (bool_decide _); [destruct s; [|done]; intros (r & m1 & _ & E)%bind_ok; destruct r as [|[[]|]]; [by apply Hf in E|done..]|].
  destruct (_ || _); [destruct s; [|done]; by intros ?%Hf|]. destruct (negb _); [done|].
  intros (p' & m1 & E & E')%bind_ok. injection E' as -> _. eauto.
Qed.
Lemma dispatch_served command args cfg s m p m' : dispatch command args cfg s m = (Ok (Served p), m') → s_Config (pl_Server p) = cfg.
Proof. intros (m1 & m2 & E)%dispatch_serves. by apply serve_plan in E as (? & ? & ? & ? & _ & _ & ->). Qed.
Lemma run_serves args m p m' : run args m = (Ok (Served p), m') → ∃ cfg s m1 m2, serve cfg s m1 = (Ok p, m2).
Proof.
  destruct (decide (command_of args ∈ ["version"; "health"; "store-snapshot"; "store-restore"])) as [Hc|Hc].
  - assert (∀ A (x : R A) m1, (x ≫= λ _, mret Finished) m1 ≠ (Ok (Served p), m')) as Hf by (intros A x m1 (? & ? & _ & ?)%bind_ok; done).
    unfold run. fold (command_of args). cbv zeta. rewrite !elem_of_cons in Hc.
    destruct Hc as [->|[->|[->|[->|Hc]]]]; [by intros ?%Hf..|]. by apply not_elem_of_nil in Hc.
  - destruct (run_opens args m Hc) as [(m1 & _ & text & ->)|(cfg & m1 & _ & _ & ->)]; [done|]. intros (s & m2 & _ & E)%bind_ok.
    unfold closing in E. destruct (dispatch _ _ _ _ m2) as [r m3] eqn:Ed. injection E as -> _. apply dispatch_serves in Ed as (m4 & m5 & Ed). eauto.
Qed.

(** Commands and the server act only on this installation's own storage:
    whenever a command prints something (a setup or reset token, a status),
    ends well, or the server comes up with storage, a valid configuration was
    loaded and the storage in use is bound to the identity it names. *)
Theorem acts_on_own_storage args m r m' :
  command_of args ∉ ["version"; "health"; "store-snapshot"; "store-restore"] →
  run args m = (r, m') → acted m m' r →
  ∃ cfg, Installation_Validate cfg = Ok tt ∧ bound (in_ID cfg) (mc_db m') ∧ ∀ p, r = Ok (Served p) → s_Config (pl_Server p) = cfg.
Proof.
  intros Hc E Ha. destruct (run_opens args m Hc) as [(m1 & Hu & text & Er)|(cfg & m1 & Hu & Hv & Er)].
  { rewrite Er in E. injection E as <- <-. destruct Ha as [Ha|[Ha|(? & Ha & _)]]; [by destruct Hu as (_ & _ & ?)|done..]. }
  exists cfg. split; [done|]. rewrite Er, machine_bind in E. destruct Hu as (_ & _ & Hout). destruct (open_storage _ _ _ m1) as [r2 m2] eqn:E2.
  apply open_storage_bound in E2 as [Ho2 Hb]. rewrite Hout in Ho2. destruct r2 as [s|e].
  2: { injection E as <- <-. destruct Ha as [Ha|[Ha|(? & Ha & _)]]; congruence. }
  unfold closing in E. destruct s.
  2: { pose proof (idle_dispatch (command_of args) args cfg m2) as Hi. destruct (dispatch _ _ _ _ m2) as [r3 m3]. injection E as <- <-.
       destruct Hi. unfold acted in *. by rewrite Ho2. }
  pose proof (keeps_dispatch (command_of args) args cfg (in_ID cfg) m2 (Hb eq_refl)) as Hk.
  destruct (dispatch _ _ _ true m2) as [r3 m3] eqn:Ed. injection E as <- <-. split; [exact Hk|]. intros p ->.
  by eapply dispatch_served.
Qed.
End startup_facts.

(** ** Witnesses *)

Definition tunnel : Installation := mkInstallation "inst" "tunnel" "http://127.0.0.1:8080" "" "1" "1" "" "" "".
Definition sample_outside : Outside := {|
  build_version := "dev"; build_commit := "unknown"; go_version := "go1.25";
  getenv _ := "";
  health_get _ := Some 200;
  unmarshal_installation _ := Some tunnel;
  sq_exec _ _ := mret tt;
  sq_migrate _ := mret empty_db;
  new_token := "token";
  now_time := 1700000000 * Second;
  key_file _ := Some (mkKeyFile true 384 (Some (replicate 32 7)));
  host_files _ := mkHostFiles None None None None;
  pool_opens _ := true;
  pg_probe := mret ("18.6", "inst");
  tool_output _ := None;
  listens := true;
|}.
Definition install_files : list (string * string) := [("/etc/pgfy/install.json", "{}"); ("/run/secrets/health_password", "h"); ("/run/secrets/management_password", "m")].
Definition machine_with (files : list (string * string)) : Machine :=
  mkMachine (write_all (files ++ install_files) (empty_fs ["/"; "/data"; "/etc/pgfy"; "/run/secrets"])) empty_db [].
Abbreviation sample_run := (run (network := sample_network) (codec := sample_codec) (sv := live_server) (sq := small_sqlite) (out := sample_outside)).

(** A machine without a database, and one with the database of this installation. *)
Example commands_on_machines :
  (sample_run ["pgfy"; "setup-token"] (machine_with [])).1 = Err (Exit "management storage unavailable") ∧
  (sample_run ["pgfy"; "initialize-store"] (machine_with [])).1 = Ok Finished ∧
  mc_out (sample_run ["pgfy"; "setup-token"] (machine_with [("/data/pgfy.db", "SQLite")])).2 = ["token"] ∧
  mc_out (sample_run ["pgfy"; "maintenance"; "status"] (machine_with [("/data/pgfy.db", "SQLite")])).2 = ["off"] ∧
  mc_out (sample_run ["pgfy"; "jobs"; "running"] (machine_with [("/data/pgfy.db", "SQLite")])).2 = ["0"].
Proof. vm_compute. repeat split. Qed.


Lemma acts_on_own_storage_witness :
  let (r, m') := sample_run ["pgfy"; "setup-token"] (machine_with [("/data/pgfy.db", "SQLite")]) in
  mc_out m' = ["token"] ∧ ∃ cfg, Installation_Validate (network := sample_network) cfg = Ok tt ∧ bound (in_ID cfg) (mc_db m').
Proof.
  assert (mc_out (sample_run ["pgfy"; "setup-token"] (machine_with [("/data/pgfy.db", "SQLite")])).2 = ["token"]) as Ho by (vm_compute; reflexivity).
  destruct (sample_run ["pgfy"; "setup-token"] (machine_with [("/data/pgfy.db", "SQLite")])) as [r m'] eqn:E. split; [exact Ho|].
  destruct (acts_on_own_storage (network := sample_network) (codec := sample_codec) (sv := live_server) (sq := small_sqlite) (out := sample_outside) ["pgfy"; "setup-token"] (machine_with [("/data/pgfy.db", "SQLite")]) r m') as (cfg & Hv & Hb & _).
  - apply (bool_decide_eq_true_1 _). vm_compute. reflexivity.
  - exact E.
  - left. cbn [snd] in Ho. rewrite Ho. intros H. discriminate H.
  - exists cfg. split; assumption.
Defined.
