(* ===== verification/Loops.v ===== *)
(** * The loops beside the server

    The provisioner, the worker and the alert engine each run a loop that
    waits for a kick, a timer or the end, makes one pass and waits again
    ([Kick] and the [select] of [Run] in [internal/provision],
    [internal/jobs] and [internal/alerts]).  Kicks come from requests at any
    moment, also during a pass; the channel holds one.  The steps of loop and
    callers interleave freely; what is shown is that a kick is never lost.

    The second part closes the circle of start-up: the alert engine that
    [run] starts keeps the contract the alert protocol was proved for. *)

From S2P Require Import Prelude GoStrings GoTime Schema BackupStore Cluster World Postgres Worker Webhook Alerts AlertEngine Http Files Snapshots Startup.

(** ** Kicks *)

Record Loop := mkLoop { lp_kick : bool; (* the channel is full *) lp_busy : bool; lp_passes : nat }.
#[export] Instance eta_Loop : Eta Loop := λ l, mkLoop (lp_kick l) (lp_busy l) (lp_passes l).

(** [select { case kick <- struct{}{}: default: }] *)
Definition Kick (l : Loop) : Loop := l <| lp_kick := true |>.

Inductive action := AKick | ATaken | ATimer | AFinish.
(** [case <-kick], [case <-timer] start a pass; the pass ends. *)
Inductive loop_step : Loop → action → Loop → Prop :=
| step_kick l : loop_step l AKick (Kick l)
| step_taken l : lp_busy l = false → lp_kick l = true → loop_step l ATaken (mkLoop false true (S (lp_passes l)))
| step_timer l : lp_busy l = false → loop_step l ATimer (mkLoop (lp_kick l) true (S (lp_passes l)))
| step_finish l : lp_busy l = true → loop_step l AFinish (mkLoop (lp_kick l) false (lp_passes l)).
Inductive loop_steps : Loop → list action → Loop → Prop :=
| steps_nil l : loop_steps l [] l
| steps_cons l a l1 acts l2 : loop_step l a l1 → loop_steps l1 acts l2 → loop_steps l (a :: acts) l2.

(** A pass that starts. *)
Definition starts (a : action) : bool := match a with ATaken | ATimer => true | _ => false end.

Lemma steps_app l acts1 acts2 l' : loop_steps l (acts1 ++ acts2) l' → ∃ l1, loop_steps l acts1 l1 ∧ loop_steps l1 acts2 l'.
Proof.
  revert l. induction acts1 as [|a acts1 IH]; intros l H; cbn in *; [exists l; split; [constructor|done]|].
  inversion H as [|? ? l0 ? ? Hs Hr]; subst. destruct (IH _ Hr) as (l1 & H1 & H2). exists l1. split; [by econstructor|done].
Qed.
Lemma kick_stays l acts l' : loop_steps l acts l' → existsb starts acts = false → lp_kick l = true → lp_kick l' = true ∧ lp_passes l' = lp_passes l.
Proof.
  intros H. induction H as [l|l a l1 acts l2 Hs _ IH]; [done|]. cbn. rewrite orb_false_iff. intros [Ha Hr] Hk.
  inversion Hs; subst; try discriminate; cbn in *; destruct (IH Hr); auto.
Qed.

(** A kick is never lost: however steps interleave, after a kick a pass has
    started since, or the kick is still in the channel; then, as soon as no
    pass is running, the loop can take it.  The caller never waits. *)
Theorem kick_is_served l acts acts' l' :
  loop_steps l (acts ++ AKick :: acts') l' →
  existsb starts acts' = true ∨
  (lp_kick l' = true ∧ (lp_busy l' = false → ∃ l2, loop_step l' ATaken l2) ∧
   (lp_busy l' = true → ∃ l1 l2, loop_step l' AFinish l1 ∧ loop_step l1 ATaken l2)).
Proof.
  intros (l1 & _ & H)%steps_app. inversion H as [|? ? l2 ? ? Hs Hr]; subst. inversion Hs; subst.
  destruct (existsb starts acts') eqn:E; [by left|right]. destruct (kick_stays _ _ _ Hr E eq_refl) as [Hk _].
  split; [done|]. split; intros Hb; [eexists; by constructor|]. do 2 eexists. split; [by constructor|]. by constructor.
Qed.

(** ** The engine the program starts *)

(** [Run]: one tick per wake-up, by the timer or by a kick; the first kick is
    the engine's own. *)
Definition AlertLoop {codec : Codec} {ac : AlertCodec} {network_ : Network} {transport : Transport} (c : EngineConfig)
  (ParseRFC3339 : string → option time) (wakes : nat) : E unit :=
  Nat.iter wakes (λ rest, Tick c ParseRFC3339 ≫= λ _, rest) (mret tt).

Section wiring.
Abbreviation calm_call := AlertEngine.quiet.

Lemma calm_return {A} (a : A) : calm_call (mret a).
Proof. done. Qed.
Lemma calm_throw {A} e : calm_call (throw (A:=A) e).
Proof. done. Qed.
Lemma calm_lift {A} (r : res werror A) : calm_call (lift r).
Proof. done. Qed.
Lemma calm_then {A B} (x : M A) (k : A → M B) : calm_call x → (∀ a, calm_call (k a)) → calm_call (x ≫= k).
Proof.
  intros Hx Hk w. unfold mbind, M_bind. destruct (Hx w) as [Hd Hf]. destruct (x w) as [[a|e] w1]; [|done].
  destruct (Hk a w1) as [Hd' Hf']. cbn in *. split; [congruence|auto].
Qed.
Lemma calm_attempt {A} (x : M A) : calm_call x → calm_call (attempt x).
Proof. intros Hx w. unfold attempt. specialize (Hx w). by destruct (x w). Qed.
Lemma calm_db_read {A} (f : DB → A) : calm_call (db_read f).
Proof. intros w. unfold db_read, call. destruct (w_faults w) as [|[] os] eqn:E; (split; [done|]); by rewrite ?E. Qed.
Lemma calm_ask {A} (q : Cluster → A) : calm_call (ask (Server := live_server) q).
Proof. intros w. cbn. unfold call. destruct (w_faults w) as [|[] os] eqn:E; (split; [done|]); by rewrite ?E. Qed.
#[local] Hint Resolve calm_return calm_throw calm_lift calm_then calm_attempt calm_db_read calm_ask : startup.

Lemma quiet_Health_Check probe id : calm_call probe → calm_call (Health_Check probe id).
Proof.
  intros Hp. unfold Health_Check. destruct id as [ID|]; [|auto with startup]. apply calm_then; [done|]. intros row.
  destruct (negb _); [auto with startup|]. destruct (_ && _); auto with startup.
Qed.
Lemma quiet_ConnectionBudget : calm_call (ConnectionBudget (sv := live_server)).
Proof.
  unfold ConnectionBudget. apply calm_then; [apply calm_ask|]. intros [[m su] re]. cbv zeta. apply calm_then; [apply calm_ask|]. intros rows.
  apply calm_then; [apply calm_ask|]. auto with startup.
Qed.
Lemma quiet_backups_callback {codec : Codec} : calm_call backups_callback.
Proof.
  unfold backups_callback, StorageSettings. apply calm_then.
  - apply calm_attempt, calm_then; [apply calm_db_read|]. intros sealed. destruct (bool_decide _); [auto with startup|].
    destruct (vault_Open _ _); auto with startup.
  - intros [settings|[]]; auto 10 with startup.
Qed.

(** The engine of a server that came up keeps the contract its protocol needs,
    seals with the server's key and speaks for the same installation. *)
Theorem started_engine_laws {network : Network} {codec : Codec} {sq : Sqlite} {out : Outside} args m p m' c :
  calm_call pg_probe → run (sv := live_server) args m = (Ok (Served p), m') → pl_Alerts p = Some c →
  EngineLaws c ∧ ec_Key c = s_Key (pl_Server p) ∧ ec_InstallationID c = in_ID (s_Config (pl_Server p)) ∧ In AlertRun (pl_Loops p).
Proof.
  intros Hp (cfg & s & m1 & m2 & Es)%run_serves Hc. apply serve_plan in Es as (key & proxy & mgmt & id & _ & _ & ->). cbn in Hc |- *. unfold alerter in Hc. destruct s; [|done].
  injection Hc as <-. split; [|by split_and!; [..|apply in_or_app; right; left]]. split; cbn.
  - intros probe [= <-]. by apply quiet_Health_Check.
  - destruct mgmt; [|done]. intros budget [= <-]. apply quiet_ConnectionBudget.
  - destruct mgmt; [|done]. intros backups [= <-]. apply quiet_backups_callback.
Qed.
End wiring.
