(* ===== verification/Update.v ===== *)
(** * What an update relies on

    The installer sets the maintenance flag, waits until no job is running,
    takes a snapshot of management storage and only then replaces the program;
    when the new one does not come up it puts the snapshot back.  Meanwhile the
    old program's loops keep waking up.  Here the loops of [Worker],
    [Provision] and [Alerts] run together, in any order and under any schedule
    of failures, with the flag set: PostgreSQL and the bucket stay as they are,
    and of management storage only the record of what the bucket holds is
    refreshed, so the snapshot misses nothing the program did. *)

From S2P Require Import Prelude GoStrings GoTime Storage Schema Cluster JobStore ProjectStore BackupStore Retention World Wp Reconcile Postgres Hba Worker Provision HostStatus AlertStore Webhook Alerts AlertEngine.

(** ** What may change *)

(** The cached view of the bucket: what was listed, when, and the local rows of
    backups a listing no longer shows. *)
Record cache_only (d d' : DB) : Prop := {
  co_rest : d' = d <| db_targets := db_targets d' |> <| db_prefixes := db_prefixes d' |>
                   <| db_bucket := db_bucket d' |> <| db_backups := db_backups d' |>;
  co_backups : ∀ b, In b (db_backups d') → In b (db_backups d);
}.
#[export] Instance cache_only_refl : Reflexive cache_only.
Proof. intros []. by split. Qed.
#[export] Instance cache_only_trans : Transitive cache_only.
Proof.
  intros d1 d2 d3 [H1 B1] [H2 B2]. split; [|auto]. rewrite H2, H1. by destruct d1, d2, d3.
Qed.
Lemma cache_only_flag d d' : cache_only d d' → maintenance d' = maintenance d.
Proof. intros [-> _]. by destruct d. Qed.

Lemma cache_targets d l : cache_only d (d <| db_targets := l |>).
Proof. destruct d. by split. Qed.
Lemma cache_listing d l l' : cache_only d (d <| db_bucket := l |> <| db_prefixes := l' |>).
Proof. destruct d. by split. Qed.
Lemma cache_forgets d f : cache_only d (d <| db_backups := sql_delete f (db_backups d) |>).
Proof. destruct d. split; [done|]. cbn. intros b Hb. by apply in_sql_delete in Hb as [? _]. Qed.

(** ** Computations that stand still *)

(** With the flag set, [m] leaves the bucket, the cluster and all but the cache
    alone, however its calls fail. *)
Definition still {A} (m : M A) : Prop := ∀ d b p, maintenance d = true →
  wp m (λ _ d' b' p', cache_only d d' ∧ b' = b ∧ p' = p) d b p.

Section still.
Lemma still_pure {A} (m : M A) : (∀ d b p (Q : Wp.post A), (∀ r, Q r d b p) → wp m Q d b p) → still m.
Proof. intros H d b p _. by apply H. Qed.
Lemma still_ret {A} (a : A) : still (mret a).
Proof. apply still_pure. intros; by apply wp_ret. Qed.
Lemma still_throw {A} e : still (throw e : M A).
Proof. apply still_pure. intros; by apply wp_throw. Qed.
Lemma still_lift {A} (r : res werror A) : still (lift r).
Proof. apply still_pure. intros; by apply wp_lift. Qed.
Lemma still_now : still now_.
Proof. apply still_pure. intros; by apply wp_now. Qed.
Lemma still_ctx_done : still ctx_done.
Proof. apply still_pure. intros; by apply wp_ctx_done. Qed.
Lemma still_read {A} (f : DB → A) : still (db_read f).
Proof. apply still_pure. intros; by apply wp_db_read. Qed.
Lemma still_call_read {A} (f : DB → bucket → Cluster → res werror A) :
  still (call (λ w, (f (w_db w) (w_bucket w) (w_pg w), w))).
Proof. apply still_pure. intros; by apply wp_call_read. Qed.

(** What a bound computation may assume of the first result. *)
Lemma still_bind_when {A B} (m : M A) (k : A → M B) (P : A → Prop) :
  (∀ d b p, maintenance d = true → wp m (λ r d' b' p', (cache_only d d' ∧ b' = b ∧ p' = p) ∧ ∀ a, r = Ok a → P a) d b p) →
  (∀ a, P a → still (k a)) → still (m ≫= k).
Proof.
  intros Hm Hk d b p Hd. apply wp_bind. eapply wp_mono; [by apply Hm|]. intros [a|e] d' b' p' [(Hc & -> & ->) HP]; [|done].
  eapply wp_mono; [apply (Hk a (HP a eq_refl)); by rewrite (cache_only_flag _ _ Hc)|].
  intros r d'' b'' p'' (Hc' & -> & ->). split; [by etrans|done].
Qed.
Lemma still_bind {A B} (m : M A) (k : A → M B) : still m → (∀ a, still (k a)) → still (m ≫= k).
Proof.
  intros Hm Hk. apply (still_bind_when m k (λ _, True)); [|auto]. intros d b p Hd. eapply wp_mono; [by apply Hm|]. auto.
Qed.
Lemma still_attempt {A} (m : M A) : still m → still (attempt m).
Proof. intros Hm d b p Hd. apply wp_attempt. by apply Hm. Qed.
Lemma still_write (f : DB → DB) : (∀ d, cache_only d (f d)) → still (db_write f).
Proof. intros Hf d b p _. apply wp_db_write; [by auto|]. by intros e d' [->| ->]; split_and!. Qed.
Lemma still_tx {A} (f : DB → res store_error A * DB) : (∀ d, maintenance d = true → cache_only d (f d).2) → still (db_tx f).
Proof.
  intros Hf d b p Hd. specialize (Hf d Hd). apply wp_db_tx; [intros a d' E; by rewrite E in Hf|]. by intros e d' [->| ->]; split_and!.
Qed.
Lemma still_for_each {A} (f : A → M unit) l : (∀ x, still (f x)) → still (for_each f l).
Proof. intros Hf. induction l as [|x l IH]; simpl; [apply still_ret|]. apply still_bind; auto. Qed.

(** Code behind the guard does not run. *)
Lemma still_guarded {B} (k : res werror bool → M B) : (∀ on, on ≠ Ok false → still (k on)) → still (attempt (db_read maintenance) ≫= k).
Proof.
  intros Hk. apply (still_bind_when _ k (λ on, on ≠ Ok false)); [|done]. intros d b p Hd.
  apply wp_attempt, wp_db_read; [|by intros e; split; [|by intros a [= <-]]].
  split; [done|]. intros a [= <-] [= Hf]. congruence.
Qed.
End still.

Create HintDb still.
#[export] Hint Resolve still_ret still_throw still_lift still_now still_ctx_done still_read still_bind still_attempt
  still_for_each cache_targets cache_listing cache_forgets : still.
#[export] Hint Extern 4 (still (if ?c then _ else _)) => destruct c : still.
#[export] Hint Extern 4 (still (match ?x with _ => _ end)) => destruct x : still.

(** ** The passes of each loop *)

Section passes.
Context {network : Network} {codec : Codec} {h : Host} (pv : option Provisioner) (versions : Settings → versioning_answer)
  (random : World → string) (InstallationID : string).
Abbreviation bucket_of := (λ s : Settings, client s (versions s)).

Lemma still_target target t e : still (WriteTargetReconciled target t e).
Proof. unfold WriteTargetReconciled. apply still_bind; [|intros _]; apply still_write; intros d; apply cache_targets. Qed.
Lemma still_listing target state backups t : still (db_write (ReplacePrefix target state backups t)).
Proof. apply still_write. intros d. apply cache_listing. Qed.
Lemma still_settings : still StorageSettings.
Proof. unfold StorageSettings. apply still_bind; [apply still_read|]. intros sealed. auto with still. Qed.
#[local] Hint Resolve still_target still_listing still_settings : still.

Section reconcile.
Context (s : Settings).
Abbreviation c := (client s (versions s)).

Lemma still_manifest k : still (os_Manifest (ObjectStore := c) k).
Proof.
  cbn. unfold ClientManifest. destruct (EntryFor s k); [apply (still_call_read (λ _ b _, ReadManifest s k b))|apply still_throw].
Qed.
Lemma still_list_backups dbName : still (os_ListBackups (ObjectStore := c) dbName).
Proof.
  cbn. unfold ListBackups. destruct (negb _); [apply still_throw|].
  apply (still_call_read (λ _ b _, Ok (EntriesFrom (backups_root s dbName) (objects_under (backups_root s dbName) b)))).
Qed.
Lemma still_list_databases : still (os_ListDatabases (ObjectStore := c)).
Proof.
  apply (still_call_read (λ _ b _, Ok (database_names (key s ["backups"] +:+ "/") (folders_under (key s ["backups"] +:+ "/") b)))).
Qed.
#[local] Hint Resolve still_manifest still_list_backups still_list_databases : still.

Lemma still_record_entries dbName recorded es : still (record_entries c dbName recorded es).
Proof.
  induction es as [|e es IH]; simpl; [apply still_ret|]. apply still_bind; [|auto with still].
  unfold record_entry, read_entry. auto 10 with still.
Qed.
#[local] Hint Resolve still_record_entries : still.
Lemma still_prefix target dbName : still (reconcilePrefix c target dbName).
Proof. unfold reconcilePrefix. auto 12 with still. Qed.
#[local] Hint Resolve still_prefix : still.
Lemma still_all target dbs f : still (reconcile_all c target dbs f).
Proof. revert f. induction dbs as [|n dbs IH]; intros f; simpl; auto with still. Qed.
#[local] Hint Resolve still_all : still.

Lemma still_reconcile settings : still (reconcile c InstallationID error_text settings).
Proof.
  unfold reconcile, WriteTombstones. cbv zeta. apply still_bind; [apply still_write; intros d; apply cache_targets|]. intros _.
  apply still_bind; [auto with still|]. intros [dbs|e]; [|auto 10 with still]. apply still_bind; [auto with still|]. intros t.
  apply still_bind; [auto with still|]. intros _. apply still_bind; [auto with still|]. intros [e|]; [auto 10 with still|].
  apply still_bind; [auto with still|]. intros t'. apply still_bind; [auto with still|]. intros _. apply still_bind.
  - apply still_attempt, still_tx. intros d _. apply cache_forgets.
  - intros _. apply still_guarded. intros [[]|] Hon; auto with still. done.
Qed.
End reconcile.
#[local] Hint Resolve still_reconcile : still.

(** The worker. *)
Lemma still_Reconcile : still (Reconcile bucket_of InstallationID).
Proof. unfold Reconcile. auto 10 with still. Qed.
#[local] Hint Resolve still_Reconcile : still.
Lemma still_unknown : still (reconcileIfUnknown bucket_of InstallationID).
Proof. unfold reconcileIfUnknown. auto 12 with still. Qed.
Lemma still_schedule : still (scheduleBackups random InstallationID).
Proof. apply still_guarded. intros [[]|] Hon; auto with still. done. Qed.
Lemma still_resume names : still (resumeDeletions names).
Proof.
  apply still_bind; [apply still_now|]. intros t. apply still_bind; [|auto with still]. apply still_attempt, still_tx.
  intros d Hd. unfold ResumeDeletions. by rewrite Hd.
Qed.
#[local] Hint Resolve still_unknown still_schedule still_resume : still.
Lemma still_wake names e : still (wake bucket_of random InstallationID names e).
Proof. destruct e; unfold wake; auto 10 with still. Qed.

(** With the flag set no job leaves the queue, so none runs. *)
Lemma still_drain fuel : still (drain pv bucket_of random InstallationID fuel).
Proof.
  destruct fuel as [|fuel]; [apply still_ret|]. apply still_bind; [apply still_ctx_done|]. intros []; [apply still_ret|].
  apply still_bind; [apply still_now|]. intros t.
  apply (still_bind_when _ _ (λ r, ∀ job, r ≠ Ok (Some job))); [|intros [[job|]|e] Hr; auto with still; by destruct (Hr job)].
  intros d b p Hd. apply wp_attempt.
  assert (ClaimJob t d = (None, d)) as Hc by (unfold ClaimJob; rewrite Hd; by destruct (sql_order _ _)).
  apply wp_db_tx; rewrite Hc.
  - intros a d' [= <- <-]. by split; [|intros a [= <-] job].
  - intros e d' [->| ->]; by split; [|intros a [= <-] job].
Qed.
End passes.

Lemma still_pass {sv : Server} {codec : Codec} {ac : AddressCodec} {hp : HbaPostgres} TunnelSource locked :
  still (Provision.pass TunnelSource locked).
Proof. apply still_guarded. intros [[]|] Hon; auto with still. done. Qed.

(** ** All loops together *)

(** What the loops do between two waits. *)
Inductive activity :=
| WorkerDrains (fuel : nat)
| WorkerWakes (names : Project → string) (e : event)
| ProvisionerPasses (locked : string → bool)
| AlertsTick.

Section together.
Context {network : Network} {codec : Codec} {h : Host} {sv : Server} {addresses : AddressCodec} {hp : HbaPostgres} {ac : AlertCodec}
  {transport : Transport} (pv : option Provisioner) (versions : Settings → versioning_answer) (TunnelSource : string)
  (random : World → string) (InstallationID : string) (c : EngineConfig) (ParseRFC3339 : string → option time).
Abbreviation bucket_of := (λ s : Settings, client s (versions s)).

Definition act (a : activity) : E unit :=
  match a with
  | WorkerDrains fuel => outside (drain pv bucket_of random InstallationID fuel) ≫= λ _, mret tt
  | WorkerWakes names e => outside (wake bucket_of random InstallationID names e) ≫= λ _, mret tt
  | ProvisionerPasses locked => outside (Provision.pass TunnelSource locked) ≫= λ _, mret tt
  | AlertsTick => Tick c ParseRFC3339
  end.
Fixpoint background (acts : list activity) : E unit :=
  match acts with [] => mret tt | a :: acts => act a ≫= λ _, background acts end.

(** What [x] leaves behind when the flag is set. *)
Definition rests (x : E unit) : Prop := ∀ m w, maintenance (w_db w) = true →
  let '(_, (m', w')) := x m w in
  cache_only (w_db w) (w_db w') ∧ w_bucket w' = w_bucket w ∧ w_pg w' = w_pg w ∧ me_posts m' = me_posts m.

Lemma rests_outside {A} (x : M A) : still x → rests (outside x ≫= λ _, mret tt).
Proof.
  intros Hx m w Hw. unfold mbind, E_bind, outside. destruct (x w) as [r w'] eqn:E.
  destruct (wp_run _ _ _ _ _ (Hx _ _ _ Hw) E) as (? & ? & ?). done.
Qed.
Lemma rests_Tick : rests (Tick c ParseRFC3339).
Proof.
  intros m w Hw. unfold Tick, mbind at 1, E_bind at 1, outside at 1. destruct (db_read maintenance w) as [r w'] eqn:E.
  assert (r ≠ Ok false ∧ w_db w' = w_db w ∧ w_bucket w' = w_bucket w ∧ w_pg w' = w_pg w) as (Hr & Hd & Hb & Hp).
  { refine (wp_run _ (λ r d b p, r ≠ Ok false ∧ d = w_db w ∧ b = w_bucket w ∧ p = w_pg w) _ _ _ _ E).
    apply wp_db_read; [|done]. split; [congruence|done]. }
  destruct r as [[]|e]; [|done|]; unfold rests, memory, mret, E_ret; rewrite Hd, Hb, Hp; by split_and!.
Qed.
Lemma rests_act a : rests (act a).
Proof.
  destruct a; cbn [act]; [| | |apply rests_Tick]; apply rests_outside.
  - apply still_drain.
  - apply still_wake.
  - apply still_pass.
Qed.
End together.

(** C16. During an update everything stands still.  With the maintenance flag
    set, however the wake-ups of the worker, of the provisioner and of the
    alert engine follow one another and whatever fails, the bucket and
    PostgreSQL stay as they are, no message is posted to the webhook, and of
    management storage nothing changes but the cached view of the bucket: no
    job starts, no project, password, policy, session, alert or setting is
    touched.  A snapshot taken meanwhile misses nothing. *)
Theorem update_holds_everything_still {network : Network} {codec : Codec} {h : Host} {sv : Server} {addresses : AddressCodec}
  {hp : HbaPostgres} {ac : AlertCodec} {transport : Transport} pv versions TunnelSource random InstallationID c ParseRFC3339 acts m w :
  maintenance (w_db w) = true →
  let '(_, (m', w')) := background pv versions TunnelSource random InstallationID c ParseRFC3339 acts m w in
  cache_only (w_db w) (w_db w') ∧ w_bucket w' = w_bucket w ∧ w_pg w' = w_pg w ∧ me_posts m' = me_posts m.
Proof.
  revert m w. induction acts as [|a acts IH]; intros m w Hw; [done|]. cbn [background]. unfold mbind, E_bind.
  pose proof (rests_act pv versions TunnelSource random InstallationID c ParseRFC3339 a m w Hw) as Ha.
  destruct (act _ _ _ _ _ _ _ a m w) as [u [m1 w1]]. destruct Ha as (Hc & Hb & Hp & Hm).
  specialize (IH m1 w1). rewrite (cache_only_flag _ _ Hc) in IH. specialize (IH Hw).
  destruct (background _ _ _ _ _ _ _ acts m1 w1) as [u' [m2 w2]]. destruct IH as (Hc' & Hb' & Hp' & Hm').
  split; [by etrans|]. by rewrite Hb', Hp', Hm'.
Qed.

(** ** An update in the middle of work *)

(** A project waits to be created, a backup is queued and an expired one is
    still in the bucket when the flag is set. *)
Definition busy_db : DB :=
  (SetSetting AlertWebhookSetting Run.sealed 0 (SetSetting "storage" "sealed" 0 empty_db)) <| db_projects := [new_project] |> <| db_secrets := [mkSecret "p1" sample_password None ""] |>
    <| db_policy_state := [mkPolicyState "p1" 0 0 "idle" ""] |> <| db_limits := [mkProjectLimits "p1" DefaultLimits 1 0 "" 0] |>
    <| db_policy := sample_policy |> <| db_jobs := [new_job "j1" "backup" (Some "p1") "{}" 100 true] |>.
Definition busy_world (d : DB) : World :=
  mkWorld d sample_bucket empty_cluster [] (repeat (of_unix 1767225800) 60) [].
Definition rounds : list activity :=
  [WorkerWakes p_ID ReconcileTick; WorkerDrains 3; ProvisionerPasses (λ _, false); AlertsTick].
Abbreviation run_rounds d :=
  (@background sample_network sample_codec sample_host live_server sample_addresses accepting Run.alert_codec Run.receiver
    (Some sample_provisioner) (λ _, VersioningConfig true) "" (λ _, "0123456789abcdef") "inst" Run.config (λ _, None)
    rounds fresh_memory (busy_world d)).

(** Without the flag the same wake-ups create the project, run the job, remove
    the expired backup and report; with it they only list the bucket. *)
Definition seen (x : unit * (Memory * World)) : list string * list string * nat * nat * nat :=
  let '(_, (m, w)) := x in
  (map p_Stage (db_projects (w_db w)), map j_State (db_jobs (w_db w)), size (w_bucket w), length (db_bucket (w_db w)), length (me_posts m)).
Example rounds_without_the_flag : seen (run_rounds busy_db) = (["ready"], ["failed"], 2%nat, 1%nat, 1%nat).
Proof. vm_compute. reflexivity. Qed.
Example rounds_with_the_flag : seen (run_rounds (SetMaintenance true busy_db)) = (["identity_persisted"], ["queued"], 4%nat, 2%nat, 0%nat).
Proof. vm_compute. reflexivity. Qed.

Lemma update_holds_everything_still_witness :
  let '(_, (m', w')) := run_rounds (SetMaintenance true busy_db) in
  db_jobs (w_db w') = db_jobs busy_db ∧ db_bucket (w_db w') ≠ [] ∧ w_bucket w' = sample_bucket ∧ w_pg w' = empty_cluster ∧ me_posts m' = [].
Proof.
  pose proof (@update_holds_everything_still sample_network sample_codec sample_host live_server sample_addresses accepting
    Run.alert_codec Run.receiver (Some sample_provisioner) (λ _, VersioningConfig true) "" (λ _, "0123456789abcdef") "inst" Run.config
    (λ _, None) rounds fresh_memory (busy_world (SetMaintenance true busy_db)) ltac:(reflexivity)) as H.
  pose proof rounds_with_the_flag as Hseen.
  destruct (run_rounds (SetMaintenance true busy_db)) as [u [m' w']]. destruct H as ([Hc _] & Hb & Hp & Hm).
  injection Hseen as _ _ _ Hl _. split; [by rewrite Hc|]. split; [intros E; by rewrite E in Hl|]. done.
Defined.
